(** * HiGHS: a shallow embedding of selected routines and their properties

    The development models, function by function, the parts of the
    HiGHS sources that the specification talks about:

    - [Vector] and [Instance::objval] of the QP solver
      (external/qpsolver/vector.hpp, instance.hpp);
    - [HighsPseudocost::addObservation] (mip/HighsPseudocost.h);
    - [cleanBounds], [changeLpMatrixCoefficient], [writeBasisFile] and
      [readBasisFile] (lp_data/HighsLpUtils.cpp);
    - [choosePossible], [chooseFinal] and its helpers
      (simplex/HEkkDualRow.cpp);
    - [PresolveComponent::run] (presolve/PresolveComponent.cpp);
    - the other operations of [Vector] and the infeasibility measure of
      [Instance]; the inference and cutoff observations and
      [subtractBase] of [HighsPseudocost]; [highs_isInfinity]
      (util/HighsUtils.cpp); the routines of lp_data/HighsLpUtils.cpp
      that read, append and scale the data of an LP; the packing
      routines, the free list and the Devex weight of [HEkkDualRow]; and
      [negateReducedLpColDuals] and [checkOptions] of
      presolve/PresolveComponent.cpp.

    Numbers.  Two models of a C++ [double] are used.  The routines
    whose results depend on how the operations round, namely the
    observations of [HighsPseudocost], [cleanBounds], [choosePossible],
    [chooseJoinpack], [computeDevexWeight], [Vector::norm2],
    [Vector::dot] and [Instance::sumnumprimalinfeasibilities], are
    modelled on IEEE 754 binary64, the primitive type [float] with the
    operations that the Standard Library specifies in [SpecFloat]
    (module [F64], module [HighsPseudocost], module [Binary64]).  The
    other routines move, compare and multiply numbers, and no statement
    about them depends on the rounding; they are modelled on the type
    [double] below: an exact rational, or one of the IEEE special
    values +inf, -inf, NaN, where arithmetic on finite values is exact
    (rounding and signed zeros are not modelled) and the special values
    follow IEEE 754.  This exact model also keeps a [choosePossible],
    which builds the inputs on which [chooseFinal] is evaluated, and a
    [cleanBounds], for the statement that relates it to
    [isBoundInfeasible].  Integers ([HighsInt], [int], [unsigned int]) are
    unbounded [Z] or [nat].  Reading an array outside its bounds
    (undefined behaviour in C++) yields the default value named at each
    lookup. *)

From Stdlib Require Import ZArith QArith Qcanon Qcabs Lia Lqa.
From Stdlib Require Import Floats.
From Stdlib Require Import Ascii String DecimalString DecimalZ DecimalPos.
From Stdlib Require Strings.Byte.
From stdpp Require Import base list numbers gmap.

Local Open Scope Z_scope.

(** ** IEEE doubles with exact finite arithmetic *)

Module Dbl.

Inductive double : Type :=
| NaN
| NInf
| Fin (q : Qc)
| PInf.

(** A decimal literal of the source, e.g. [lit 1e-9]. *)
Definition lit (q : Q) : double := Fin (Q2Qc q).

(** Conversion of an integer operand in mixed arithmetic. *)
Definition of_int (z : Z) : double := Fin (Q2Qc (inject_Z z)).

Definition zero : double := lit 0.

Definition neg (x : double) : double :=
  match x with
  | NaN => NaN
  | NInf => PInf
  | Fin q => Fin (- q)%Qc
  | PInf => NInf
  end.

Definition add (x y : double) : double :=
  match x, y with
  | NaN, _ | _, NaN => NaN
  | Fin a, Fin b => Fin (a + b)%Qc
  | PInf, NInf | NInf, PInf => NaN
  | PInf, _ | _, PInf => PInf
  | NInf, _ | _, NInf => NInf
  end.

Definition sub (x y : double) : double := add x (neg y).

(** [inf_times pos c]: the product of +inf (if [pos]) or -inf with a
    finite number whose comparison with zero is [c]. *)
Definition inf_times (pos : bool) (c : comparison) : double :=
  match c with
  | Eq => NaN
  | Gt => if pos then PInf else NInf
  | Lt => if pos then NInf else PInf
  end.

Definition mul (x y : double) : double :=
  match x, y with
  | NaN, _ | _, NaN => NaN
  | Fin a, Fin b => Fin (a * b)%Qc
  | Fin a, PInf | PInf, Fin a => inf_times true (a ?= 0)%Qc
  | Fin a, NInf | NInf, Fin a => inf_times false (a ?= 0)%Qc
  | PInf, PInf | NInf, NInf => PInf
  | PInf, NInf | NInf, PInf => NInf
  end.

Definition div (x y : double) : double :=
  match x, y with
  | NaN, _ | _, NaN => NaN
  | Fin a, Fin b =>
      if bool_decide (b = 0%Qc) then inf_times true (a ?= 0)%Qc
      else Fin (a / b)%Qc
  | Fin _, PInf | Fin _, NInf => Fin 0%Qc
  | PInf, Fin b => if bool_decide (b < 0)%Qc then NInf else PInf
  | NInf, Fin b => if bool_decide (b < 0)%Qc then PInf else NInf
  | PInf, PInf | PInf, NInf | NInf, PInf | NInf, NInf => NaN
  end.

Definition fabs (x : double) : double :=
  match x with
  | NaN => NaN
  | NInf | PInf => PInf
  | Fin q => Fin (Qcabs q)
  end.

(** Comparisons: every comparison with NaN is false, except [!=]. *)
Definition ltb (x y : double) : bool :=
  match x, y with
  | NaN, _ | _, NaN => false
  | Fin a, Fin b => bool_decide (a < b)%Qc
  | NInf, NInf => false
  | NInf, _ => true
  | PInf, _ => false
  | Fin _, PInf => true
  | Fin _, NInf => false
  end.

Definition eqb (x y : double) : bool :=
  match x, y with
  | Fin a, Fin b => bool_decide (a = b)
  | PInf, PInf | NInf, NInf => true
  | _, _ => false
  end.

Definition leb (x y : double) : bool := ltb x y || eqb x y.
Definition gtb (x y : double) : bool := ltb y x.
Definition geb (x y : double) : bool := leb y x.
Definition neb (x y : double) : bool := negb (eqb x y).

(** [std::max(a, b)] is [(a < b) ? b : a]; [std::min(a, b)] is
    [(b < a) ? b : a]. *)
Definition max (a b : double) : double := if ltb a b then b else a.
Definition min (a b : double) : double := if ltb b a then b else a.

Definition is_fin (x : double) : Prop :=
  match x with Fin _ => True | _ => False end.

End Dbl.

Abbreviation double := Dbl.double.

Declare Scope dbl_scope.
Delimit Scope dbl_scope with D.
Bind Scope dbl_scope with Dbl.double.
Infix "+" := Dbl.add : dbl_scope.
Infix "-" := Dbl.sub : dbl_scope.
Infix "*" := Dbl.mul : dbl_scope.
Infix "/" := Dbl.div : dbl_scope.
Notation "- x" := (Dbl.neg x) : dbl_scope.
Infix "<?" := Dbl.ltb : dbl_scope.
Infix "<=?" := Dbl.leb : dbl_scope.
Infix ">?" := Dbl.gtb : dbl_scope.
Infix ">=?" := Dbl.geb : dbl_scope.
Infix "==?" := Dbl.eqb (at level 70) : dbl_scope.
Infix "!=?" := Dbl.neb (at level 70) : dbl_scope.

(** ** Binary64 numbers *)

(** The routines below whose results depend on rounding are modelled
    with the primitive type [float]: IEEE 754 binary64 with rounding to
    nearest, ties to even, as the Standard Library specifies it
    ([Prim2SF] and the operations of [SpecFloat]). *)
Module F64.

(** Conversion of an integer operand ([int], [HighsInt], [size_t]) in
    mixed arithmetic, for integers below 2^63 in absolute value. *)
Definition of_int (z : Z) : float :=
  match z with
  | Z0 => 0%float
  | Zpos _ => of_uint63 (Uint63.of_Z z)
  | Zneg p => (- of_uint63 (Uint63.of_Z (Zpos p)))%float
  end.

Definition gtb (x y : float) : bool := (y <? x)%float.
Definition geb (x y : float) : bool := (y <=? x)%float.
Definition neb (x y : float) : bool := negb (x =? y)%float.

(** [std::max(a, b)] is [(a < b) ? b : a]; [std::min(a, b)] is
    [(b < a) ? b : a]. *)
Definition max (a b : float) : float := if (a <? b)%float then b else a.
Definition min (a b : float) : float := if (b <? a)%float then b else a.

(** [x] is a number that is not negative: +0, -0, a positive number or
    +infinity, and not NaN. *)
Definition nonneg (x : float) : Prop := (0 <=? x)%float = true.

(** The rational number that a finite [float] stands for. *)
Definition value (x : float) : option Qc :=
  match Prim2SF x with
  | S754_zero _ => Some 0%Qc
  | S754_finite s m e =>
      let q := (inject_Z (Zpos m) * Qpower 2 e)%Q in
      Some (Q2Qc (if s then - q else q)%Q)
  | _ => None
  end.

(** A number of the specification carries the sign [s]: a zero, a finite
    number or an infinity of that sign. *)
Definition signed (s : bool) (x : spec_float) : Prop :=
  x = S754_zero s \/ (exists m e, x = S754_finite s m e)
  \/ x = S754_infinity s.

End F64.

(** Array reads with a signed index: [zget l i d] is [l[i]], or [d] when
    [i] is outside [0 .. length l). Array writes outside the bounds leave
    the array as it is. *)
Definition zget {A} (l : list A) (i : Z) (d : A) : A :=
  if bool_decide (0 <= i) then nth (Z.to_nat i) l d else d.

Definition zset {A} (l : list A) (i : Z) (x : A) : list A :=
  if bool_decide (0 <= i) then <[Z.to_nat i := x]> l else l.

(** A counted loop [for (i = 0; i < n; i++) body], threading the state. *)
Definition for_range {S : Type} (n : nat) (body : nat -> S -> S) (s : S) : S :=
  fold_left (fun s i => body i s) (seq 0 n) s.

(** ** external/qpsolver/vector.hpp *)

Module Vector.

Record Vector : Type := mk {
  num_nz : nat;
  dim : nat;
  index : list nat;
  value : list double
}.

Definition with_num_nz (v : Vector) (n : nat) : Vector :=
  mk n (dim v) (index v) (value v).
Definition with_index (v : Vector) (l : list nat) : Vector :=
  mk (num_nz v) (dim v) l (value v).
Definition with_value (v : Vector) (l : list double) : Vector :=
  mk (num_nz v) (dim v) (index v) l.

(** [index[i]] and [value[i]]; reads outside the arrays yield 0. *)
Definition idx (v : Vector) (i : nat) : nat := nth i (index v) 0%nat.
Definition val (v : Vector) (i : nat) : double := nth i (value v) Dbl.zero.

(** [index[i] = j] and [value[i] = x]. *)
Definition set_idx (v : Vector) (i j : nat) : Vector :=
  with_index v (<[i := j]> (index v)).
Definition set_val (v : Vector) (i : nat) (x : double) : Vector :=
  with_value v (<[i := x]> (value v)).

(** [Vector(unsigned int d)] *)
Definition new (d : nat) : Vector :=
  mk 0 d (replicate d 0%nat) (replicate d Dbl.zero).

Definition reset (v : Vector) : Vector :=
  let v1 :=
    for_range (num_nz v)
      (fun i v => set_idx (set_val v (idx v i) Dbl.zero) i 0%nat) v in
  with_num_nz v1 0%nat.

Definition repopulate (v other : Vector) : Vector :=
  let v0 := reset v in
  let v1 :=
    for_range (num_nz other)
      (fun i v =>
         let v' := set_idx v i (idx other i) in
         set_val v' (idx v' i) (val other (idx v' i))) v0 in
  with_num_nz v1 (num_nz other).

(** The argument of [repopulate] is a reference: to a vector that is
    another object than [*this], or to [*this] itself, in which case
    every read of [other] sees what the call has written so far. *)
Inductive operand : Type :=
| Other (other : Vector)
| Self.

Definition deref (this : Vector) (a : operand) : Vector :=
  match a with
  | Other other => other
  | Self => this
  end.

(** [Vector& repopulate(const Vector& other)] with the reference
    resolved at each read. The loop condition [i < other.num_nz] reads
    [num_nz] after [reset()]; the body does not write [num_nz], so the
    bound is the same at every test. [repopulate] above is the case of
    another object. *)
Definition repopulate_ref (v : Vector) (a : operand) : Vector :=
  let v0 := reset v in
  let v1 :=
    for_range (num_nz (deref v0 a))
      (fun i v =>
         let v' := set_idx v i (idx (deref v a) i) in
         set_val v' (idx v' i) (val (deref v' a) (idx v' i))) v0 in
  with_num_nz v1 (num_nz (deref v1 a)).

(** [static Vector& unit(unsigned int dim, unsigned int u, Vector& target)];
    the parameter [dim] is not used by the body. *)
Definition unit_into (dim_ u : nat) (target : Vector) : Vector :=
  let t0 := reset target in
  let t1 := set_idx t0 0 u in
  let t2 := set_val t1 u (Dbl.lit 1) in
  with_num_nz t2 1%nat.

(** [static Vector unit(unsigned int dim, unsigned int u)] *)
Definition unit (dim_ u : nat) : Vector :=
  let vec := new dim_ in
  let v1 := set_idx vec 0 u in
  let v2 := set_val v1 u (Dbl.lit 1) in
  with_num_nz v2 1%nat.

(** The loop of [sanitize], on the pair (vector, [new_idx]). *)
Definition sanitize_step (threshold : double) (i : nat)
    (st : Vector * nat) : Vector * nat :=
  let (v, new_idx) := st in
  if (Dbl.fabs (val v (idx v i)) >? threshold)%D
  then (set_idx v new_idx (idx v i), S new_idx)
  else (set_idx (set_val v (idx v i) Dbl.zero) i 0%nat, new_idx).

Definition sanitize (v : Vector) (threshold : double) : Vector :=
  let (v1, new_idx) :=
    for_range (num_nz v) (sanitize_step threshold) (v, 0%nat) in
  with_num_nz v1 new_idx.

(** The default argument of [sanitize]. *)
Definition sanitize_default_threshold : double := Dbl.lit 10E-15.

Definition resparsify (v : Vector) : Vector :=
  for_range (dim v)
    (fun i v =>
       if (val v i !=? Dbl.zero)%D
       then with_num_nz (set_idx v (num_nz v) i) (S (num_nz v))
       else v)
    (with_num_nz v 0%nat).

Definition scale (v : Vector) (a : double) : Vector :=
  for_range (num_nz v)
    (fun i v => set_val v (idx v i) (val v (idx v i) * a)%D) v.

(** [saxpy(double a, const Vector& x)] *)
Definition saxpy (v : Vector) (a : double) (x : Vector) : Vector :=
  let v0 := sanitize v Dbl.zero in
  let v1 :=
    for_range (num_nz x)
      (fun i v =>
         let j := idx x i in
         let v' :=
           if (val v j ==? Dbl.zero)%D
           then with_num_nz (set_idx v (num_nz v) j) (S (num_nz v))
           else v in
         set_val v' j (val v' j + a * val x j)%D) v0 in
  resparsify v1.

(** [saxpy(double a, double b, const Vector& x)] *)
Definition saxpy3 (v : Vector) (a b : double) (x : Vector) : Vector :=
  saxpy (scale v a) b x.

(** The loop shared by [operator+] and [operator-] on two vectors. *)
Definition combine (op : double -> double -> double)
    (v other : Vector) : Vector :=
  for_range (dim v)
    (fun i result =>
       let r1 := set_val result i (op (val v i) (val other i)) in
       if (val r1 i !=? Dbl.zero)%D
       then with_num_nz (set_idx r1 (num_nz r1) i) (S (num_nz r1))
       else r1)
    (new (dim v)).

(** [Vector operator+(const Vector& other) const] *)
Definition plus (v other : Vector) : Vector := combine Dbl.add v other.

(** [Vector operator-(const Vector& other) const] *)
Definition minus (v other : Vector) : Vector := combine Dbl.sub v other.

(** [Vector operator-() const] *)
Definition negate (v : Vector) : Vector :=
  let r :=
    for_range (num_nz v)
      (fun i result =>
         let r1 := set_idx result i (idx v i) in
         set_val r1 (idx v i) (- val v (idx v i))%D)
      (new (dim v)) in
  with_num_nz r (num_nz v).

(** [Vector operator*(const double d) const] *)
Definition times (v : Vector) (d : double) : Vector :=
  let r :=
    for_range (num_nz v)
      (fun i result =>
         let r1 := set_idx result i (idx v i) in
         set_val r1 (idx v i) (d * val v (idx v i))%D)
      (new (dim v)) in
  with_num_nz r (num_nz v).

(** [double dot(const Vector& other) const], also [operator*] on two
    vectors. *)
Definition dot (v other : Vector) : double :=
  for_range (num_nz v)
    (fun i acc => (acc + val v (idx v i) * val other (idx v i))%D) Dbl.zero.

(** [Vector& operator+=(const Vector& other)] *)
Definition plus_assign (v other : Vector) : Vector :=
  let v1 :=
    for_range (num_nz other)
      (fun i v =>
         set_val v (idx other i)
           (val v (idx other i) + val other (idx other i))%D) v in
  resparsify v1.

(** [Vector& operator*=(const double d)] *)
Definition times_assign (v : Vector) (d : double) : Vector :=
  for_range (num_nz v)
    (fun i v => set_val v (idx v i) (val v (idx v i) * d)%D) v.

(** The packed-sparse invariant: every position with a nonzero dense
    value is listed in [index[0 .. num_nz)]. *)
Definition packed (v : Vector) : Prop :=
  forall i : nat, (i < dim v)%nat -> (val v i !=? Dbl.zero)%D = true ->
    exists k : nat, (k < num_nz v)%nat /\ idx v k = i.

(** What the constructor establishes and every access relies on: both
    arrays have [dim] cells, and the listed indices address them. *)
Definition well_formed (v : Vector) : Prop :=
  length (index v) = dim v /\ length (value v) = dim v /\
  (num_nz v <= dim v)%nat /\
  forall k : nat, (k < num_nz v)%nat -> (idx v k < dim v)%nat.

(** The test [value[p] != 0.0]. *)
Definition nonzero (v : Vector) (p : nat) : bool := (val v p !=? Dbl.zero)%D.

(** Position [p] is listed in [index[0 .. num_nz)]. *)
Definition listed (v : Vector) (p : nat) : Prop :=
  exists k : nat, (k < num_nz v)%nat /\ idx v k = p.


(** *** Invariants used in the proofs *)

Section Invariants.

Local Open Scope nat_scope.

(** The shape of a vector: its dimension and the sizes of its arrays. *)
Definition same_shape (v v' : Vector) : Prop :=
  dim v' = dim v /\ length (index v') = length (index v)
  /\ length (value v') = length (value v).

(** The loop of [reset] after [k] iterations: the positions cleared so
    far are those listed in [index[0 .. k)]. *)
Definition reset_inv (v : Vector) (k : nat) (w : Vector) : Prop :=
  same_shape v w /\ num_nz w = num_nz v
  /\ (forall j, k <= j -> idx w j = idx v j)
  /\ (forall p, (val w p !=? Dbl.zero)%D = true ->
        val w p = val v p /\ forall j, j < k -> idx v j <> p).

(** After [k] positions, [index[0 .. num_nz)] lists the nonzero
    positions below [k] in increasing order. *)
Definition listing_inv (d : nat) (f : nat -> bool) (k : nat) (w : Vector) : Prop :=
  dim w = d /\ length (index w) = d /\ length (value w) = d
  /\ num_nz w <= k
  /\ take (num_nz w) (index w) = List.filter f (seq 0 k).

(** Position [p] is listed among the first [k] indices of [v] and its
    value fails the test [fabs(value) > threshold]. *)
Definition dropped (v : Vector) (thr : double) (k p : nat) : Prop :=
  exists j, j < k /\ idx v j = p /\ (Dbl.fabs (val v p) >? thr)%D = false.

(** The loop of [sanitize] after [k] iterations, on the pair (vector,
    [new_idx]). *)
Definition sanitize_inv (v : Vector) (thr : double) (k : nat)
    (st : Vector * nat) : Prop :=
  let (w, n) := st in
  same_shape v w /\ n <= k
  /\ (forall j, k <= j -> idx w j = idx v j)
  /\ (forall j, j < n -> exists j', j' < k /\ idx w j = idx v j')
  /\ (forall p, val w p = val v p
                \/ (val w p = Dbl.zero /\ dropped v thr k p))
  /\ (forall p, dropped v thr k p -> val w p = Dbl.zero)
  /\ (forall p, nonzero w p = true ->
        (exists j, j < n /\ idx w j = p) \/ (forall j, j < k -> idx v j <> p)).

End Invariants.

End Vector.

(** ** external/qpsolver/instance.hpp *)

Module Instance.

(** Modelled from the spec: matrix.hpp is not among the sources. The
    matrix is kept by its dense rows, and [vec_mat x] is the row vector
    [x' M], the product the objective [c'x + 1/2 x'Qx] needs, returned as
    a packed vector. *)
Record Matrix : Type := mkMatrix {
  mat_num_row : nat;
  mat_num_col : nat;
  mat_rows : list (list double)
}.

Definition entry (m : Matrix) (i j : nat) : double :=
  nth j (nth i (mat_rows m) []) Dbl.zero.

Definition vec_mat (m : Matrix) (x : Vector.Vector) : Vector.Vector :=
  let dense :=
    map (fun j =>
           for_range (mat_num_row m)
             (fun i acc => (acc + Vector.val x i * entry m i j)%D) Dbl.zero)
        (seq 0 (mat_num_col m)) in
  Vector.resparsify
    (Vector.with_value (Vector.new (mat_num_col m)) dense).

Record Instance : Type := mk {
  num_var : nat;
  num_con : nat;
  offset : double;
  c : Vector.Vector;
  Q : Matrix;
  con_lo : list double;
  con_up : list double;
  A : Matrix;
  var_lo : list double;
  var_up : list double
}.

(** [double objval(const Vector& x)] *)
Definition objval (inst : Instance) (x : Vector.Vector) : double :=
  (Vector.dot (c inst) x
   + Dbl.lit 0.5 * Vector.dot (vec_mat (Q inst) x) x)%D.

(** The objective of the model as the specification gives it:
    c'x + 1/2 x'Qx + offset. *)
Definition objective (inst : Instance) (x : Vector.Vector) : double :=
  (Vector.dot (c inst) x
   + Dbl.lit 0.5 * Vector.dot (vec_mat (Q inst) x) x
   + offset inst)%D.

Definition with_offset (inst : Instance) (o : double) : Instance :=
  mk (num_var inst) (num_con inst) o (c inst) (Q inst) (con_lo inst)
     (con_up inst) (A inst) (var_lo inst) (var_up inst).

End Instance.

(** ** mip/HighsPseudocost.h *)

Module HighsPseudocost.

Record HighsPseudocost : Type := mk {
  pseudocostup : list float;
  pseudocostdown : list float;
  nsamplesup : list Z;
  nsamplesdown : list Z;
  inferencesup : list float;
  inferencesdown : list float;
  ninferencesup : list Z;
  ninferencesdown : list Z;
  ncutoffsup : list Z;
  ncutoffsdown : list Z;
  cost_total : float;
  inferences_total : float;
  nsamplestotal : Z;
  ninferencestotal : Z;
  ncutoffstotal : Z;
  minreliable : Z
}.

(** The assignments of the up branch of [addObservation]. *)
Definition set_up (p : HighsPseudocost) (pcu : list float) (nsu : list Z)
    (ct : float) (nst : Z) : HighsPseudocost :=
  mk pcu (pseudocostdown p) nsu (nsamplesdown p)
     (inferencesup p) (inferencesdown p) (ninferencesup p)
     (ninferencesdown p) (ncutoffsup p) (ncutoffsdown p)
     ct (inferences_total p) nst (ninferencestotal p) (ncutoffstotal p)
     (minreliable p).

(** The assignments of the down branch of [addObservation]. *)
Definition set_down (p : HighsPseudocost) (pcd : list float) (nsd : list Z)
    (ct : float) (nst : Z) : HighsPseudocost :=
  mk (pseudocostup p) pcd (nsamplesup p) nsd
     (inferencesup p) (inferencesdown p) (ninferencesup p)
     (ninferencesdown p) (ncutoffsup p) (ncutoffsdown p)
     ct (inferences_total p) nst (ninferencestotal p) (ncutoffstotal p)
     (minreliable p).

(** [void addObservation(int col, double delta, double objdelta)], every
    operation in binary64. The two assertions ([delta != 0.0],
    [objdelta >= 0.0]) are preconditions of the theorems ([call_ok]
    below), not part of the function. *)
Definition addObservation (p : HighsPseudocost) (col : Z)
    (delta objdelta : float) : HighsPseudocost :=
  if F64.gtb delta 0%float then
    let unit_gain := (objdelta / delta)%float in
    let d := (unit_gain - zget (pseudocostup p) col 0)%float in
    let nsu := zset (nsamplesup p) col (zget (nsamplesup p) col 0 + 1) in
    let pcu :=
      zset (pseudocostup p) col
        (zget (pseudocostup p) col 0
         + d / F64.of_int (zget nsu col 0%Z))%float in
    let d := (unit_gain - cost_total p)%float in
    let nst := nsamplestotal p + 1 in
    let ct := (cost_total p + d / F64.of_int nst)%float in
    set_up p pcu nsu ct nst
  else
    let unit_gain := (- objdelta / delta)%float in
    let d := (unit_gain - zget (pseudocostdown p) col 0)%float in
    let nsd := zset (nsamplesdown p) col (zget (nsamplesdown p) col 0 + 1) in
    let pcd :=
      zset (pseudocostdown p) col
        (zget (pseudocostdown p) col 0
         + d / F64.of_int (zget nsd col 0%Z))%float in
    let d := (unit_gain - cost_total p)%float in
    let nst := nsamplestotal p + 1 in
    let ct := (cost_total p + d / F64.of_int nst)%float in
    set_down p pcd nsd ct nst.

(** One recorded call: column, delta, objdelta. *)
Definition call : Type := Z * float * float.

Definition observe (p : HighsPseudocost) (c : call) : HighsPseudocost :=
  let '(col, delta, objdelta) := c in
  addObservation p col delta objdelta.

(** A sequence of calls, first call first. *)
Definition observe_all (p : HighsPseudocost) (cs : list call) :
    HighsPseudocost :=
  fold_left observe cs p.

(** The sample a call contributes, as the code computes it:
    [objdelta / delta] for an up branch, [-objdelta / delta] for a down
    branch. *)
Definition sample (c : call) : float :=
  let '(_, delta, objdelta) := c in
  if F64.gtb delta 0%float then (objdelta / delta)%float
  else (- objdelta / delta)%float.

Definition is_up (col : Z) (c : call) : bool :=
  let '(col', delta, _) := c in
  bool_decide (col' = col) && (0 <? delta)%float.

Definition is_down (col : Z) (c : call) : bool :=
  let '(col', delta, _) := c in
  bool_decide (col' = col) && (delta <? 0)%float.

Definition samples_up (col : Z) (cs : list call) : list float :=
  map sample (List.filter (is_up col) cs).

Definition samples_down (col : Z) (cs : list call) : list float :=
  map sample (List.filter (is_down col) cs).

Definition samples_all (cs : list call) : list float := map sample cs.

(** The update [avg += (s - avg) / n] that the code applies to an
    average when sample number [n] arrives, and the average it leaves
    after the samples [ss], in their order, starting from [avg]. *)
Definition update (avg s : float) (n : Z) : float :=
  (avg + (s - avg) / F64.of_int n)%float.

Definition running (avg : float) (ss : list float) : float :=
  fst (fold_left (fun (st : float * Z) s =>
                    (update (fst st) s (snd st + 1), snd st + 1))
         ss (avg, 0)).

(** The same update without rounding, and the arithmetic mean. *)
Definition running_exact (avg : Qc) (qs : list Qc) : Qc :=
  fst (fold_left (fun (st : Qc * Z) q =>
                    ((fst st + (q - fst st) / Q2Qc (inject_Z (snd st + 1)))%Qc,
                     snd st + 1))
         qs (avg, 0)).

Definition qsum (l : list Qc) : Qc := fold_right Qcplus 0%Qc l.

Definition mean (l : list Qc) : Qc :=
  (qsum l / Q2Qc (inject_Z (Z.of_nat (length l))))%Qc.

(** The value that the specification gives for an average: [x] is the
    arithmetic mean of the samples [ss], that is, the samples are
    finite numbers and [x] is the number their mean is. *)
Definition is_mean_of (x : float) (ss : list float) : Prop :=
  exists qs, map F64.value ss = map Some qs /\ F64.value x = Some (mean qs).

(** A state in which nothing has been observed yet for [ncol] columns:
    the four per-column arrays have [ncol] cells and every sample count
    is zero. *)
Definition no_samples (ncol : nat) (p : HighsPseudocost) : Prop :=
  length (pseudocostup p) = ncol /\ length (pseudocostdown p) = ncol /\
  length (nsamplesup p) = ncol /\ length (nsamplesdown p) = ncol /\
  Forall (fun n => n = 0) (nsamplesup p) /\
  Forall (fun n => n = 0) (nsamplesdown p) /\
  nsamplestotal p = 0.

(** The preconditions of one call: the column exists, [delta] is a
    number other than zero, and [objdelta >= 0.0]. *)
Definition call_ok (ncol : nat) (c : call) : Prop :=
  let '(col, delta, objdelta) := c in
  0 <= col < Z.of_nat ncol
  /\ (delta <? 0)%float || (0 <? delta)%float = true
  /\ F64.geb objdelta 0%float = true.

(** [void subtractBase(const HighsPseudocost& base)], on the four arrays
    that the loop updates. *)
Definition subtractBase (p base : HighsPseudocost) : HighsPseudocost :=
  let ncols := length (pseudocostup p) in
  let '(pcu, pcd, nsu, nsd) :=
    for_range ncols
      (fun i (st : list float * list float * list Z * list Z) =>
         let '(pcu, pcd, nsu, nsd) := st in
         (<[i := (nth i pcu 0 - nth i (pseudocostup base) 0)%float]> pcu,
          <[i := (nth i pcd 0 - nth i (pseudocostdown base) 0)%float]> pcd,
          <[i := nth i nsu 0 - nth i (nsamplesup base) 0]> nsu,
          <[i := nth i nsd 0 - nth i (nsamplesdown base) 0]> nsd))
      (pseudocostup p, pseudocostdown p, nsamplesup p, nsamplesdown p) in
  mk pcu pcd nsu nsd
     (inferencesup p) (inferencesdown p) (ninferencesup p)
     (ninferencesdown p) (ncutoffsup p) (ncutoffsdown p)
     (cost_total p) (inferences_total p) (nsamplestotal p)
     (ninferencestotal p) (ncutoffstotal p) (minreliable p).

(** [int getNumObservations(int col) const] and its two parts. *)
Definition getNumObservations (p : HighsPseudocost) (col : Z) : Z :=
  zget (nsamplesup p) col 0 + zget (nsamplesdown p) col 0.

Definition getNumObservationsUp (p : HighsPseudocost) (col : Z) : Z :=
  zget (nsamplesup p) col 0.

Definition getNumObservationsDown (p : HighsPseudocost) (col : Z) : Z :=
  zget (nsamplesdown p) col 0.

(** [void addCutoffObservation(int col, bool upbranch)] *)
Definition addCutoffObservation (p : HighsPseudocost) (col : Z)
    (upbranch : bool) : HighsPseudocost :=
  let nct := ncutoffstotal p + 1 in
  let ncu :=
    if upbranch then zset (ncutoffsup p) col (zget (ncutoffsup p) col 0 + 1)
    else ncutoffsup p in
  let ncd :=
    if upbranch then ncutoffsdown p
    else zset (ncutoffsdown p) col (zget (ncutoffsdown p) col 0 + 1) in
  mk (pseudocostup p) (pseudocostdown p) (nsamplesup p) (nsamplesdown p)
     (inferencesup p) (inferencesdown p) (ninferencesup p)
     (ninferencesdown p) ncu ncd
     (cost_total p) (inferences_total p) (nsamplestotal p)
     (ninferencestotal p) nct (minreliable p).

(** [void addInferenceObservation(int col, int ninferences, bool
    upbranch)], every operation in binary64. *)
Definition addInferenceObservation (p : HighsPseudocost) (col ninferences : Z)
    (upbranch : bool) : HighsPseudocost :=
  let d := (F64.of_int ninferences - inferences_total p)%float in
  let nit := ninferencestotal p + 1 in
  let it := (inferences_total p + d / F64.of_int nit)%float in
  if upbranch then
    let d := (F64.of_int ninferences - zget (inferencesup p) col 0)%float in
    let niu := zset (ninferencesup p) col (zget (ninferencesup p) col 0 + 1) in
    let iu :=
      zset (inferencesup p) col
        (zget (inferencesup p) col 0
         + d / F64.of_int (zget niu col 0%Z))%float in
    mk (pseudocostup p) (pseudocostdown p) (nsamplesup p) (nsamplesdown p)
       iu (inferencesdown p) niu (ninferencesdown p)
       (ncutoffsup p) (ncutoffsdown p)
       (cost_total p) it (nsamplestotal p) nit (ncutoffstotal p)
       (minreliable p)
  else
    let d := (F64.of_int ninferences - zget (inferencesdown p) col 0)%float in
    let nid :=
      zset (ninferencesdown p) col (zget (ninferencesdown p) col 0 + 1) in
    let id :=
      zset (inferencesdown p) col
        (zget (inferencesdown p) col 0
         + d / F64.of_int (zget nid col 0%Z))%float in
    mk (pseudocostup p) (pseudocostdown p) (nsamplesup p) (nsamplesdown p)
       (inferencesup p) id (ninferencesup p) nid
       (ncutoffsup p) (ncutoffsdown p)
       (cost_total p) it (nsamplestotal p) nit (ncutoffstotal p)
       (minreliable p).

(** [bool isReliable(int col) const], [isReliableUp], [isReliableDown] *)
Definition isReliable (p : HighsPseudocost) (col : Z) : bool :=
  bool_decide
    (Z.min (zget (nsamplesup p) col 0) (zget (nsamplesdown p) col 0)
     >= minreliable p).

Definition isReliableUp (p : HighsPseudocost) (col : Z) : bool :=
  bool_decide (zget (nsamplesup p) col 0 >= minreliable p).

Definition isReliableDown (p : HighsPseudocost) (col : Z) : bool :=
  bool_decide (zget (nsamplesdown p) col 0 >= minreliable p).

(** One recorded call of [addCutoffObservation]: column, upbranch. *)
Definition cutoff_call : Type := Z * bool.

Definition cutoff_all (p : HighsPseudocost) (cs : list cutoff_call) :
    HighsPseudocost :=
  fold_left (fun p c => addCutoffObservation p (fst c) (snd c)) cs p.

(** The recorded calls for column [col] on the given branch. *)
Definition cutoffs_of (col : Z) (up : bool) (cs : list cutoff_call) :
    list cutoff_call :=
  List.filter (fun c => bool_decide (fst c = col) && Bool.eqb (snd c) up) cs.

(** One recorded call of [addInferenceObservation]: column, ninferences,
    upbranch. *)
Definition inference_call : Type := Z * Z * bool.

Definition infer (p : HighsPseudocost) (c : inference_call) : HighsPseudocost :=
  let '(col, ninferences, upbranch) := c in
  addInferenceObservation p col ninferences upbranch.

Definition infer_all (p : HighsPseudocost) (cs : list inference_call) :
    HighsPseudocost :=
  fold_left infer cs p.

(** The number of inferences of a call, converted to [double] as the
    code does, and the numbers recorded for column [col] on the given
    branch. *)
Definition inferences (c : inference_call) : float :=
  F64.of_int (snd (fst c)).

Definition inferences_of (col : Z) (up : bool) (cs : list inference_call) :
    list float :=
  map inferences
    (List.filter
       (fun c => bool_decide (fst (fst c) = col) && Bool.eqb (snd c) up) cs).

(** A state in which no inference has been observed yet for [ncol]
    columns. *)
Definition no_inferences (ncol : nat) (p : HighsPseudocost) : Prop :=
  length (inferencesup p) = ncol /\ length (inferencesdown p) = ncol /\
  length (ninferencesup p) = ncol /\ length (ninferencesdown p) = ncol /\
  Forall (fun n => n = 0) (ninferencesup p) /\
  Forall (fun n => n = 0) (ninferencesdown p) /\
  ninferencestotal p = 0.

(** The four arrays of samples have [ncol] cells. *)
Definition samples_sized (ncol : nat) (p : HighsPseudocost) : Prop :=
  length (pseudocostup p) = ncol /\ length (pseudocostdown p) = ncol /\
  length (nsamplesup p) = ncol /\ length (nsamplesdown p) = ncol.

(** *** Invariants used in the proofs *)

(** A count as a rational number. *)
Definition qnat (n : nat) : Qc := Q2Qc (inject_Z (Z.of_nat n)).

(** A per-column pair of arrays (sample counts, running averages) agrees
    with the samples [smp col] recorded for each column, the averages
    having started from [avgs0]. *)
Definition col_avg (ncol : nat) (counts : list Z) (avgs avgs0 : list float)
    (smp : Z -> list float) : Prop :=
  length counts = ncol /\ length avgs = ncol
  /\ forall col, 0 <= col < Z.of_nat ncol ->
       zget counts col 0 = Z.of_nat (length (smp col))
       /\ zget avgs col 0%float = running (zget avgs0 col 0%float) (smp col).

(** The same for the global counter and average. *)
Definition total_avg (count : Z) (avg avg0 : float) (smp : list float) :
    Prop :=
  count = Z.of_nat (length smp) /\ avg = running avg0 smp.

(** The three pairs of counters and averages after the calls [cs] that
    started in the state [p0]. *)
Definition observed (ncol : nat) (p0 : HighsPseudocost) (cs : list call)
    (p : HighsPseudocost) : Prop :=
  col_avg ncol (nsamplesup p) (pseudocostup p) (pseudocostup p0)
    (fun col => samples_up col cs)
  /\ col_avg ncol (nsamplesdown p) (pseudocostdown p) (pseudocostdown p0)
       (fun col => samples_down col cs)
  /\ total_avg (nsamplestotal p) (cost_total p) (cost_total p0)
       (samples_all cs).

(** The same for the inference observations [cs] that started in the
    state [p0]. *)
Definition inferred (ncol : nat) (p0 : HighsPseudocost)
    (cs : list inference_call) (p : HighsPseudocost) : Prop :=
  col_avg ncol (ninferencesup p) (inferencesup p) (inferencesup p0)
    (fun col => inferences_of col true cs)
  /\ col_avg ncol (ninferencesdown p) (inferencesdown p) (inferencesdown p0)
       (fun col => inferences_of col false cs)
  /\ total_avg (ninferencestotal p) (inferences_total p)
       (inferences_total p0) (map inferences cs).

End HighsPseudocost.

(** Loops of the sources. [for_range_until] is a counted loop whose body
    may execute [return] (first component [true]); [for_z lo hi] is
    [for (i = lo; i < hi; i++)] and [for_z_down hi lo] is
    [for (i = hi; i > lo; i--)] on signed indices. *)
Definition for_range_until {S : Type} (n : nat)
    (body : nat -> S -> bool * S) (s : S) : bool * S :=
  fold_left
    (fun (st : bool * S) i => if fst st then st else body i (snd st))
    (seq 0 n) (false, s).

Definition for_z {S : Type} (lo hi : Z) (body : Z -> S -> S) (s : S) : S :=
  for_range (Z.to_nat (hi - lo)) (fun k => body (lo + Z.of_nat k)) s.

Definition for_z_down {S : Type} (hi lo : Z) (body : Z -> S -> S) (s : S) : S :=
  for_range (Z.to_nat (hi - lo)) (fun k => body (hi - Z.of_nat k)) s.

Definition for_z_until {S : Type} (lo hi : Z)
    (body : Z -> S -> bool * S) (s : S) : bool * S :=
  for_range_until (Z.to_nat (hi - lo)) (fun k => body (lo + Z.of_nat k)) s.

(** ** util/HighsUtils.cpp *)

Module HighsUtils.

(** Modelled from the spec: [HIGHS_CONST_INF] is declared in HConst.h,
    which is not among the sources; it is +infinity (section 3: a bound
    is promoted to +-infinity). *)
Definition HIGHS_CONST_INF : double := Dbl.PInf.

(** [bool highs_isInfinity(double val)] *)
Definition highs_isInfinity (val : double) : bool :=
  if (val >=? HIGHS_CONST_INF)%D then true else false.

End HighsUtils.

(** ** lp_data/HighsLpUtils.cpp *)

Module HighsLpUtils.

(** Modelled from the spec: the declaration of [HighsStatus] is not among
    the sources; section 6 gives the enumeration {ok, warning, error}. *)
Inductive HighsStatus : Type :=
| kOk
| kWarning
| kError.

(** Modelled from the spec: the declarations of [HighsSparseMatrix] and
    [HighsLp] are not among the sources; the fields are those that
    HighsLpUtils.cpp reads and writes (section 3, LP model and CSC
    matrix). *)
Record HighsSparseMatrix : Type := mkMatrix {
  start_ : list Z;
  index_ : list Z;
  value_ : list double
}.

Record HighsLp : Type := mkLp {
  num_col_ : Z;
  num_row_ : Z;
  col_cost_ : list double;
  col_lower_ : list double;
  col_upper_ : list double;
  row_lower_ : list double;
  row_upper_ : list double;
  a_matrix_ : HighsSparseMatrix
}.

Definition with_col_bounds (lp : HighsLp) (lo up : list double) : HighsLp :=
  mkLp (num_col_ lp) (num_row_ lp) (col_cost_ lp) lo up
       (row_lower_ lp) (row_upper_ lp) (a_matrix_ lp).

Definition with_row_bounds (lp : HighsLp) (lo up : list double) : HighsLp :=
  mkLp (num_col_ lp) (num_row_ lp) (col_cost_ lp) (col_lower_ lp)
       (col_upper_ lp) lo up (a_matrix_ lp).

Definition with_matrix (lp : HighsLp) (m : HighsSparseMatrix) : HighsLp :=
  mkLp (num_col_ lp) (num_row_ lp) (col_cost_ lp) (col_lower_ lp)
       (col_upper_ lp) (row_lower_ lp) (row_upper_ lp) m.

(** *** cleanBounds *)

(** The local state of [cleanBounds] while it scans one pair of bound
    arrays: [max_residual], [num_change], lower bounds, upper bounds. *)
Definition clean_state : Type := double * Z * list double * list double.

(** The body of either loop of [cleanBounds]; [true] in the first
    component is the [return HighsStatus::kError] inside the loop. *)
Definition clean_step (tol : double) (i : nat) (st : clean_state) :
    bool * clean_state :=
  let '(max_residual, num_change, lower, upper) := st in
  let residual := (nth i lower Dbl.zero - nth i upper Dbl.zero)%D in
  if (residual >? tol)%D then (true, st)
  else if (residual >? Dbl.zero)%D then
    let mid := (Dbl.lit 0.5 * (nth i lower Dbl.zero + nth i upper Dbl.zero))%D in
    (false,
     (Dbl.max residual max_residual, num_change + 1,
      <[i := mid]> lower, <[i := mid]> upper))
  else (false, st).

(** [HighsStatus cleanBounds(const HighsOptions& options, HighsLp& lp)];
    [tol] is [options.primal_feasibility_tolerance]. The result is the
    returned status and the LP as the call leaves it. *)
Definition cleanBounds (tol : double) (lp : HighsLp) : HighsStatus * HighsLp :=
  let '(ret, (max_residual, num_change, clo, cup)) :=
    for_range_until (Z.to_nat (num_col_ lp)) (clean_step tol)
      (Dbl.zero, 0, col_lower_ lp, col_upper_ lp) in
  let lp1 := with_col_bounds lp clo cup in
  if ret then (kError, lp1)
  else
    let '(ret, (max_residual, num_change, rlo, rup)) :=
      for_range_until (Z.to_nat (num_row_ lp1)) (clean_step tol)
        (max_residual, num_change, row_lower_ lp1, row_upper_ lp1) in
    let lp2 := with_row_bounds lp1 rlo rup in
    if ret then (kError, lp2)
    else if negb (num_change =? 0) then (kWarning, lp2)
    else (kOk, lp2).

(** The dimensions of the LP agree with its bound arrays. *)
Definition bounds_sized (lp : HighsLp) : Prop :=
  Z.of_nat (length (col_lower_ lp)) = num_col_ lp /\
  Z.of_nat (length (col_upper_ lp)) = num_col_ lp /\
  Z.of_nat (length (row_lower_ lp)) = num_row_ lp /\
  Z.of_nat (length (row_upper_ lp)) = num_row_ lp.

(** [lower - upper] of one column or row, and the midpoint written by
    [cleanBounds]. *)
Definition residual_of (lower upper : list double) (i : nat) : double :=
  (nth i lower Dbl.zero - nth i upper Dbl.zero)%D.

Definition midpoint_of (lower upper : list double) (i : nat) : double :=
  (Dbl.lit 0.5 * (nth i lower Dbl.zero + nth i upper Dbl.zero))%D.

(** *** changeLpMatrixCoefficient *)

(** [HighsStatus changeLpMatrixCoefficient(HighsLp& lp, const HighsInt
    row, const HighsInt col, const double new_value)] *)
Definition changeLpMatrixCoefficient (lp : HighsLp) (row col : Z)
    (new_value : double) : HighsStatus * HighsLp :=
  if bool_decide (row < 0) || bool_decide (row > num_row_ lp) then (kError, lp)
  else if bool_decide (col < 0) || bool_decide (col > num_col_ lp)
  then (kError, lp)
  else
    let m := a_matrix_ lp in
    let changeElement : Z :=
      snd (for_z_until (zget (start_ m) col 0) (zget (start_ m) (col + 1) 0)
             (fun el ce =>
                if zget (index_ m) el 0 =? row then (true, el) else (false, ce))
             (-1)) in
    let '(changeElement, m) :=
      if changeElement <? 0 then
        let changeElement := zget (start_ m) (col + 1) 0 in
        let new_num_nz := zget (start_ m) (num_col_ lp) 0 + 1 in
        let index1 := resize (Z.to_nat new_num_nz) 0 (index_ m) in
        let value1 := resize (Z.to_nat new_num_nz) Dbl.zero (value_ m) in
        let start1 :=
          for_z (col + 1) (num_col_ lp + 1)
            (fun i st => zset st i (zget st i 0 + 1)) (start_ m) in
        let '(index2, value2) :=
          for_z_down (new_num_nz - 1) changeElement
            (fun el (iv : list Z * list double) =>
               (zset (fst iv) el (zget (fst iv) (el - 1) 0),
                zset (snd iv) el (zget (snd iv) (el - 1) Dbl.zero)))
            (index1, value1) in
        (changeElement, mkMatrix start1 index2 value2)
      else (changeElement, m) in
    let m' :=
      mkMatrix (start_ m) (zset (index_ m) changeElement row)
               (zset (value_ m) changeElement new_value) in
    (kOk, with_matrix lp m').

(** *** Basis files *)

(** Modelled from the spec: the declaration of [HighsBasisStatus] is not
    among the sources. It is an enumeration over one byte with the five
    statuses of section 3 (Basis); a status is kept as the byte that
    stores it. *)
Definition HighsBasisStatus : Type := Byte.byte.
Definition kLower : HighsBasisStatus := Byte.x00.
Definition kBasic : HighsBasisStatus := Byte.x01.
Definition kUpper : HighsBasisStatus := Byte.x02.
Definition kZero : HighsBasisStatus := Byte.x03.
Definition kNonbasic : HighsBasisStatus := Byte.x04.

(** The casts [(HighsInt)status] and [(HighsBasisStatus)int_status]: the
    value of the byte, and the integer reduced modulo 256. *)
Definition int_of_status (s : HighsBasisStatus) : Z := Z.of_N (Byte.to_N s).

Definition status_of_int (i : Z) : HighsBasisStatus :=
  match Byte.of_N (Z.to_N (i mod 256)) with
  | Some b => b
  | None => Byte.x00
  end.

Record HighsBasis : Type := mkBasis {
  valid : bool;
  col_status : list HighsBasisStatus;
  row_status : list HighsBasisStatus
}.

(** The files the two routines see: the text of each existing file, and
    whether a file of a given name can be opened for writing. *)
Record FileSystem : Type := mkFs {
  file_text : string -> option (list ascii);
  can_open_for_writing : string -> bool
}.

Definition write_file (fs : FileSystem) (name : string) (text : list ascii) :
    FileSystem :=
  mkFs (fun n => if String.eqb n name then Some text else file_text fs n)
       (can_open_for_writing fs).

(** [ostream << integer]: the decimal digits, with a minus sign for a
    negative number. *)
Definition show_int (z : Z) : list ascii :=
  list_ascii_of_string (NilEmpty.string_of_int (Z.to_int z)).

Definition endl : list ascii := ["010"%char].
Definition space : list ascii := [" "%char].

(** [for (const auto& status : l) outFile << (HighsInt)status << " "] *)
Definition show_statuses (l : list HighsBasisStatus) : list ascii :=
  concat (map (fun s => show_int (int_of_status s) ++ space) l).

(** The text that [writeBasisFile] sends to [outFile]. *)
Definition basis_text (HIGHS_VERSION_MAJOR : Z) (basis : HighsBasis) :
    list ascii :=
  list_ascii_of_string "HiGHS Version " ++ show_int HIGHS_VERSION_MAJOR ++ endl
  ++ show_int (Z.of_nat (length (col_status basis))) ++ space
  ++ show_int (Z.of_nat (length (row_status basis))) ++ endl
  ++ show_statuses (col_status basis) ++ endl
  ++ show_statuses (row_status basis) ++ endl
  ++ endl.

(** [HighsStatus writeBasisFile(log_options, basis, filename)];
    [HIGHS_VERSION_MAJOR] is a macro of the build configuration, which is
    not among the sources. *)
Definition writeBasisFile (HIGHS_VERSION_MAJOR : Z) (fs : FileSystem)
    (basis : HighsBasis) (filename : string) : HighsStatus * FileSystem :=
  if negb (valid basis) then (kError, fs)
  else if negb (can_open_for_writing fs filename) then (kError, fs)
  else (kOk, write_file fs filename (basis_text HIGHS_VERSION_MAJOR basis)).

(** An input stream: the characters not yet extracted and the two state
    bits that [readBasisFile] can observe. *)
Record istream : Type := mkStream {
  rest : list ascii;
  eofbit : bool;
  failbit : bool
}.

Definition good (s : istream) : bool := negb (eofbit s) && negb (failbit s).

Definition is_space (c : ascii) : bool :=
  let n := nat_of_ascii c in
  (n =? 32)%nat || ((9 <=? n)%nat && (n <=? 13)%nat).

Definition is_digit (c : ascii) : bool :=
  let n := nat_of_ascii c in
  (48 <=? n)%nat && (n <=? 57)%nat.

Fixpoint skipws (l : list ascii) : list ascii :=
  match l with
  | c :: l' => if is_space c then skipws l' else l
  | [] => []
  end.

(** The longest prefix whose characters satisfy [p], and what follows. *)
Fixpoint span (p : ascii -> bool) (l : list ascii) : list ascii * list ascii :=
  match l with
  | c :: l' =>
      if p c then let (a, b) := span p l' in (c :: a, b) else ([], l)
  | [] => ([], [])
  end.

(** The start of a formatted extraction: a stream that is not good gets
    [failbit]; otherwise leading white space is skipped, and reaching the
    end of the text sets [eofbit] and [failbit]. *)
Definition sentry (s : istream) : bool * istream :=
  if good s then
    match skipws (rest s) with
    | [] => (false, mkStream [] true true)
    | r => (true, mkStream r false false)
    end
  else (false, mkStream (rest s) (eofbit s) true).

(** [inFile >> str]: [old] is the value of [str] before the call. *)
Definition read_string (s : istream) (old : list ascii) :
    list ascii * istream :=
  let (ok, s1) := sentry s in
  if ok then
    let (tok, r) := span (fun c => negb (is_space c)) (rest s1) in
    (tok, mkStream r (bool_decide (r = [])) false)
  else (old, s1).

Definition digits_value (ds : list ascii) : Z :=
  match NilEmpty.uint_of_string (string_of_list_ascii ds) with
  | Some d => Z.of_uint d
  | None => 0
  end.

(** [inFile >> n] for an integer [n] whose value before the call is
    [old]: an optional sign, then decimal digits; without digits the
    extraction fails and stores 0. *)
Definition read_int (s : istream) (old : Z) : Z * istream :=
  let (ok, s1) := sentry s in
  if ok then
    let (sign, r1) :=
      match rest s1 with
      | c :: r =>
          if Ascii.eqb c "-" then (-1, r)
          else if Ascii.eqb c "+" then (1, r)
          else (1, c :: r)
      | [] => (1, [])
      end in
    let (ds, r2) := span is_digit r1 in
    match ds with
    | [] => (0, mkStream r2 (bool_decide (r2 = [])) true)
    | _ => (sign * digits_value ds, mkStream r2 (bool_decide (r2 = [])) false)
    end
  else (old, s1).

(** One of the two reading loops of [readBasisFile], on the triple
    (stream, [int_status], statuses). *)
Definition read_statuses (n : Z)
    (st : istream * Z * list HighsBasisStatus) :
    istream * Z * list HighsBasisStatus :=
  for_z 0 n
    (fun i (st : istream * Z * list HighsBasisStatus) =>
       let '(s, int_status, statuses) := st in
       let (int_status, s) := read_int s int_status in
       (s, int_status, zset statuses i (status_of_int int_status)))
    st.

(** [HighsStatus readBasisFile(log_options, basis, filename)]. The
    locals [highs_version_number], [numCol], [numRow] and [int_status]
    are declared without a value; [uninit] is what they hold then. *)
Definition readBasisFile (uninit : Z) (fs : FileSystem) (basis : HighsBasis)
    (filename : string) : HighsStatus * HighsBasis :=
  match file_text fs filename with
  | None => (kError, basis)
  | Some text =>
      let inFile := mkStream text false false in
      let (string_highs, inFile) := read_string inFile [] in
      let (string_version, inFile) := read_string inFile [] in
      let (highs_version_number, inFile) := read_int inFile uninit in
      if highs_version_number =? 1 then
        let (numCol, inFile) := read_int inFile uninit in
        let (numRow, inFile) := read_int inFile uninit in
        let basis_numCol := Z.of_nat (length (col_status basis)) in
        let basis_numRow := Z.of_nat (length (row_status basis)) in
        if negb (numCol =? basis_numCol) then (kError, basis)
        else if negb (numRow =? basis_numRow) then (kError, basis)
        else
          let '(inFile, int_status, cols) :=
            read_statuses numCol (inFile, uninit, col_status basis) in
          let '(inFile, int_status, rows) :=
            read_statuses numRow (inFile, int_status, row_status basis) in
          let basis' := mkBasis (valid basis) cols rows in
          if eofbit inFile then (kError, basis') else (kOk, basis')
      else (kError, basis)
  end.

(** *** getLpMatrixCoefficient *)

(** [HighsStatus getLpMatrixCoefficient(const HighsLp& lp, const HighsInt
    Xrow, const HighsInt Xcol, double* val)]; [val] is what [*val] holds
    before the call, the second component of the result what it holds
    after it. *)
Definition getLpMatrixCoefficient (lp : HighsLp) (Xrow Xcol : Z)
    (val : double) : HighsStatus * double :=
  if bool_decide (Xrow < 0) || bool_decide (Xrow >= num_row_ lp)
  then (kError, val)
  else if bool_decide (Xcol < 0) || bool_decide (Xcol >= num_col_ lp)
  then (kError, val)
  else
    let m := a_matrix_ lp in
    let get_el : Z :=
      snd (for_z_until (zget (start_ m) Xcol 0) (zget (start_ m) (Xcol + 1) 0)
             (fun el ge =>
                if zget (index_ m) el 0 =? Xrow then (true, el) else (false, ge))
             (-1)) in
    if get_el <? 0 then (kOk, Dbl.zero)
    else (kOk, zget (value_ m) get_el Dbl.zero).

(** The matrix of the LP is a column-wise matrix of [num_col_] columns:
    [start_] has [num_col_ + 1] entries that do not decrease and are not
    negative, and [index_] and [value_] have at least
    [start_[num_col_]] entries. *)
Definition matrix_ok (lp : HighsLp) : Prop :=
  let m := a_matrix_ lp in
  0 <= num_col_ lp
  /\ Z.of_nat (length (start_ m)) = num_col_ lp + 1
  /\ 0 <= zget (start_ m) 0 0
  /\ (forall c, 0 <= c < num_col_ lp ->
        zget (start_ m) c 0 <= zget (start_ m) (c + 1) 0)
  /\ zget (start_ m) (num_col_ lp) 0 <= Z.of_nat (length (index_ m))
  /\ zget (start_ m) (num_col_ lp) 0 <= Z.of_nat (length (value_ m)).

(** *** getLpCosts, getLpColBounds, getLpRowBounds *)

(** [HighsStatus getLpCosts(const HighsLp& lp, const HighsInt from_col,
    const HighsInt to_col, double* XcolCost)]; the array behind
    [XcolCost] before and after the call. *)
Definition getLpCosts (lp : HighsLp) (from_col to_col : Z)
    (XcolCost : list double) : HighsStatus * list double :=
  if bool_decide (from_col < 0) || bool_decide (to_col >= num_col_ lp)
  then (kError, XcolCost)
  else if bool_decide (from_col > to_col) then (kOk, XcolCost)
  else
    (kOk,
     for_z from_col (to_col + 1)
       (fun col X => zset X (col - from_col) (zget (col_cost_ lp) col Dbl.zero))
       XcolCost).

(** The loop shared by [getLpColBounds] and [getLpRowBounds]; [None] is
    a null pointer. *)
Definition get_bounds (lower upper : list double) (from_ix to_ix : Z)
    (Xlower Xupper : option (list double)) :
    option (list double) * option (list double) :=
  for_z from_ix (to_ix + 1)
    (fun ix (X : option (list double) * option (list double)) =>
       (match fst X with
        | Some l => Some (zset l (ix - from_ix) (zget lower ix Dbl.zero))
        | None => None
        end,
        match snd X with
        | Some u => Some (zset u (ix - from_ix) (zget upper ix Dbl.zero))
        | None => None
        end))
    (Xlower, Xupper).

(** [HighsStatus getLpColBounds(lp, from_col, to_col, XcolLower,
    XcolUpper)] *)
Definition getLpColBounds (lp : HighsLp) (from_col to_col : Z)
    (XcolLower XcolUpper : option (list double)) :
    HighsStatus * (option (list double) * option (list double)) :=
  if bool_decide (from_col < 0) || bool_decide (to_col >= num_col_ lp)
  then (kError, (XcolLower, XcolUpper))
  else if bool_decide (from_col > to_col) then (kOk, (XcolLower, XcolUpper))
  else
    (kOk,
     get_bounds (col_lower_ lp) (col_upper_ lp) from_col to_col
       XcolLower XcolUpper).

(** [HighsStatus getLpRowBounds(lp, from_row, to_row, XrowLower,
    XrowUpper)] *)
Definition getLpRowBounds (lp : HighsLp) (from_row to_row : Z)
    (XrowLower XrowUpper : option (list double)) :
    HighsStatus * (option (list double) * option (list double)) :=
  if bool_decide (from_row < 0) || bool_decide (to_row >= num_row_ lp)
  then (kError, (XrowLower, XrowUpper))
  else if bool_decide (from_row > to_row) then (kOk, (XrowLower, XrowUpper))
  else
    (kOk,
     get_bounds (row_lower_ lp) (row_upper_ lp) from_row to_row
       XrowLower XrowUpper).

(** *** appendColsToLpVectors, appendRowsToLpVectors *)

(** [HighsStatus appendColsToLpVectors(lp, num_new_col, colCost,
    colLower, colUpper)]. [col_names_] is the field [lp.col_names_],
    which the record [HighsLp] above does not hold; the result is the
    status, the LP and the names as the call leaves them. *)
Definition appendColsToLpVectors (lp : HighsLp) (col_names_ : list string)
    (num_new_col : Z) (colCost colLower colUpper : list double) :
    HighsStatus * HighsLp * list string :=
  if bool_decide (num_new_col < 0) then (kError, lp, col_names_)
  else if bool_decide (num_new_col = 0) then (kOk, lp, col_names_)
  else
    let new_num_col := num_col_ lp + num_new_col in
    let cost := resize (Z.to_nat new_num_col) Dbl.zero (col_cost_ lp) in
    let lower := resize (Z.to_nat new_num_col) Dbl.zero (col_lower_ lp) in
    let upper := resize (Z.to_nat new_num_col) Dbl.zero (col_upper_ lp) in
    let have_names := negb (length col_names_ =? 0)%nat in
    let names :=
      if have_names then resize (Z.to_nat new_num_col) EmptyString col_names_
      else col_names_ in
    let '(cost, lower, upper, names) :=
      for_z 0 num_new_col
        (fun new_col
             (st : list double * list double * list double * list string) =>
           let '(cost, lower, upper, names) := st in
           let iCol := num_col_ lp + new_col in
           (zset cost iCol (zget colCost new_col Dbl.zero),
            zset lower iCol (zget colLower new_col Dbl.zero),
            zset upper iCol (zget colUpper new_col Dbl.zero),
            if have_names then zset names iCol EmptyString else names))
        (cost, lower, upper, names) in
    (kOk,
     mkLp (num_col_ lp) (num_row_ lp) cost lower upper
          (row_lower_ lp) (row_upper_ lp) (a_matrix_ lp),
     names).

(** [HighsStatus appendRowsToLpVectors(lp, num_new_row, rowLower,
    rowUpper)], with [row_names_] for the field [lp.row_names_]. *)
Definition appendRowsToLpVectors (lp : HighsLp) (row_names_ : list string)
    (num_new_row : Z) (rowLower rowUpper : list double) :
    HighsStatus * HighsLp * list string :=
  if bool_decide (num_new_row < 0) then (kError, lp, row_names_)
  else if bool_decide (num_new_row = 0) then (kOk, lp, row_names_)
  else
    let new_num_row := num_row_ lp + num_new_row in
    let lower := resize (Z.to_nat new_num_row) Dbl.zero (row_lower_ lp) in
    let upper := resize (Z.to_nat new_num_row) Dbl.zero (row_upper_ lp) in
    let have_names := negb (length row_names_ =? 0)%nat in
    let names :=
      if have_names then resize (Z.to_nat new_num_row) EmptyString row_names_
      else row_names_ in
    let '(lower, upper, names) :=
      for_z 0 num_new_row
        (fun new_row (st : list double * list double * list string) =>
           let '(lower, upper, names) := st in
           let iRow := num_row_ lp + new_row in
           (zset lower iRow (zget rowLower new_row Dbl.zero),
            zset upper iRow (zget rowUpper new_row Dbl.zero),
            if have_names then zset names iRow EmptyString else names))
        (lower, upper, names) in
    (kOk, with_row_bounds lp lower upper, names).

(** The cost and bound arrays of the LP have [num_col_] and [num_row_]
    entries, and the dimensions are not negative. *)
Definition vectors_sized (lp : HighsLp) : Prop :=
  0 <= num_col_ lp /\ 0 <= num_row_ lp
  /\ Z.of_nat (length (col_cost_ lp)) = num_col_ lp
  /\ bounds_sized lp.

(** *** isBoundInfeasible *)

(** [bool isBoundInfeasible(const HighsLogOptions& log_options, const
    HighsLp& lp)]. The second component is the number that the call of
    [highsLogUser] reports, [None] when nothing is logged. *)
Definition isBoundInfeasible (lp : HighsLp) : bool * option Z :=
  let num_bound_infeasible :=
    for_z 0 (num_col_ lp)
      (fun iCol n =>
         if (zget (col_upper_ lp) iCol Dbl.zero
             <? zget (col_lower_ lp) iCol Dbl.zero)%D
         then n + 1 else n)
      0 in
  let num_bound_infeasible :=
    for_z 0 (num_row_ lp)
      (fun iRow n =>
         if (zget (row_upper_ lp) iRow Dbl.zero
             <? zget (row_lower_ lp) iRow Dbl.zero)%D
         then n + 1 else n)
      num_bound_infeasible in
  (num_bound_infeasible >? 0,
   if num_bound_infeasible >? 0 then Some num_bound_infeasible else None).

(** *** getBoundType *)

(** [std::string getBoundType(const double lower, const double upper)] *)
Definition getBoundType (lower upper : double) : string :=
  if HighsUtils.highs_isInfinity (- lower)%D then
    if HighsUtils.highs_isInfinity upper then "FR"%string else "UB"%string
  else if HighsUtils.highs_isInfinity upper then "LB"%string
  else if (lower <? upper)%D then "BX"%string
  else "FX"%string.

(** *** Scaling the matrix *)

(** [void applyRowScalingToMatrix(rowScale, numCol, Astart, Aindex,
    Avalue)]; the result is [Avalue] after the call. *)
Definition applyRowScalingToMatrix (rowScale : list double) (numCol : Z)
    (Astart Aindex : list Z) (Avalue : list double) : list double :=
  for_z 0 numCol
    (fun iCol Avalue =>
       for_z (zget Astart iCol 0) (zget Astart (iCol + 1) 0)
         (fun el Avalue =>
            zset Avalue el
              (zget Avalue el Dbl.zero
               * zget rowScale (zget Aindex el 0) Dbl.zero)%D)
         Avalue)
    Avalue.

(** The loop nest that [applyScalingToLpMatrix] runs in each of its
    three branches; [factor iCol iRow] is the number the branch
    multiplies by. *)
Definition scale_entries (m : HighsSparseMatrix)
    (from_col to_col from_row to_row : Z) (factor : Z -> Z -> double) :
    list double :=
  for_z from_col (to_col + 1)
    (fun iCol value =>
       for_z (zget (start_ m) iCol 0) (zget (start_ m) (iCol + 1) 0)
         (fun iEl value =>
            let iRow := zget (index_ m) iEl 0 in
            if bool_decide (iRow < from_row) || bool_decide (iRow > to_row)
            then value
            else zset value iEl (zget value iEl Dbl.zero * factor iCol iRow)%D)
         value)
    (value_ m).

(** [HighsStatus applyScalingToLpMatrix(log_options, lp, colScale,
    rowScale, from_col, to_col, from_row, to_row)]; [None] for a scale
    array is a null pointer. The result is [None] when one of the two
    assertions on the ranges fails. *)
Definition applyScalingToLpMatrix (lp : HighsLp)
    (colScale rowScale : option (list double))
    (from_col to_col from_row to_row : Z) : option (HighsStatus * HighsLp) :=
  if negb (bool_decide (from_col = 0)
           && bool_decide (to_col = num_col_ lp - 1)) then None
  else if negb (bool_decide (from_row = 0)
                && bool_decide (to_row = num_row_ lp - 1)) then None
  else if bool_decide (from_col < 0) then Some (kError, lp)
  else if bool_decide (to_col >= num_col_ lp) then Some (kError, lp)
  else if bool_decide (from_row < 0) then Some (kError, lp)
  else if bool_decide (to_row >= num_row_ lp) then Some (kError, lp)
  else
    let m := a_matrix_ lp in
    let scaled (factor : Z -> Z -> double) : HighsLp :=
      with_matrix lp
        (mkMatrix (start_ m) (index_ m)
           (scale_entries m from_col to_col from_row to_row factor)) in
    match colScale, rowScale with
    | Some colScale, Some rowScale =>
        Some (kOk,
              scaled (fun iCol iRow =>
                        (zget colScale iCol Dbl.zero
                         * zget rowScale iRow Dbl.zero)%D))
    | Some colScale, None =>
        Some (kOk, scaled (fun iCol _ => zget colScale iCol Dbl.zero))
    | None, Some rowScale =>
        Some (kOk, scaled (fun _ iRow => zget rowScale iRow Dbl.zero))
    | None, None => Some (kOk, lp)
    end.

(** Entry [el] of the matrix lies in column [c]. *)
Definition in_column (m : HighsSparseMatrix) (c el : Z) : Prop :=
  zget (start_ m) c 0 <= el < zget (start_ m) (c + 1) 0.

(** *** Invariants used in the proofs *)

(** [el] is what the search loop of [getLpMatrixCoefficient] and of
    [changeLpMatrixCoefficient] leaves for [row] on the entries
    [lo .. hi): the first entry with that row index, or -1. *)
Definition found_entry (index : list Z) (row lo hi el : Z) : Prop :=
  (el = -1 /\ forall e, lo <= e < hi -> zget index e 0 <> row)
  \/ (lo <= el < hi /\ zget index el 0 = row
      /\ forall e, lo <= e < el -> zget index e 0 <> row).

(** What one loop of [cleanBounds] has done after [k] iterations that
    started from the arrays [lo], [up] and the counter [nc]. *)
Definition clean_inv (tol : double) (lo up : list double) (nc : Z) (k : nat)
    (st : bool * clean_state) : Prop :=
  let '(stop, (_, nc', lo', up')) := st in
  (stop = true <->
   exists i, (i < k)%nat /\ (residual_of lo up i >? tol)%D = true)
  /\ (stop = false ->
      length lo' = length lo /\ length up' = length up
      /\ (forall i,
            nth i lo' Dbl.zero
            = if bool_decide (i < k)%nat && (residual_of lo up i >? Dbl.zero)%D
              then midpoint_of lo up i else nth i lo Dbl.zero)
      /\ (forall i,
            nth i up' Dbl.zero
            = if bool_decide (i < k)%nat && (residual_of lo up i >? Dbl.zero)%D
              then midpoint_of lo up i else nth i up Dbl.zero)
      /\ nc <= nc'
      /\ (nc < nc' <->
          exists i, (i < k)%nat /\ (residual_of lo up i >? Dbl.zero)%D = true)).

End HighsLpUtils.

Definition for_z_down_until {S : Type} (hi lo : Z)
    (body : Z -> S -> bool * S) (s : S) : bool * S :=
  for_range_until (Z.to_nat (hi - lo + 1)) (fun k => body (hi - Z.of_nat k)) s.

(** ** simplex/HVector.h *)

Module HVector.

(** Modelled from the spec: the declaration of [HVector] is not among
    the sources. The three members that [chooseMakepack] reads are kept:
    the number of listed entries, their positions, and the dense array
    of the values. *)
Record t : Type := mk {
  count : Z;
  index : list Z;
  array : list double
}.

End HVector.

(** ** simplex/HEkkDualRow.cpp *)

Module HEkkDualRow.

(** The clocks that [chooseFinal] starts and stops, and the record of
    these calls kept by the analysis object (oldest first). *)
Inductive Clock : Type :=
| Chuzc2Clock
| Chuzc3Clock
| Chuzc3a0Clock
| Chuzc3a1Clock
| Chuzc3bClock
| Chuzc3cClock
| Chuzc3dClock
| Chuzc3eClock.

Inductive ClockEvent : Type :=
| Start (c : Clock)
| Stop (c : Clock).

Record HighsSimplexAnalysis : Type := mkAnalysis {
  num_quad_chuzc : Z;
  num_heap_chuzc : Z;
  sum_heap_chuzc_size : Z;
  max_heap_chuzc_size : Z;
  clock_log : list ClockEvent
}.

Definition simplexTimerStart (c : Clock) (a : HighsSimplexAnalysis) :
    HighsSimplexAnalysis :=
  mkAnalysis (num_quad_chuzc a) (num_heap_chuzc a) (sum_heap_chuzc_size a)
             (max_heap_chuzc_size a) (clock_log a ++ [Start c]).

Definition simplexTimerStop (c : Clock) (a : HighsSimplexAnalysis) :
    HighsSimplexAnalysis :=
  mkAnalysis (num_quad_chuzc a) (num_heap_chuzc a) (sum_heap_chuzc_size a)
             (max_heap_chuzc_size a) (clock_log a ++ [Stop c]).

(** The dual row together with the engine data it reaches through
    [ekk_instance_] and its pointers: [update_count],
    [dual_feasibility_tolerance], [highs_debug_level], the number
    [num_tot] of columns plus rows, and the arrays behind [workMove],
    [workDual], [workRange] and [workNumTotPermutation]. *)
Record HEkkDualRow : Type := mk {
  update_count : Z;
  dual_feasibility_tolerance : double;
  highs_debug_level : Z;
  num_tot : Z;
  workMove : list Z;
  workDual : list double;
  workRange : list double;
  workNumTotPermutation : list Z;
  packCount : Z;
  packIndex : list Z;
  packValue : list double;
  workDelta : double;
  workTheta : double;
  workCount : Z;
  workData : list (Z * double);
  workGroup : list Z;
  workPivot : Z;
  workAlpha : double;
  original_workData : list (Z * double);
  alt_workCount : Z;
  sorted_workData : list (Z * double);
  alt_workGroup : list Z;
  analysis : HighsSimplexAnalysis
}.
Definition set_workTheta (x : double) (r : HEkkDualRow) : HEkkDualRow :=
  mk (update_count r) (dual_feasibility_tolerance r) (highs_debug_level
     r) (num_tot r) (workMove r) (workDual r) (workRange r)
     (workNumTotPermutation r) (packCount r) (packIndex r) (packValue r)
     (workDelta r) x (workCount r) (workData r) (workGroup r) (workPivot
     r) (workAlpha r) (original_workData r) (alt_workCount r)
     (sorted_workData r) (alt_workGroup r) (analysis r).
Definition set_workCount (x : Z) (r : HEkkDualRow) : HEkkDualRow :=
  mk (update_count r) (dual_feasibility_tolerance r) (highs_debug_level
     r) (num_tot r) (workMove r) (workDual r) (workRange r)
     (workNumTotPermutation r) (packCount r) (packIndex r) (packValue r)
     (workDelta r) (workTheta r) x (workData r) (workGroup r) (workPivot
     r) (workAlpha r) (original_workData r) (alt_workCount r)
     (sorted_workData r) (alt_workGroup r) (analysis r).
Definition set_workData (x : list (Z * double)) (r : HEkkDualRow) : HEkkDualRow :=
  mk (update_count r) (dual_feasibility_tolerance r) (highs_debug_level
     r) (num_tot r) (workMove r) (workDual r) (workRange r)
     (workNumTotPermutation r) (packCount r) (packIndex r) (packValue r)
     (workDelta r) (workTheta r) (workCount r) x (workGroup r)
     (workPivot r) (workAlpha r) (original_workData r) (alt_workCount r)
     (sorted_workData r) (alt_workGroup r) (analysis r).
Definition set_workGroup (x : list Z) (r : HEkkDualRow) : HEkkDualRow :=
  mk (update_count r) (dual_feasibility_tolerance r) (highs_debug_level
     r) (num_tot r) (workMove r) (workDual r) (workRange r)
     (workNumTotPermutation r) (packCount r) (packIndex r) (packValue r)
     (workDelta r) (workTheta r) (workCount r) (workData r) x (workPivot
     r) (workAlpha r) (original_workData r) (alt_workCount r)
     (sorted_workData r) (alt_workGroup r) (analysis r).
Definition set_workPivot (x : Z) (r : HEkkDualRow) : HEkkDualRow :=
  mk (update_count r) (dual_feasibility_tolerance r) (highs_debug_level
     r) (num_tot r) (workMove r) (workDual r) (workRange r)
     (workNumTotPermutation r) (packCount r) (packIndex r) (packValue r)
     (workDelta r) (workTheta r) (workCount r) (workData r) (workGroup
     r) x (workAlpha r) (original_workData r) (alt_workCount r)
     (sorted_workData r) (alt_workGroup r) (analysis r).
Definition set_workAlpha (x : double) (r : HEkkDualRow) : HEkkDualRow :=
  mk (update_count r) (dual_feasibility_tolerance r) (highs_debug_level
     r) (num_tot r) (workMove r) (workDual r) (workRange r)
     (workNumTotPermutation r) (packCount r) (packIndex r) (packValue r)
     (workDelta r) (workTheta r) (workCount r) (workData r) (workGroup
     r) (workPivot r) x (original_workData r) (alt_workCount r)
     (sorted_workData r) (alt_workGroup r) (analysis r).
Definition set_original_workData (x : list (Z * double)) (r : HEkkDualRow) : HEkkDualRow :=
  mk (update_count r) (dual_feasibility_tolerance r) (highs_debug_level
     r) (num_tot r) (workMove r) (workDual r) (workRange r)
     (workNumTotPermutation r) (packCount r) (packIndex r) (packValue r)
     (workDelta r) (workTheta r) (workCount r) (workData r) (workGroup
     r) (workPivot r) (workAlpha r) x (alt_workCount r) (sorted_workData
     r) (alt_workGroup r) (analysis r).
Definition set_alt_workCount (x : Z) (r : HEkkDualRow) : HEkkDualRow :=
  mk (update_count r) (dual_feasibility_tolerance r) (highs_debug_level
     r) (num_tot r) (workMove r) (workDual r) (workRange r)
     (workNumTotPermutation r) (packCount r) (packIndex r) (packValue r)
     (workDelta r) (workTheta r) (workCount r) (workData r) (workGroup
     r) (workPivot r) (workAlpha r) (original_workData r) x
     (sorted_workData r) (alt_workGroup r) (analysis r).
Definition set_sorted_workData (x : list (Z * double)) (r : HEkkDualRow) : HEkkDualRow :=
  mk (update_count r) (dual_feasibility_tolerance r) (highs_debug_level
     r) (num_tot r) (workMove r) (workDual r) (workRange r)
     (workNumTotPermutation r) (packCount r) (packIndex r) (packValue r)
     (workDelta r) (workTheta r) (workCount r) (workData r) (workGroup
     r) (workPivot r) (workAlpha r) (original_workData r) (alt_workCount
     r) x (alt_workGroup r) (analysis r).
Definition set_alt_workGroup (x : list Z) (r : HEkkDualRow) : HEkkDualRow :=
  mk (update_count r) (dual_feasibility_tolerance r) (highs_debug_level
     r) (num_tot r) (workMove r) (workDual r) (workRange r)
     (workNumTotPermutation r) (packCount r) (packIndex r) (packValue r)
     (workDelta r) (workTheta r) (workCount r) (workData r) (workGroup
     r) (workPivot r) (workAlpha r) (original_workData r) (alt_workCount
     r) (sorted_workData r) x (analysis r).
Definition set_analysis (x : HighsSimplexAnalysis) (r : HEkkDualRow) : HEkkDualRow :=
  mk (update_count r) (dual_feasibility_tolerance r) (highs_debug_level
     r) (num_tot r) (workMove r) (workDual r) (workRange r)
     (workNumTotPermutation r) (packCount r) (packIndex r) (packValue r)
     (workDelta r) (workTheta r) (workCount r) (workData r) (workGroup
     r) (workPivot r) (workAlpha r) (original_workData r) (alt_workCount
     r) (sorted_workData r) (alt_workGroup r) x.
Definition timer_start (c : Clock) (r : HEkkDualRow) : HEkkDualRow :=
  set_analysis (simplexTimerStart c (analysis r)) r.
Definition timer_stop (c : Clock) (r : HEkkDualRow) : HEkkDualRow :=
  set_analysis (simplexTimerStop c (analysis r)) r.

(** Modelled from the spec: [kHighsInf] is declared outside the sources;
    it is +infinity. *)
Definition kHighsInf : double := Dbl.PInf.

(** Reads of the arrays; outside the bounds they yield 0 (a pair of
    zeros for [workData]). *)
Definition at_Z (l : list Z) (i : Z) : Z := zget l i 0.
Definition at_D (l : list double) (i : Z) : double := zget l i Dbl.zero.
Definition at_P (l : list (Z * double)) (i : Z) : Z * double :=
  zget l i (0, Dbl.zero).

(** [swap(l[i], l[j])] *)
Definition swap {A} (l : list A) (i j : Z) (d : A) : list A :=
  zset (zset l i (zget l j d)) j (zget l i d).

(** [workDelta < 0 ? -1 : 1] *)
Definition move_out_of (r : HEkkDualRow) : Z :=
  if (workDelta r <? Dbl.zero)%D then -1 else 1.

(** The tolerance [Ta] of [choosePossible]. *)
Definition Ta_of (r : HEkkDualRow) : double :=
  if bool_decide (update_count r < 10) then Dbl.lit 1e-9
  else if bool_decide (update_count r < 20) then Dbl.lit 3e-8
  else Dbl.lit 1e-6.

(** [void HEkkDualRow::choosePossible()] *)
Definition choosePossible (r : HEkkDualRow) : HEkkDualRow :=
  let Ta := Ta_of r in
  let Td := dual_feasibility_tolerance r in
  let move_out := move_out_of r in
  let r := set_workTheta kHighsInf r in
  let r := set_workCount 0 r in
  for_z 0 (packCount r)
    (fun i r =>
       let iCol := at_Z (packIndex r) i in
       let move := at_Z (workMove r) iCol in
       let alpha :=
         (at_D (packValue r) i * Dbl.of_int move_out * Dbl.of_int move)%D in
       if (alpha >? Ta)%D then
         let r := set_workData (zset (workData r) (workCount r) (iCol, alpha)) r in
         let r := set_workCount (workCount r + 1) r in
         let relax := (at_D (workDual r) iCol * Dbl.of_int move + Td)%D in
         if (workTheta r * alpha >? relax)%D
         then set_workTheta (relax / alpha)%D r
         else r
       else r)
    r.

Section Engine.

(** Constants and routines declared outside the sources:
    the three constants of HEkkDualRow.h, the debug level threshold, and
    the two sorting routines ([maxheapsort] on the 1-based arrays
    [heap_v], [heap_i] with their count; [pdqsort] on a range of
    pairs). *)
Variable kInitialTotalChange : double.
Variable kInitialRemainTheta : double.
Variable kMaxSelectTheta : double.
Variable kHighsDebugLevelCheap : Z.
Variable maxheapsort : list double -> list Z -> Z -> list double * list Z.
Variable pdqsort : list (Z * double) -> list (Z * double).

(** One pass of the inner [for] loop of step 1 of [chooseFinal], on
    ([workCount], [workData], [totalChange]). *)
Definition reduce_pass (r : HEkkDualRow) (fullCount : Z)
    (selectTheta : double) (st : Z * list (Z * double) * double) :
    Z * list (Z * double) * double :=
  for_z (fst (fst st)) fullCount
    (fun i (st : Z * list (Z * double) * double) =>
       let '(workCount, workData, totalChange) := st in
       let iCol := fst (at_P workData i) in
       let alpha := snd (at_P workData i) in
       let tight :=
         (Dbl.of_int (at_Z (workMove r) iCol) * at_D (workDual r) iCol)%D in
       if (alpha * selectTheta >=? tight)%D then
         (workCount + 1, swap workData workCount i (0, Dbl.zero),
          (totalChange + at_D (workRange r) iCol * alpha)%D)
       else st)
    st.

(** The [for (;;)] loop of step 1; [None] when the fuel runs out. *)
Fixpoint reduce_loop (fuel : nat) (r : HEkkDualRow) (fullCount : Z)
    (totalDelta selectTheta : double) (st : Z * list (Z * double) * double) :
    option (Z * list (Z * double) * double) :=
  match fuel with
  | O => None
  | S fuel' =>
      let st' := reduce_pass r fullCount selectTheta st in
      let selectTheta' := (selectTheta * Dbl.of_int 10)%D in
      let '(workCount, _, totalChange) := st' in
      if (totalChange >=? totalDelta)%D || (workCount =? fullCount)
      then Some st'
      else reduce_loop fuel' r fullCount totalDelta selectTheta' st'
  end.

(** The state of the [while] loop of [chooseFinalWorkGroupQuad]. *)
Record quad_state : Type := mkQuad {
  q_row : HEkkDualRow;
  q_totalChange : double;
  q_selectTheta : double;
  q_prev_workCount : Z;
  q_prev_remainTheta : double;
  q_prev_selectTheta : double
}.

(** The inner [for] loop of [chooseFinalWorkGroupQuad], on
    ([workCount], [workData], [totalChange], [remainTheta]). *)
Definition quad_pass (r : HEkkDualRow) (fullCount : Z) (Td selectTheta : double)
    (st : Z * list (Z * double) * double * double) :
    Z * list (Z * double) * double * double :=
  for_z (fst (fst (fst st))) fullCount
    (fun i (st : Z * list (Z * double) * double * double) =>
       let '(workCount, workData, totalChange, remainTheta) := st in
       let iCol := fst (at_P workData i) in
       let value := snd (at_P workData i) in
       let dual :=
         (Dbl.of_int (at_Z (workMove r) iCol) * at_D (workDual r) iCol)%D in
       if (dual <=? selectTheta * value)%D then
         (workCount + 1, swap workData workCount i (0, Dbl.zero),
          (totalChange + value * at_D (workRange r) iCol)%D, remainTheta)
       else if (dual + Td <? remainTheta * value)%D then
         (workCount, workData, totalChange, ((dual + Td) / value)%D)
       else st)
    st.

(** The [while] loop of [chooseFinalWorkGroupQuad]: [Some (false, r)] is
    the [return false] inside the loop, [Some (true, r)] leaving the
    loop, [None] running out of fuel. *)
Fixpoint quad_loop (fuel : nat) (fullCount : Z) (Td totalDelta : double)
    (q : quad_state) : option (bool * HEkkDualRow) :=
  match fuel with
  | O => None
  | S fuel' =>
      let r := q_row q in
      if (q_selectTheta q <? kMaxSelectTheta)%D then
        let '(workCount, workData, totalChange, remainTheta) :=
          quad_pass r fullCount Td (q_selectTheta q)
            (workCount r, workData r, q_totalChange q, kInitialRemainTheta) in
        let r := set_workData workData (set_workCount workCount r) in
        let r := set_workGroup (workGroup r ++ [workCount]) r in
        let selectTheta := remainTheta in
        if (workCount =? q_prev_workCount q)
           && (q_prev_selectTheta q ==? selectTheta)%D
           && (q_prev_remainTheta q ==? remainTheta)%D
        then Some (false, r)
        else if (totalChange >=? totalDelta)%D || (workCount =? fullCount)
        then Some (true, r)
        else
          quad_loop fuel' fullCount Td totalDelta
            (mkQuad r totalChange selectTheta workCount remainTheta selectTheta)
      else Some (true, r)
  end.

(** [bool HEkkDualRow::chooseFinalWorkGroupQuad()] *)
Definition chooseFinalWorkGroupQuad (fuel : nat) (r : HEkkDualRow) :
    option (bool * HEkkDualRow) :=
  let Td := dual_feasibility_tolerance r in
  let fullCount := workCount r in
  let r := set_workCount 0 r in
  let totalChange := kInitialTotalChange in
  let selectTheta := workTheta r in
  let totalDelta := Dbl.fabs (workDelta r) in
  let r := set_workGroup [0] r in
  let prev_workCount := workCount r in
  let prev_remainTheta := kInitialRemainTheta in
  let prev_selectTheta := selectTheta in
  match
    quad_loop fuel fullCount Td totalDelta
      (mkQuad r totalChange selectTheta prev_workCount prev_remainTheta
              prev_selectTheta)
  with
  | None => None
  | Some (false, r) => Some (false, r)
  | Some (true, r) =>
      if bool_decide (Z.of_nat (length (workGroup r)) <= 1)
      then Some (false, r)
      else Some (true, r)
  end.

(** [bool HEkkDualRow::chooseFinalWorkGroupHeap()] *)
Definition chooseFinalWorkGroupHeap (r : HEkkDualRow) : bool * HEkkDualRow :=
  let Td := dual_feasibility_tolerance r in
  let fullCount := alt_workCount r in
  let totalChange := kInitialTotalChange in
  let selectTheta := workTheta r in
  let totalDelta := Dbl.fabs (workDelta r) in
  let heap_i0 := replicate (Z.to_nat (fullCount + 1)) 0 in
  let heap_v0 := replicate (Z.to_nat (fullCount + 1)) Dbl.zero in
  let '(heap_num_en, heap_i, heap_v) :=
    for_z 0 fullCount
      (fun i (h : Z * list Z * list double) =>
         let '(heap_num_en, heap_i, heap_v) := h in
         let iCol := fst (at_P (original_workData r) i) in
         let value := snd (at_P (original_workData r) i) in
         let dual :=
           (Dbl.of_int (at_Z (workMove r) iCol) * at_D (workDual r) iCol)%D in
         let ratio := (dual / value)%D in
         if (ratio <? kMaxSelectTheta)%D then
           let heap_num_en := heap_num_en + 1 in
           (heap_num_en, zset heap_i heap_num_en i, zset heap_v heap_num_en ratio)
         else h)
      (0, heap_i0, heap_v0) in
  let (heap_v, heap_i) := maxheapsort heap_v heap_i heap_num_en in
  let r := set_alt_workCount 0 r in
  let r := set_alt_workGroup [alt_workCount r] r in
  if bool_decide (heap_num_en <= 0) then (false, r)
  else
    let this_group_first_entry := alt_workCount r in
    let r :=
      set_sorted_workData
        (resize (Z.to_nat heap_num_en) (0, Dbl.zero) (sorted_workData r)) r in
    let '(_, (r, totalChange, selectTheta, this_group_first_entry)) :=
      for_z_until 1 (heap_num_en + 1)
        (fun en (st : HEkkDualRow * double * double * Z) =>
           let '(r, totalChange, selectTheta, this_group_first_entry) := st in
           let i := at_Z heap_i en in
           let iCol := fst (at_P (original_workData r) i) in
           let value := snd (at_P (original_workData r) i) in
           let dual :=
             (Dbl.of_int (at_Z (workMove r) iCol) * at_D (workDual r) iCol)%D in
           let store (r : HEkkDualRow) (totalChange selectTheta : double)
               (first : Z) :=
             let r :=
               set_sorted_workData
                 (zset (sorted_workData r) (alt_workCount r) (iCol, value)) r in
             let totalChange :=
               (totalChange + value * at_D (workRange r) iCol)%D in
             let r := set_alt_workCount (alt_workCount r + 1) r in
             (false, (r, totalChange, selectTheta, first)) in
           if (dual >? selectTheta * value)%D then
             let r := set_alt_workGroup (alt_workGroup r ++ [alt_workCount r]) r in
             let this_group_first_entry := alt_workCount r in
             let selectTheta := ((dual + Td) / value)%D in
             if (totalChange >=? totalDelta)%D
             then (true, (r, totalChange, selectTheta, this_group_first_entry))
             else store r totalChange selectTheta this_group_first_entry
           else store r totalChange selectTheta this_group_first_entry)
        (r, totalChange, selectTheta, this_group_first_entry) in
    let r :=
      if bool_decide (alt_workCount r > this_group_first_entry)
      then set_alt_workGroup (alt_workGroup r ++ [alt_workCount r]) r
      else r in
    (true, r).

(** [void HEkkDualRow::chooseFinalLargeAlpha(breakIndex, breakGroup,
    pass_workCount, pass_workData, pass_workGroup)]; the result is
    ([breakIndex], [breakGroup]). *)
Definition chooseFinalLargeAlpha (r : HEkkDualRow) (pass_workCount : Z)
    (pass_workData : list (Z * double)) (pass_workGroup : list Z) : Z * Z :=
  let finalCompare :=
    for_z 0 pass_workCount
      (fun i fc => Dbl.max fc (snd (at_P pass_workData i))) Dbl.zero in
  let finalCompare :=
    Dbl.min (Dbl.lit 0.1 * finalCompare)%D (Dbl.lit 1.0) in
  let countGroup := Z.of_nat (length pass_workGroup) - 1 in
  snd
    (for_z_down_until (countGroup - 1) 0
       (fun iGroup (_ : Z * Z) =>
          let '(dMaxFinal, iMaxFinal) :=
            for_z (at_Z pass_workGroup iGroup) (at_Z pass_workGroup (iGroup + 1))
              (fun i (m : double * Z) =>
                 let '(dMaxFinal, iMaxFinal) := m in
                 if (dMaxFinal <? snd (at_P pass_workData i))%D then
                   (snd (at_P pass_workData i), i)
                 else if (dMaxFinal ==? snd (at_P pass_workData i))%D then
                   let jCol := fst (at_P pass_workData iMaxFinal) in
                   let iCol := fst (at_P pass_workData i) in
                   if bool_decide
                        (at_Z (workNumTotPermutation r) iCol
                         < at_Z (workNumTotPermutation r) jCol)
                   then (dMaxFinal, i)
                   else m
                 else m)
              (Dbl.zero, -1) in
          if (snd (at_P pass_workData iMaxFinal) >? finalCompare)%D
          then (true, (iMaxFinal, iGroup))
          else (false, (-1, -1)))
       (-1, -1)).

(** [HighsInt HEkkDualRow::debugChooseColumnInfeasibilities() const];
    the output of [printf] is not modelled. *)
Definition debugChooseColumnInfeasibilities (r : HEkkDualRow) : Z :=
  if bool_decide (highs_debug_level r < kHighsDebugLevelCheap) then 0
  else
    let unpack_value :=
      for_z 0 (packCount r)
        (fun ix u => zset u (at_Z (packIndex r) ix) (at_D (packValue r) ix))
        (replicate (Z.to_nat (num_tot r)) Dbl.zero) in
    let Td := dual_feasibility_tolerance r in
    for_z 0 (workCount r)
      (fun i num_infeasibility =>
         let iCol := fst (at_P (workData r) i) in
         let value := at_D unpack_value iCol in
         let move := at_Z (workMove r) iCol in
         let dual := at_D (workDual r) iCol in
         let new_dual := (dual - workTheta r * value)%D in
         let infeasibility_after_flip := (Dbl.of_int (- move) * new_dual)%D in
         if (infeasibility_after_flip <? - Td)%D
         then num_infeasibility + 1
         else num_infeasibility)
      0.

(** The flag [use_quad_sort] as [chooseFinal] sets it: the test
    [workCount < 100] is commented out in the source, and the flag is
    the constant [true]. *)
Definition use_quad_sort (workCount : Z) : bool := true.
Definition use_heap_sort (workCount : Z) : bool := negb (use_quad_sort workCount).

(** Step 4 of [chooseFinal] for the quadratic sort: the flip list. *)
Definition flips_quad (r : HEkkDualRow) (breakGroup : Z) : HEkkDualRow :=
  for_z 0 (at_Z (workGroup r) breakGroup)
    (fun i r =>
       let iCol := fst (at_P (workData r) i) in
       let move := at_Z (workMove r) iCol in
       let r :=
         set_workData
           (zset (workData r) (workCount r)
                 (iCol, (Dbl.of_int move * at_D (workRange r) iCol)%D)) r in
       set_workCount (workCount r + 1) r)
    r.

(** Step 4 of [chooseFinal] for the heap sort. *)
Definition flips_heap (r : HEkkDualRow) (breakGroup move_out : Z) : HEkkDualRow :=
  let r :=
    for_z 0 (at_Z (alt_workGroup r) breakGroup)
      (fun i r =>
         let iCol := fst (at_P (sorted_workData r) i) in
         let move := at_Z (workMove r) iCol in
         let r :=
           set_workData
             (zset (workData r) (workCount r)
                   (iCol, (Dbl.of_int move * at_D (workRange r) iCol)%D)) r in
         set_workCount (workCount r + 1) r)
      r in
  let to_i := at_Z (alt_workGroup r) (breakGroup + 1) in
  let Td := dual_feasibility_tolerance r in
  for_z (at_Z (alt_workGroup r) breakGroup) to_i
    (fun i r =>
       let iCol := fst (at_P (sorted_workData r) i) in
       let value := snd (at_P (sorted_workData r) i) in
       let move := at_Z (workMove r) iCol in
       let dual := at_D (workDual r) iCol in
       let new_dual :=
         (dual - Dbl.of_int (move_out * move) * workTheta r * value)%D in
       let new_dual_infeasibility := (Dbl.of_int move * new_dual)%D in
       if (new_dual_infeasibility <? - Td)%D then
         let r :=
           set_workData
             (zset (workData r) (workCount r)
                   (iCol, (Dbl.of_int move * at_D (workRange r) iCol)%D)) r in
         set_workCount (workCount r + 1) r
       else r)
    r.

(** Step 3 of [chooseFinal], the two calls of [chooseFinalLargeAlpha]:
    the result is ([breakIndex], [breakGroup]). The four variables are
    declared without a value; 0 stands for it. *)
Definition choose_break (use_quad_sort use_heap_sort : bool)
    (r : HEkkDualRow) : Z * Z :=
  let '(breakIndex, breakGroup) :=
    if use_quad_sort
    then chooseFinalLargeAlpha r (workCount r) (workData r) (workGroup r)
    else (0, 0) in
  let '(alt_breakIndex, alt_breakGroup) :=
    if use_heap_sort
    then chooseFinalLargeAlpha r (alt_workCount r) (sorted_workData r)
           (alt_workGroup r)
    else (0, 0) in
  if negb use_quad_sort then (alt_breakIndex, alt_breakGroup)
  else (breakIndex, breakGroup).

(** The assignments to [workPivot] and [workAlpha]. *)
Definition set_pivot (use_quad_sort : bool) (breakIndex : Z)
    (r : HEkkDualRow) : HEkkDualRow :=
  let move_out := move_out_of r in
  let data := if use_quad_sort then workData r else sorted_workData r in
  let r := set_workPivot (fst (at_P data breakIndex)) r in
  set_workAlpha
    (snd (at_P data breakIndex) * Dbl.of_int move_out
     * Dbl.of_int (at_Z (workMove r) (workPivot r)))%D r.

(** The dual step:
    [if (workDual[workPivot] * workMove[workPivot] > 0)
       workTheta = workDual[workPivot] / workAlpha; else workTheta = 0;] *)
Definition set_theta (r : HEkkDualRow) : HEkkDualRow :=
  if (at_D (workDual r) (workPivot r)
      * Dbl.of_int (at_Z (workMove r) (workPivot r)) >? Dbl.zero)%D
  then set_workTheta (at_D (workDual r) (workPivot r) / workAlpha r)%D r
  else set_workTheta Dbl.zero r.

(** [if (workTheta == 0) workCount = 0;] *)
Definition drop_flips_if_degenerate (r : HEkkDualRow) : HEkkDualRow :=
  if (workTheta r ==? Dbl.zero)%D then set_workCount 0 r else r.

(** [pdqsort(workData.begin(), workData.begin() + workCount);] *)
Definition sort_flips (r : HEkkDualRow) : HEkkDualRow :=
  set_workData
    (pdqsort (take (Z.to_nat (workCount r)) (workData r))
     ++ drop (Z.to_nat (workCount r)) (workData r)) r.

(** Steps 3 and 4 of [chooseFinal], entered once the grouping has
    succeeded. *)
Definition chooseFinal_pivot (use_quad_sort use_heap_sort : bool)
    (r : HEkkDualRow) : Z * HEkkDualRow :=
  (* 3. Choose large alpha *)
  let r := timer_start Chuzc3bClock r in
  let '(breakIndex, breakGroup) := choose_break use_quad_sort use_heap_sort r in
  let r := timer_stop Chuzc3bClock r in
  let r := timer_start Chuzc3cClock r in
  let move_out := move_out_of r in
  let r := set_pivot use_quad_sort breakIndex r in
  let r := set_theta r in
  let r := timer_stop Chuzc3cClock r in
  let r := timer_start Chuzc3dClock r in
  (* 4. Determine BFRT flip index: flip all *)
  let r := set_workCount 0 r in
  let r :=
    if use_quad_sort then flips_quad r breakGroup
    else flips_heap r breakGroup move_out in
  let r := drop_flips_if_degenerate r in
  let r := timer_stop Chuzc3dClock r in
  let r := timer_start Chuzc3eClock r in
  let r := sort_flips r in
  let r := timer_stop Chuzc3eClock r in
  let r := timer_stop Chuzc3Clock r in
  let num_infeasibility := debugChooseColumnInfeasibilities r in
  if negb (num_infeasibility =? 0) then (-1, timer_stop Chuzc3dClock r)
  else (0, r).

(** [HighsInt HEkkDualRow::chooseFinal()]. [fuel] bounds the number of
    passes of each of the two unbounded loops; the result is [None] when
    it does not suffice. The flag [reached_pivot] of the result tells
    whether the call got past the grouping (step 2). *)
Definition chooseFinal (fuel : nat) (r : HEkkDualRow) :
    option (Z * bool * HEkkDualRow) :=
  (* 1. Reduce by large step BFRT *)
  let r := timer_start Chuzc2Clock r in
  let fullCount := workCount r in
  let r := set_workCount 0 r in
  let totalChange := Dbl.zero in
  let totalDelta := Dbl.fabs (workDelta r) in
  let selectTheta := (Dbl.of_int 10 * workTheta r + Dbl.lit 1e-7)%D in
  match
    reduce_loop fuel r fullCount totalDelta selectTheta
      (workCount r, workData r, totalChange)
  with
  | None => None
  | Some (workCount1, workData1, _) =>
      let r := set_workData workData1 (set_workCount workCount1 r) in
      let r := timer_stop Chuzc2Clock r in
      (* 2. Choose by small step BFRT *)
      let use_quad_sort := use_quad_sort (workCount r) in
      let use_heap_sort := use_heap_sort (workCount r) in
      let a := analysis r in
      let a :=
        if bool_decide (workCount r < 100) then
          mkAnalysis (num_quad_chuzc a + 1) (num_heap_chuzc a)
            (sum_heap_chuzc_size a) (max_heap_chuzc_size a) (clock_log a)
        else
          mkAnalysis (num_quad_chuzc a) (num_heap_chuzc a + 1)
            (sum_heap_chuzc_size a + workCount r)
            (Z.max (workCount r) (max_heap_chuzc_size a)) (clock_log a) in
      let r := set_analysis a r in
      let r :=
        if use_heap_sort
        then set_alt_workCount (workCount r) (set_original_workData (workData r) r)
        else r in
      let r := timer_start Chuzc3Clock r in
      (* choose_ok is declared without a value; false stands for it *)
      let quad :=
        if use_quad_sort then
          let r := timer_start Chuzc3a0Clock r in
          match chooseFinalWorkGroupQuad fuel r with
          | None => None
          | Some (ok, r) => Some (ok, timer_stop Chuzc3a0Clock r)
          end
        else Some (false, r) in
      match quad with
      | None => None
      | Some (choose_ok, r) =>
          let '(choose_ok, r) :=
            if use_heap_sort then
              let r := timer_start Chuzc3a1Clock r in
              let '(ok, r) := chooseFinalWorkGroupHeap r in
              (ok, timer_stop Chuzc3a1Clock r)
            else (choose_ok, r) in
          if negb choose_ok then Some (-1, false, timer_stop Chuzc3Clock r)
          else
            let '(ret, r) := chooseFinal_pivot use_quad_sort use_heap_sort r in
            Some (ret, true, r)
      end
  end.

End Engine.

(** *** clear, chooseMakepack, chooseJoinpack, debugFindInWorkData *)

Definition set_packCount (x : Z) (r : HEkkDualRow) : HEkkDualRow :=
  mk (update_count r) (dual_feasibility_tolerance r)
     (highs_debug_level r) (num_tot r) (workMove r) (workDual r)
     (workRange r) (workNumTotPermutation r) x (packIndex r)
     (packValue r) (workDelta r) (workTheta r) (workCount r) (workData
     r) (workGroup r) (workPivot r) (workAlpha r) (original_workData
     r) (alt_workCount r) (sorted_workData r) (alt_workGroup r)
     (analysis r).
Definition set_packIndex (x : list Z) (r : HEkkDualRow) : HEkkDualRow :=
  mk (update_count r) (dual_feasibility_tolerance r)
     (highs_debug_level r) (num_tot r) (workMove r) (workDual r)
     (workRange r) (workNumTotPermutation r) (packCount r) x
     (packValue r) (workDelta r) (workTheta r) (workCount r) (workData
     r) (workGroup r) (workPivot r) (workAlpha r) (original_workData
     r) (alt_workCount r) (sorted_workData r) (alt_workGroup r)
     (analysis r).
Definition set_packValue (x : list double) (r : HEkkDualRow) : HEkkDualRow :=
  mk (update_count r) (dual_feasibility_tolerance r)
     (highs_debug_level r) (num_tot r) (workMove r) (workDual r)
     (workRange r) (workNumTotPermutation r) (packCount r) (packIndex
     r) x (workDelta r) (workTheta r) (workCount r) (workData r)
     (workGroup r) (workPivot r) (workAlpha r) (original_workData r)
     (alt_workCount r) (sorted_workData r) (alt_workGroup r) (analysis
     r).
Definition set_workMove (x : list Z) (r : HEkkDualRow) : HEkkDualRow :=
  mk (update_count r) (dual_feasibility_tolerance r)
     (highs_debug_level r) (num_tot r) x (workDual r) (workRange r)
     (workNumTotPermutation r) (packCount r) (packIndex r) (packValue
     r) (workDelta r) (workTheta r) (workCount r) (workData r)
     (workGroup r) (workPivot r) (workAlpha r) (original_workData r)
     (alt_workCount r) (sorted_workData r) (alt_workGroup r) (analysis
     r).

(** [void HEkkDualRow::clear()] *)
Definition clear (r : HEkkDualRow) : HEkkDualRow :=
  let r := set_packCount 0 r in
  set_workCount 0 r.

(** [void HEkkDualRow::chooseMakepack(const HVector* row, const HighsInt
    offset)] *)
Definition chooseMakepack (row : HVector.t) (offset : Z) (r : HEkkDualRow) :
    HEkkDualRow :=
  let rowCount := HVector.count row in
  let rowIndex := HVector.index row in
  let rowArray := HVector.array row in
  for_z 0 rowCount
    (fun i r =>
       let index := at_Z rowIndex i in
       let value := at_D rowArray index in
       let r := set_packIndex (zset (packIndex r) (packCount r) (index + offset)) r in
       let r := set_packValue (zset (packValue r) (packCount r) value) r in
       set_packCount (packCount r + 1) r)
    r.

(** [copy(first, first + n, &dest[at])], element by element. *)
Definition copy_into {A} (src : list A) (n : Z) (dest : list A) (at_ : Z)
    (d : A) : list A :=
  for_z 0 n (fun i dest => zset dest (at_ + i) (zget src i d)) dest.

(** [void HEkkDualRow::chooseJoinpack(const HEkkDualRow* otherRow)] *)
Definition chooseJoinpack (otherRow : HEkkDualRow) (r : HEkkDualRow) :
    HEkkDualRow :=
  let otherCount := workCount otherRow in
  let otherData := workData otherRow in
  let r :=
    set_workData
      (copy_into otherData otherCount (workData r) (workCount r)
         (0, Dbl.zero)) r in
  let r := set_workCount (workCount r + otherCount) r in
  set_workTheta (Dbl.min (workTheta r) (workTheta otherRow)) r.

(** [HighsInt HEkkDualRow::debugFindInWorkData(const HighsInt iCol, const
    HighsInt count, const std::vector<std::pair<HighsInt, HighsFloat>>&
    workData_)] *)
Definition debugFindInWorkData (iCol count : Z)
    (workData_ : list (Z * double)) : Z :=
  snd (for_z_until 0 count
         (fun Ix ret =>
            if fst (at_P workData_ Ix) =? iCol then (true, Ix)
            else (false, ret))
         (-1)).

(** *** createFreelist, deleteFreemove, deleteFreelist *)

(** The member [freeList] is a [std::set<HighsInt>]; the arrays
    [nonbasicFlag_], [workLower_] and [workUpper_] of the engine are
    passed to [createFreelist], which returns the new [freeList]. *)
Definition createFreelist (nonbasicFlag_ : list Z)
    (workLower_ workUpper_ : list double) (r : HEkkDualRow) : gset Z :=
  let freeList : gset Z := ∅ in
  for_z 0 (num_tot r)
    (fun i freeList =>
       if negb (at_Z nonbasicFlag_ i =? 0)
          && HighsUtils.highs_isInfinity (- at_D workLower_ i)%D
          && HighsUtils.highs_isInfinity (at_D workUpper_ i)
       then {[ i ]} ∪ freeList
       else freeList)
    freeList.

(** [void HEkkDualRow::deleteFreemove()]: [num_col_] is the number of
    columns of the LP of the engine. The result is [None] when the
    assertion [iCol < num_col_] fails. The cells written for the members
    of the set are distinct, so the moves that result do not depend on
    the order in which the set is visited. *)
Definition deleteFreemove (num_col_ : Z) (freeList : gset Z)
    (r : HEkkDualRow) : option HEkkDualRow :=
  if negb (bool_decide (freeList = ∅)) then
    match
      foldl
        (fun (moves : option (list Z)) iCol =>
           match moves with
           | None => None
           | Some moves =>
               if bool_decide (iCol < num_col_)
               then Some (zset moves iCol 0)
               else None
           end)
        (Some (workMove r)) (elements freeList)
    with
    | Some moves => Some (set_workMove moves r)
    | None => None
    end
  else Some r.

(** [void HEkkDualRow::deleteFreelist(HighsInt iColumn)] *)
Definition deleteFreelist (iColumn : Z) (freeList : gset Z) : gset Z :=
  if negb (bool_decide (freeList = ∅)) then
    if bool_decide (iColumn ∈ freeList) then freeList ∖ {[ iColumn ]}
    else freeList
  else freeList.

(** *** Invariants used in the proofs *)

(** The part of a dual row that the flip loops of [chooseFinal] leave
    alone. *)
Definition same_step (r r' : HEkkDualRow) : Prop :=
  workTheta r' = workTheta r
  /\ workPivot r' = workPivot r
  /\ workDual r' = workDual r
  /\ workMove r' = workMove r.

End HEkkDualRow.

(** ** presolve/PresolveComponent.cpp *)

Module PresolveComponent.

(** Modelled from the spec: the declaration of [HighsModelStatus] is not
    among the sources. The three enumerators that [run] names are kept;
    [OTHER_STATUS k] stands for each of the remaining enumerators. *)
Inductive HighsModelStatus : Type :=
| PRIMAL_INFEASIBLE
| DUAL_INFEASIBLE
| OPTIMAL
| OTHER_STATUS (k : nat).

(** Modelled from the spec: the declaration of [HighsPresolveStatus] is
    not among the sources; section 7 lists its seven outcomes, and
    lp_data/HighsSetup.h names them. *)
Inductive HighsPresolveStatus : Type :=
| NotReduced
| Reduced
| ReducedToEmpty
| Infeasible
| Unbounded
| NullError
| Error.

(** [PresolveComponent::run]: [status] is the value returned by
    [presolve.run(data_.postSolveStack, startBasis)]. *)
Definition run (status : HighsModelStatus) : HighsPresolveStatus :=
  match status with
  | PRIMAL_INFEASIBLE => Infeasible
  | DUAL_INFEASIBLE => Unbounded
  | OPTIMAL => ReducedToEmpty
  | _ => Reduced
  end.

(** *** negateReducedLpColDuals *)

(** [void PresolveComponent::negateReducedLpColDuals(bool reduced)]:
    [numCol_] is [data_.reduced_lp_.numCol_] and [col_dual] is
    [data_.recovered_solution_.col_dual]; the result is the array after
    the call. *)
Definition negateReducedLpColDuals (reduced : bool) (numCol_ : Z)
    (col_dual : list double) : list double :=
  for_z 0 numCol_
    (fun col col_dual => zset col_dual col (- zget col_dual col Dbl.zero)%D)
    col_dual.

(** *** presolve::checkOptions *)

(** Modelled from the spec: the declaration of [PresolveComponentOptions]
    is not among the sources; the three members that [checkOptions]
    reads are kept. *)
Record PresolveComponentOptions : Type := mkOptions {
  dev : bool;
  iteration_strategy : string;
  max_iterations : Z
}.

(** [ostream << integer] on [std::cout]. *)
Definition show (z : Z) : string :=
  string_of_list_ascii (HighsLpUtils.show_int z).

Definition endl : string := String "010"%char EmptyString.

(** [bool presolve::checkOptions(const PresolveComponentOptions&
    options)]: the result, and the text sent to [std::cout]. *)
Definition checkOptions (options : PresolveComponentOptions) :
    bool * string :=
  let cout := EmptyString in
  let cout :=
    if dev options then (cout ++ "Checking presolve options... ")%string
    else cout in
  if negb (String.eqb (iteration_strategy options) "smart"
           || String.eqb (iteration_strategy options) "off"
           || String.eqb (iteration_strategy options) "num_limit")
  then
    let cout :=
      if dev options
      then (cout ++ "error: iteration strategy unknown: "
            ++ iteration_strategy options ++ "." ++ endl)%string
      else cout in
    (false, cout)
  else if String.eqb (iteration_strategy options) "num_limit"
          && bool_decide (max_iterations options < 0)
  then
    let cout :=
      if dev options
      then (cout ++ "warning: negative iteration limit: "
            ++ show (max_iterations options)
            ++ ". Presolve will be run with no limit on iterations."
            ++ endl)%string
      else cout in
    (false, cout)
  else (true, cout).

End PresolveComponent.

(** ** The routines whose results depend on rounding, in binary64 *)

(** The modules above compute with exact rationals.  The results of the
    routines below depend on how each operation rounds, so they are
    modelled again on [float], operation by operation as the sources
    write them. *)
Module Binary64.

(** *** external/qpsolver/vector.hpp *)

Module Vector.

Record Vector : Type := mk {
  num_nz : nat;
  dim : nat;
  index : list nat;
  value : list float
}.

(** [index[i]] and [value[i]]; reads outside the arrays yield 0. *)
Definition idx (v : Vector) (i : nat) : nat := nth i (index v) 0%nat.
Definition val (v : Vector) (i : nat) : float := nth i (value v) 0%float.

(** [double norm2()] *)
Definition norm2 (v : Vector) : float :=
  for_range (num_nz v)
    (fun i val_ => (val_ + val v (idx v i) * val v (idx v i))%float) 0%float.

(** [double dot(const Vector& other) const] *)
Definition dot (v other : Vector) : float :=
  for_range (num_nz v)
    (fun i dot_ => (dot_ + val v (idx v i) * val other (idx v i))%float)
    0%float.

End Vector.

(** *** external/qpsolver/instance.hpp *)

Module Instance.

(** The members of [Instance] that [sumnumprimalinfeasibilities]
    reads. *)
Record Instance : Type := mk {
  num_var : nat;
  num_con : nat;
  con_lo : list float;
  con_up : list float;
  var_lo : list float;
  var_up : list float
}.

(** [struct SumNum] *)
Record SumNum : Type := mkSumNum {
  sum : float;
  num : nat
}.

(** The body of either loop of [sumnumprimalinfeasibilities], for the
    activity [a] of a row or variable with the bounds [lo] and [up]. *)
Definition infeasibility_step (a lo up : float) (res : SumNum) : SumNum :=
  if (a <? lo)%float then mkSumNum (sum res + (lo - a))%float (S (num res))
  else if F64.gtb a up then mkSumNum (sum res + (a - up))%float (S (num res))
  else res.

(** [SumNum sumnumprimalinfeasibilities(const Vector& x, const Vector&
    rowactivity)] *)
Definition sumnumprimalinfeasibilities (inst : Instance)
    (x rowactivity : Vector.Vector) : SumNum :=
  let res := mkSumNum 0%float 0%nat in
  let res :=
    for_range (num_con inst)
      (fun row res =>
         infeasibility_step (Vector.val rowactivity row)
           (nth row (con_lo inst) 0%float) (nth row (con_up inst) 0%float)
           res)
      res in
  for_range (num_var inst)
    (fun var res =>
       infeasibility_step (Vector.val x var)
         (nth var (var_lo inst) 0%float) (nth var (var_up inst) 0%float)
         res)
    res.

(** The two tests of the loops: [a] lies outside [lo, up]. *)
Definition out_of_bounds (a lo up : float) : bool :=
  (a <? lo)%float || F64.gtb a up.

(** The rows, and the variables, whose activity lies outside the bounds. *)
Definition infeasible_rows (inst : Instance) (rowactivity : Vector.Vector) :
    list nat :=
  List.filter
    (fun row =>
       out_of_bounds (Vector.val rowactivity row)
         (nth row (con_lo inst) 0%float) (nth row (con_up inst) 0%float))
    (seq 0 (num_con inst)).

Definition infeasible_vars (inst : Instance) (x : Vector.Vector) : list nat :=
  List.filter
    (fun var =>
       out_of_bounds (Vector.val x var)
         (nth var (var_lo inst) 0%float) (nth var (var_up inst) 0%float))
    (seq 0 (num_var inst)).

End Instance.

(** *** lp_data/HighsLpUtils.cpp *)

Module HighsLpUtils.

(** Modelled from the spec: the declaration of [HighsLp] is not among
    the sources; the fields are the dimensions and the bounds that
    [cleanBounds] reads and writes (section 3, LP model). *)
Record HighsLp : Type := mkLp {
  num_col_ : Z;
  num_row_ : Z;
  col_lower_ : list float;
  col_upper_ : list float;
  row_lower_ : list float;
  row_upper_ : list float
}.

Definition with_col_bounds (lp : HighsLp) (lo up : list float) : HighsLp :=
  mkLp (num_col_ lp) (num_row_ lp) lo up (row_lower_ lp) (row_upper_ lp).

Definition with_row_bounds (lp : HighsLp) (lo up : list float) : HighsLp :=
  mkLp (num_col_ lp) (num_row_ lp) (col_lower_ lp) (col_upper_ lp) lo up.

(** The local state of [cleanBounds] while it scans one pair of bound
    arrays: [max_residual], [num_change], lower bounds, upper bounds. *)
Definition clean_state : Type := float * Z * list float * list float.

(** The body of either loop of [cleanBounds]; [true] in the first
    component is the [return HighsStatus::kError] inside the loop. *)
Definition clean_step (tol : float) (i : nat) (st : clean_state) :
    bool * clean_state :=
  let '(max_residual, num_change, lower, upper) := st in
  let residual := (nth i lower 0 - nth i upper 0)%float in
  if F64.gtb residual tol then (true, st)
  else if F64.gtb residual 0%float then
    let mid := (0.5 * (nth i lower 0 + nth i upper 0))%float in
    (false,
     (F64.max residual max_residual, num_change + 1,
      <[i := mid]> lower, <[i := mid]> upper))
  else (false, st).

(** [HighsStatus cleanBounds(const HighsOptions& options, HighsLp& lp)];
    [tol] is [options.primal_feasibility_tolerance]. The result is the
    returned status and the LP as the call leaves it. *)
Definition cleanBounds (tol : float) (lp : HighsLp) :
    HighsLpUtils.HighsStatus * HighsLp :=
  let '(ret, (max_residual, num_change, clo, cup)) :=
    for_range_until (Z.to_nat (num_col_ lp)) (clean_step tol)
      (0%float, 0, col_lower_ lp, col_upper_ lp) in
  let lp1 := with_col_bounds lp clo cup in
  if ret then (HighsLpUtils.kError, lp1)
  else
    let '(ret, (max_residual, num_change, rlo, rup)) :=
      for_range_until (Z.to_nat (num_row_ lp1)) (clean_step tol)
        (max_residual, num_change, row_lower_ lp1, row_upper_ lp1) in
    let lp2 := with_row_bounds lp1 rlo rup in
    if ret then (HighsLpUtils.kError, lp2)
    else if negb (num_change =? 0) then (HighsLpUtils.kWarning, lp2)
    else (HighsLpUtils.kOk, lp2).

(** The dimensions of the LP agree with its bound arrays. *)
Definition bounds_sized (lp : HighsLp) : Prop :=
  Z.of_nat (length (col_lower_ lp)) = num_col_ lp /\
  Z.of_nat (length (col_upper_ lp)) = num_col_ lp /\
  Z.of_nat (length (row_lower_ lp)) = num_row_ lp /\
  Z.of_nat (length (row_upper_ lp)) = num_row_ lp.

(** The residual [lower - upper] of one column or row as the code
    computes it, and the midpoint [0.5 * (lower + upper)] that it
    writes. *)
Definition residual_of (lower upper : list float) (i : nat) : float :=
  (nth i lower 0 - nth i upper 0)%float.

Definition midpoint_of (lower upper : list float) (i : nat) : float :=
  (0.5 * (nth i lower 0 + nth i upper 0))%float.

(** What one loop of [cleanBounds] has done after [k] iterations that
    started from the arrays [lo], [up] and the counter [nc]. *)
Definition clean_inv (tol : float) (lo up : list float) (nc : Z) (k : nat)
    (st : bool * clean_state) : Prop :=
  let '(stop, (_, nc', lo', up')) := st in
  (stop = true <->
   exists i, (i < k)%nat /\ F64.gtb (residual_of lo up i) tol = true)
  /\ (stop = false ->
      length lo' = length lo /\ length up' = length up
      /\ (forall i,
            nth i lo' 0%float
            = if bool_decide (i < k)%nat
                 && F64.gtb (residual_of lo up i) 0%float
              then midpoint_of lo up i else nth i lo 0%float)
      /\ (forall i,
            nth i up' 0%float
            = if bool_decide (i < k)%nat
                 && F64.gtb (residual_of lo up i) 0%float
              then midpoint_of lo up i else nth i up 0%float)
      /\ nc <= nc'
      /\ (nc < nc' <->
          exists i, (i < k)%nat
                    /\ F64.gtb (residual_of lo up i) 0%float = true)).

End HighsLpUtils.

(** *** simplex/HEkkDualRow.cpp *)

Module HEkkDualRow.

(** The members of the dual row, and the engine data behind
    [ekk_instance_] and its pointers, that [choosePossible],
    [chooseJoinpack] and [computeDevexWeight] read and write.
    Modelled from the spec: the declaration of [HighsFloat] is not
    among the sources; numerics are double precision (section 1), so
    it is [double]. *)
Record HEkkDualRow : Type := mk {
  update_count : Z;
  dual_feasibility_tolerance : float;
  workMove : list Z;
  workDual : list float;
  packCount : Z;
  packIndex : list Z;
  packValue : list float;
  workDelta : float;
  workTheta : float;
  workCount : Z;
  workData : list (Z * float)
}.

Definition set_workTheta (x : float) (r : HEkkDualRow) : HEkkDualRow :=
  mk (update_count r) (dual_feasibility_tolerance r) (workMove r)
     (workDual r) (packCount r) (packIndex r) (packValue r) (workDelta r)
     x (workCount r) (workData r).
Definition set_workCount (x : Z) (r : HEkkDualRow) : HEkkDualRow :=
  mk (update_count r) (dual_feasibility_tolerance r) (workMove r)
     (workDual r) (packCount r) (packIndex r) (packValue r) (workDelta r)
     (workTheta r) x (workData r).
Definition set_workData (x : list (Z * float)) (r : HEkkDualRow) :
    HEkkDualRow :=
  mk (update_count r) (dual_feasibility_tolerance r) (workMove r)
     (workDual r) (packCount r) (packIndex r) (packValue r) (workDelta r)
     (workTheta r) (workCount r) x.

(** Modelled from the spec: [kHighsInf] is declared outside the sources;
    it is +infinity. *)
Definition kHighsInf : float := infinity.

(** Reads of the arrays; outside the bounds they yield 0 (a pair of
    zeros for [workData]). *)
Definition at_Z (l : list Z) (i : Z) : Z := zget l i 0.
Definition at_D (l : list float) (i : Z) : float := zget l i 0%float.
Definition at_P (l : list (Z * float)) (i : Z) : Z * float :=
  zget l i (0, 0%float).

(** [workDelta < 0 ? -1 : 1] *)
Definition move_out_of (r : HEkkDualRow) : Z :=
  if (workDelta r <? 0)%float then -1 else 1.

(** The tolerance [Ta] of [choosePossible]: the doubles that the
    literals [1e-9], [3e-8] and [1e-6] denote. *)
#[warnings="-inexact-float"]
Definition Ta_of (r : HEkkDualRow) : float :=
  if bool_decide (update_count r < 10) then 1e-9%float
  else if bool_decide (update_count r < 20) then 3e-8%float
  else 1e-6%float.

(** [alpha] of entry [i] of the packed row. *)
Definition alpha_of (r : HEkkDualRow) (i : Z) : float :=
  let iCol := at_Z (packIndex r) i in
  let move := at_Z (workMove r) iCol in
  (at_D (packValue r) i * F64.of_int (move_out_of r) * F64.of_int move)%float.

(** [relax] of entry [i] of the packed row. *)
Definition relax_of (r : HEkkDualRow) (i : Z) : float :=
  let iCol := at_Z (packIndex r) i in
  let move := at_Z (workMove r) iCol in
  (at_D (workDual r) iCol * F64.of_int move
   + dual_feasibility_tolerance r)%float.

(** [void HEkkDualRow::choosePossible()] *)
Definition choosePossible (r : HEkkDualRow) : HEkkDualRow :=
  let Ta := Ta_of r in
  let Td := dual_feasibility_tolerance r in
  let move_out := move_out_of r in
  let r := set_workTheta kHighsInf r in
  let r := set_workCount 0 r in
  for_z 0 (packCount r)
    (fun i r =>
       let iCol := at_Z (packIndex r) i in
       let move := at_Z (workMove r) iCol in
       let alpha :=
         (at_D (packValue r) i * F64.of_int move_out
          * F64.of_int move)%float in
       if F64.gtb alpha Ta then
         let r :=
           set_workData (zset (workData r) (workCount r) (iCol, alpha)) r in
         let r := set_workCount (workCount r + 1) r in
         let relax := (at_D (workDual r) iCol * F64.of_int move + Td)%float in
         if F64.gtb (workTheta r * alpha)%float relax
         then set_workTheta (relax / alpha)%float r
         else r
       else r)
    r.

(** The entries of the packed row, the test that makes entry [i] a
    candidate, the candidates in the order of the row, the pair that is
    recorded for a candidate, and its ratio [relax / alpha]. *)
Definition entry_indices (r : HEkkDualRow) : list Z :=
  map Z.of_nat (seq 0 (Z.to_nat (packCount r))).

Definition is_candidate (r : HEkkDualRow) (i : Z) : bool :=
  F64.gtb (alpha_of r i) (Ta_of r).

Definition candidates (r : HEkkDualRow) : list Z :=
  List.filter (is_candidate r) (entry_indices r).

Definition candidate_entry (r : HEkkDualRow) (i : Z) : Z * float :=
  (at_Z (packIndex r) i, alpha_of r i).

Definition ratio_of (r : HEkkDualRow) (i : Z) : float :=
  (relax_of r i / alpha_of r i)%float.

(** The update of [workTheta] at one candidate, and the value that the
    updates at the candidates [cs], in their order, make of [theta]. *)
Definition theta_step (r : HEkkDualRow) (theta : float) (i : Z) : float :=
  if F64.gtb (theta * alpha_of r i)%float (relax_of r i)
  then ratio_of r i else theta.

Definition theta_after (r : HEkkDualRow) (theta : float) (cs : list Z) :
    float :=
  fold_left (theta_step r) cs theta.

(** The value that the specification gives for [workTheta]: [x] is the
    minimum of the ratios of the candidates [cs]. *)
Definition least_ratio (r : HEkkDualRow) (cs : list Z) (x : float) : Prop :=
  (exists i, In i cs /\ x = ratio_of r i)
  /\ forall i, In i cs -> (x <=? ratio_of r i)%float = true.

(** [void HEkkDualRow::chooseJoinpack(const HEkkDualRow* otherRow)];
    [copy_into] is the call of [copy] as modelled above. *)
Definition chooseJoinpack (otherRow : HEkkDualRow) (r : HEkkDualRow) :
    HEkkDualRow :=
  let otherCount := workCount otherRow in
  let otherData := workData otherRow in
  let r :=
    set_workData
      (HEkkDualRow.copy_into otherData otherCount (workData r)
         (workCount r) (0, 0%float)) r in
  let r := set_workCount (workCount r + otherCount) r in
  set_workTheta (F64.min (workTheta r) (workTheta otherRow)) r.

(** [void HEkkDualRow::computeDevexWeight(const HighsInt slice)]: the
    value left in [computed_edge_weight]. [nonbasicFlag_] and
    [work_devex_index] are the arrays of the engine; nothing is printed,
    since [rp_computed_edge_weight] is [false]. *)
Definition computeDevexWeight (nonbasicFlag_ work_devex_index : list Z)
    (r : HEkkDualRow) : float :=
  let computed_edge_weight := 0%float in
  for_z 0 (packCount r)
    (fun el_n computed_edge_weight =>
       let vr_n := at_Z (packIndex r) el_n in
       if at_Z nonbasicFlag_ vr_n =? 0 then computed_edge_weight
       else
         let pv :=
           (F64.of_int (at_Z work_devex_index vr_n)
            * at_D (packValue r) el_n)%float in
         if F64.neb pv 0%float
         then (computed_edge_weight + pv * pv)%float
         else computed_edge_weight)
    computed_edge_weight.

(** *** Invariants used in the proofs *)

(** The product [work_devex_index[vr_n] * packValue[el_n]] that
    [computeDevexWeight] forms for entry [el_n] of the packed row. *)
Definition devex_term (work_devex_index : list Z) (r : HEkkDualRow)
    (el_n : Z) : float :=
  (F64.of_int (at_Z work_devex_index (at_Z (packIndex r) el_n))
   * at_D (packValue r) el_n)%float.

(** The fields [choosePossible] only reads. *)
Definition same_inputs (r0 r : HEkkDualRow) : Prop :=
  update_count r = update_count r0
  /\ dual_feasibility_tolerance r = dual_feasibility_tolerance r0
  /\ workMove r = workMove r0 /\ workDual r = workDual r0
  /\ packCount r = packCount r0 /\ packIndex r = packIndex r0
  /\ packValue r = packValue r0 /\ workDelta r = workDelta r0.

Definition candidates_upto (r : HEkkDualRow) (k : nat) : list Z :=
  List.filter (is_candidate r) (map Z.of_nat (seq 0 k)).

(** The state of the loop of [choosePossible] after [k] entries. *)
Definition possible_inv (r0 : HEkkDualRow) (k : nat) (r : HEkkDualRow) : Prop :=
  same_inputs r0 r
  /\ length (workData r) = length (workData r0)
  /\ workCount r = Z.of_nat (length (candidates_upto r0 k))
  /\ take (length (candidates_upto r0 k)) (workData r)
     = map (candidate_entry r0) (candidates_upto r0 k)
  /\ workTheta r = theta_after r0 kHighsInf (candidates_upto r0 k).

End HEkkDualRow.

End Binary64.

(** ** Concrete inputs used in the evaluations below *)

Module Examples.

(** A model in one variable with objective 0*x + 1/2 * 0 * x^2 + 1. *)
Definition constant_one : Instance.Instance :=
  Instance.mk 1 0 (Dbl.lit 1) (Vector.new 1)
    (Instance.mkMatrix 1 1 [[Dbl.zero]]) [] []
    (Instance.mkMatrix 0 1 []) [Dbl.NInf] [Dbl.PInf].

(** The point x = 0. *)
Definition origin : Vector.Vector := Vector.new 1.

(** An LP with one row and one column and an empty matrix. *)
Definition lp_1x1 : HighsLpUtils.HighsLp :=
  HighsLpUtils.mkLp 1 1 [Dbl.zero] [Dbl.zero] [Dbl.lit 1] [Dbl.zero]
    [Dbl.lit 1] (HighsLpUtils.mkMatrix [0; 0] [] []).

(** Values for what HEkkDualRow.cpp takes from other files: the three
    constants, the debug threshold, and two sorting routines
    ([sort_pairs] orders pairs as [operator<] of [std::pair] does). *)
Definition pair_lt (a b : Z * double) : bool :=
  (fst a <? fst b) || (negb (fst b <? fst a) && Dbl.ltb (snd a) (snd b)).

Fixpoint insert_pair (x : Z * double) (l : list (Z * double)) :
    list (Z * double) :=
  match l with
  | [] => [x]
  | y :: l' => if pair_lt x y then x :: l else y :: insert_pair x l'
  end.

Definition sort_pairs (l : list (Z * double)) : list (Z * double) :=
  fold_right insert_pair [] l.

Definition keep_heap (v : list double) (i : list Z) (n : Z) :
    list double * list Z := (v, i).

Abbreviation chooseFinal :=
  (HEkkDualRow.chooseFinal (Dbl.lit 1e-12) (Dbl.lit 1e100) (Dbl.lit 1e18) 1
     keep_heap sort_pairs).

(** A dual row over [n] nonbasic columns at their lower bounds
    ([move = 1]) with reduced cost 0 and range 1, whose packed pivot row
    has the entry 1 in every column; the primal step is 1000. *)
Definition flat_row (n : nat) : HEkkDualRow.HEkkDualRow :=
  HEkkDualRow.mk
    0 (Dbl.lit 1e-7) 0 (Z.of_nat n)
    (replicate n 1) (replicate n Dbl.zero) (replicate n (Dbl.lit 1))
    (map Z.of_nat (seq 0 n))
    (Z.of_nat n) (map Z.of_nat (seq 0 n)) (replicate n (Dbl.lit 1))
    (Dbl.lit 1000) Dbl.zero 0
    (replicate n (0, Dbl.zero)) [] 0 Dbl.zero
    [] 0 [] []
    (HEkkDualRow.mkAnalysis 0 0 0 0 []).

(** The state in which [chooseFinal] is entered on [flat_row 150]: the
    150 candidates collected by [choosePossible]. *)
Definition candidates_150 : HEkkDualRow.HEkkDualRow :=
  HEkkDualRow.choosePossible (flat_row 150).

Definition candidates_3 : HEkkDualRow.HEkkDualRow :=
  HEkkDualRow.choosePossible (flat_row 3).

(** The state in which [chooseFinal] leaves [candidates_3]. *)
Definition final_3 : HEkkDualRow.HEkkDualRow :=
  match chooseFinal 5 candidates_3 with
  | Some (_, _, r) => r
  | None => candidates_3
  end.

(** An LP with two columns and one row; column 0 has the bounds
    [1, 0.75], crossed by 0.25. *)
Definition lp_crossed : HighsLpUtils.HighsLp :=
  HighsLpUtils.mkLp 2 1 [Dbl.zero; Dbl.zero]
    [Dbl.lit 1; Dbl.zero] [Dbl.lit 0.75; Dbl.PInf]
    [Dbl.NInf] [Dbl.lit 1]
    (HighsLpUtils.mkMatrix [0; 0; 0] [] []).

(** A pseudocost record for two columns before any observation, and
    three calls: two up branches on column 0 (samples 3/0.5 = 6 and
    1/1 = 1) and one down branch on column 1 (sample -2/-1 = 2). *)
Definition no_observations : HighsPseudocost.HighsPseudocost :=
  HighsPseudocost.mk [0; 0]%float [0; 0]%float [0; 0] [0; 0]
    [0; 0]%float [0; 0]%float [0; 0] [0; 0] [0; 0] [0; 0]
    0%float 0%float 0 0 0 8.

Definition three_calls : list HighsPseudocost.call :=
  [(0, 0.5%float, 3%float); (0, 1%float, 1%float); (1, (-1)%float, 2%float)].

(** Four up branches on column 0 with [delta = 1] and the objective
    gains 0, 1, 6, 1: the samples are 0, 1, 6, 1, with mean 2. *)
Definition four_calls : list HighsPseudocost.call :=
  [(0, 1%float, 0%float); (0, 1%float, 1%float); (0, 1%float, 6%float);
   (0, 1%float, 1%float)].

(** The bounds of [lp_crossed] and of [lp_1x1] in binary64, and an LP
    with one column whose bounds [2^-20, -2^-80] are crossed by a
    residual that rounds to [2^-20]. *)
Definition lp_crossed64 : Binary64.HighsLpUtils.HighsLp :=
  Binary64.HighsLpUtils.mkLp 2 1
    [1%float; 0%float] [0.75%float; infinity]
    [neg_infinity] [1%float].

Definition lp_ordered64 : Binary64.HighsLpUtils.HighsLp :=
  Binary64.HighsLpUtils.mkLp 1 1 [0%float] [1%float] [0%float] [1%float].

Definition lp_rounded64 : Binary64.HighsLpUtils.HighsLp :=
  Binary64.HighsLpUtils.mkLp 1 0 [0x1p-20%float] [(-0x1p-80)%float] [] [].

(** A packed row with two entries, [alpha = 1] and [alpha = 3], both at
    their lower bounds, with [Td = 1e-7]: the values of [relax] are
    [0x1.8000000000006p+0] and [0x1.2000000000004p+2]. *)
#[warnings="-inexact-float"]
Definition row_ulp : Binary64.HEkkDualRow.HEkkDualRow :=
  Binary64.HEkkDualRow.mk 0 1e-7%float [1; 1]
    [0x1.7ffffe5280d6bp+0%float; 0x1.1fffff94a035dp+2%float]
    2 [0; 1] [1%float; 3%float] 0%float 0%float 0
    [(0, 0%float); (0, 0%float)].

(** The vector (1, 0, -2) of dimension 3 with the index list [0, 2], in
    binary64. *)
Definition sparse_3_64 : Binary64.Vector.Vector :=
  Binary64.Vector.mk 2 3 [0%nat; 2%nat; 0%nat] [1%float; 0%float; (-2)%float].

(** A model with one row, with the bounds [0, 1], and two variables,
    with the bounds [0, 1] and [-1, 1]; a point whose row activity 1.5
    is above the upper bound by 0.5 and whose first variable -1.25 is
    below the lower bound by 1.25; and a variable with the lower bound
    [0x1.ep+1023] at the value [-0x1.ep+1023], at a distance that
    overflows. *)
Definition boxes : Binary64.Instance.Instance :=
  Binary64.Instance.mk 2 1 [0%float] [1%float]
    [0%float; (-1)%float] [1%float; 1%float].

Definition point_x : Binary64.Vector.Vector :=
  Binary64.Vector.mk 2 2 [0%nat; 1%nat] [(-1.25)%float; 0.5%float].

Definition point_rows : Binary64.Vector.Vector :=
  Binary64.Vector.mk 1 1 [0%nat] [1.5%float].

Definition wide_box : Binary64.Instance.Instance :=
  Binary64.Instance.mk 1 0 [] [] [0x1.ep+1023%float] [infinity].

Definition far_point : Binary64.Vector.Vector :=
  Binary64.Vector.mk 1 1 [0%nat] [(-0x1.ep+1023)%float].

Definition no_rows : Binary64.Vector.Vector :=
  Binary64.Vector.mk 0 0 [] [].

(** The row [row_ulp] with room for four candidates, and a packed row
    with the single entry [alpha = 2] and the reduced cost 1. *)
Definition row_wide : Binary64.HEkkDualRow.HEkkDualRow :=
  Binary64.HEkkDualRow.set_workData
    [(0, 0%float); (0, 0%float); (0, 0%float); (0, 0%float)] row_ulp.

#[warnings="-inexact-float"]
Definition row_unit : Binary64.HEkkDualRow.HEkkDualRow :=
  Binary64.HEkkDualRow.mk 0 1e-7%float [1] [1%float]
    1 [0] [2%float] 0%float 0%float 0 [(0, 0%float)].

(** The vector (1, 0, -2) of dimension 3 with the index list [0, 2]. *)
Definition sparse_3 : Vector.Vector :=
  Vector.mk 2 3 [0%nat; 2%nat; 0%nat] [Dbl.lit 1; Dbl.zero; Dbl.lit (-2)].

(** A valid basis for two columns and one row, a basis of the same sizes
    to read into, and a disk without files on which every file can be
    created. *)
Definition basis_2x1 : HighsLpUtils.HighsBasis :=
  HighsLpUtils.mkBasis true [HighsLpUtils.kBasic; HighsLpUtils.kLower]
    [HighsLpUtils.kUpper].

Definition host_2x1 : HighsLpUtils.HighsBasis :=
  HighsLpUtils.mkBasis false [HighsLpUtils.kLower; HighsLpUtils.kLower]
    [HighsLpUtils.kLower].

Definition empty_disk : HighsLpUtils.FileSystem :=
  HighsLpUtils.mkFs (fun _ => None) (fun _ => true).

(** An LP with two columns and two rows whose matrix is the diagonal
    matrix with the entries 1 and 2. *)
Definition lp_2x2 : HighsLpUtils.HighsLp :=
  HighsLpUtils.mkLp 2 2 [Dbl.zero; Dbl.zero]
    [Dbl.zero; Dbl.zero] [Dbl.lit 1; Dbl.lit 1]
    [Dbl.zero; Dbl.zero] [Dbl.lit 1; Dbl.lit 1]
    (HighsLpUtils.mkMatrix [0; 1; 2] [0; 1] [Dbl.lit 1; Dbl.lit 2]).

(** Two inference observations on the up branch of column 0 (4 and 2
    inferences), and two cutoff observations. *)
Definition two_inferences : list HighsPseudocost.inference_call :=
  [(0, 4, true); (0, 2, true)].

Definition two_cutoffs : list HighsPseudocost.cutoff_call :=
  [(0, true); (1, false)].

(** A row vector over three columns with two listed entries, and the
    dual row that packs it into [flat_row 3] after [clear]. *)
Definition row_ep : HVector.t :=
  HVector.mk 2 [0; 2] [Dbl.lit 1; Dbl.zero; Dbl.lit 2].

Definition slice_b : HEkkDualRow.HEkkDualRow :=
  HEkkDualRow.chooseMakepack row_ep 0 (HEkkDualRow.clear (flat_row 3)).

End Examples.

(** * Properties *)

(** ** Binary64 arithmetic *)

(** The operations of [SpecFloat] keep signs: rounding a mantissa that
    is not negative under the sign [s] gives a result of sign [s]. *)
Section SpecFloatFacts.

Lemma shr_1_nonneg (mrs : shr_record) : 0 <= shr_m mrs -> 0 <= shr_m (shr_1 mrs).
Proof.
  destruct mrs as [m r s]. cbn. intros H.
  destruct m as [|p|p]; [cbn; lia| |lia].
  destruct p; cbn; lia.
Qed.

Lemma iter_shr_1_nonneg (p : positive) (mrs : shr_record) :
  0 <= shr_m mrs -> 0 <= shr_m (SpecFloat.iter_pos shr_1 p mrs).
Proof.
  revert mrs. induction p as [p IH|p IH|]; intros mrs H; cbn.
  - apply IH, IH, shr_1_nonneg, H.
  - apply IH, IH, H.
  - apply shr_1_nonneg, H.
Qed.

Lemma shr_fexp_nonneg (m e : Z) (l : location) :
  0 <= m -> 0 <= shr_m (fst (shr_fexp prec emax m e l)).
Proof.
  intros H. unfold shr_fexp, shr.
  assert (H0 : 0 <= shr_m (shr_record_of_loc m l)).
  { destruct l as [|[]]; exact H. }
  destruct (fexp prec emax (Zdigits2 m + e) - e); cbn [fst];
    [exact H0|apply iter_shr_1_nonneg, H0|exact H0].
Qed.

Lemma round_nearest_even_nonneg (m : Z) (l : location) :
  0 <= m -> 0 <= round_nearest_even m l.
Proof.
  intros H. destruct l as [|[]]; cbn; try lia.
  destruct (Z.even m); lia.
Qed.

Lemma binary_round_aux_signed (s : bool) (m e : Z) (l : location) :
  0 <= m -> F64.signed s (binary_round_aux prec emax s m e l).
Proof.
  intros H. unfold binary_round_aux.
  pose proof (shr_fexp_nonneg m e l H) as H1.
  destruct (shr_fexp prec emax m e l) as [mrs' e'] eqn:E1. cbn [fst] in H1.
  pose proof (shr_fexp_nonneg
                (round_nearest_even (shr_m mrs') (loc_of_shr_record mrs'))
                e' loc_Exact
                (round_nearest_even_nonneg _ _ H1)) as H2.
  destruct (shr_fexp prec emax _ e' loc_Exact) as [mrs'' e''] eqn:E2.
  cbn [fst] in H2.
  destruct (shr_m mrs'') as [|p|p]; [left; reflexivity| |lia].
  destruct (e'' <=? emax - prec); [right; left; eauto|right; right; reflexivity].
Qed.

Lemma binary_round_signed (s : bool) (m : positive) (e : Z) :
  F64.signed s (binary_round prec emax s m e).
Proof.
  unfold binary_round. destruct (shl_align _ _ _) as [mz ez].
  apply binary_round_aux_signed. lia.
Qed.

Lemma binary_normalize_signed (m e : Z) :
  (0 < m -> F64.signed false (binary_normalize prec emax m e false))
  /\ (m < 0 -> F64.signed true (binary_normalize prec emax m e false))
  /\ (m = 0 -> binary_normalize prec emax m e false = S754_zero false).
Proof.
  destruct m as [|p|p]; cbn [binary_normalize];
    repeat split; intros H; try lia; try reflexivity;
    apply binary_round_signed.
Qed.

(** Digits and the canonical form. *)
Lemma digits2_pos_bounds (m : positive) :
  2 ^ (Zpos (digits2_pos m) - 1) <= Zpos m < 2 ^ Zpos (digits2_pos m).
Proof.
  induction m as [m IH|m IH|]; cbn [digits2_pos].
  - rewrite Pos2Z.inj_succ.
    replace (Z.succ (Zpos (digits2_pos m)) - 1) with (Zpos (digits2_pos m)) by lia.
    rewrite Z.pow_succ_r by lia.
    replace (Zpos (digits2_pos m)) with (Zpos (digits2_pos m) - 1 + 1) at 1 by lia.
    rewrite Z.pow_add_r by lia. lia.
  - rewrite Pos2Z.inj_succ.
    replace (Z.succ (Zpos (digits2_pos m)) - 1) with (Zpos (digits2_pos m)) by lia.
    rewrite Z.pow_succ_r by lia.
    replace (Zpos (digits2_pos m)) with (Zpos (digits2_pos m) - 1 + 1) at 1 by lia.
    rewrite Z.pow_add_r by lia. lia.
  - cbn. lia.
Qed.

Lemma iter_xO (m d : positive) : Zpos (Pos.iter xO m d) = Zpos m * 2 ^ Zpos d.
Proof.
  induction d as [|d IH] using Pos.peano_ind.
  - cbn. lia.
  - rewrite Pos.iter_succ, Pos2Z.inj_succ, Z.pow_succ_r by lia.
    rewrite Pos2Z.inj_xO, IH. lia.
Qed.

Lemma shl_align_value (m : positive) (e e' : Z) :
  e' <= e -> Zpos (fst (shl_align m e e')) = Zpos m * 2 ^ (e - e').
Proof.
  intros H. unfold shl_align.
  destruct (e' - e) as [|d|d] eqn:E; cbn [fst].
  - replace (e - e') with 0 by lia. cbn. lia.
  - lia.
  - rewrite iter_xO. f_equal. f_equal. lia.
Qed.

(** Of two canonical mantissas, the one with the smaller exponent is the
    smaller number. *)
Lemma canonical_lt (m1 m2 : positive) (e1 e2 : Z) :
  canonical_mantissa prec emax m1 e1 = true ->
  canonical_mantissa prec emax m2 e2 = true ->
  e1 < e2 ->
  Zpos m1 < Zpos m2 * 2 ^ (e2 - e1).
Proof.
  unfold canonical_mantissa, fexp, SpecFloat.emin, prec, emax.
  intros C1 C2 He. apply Z.eqb_eq in C1, C2.
  pose proof (digits2_pos_bounds m1) as [_ B1].
  pose proof (digits2_pos_bounds m2) as [B2 _].
  assert (D1 : Zpos (digits2_pos m1) <= 53) by lia.
  assert (D2 : Zpos (digits2_pos m2) = 53) by lia.
  rewrite D2 in B2.
  assert (P1 : 2 ^ Zpos (digits2_pos m1) <= 2 ^ 53)
    by (apply Z.pow_le_mono_r; lia).
  assert (P2 : 2 ^ 1 <= 2 ^ (e2 - e1)) by (apply Z.pow_le_mono_r; lia).
  change (2 ^ (53 - 1)) with 4503599627370496 in B2.
  change (2 ^ 53) with 9007199254740992 in P1.
  change (2 ^ 1) with 2 in P2.
  nia.
Qed.

(** The aligned difference of two canonical numbers of the same sign has
    the sign that [SFcompare] finds. *)
Lemma aligned_compare (m1 m2 : positive) (e1 e2 : Z) :
  canonical_mantissa prec emax m1 e1 = true ->
  canonical_mantissa prec emax m2 e2 = true ->
  let ez := Z.min e1 e2 in
  let d := Zpos (fst (shl_align m1 e1 ez)) - Zpos (fst (shl_align m2 e2 ez)) in
  match Z.compare e1 e2 with
  | Lt => d < 0
  | Gt => 0 < d
  | Eq => match Pos.compare_cont Eq m1 m2 with
          | Lt => d < 0
          | Gt => 0 < d
          | Eq => d = 0
          end
  end.
Proof.
  intros C1 C2 ez d. subst d.
  rewrite !shl_align_value by (subst ez; lia).
  destruct (Z.compare_spec e1 e2) as [E|E|E].
  - subst e2. subst ez. rewrite Z.min_id, Z.sub_diag. cbn [Z.pow].
    change (Pos.compare_cont Eq m1 m2) with (Pos.compare m1 m2).
    destruct (Pos.compare_spec m1 m2); subst; lia.
  - subst ez. rewrite Z.min_l by lia. rewrite Z.sub_diag. cbn [Z.pow].
    pose proof (canonical_lt m1 m2 e1 e2 C1 C2 E). lia.
  - subst ez. rewrite Z.min_r by lia. rewrite Z.sub_diag. cbn [Z.pow].
    pose proof (canonical_lt m2 m1 e2 e1 C2 C1 E). lia.
Qed.

End SpecFloatFacts.

Section FloatFacts.

Local Open Scope float_scope.

Lemma valid_finite (s : bool) (m : positive) (e : Z) :
  valid_binary (S754_finite s m e) = true ->
  canonical_mantissa prec emax m e = true.
Proof. cbn. unfold bounded. intros H. apply andb_prop in H. apply H. Qed.

(** The sign of a difference is the one the comparison finds. *)
Lemma SFsub_compare (a b : spec_float) :
  valid_binary a = true -> valid_binary b = true ->
  match SFcompare a b with
  | Some Lt => F64.signed true (SF64sub a b)
  | Some Gt => F64.signed false (SF64sub a b)
  | Some Eq => (exists s, SF64sub a b = S754_zero s) \/ SF64sub a b = S754_nan
  | None => SF64sub a b = S754_nan
  end.
Proof.
  intros Va Vb. unfold SF64sub.
  destruct a as [sa|sa| |sa ma ea], b as [sb|sb| |sb mb eb];
    try reflexivity;
    try (destruct sa; try destruct sb; cbn;
         first [reflexivity
               | left; eexists; reflexivity
               | right; reflexivity
               | left; reflexivity
               | right; left; do 2 eexists; reflexivity
               | right; right; reflexivity]).
  apply valid_finite in Va, Vb.
  pose proof (aligned_compare ma mb ea eb Va Vb) as H. cbn zeta in H.
  cbn [SFsub SFcompare].
  set (ez := Z.min ea eb) in *.
  set (A := Zpos (fst (shl_align ma ea ez))) in *.
  set (B := Zpos (fst (shl_align mb eb ez))) in *.
  assert (PA : 0 < A) by (subst A; lia).
  assert (PB : 0 < B) by (subst B; lia).
  destruct (binary_normalize_signed (cond_Zopp sa A - cond_Zopp sb B) ez)
    as (Hpos & Hneg & Hzero).
  destruct sa, sb; cbn [cond_Zopp] in *.
  - destruct (Z.compare ea eb).
    + destruct (Pos.compare_cont Eq ma mb); cbn [CompOpp].
      * left. exists false. apply Hzero. lia.
      * apply Hpos. lia.
      * apply Hneg. lia.
    + apply Hpos. lia.
    + apply Hneg. lia.
  - apply Hneg. lia.
  - apply Hpos. lia.
  - destruct (Z.compare ea eb).
    + destruct (Pos.compare_cont Eq ma mb).
      * left. exists false. apply Hzero. lia.
      * apply Hneg. lia.
      * apply Hpos. lia.
    + apply Hneg. lia.
    + apply Hpos. lia.
Qed.

Ltac shape :=
  solve [ reflexivity | discriminate | left; shape | right; shape
        | do 2 eexists; reflexivity | eexists; reflexivity ].

Ltac unshape :=
  repeat match goal with
         | H : F64.signed _ _ |- _ => unfold F64.signed in H
         | H : _ \/ _ |- _ => destruct H
         | H : ex _ |- _ => destruct H
         end;
  try discriminate.

Lemma nonneg_spec (x : float) :
  F64.nonneg x <->
  F64.signed false (Prim2SF x) \/ Prim2SF x = S754_zero true.
Proof.
  unfold F64.nonneg. rewrite leb_spec.
  change (Prim2SF 0) with (S754_zero false).
  destruct (Prim2SF x) as [s|s| |s m e]; try destruct s; cbn; split;
    intros H; try discriminate H; try reflexivity; try shape; unshape.
Qed.

Lemma positive_spec (x : float) :
  (0 <? x) = true <->
  (exists m e, Prim2SF x = S754_finite false m e)
  \/ Prim2SF x = S754_infinity false.
Proof.
  rewrite ltb_spec. change (Prim2SF 0) with (S754_zero false).
  destruct (Prim2SF x) as [s|s| |s m e]; try destruct s; cbn; split;
    intros H; try discriminate H; try reflexivity; try shape; unshape.
Qed.

(** [lower <= upper] excludes a positive computed difference. *)
Lemma sub_le_not_pos (lo up : float) :
  (lo <=? up) = true -> (0 <? lo - up) = false.
Proof.
  rewrite leb_spec. unfold SFleb. intros H.
  pose proof (SFsub_compare (Prim2SF lo) (Prim2SF up)
                (Prim2SF_valid lo) (Prim2SF_valid up)) as S.
  destruct (0 <? lo - up) eqn:E; [|reflexivity].
  apply positive_spec in E. rewrite sub_spec in E.
  destruct (SFcompare (Prim2SF lo) (Prim2SF up)) as [[| |]|];
    try discriminate H.
  - destruct S as [[s S]|S]; rewrite S in E; unshape.
  - unfold F64.signed in S. destruct S as [S|[(m & e & S)|S]]; rewrite S in E;
      unshape.
Qed.

(** A smaller subtrahend gives a difference that is not negative. *)
Lemma sub_lt_nonneg (x lo : float) :
  (x <? lo) = true -> F64.nonneg (lo - x).
Proof.
  rewrite ltb_spec. unfold SFltb. intros H.
  pose proof (SFsub_compare (Prim2SF lo) (Prim2SF x)
                (Prim2SF_valid lo) (Prim2SF_valid x)) as S.
  apply nonneg_spec. rewrite sub_spec.
  destruct (Prim2SF x) as [sx|sx| |sx mx ex] eqn:Ex,
           (Prim2SF lo) as [sl|sl| |sl ml el] eqn:El;
    try discriminate H;
    try (destruct sx; try destruct sl; try discriminate H; cbn; shape).
  cbn [SFcompare] in H, S.
  rewrite (Z.compare_antisym ex el) in S.
  change (Pos.compare_cont Eq ml mx) with (Pos.compare ml mx) in S.
  change (Pos.compare_cont Eq mx ml) with (Pos.compare mx ml) in H.
  rewrite (Pos.compare_antisym mx ml) in S.
  destruct sx, sl; try discriminate H; try (left; exact S);
    destruct (Z.compare ex el); try discriminate H;
    cbn [CompOpp] in S; try (left; exact S);
    destruct (Pos.compare mx ml); try discriminate H;
    cbn [CompOpp] in S; left; exact S.
Qed.

(** A difference that is not positive does not exceed a tolerance that
    is not negative. *)
Lemma not_pos_le_tol (tol r : float) :
  (0 <=? tol) = true -> (0 <? r) = false -> (tol <? r) = false.
Proof.
  rewrite leb_spec, !ltb_spec. change (Prim2SF 0) with (S754_zero false).
  destruct (Prim2SF tol) as [s|s| |s m e], (Prim2SF r) as [s'|s'| |s' m' e'];
    try destruct s; try destruct s'; cbn; intros H1 H2;
    try discriminate H1; try discriminate H2; reflexivity.
Qed.

Lemma lt_zero_antisym (d : float) : (0 <? d) = true -> (d <? 0) = false.
Proof.
  rewrite !ltb_spec. change (Prim2SF 0) with (S754_zero false).
  destruct (Prim2SF d) as [s|s| |s m e]; try destruct s; cbn; intros H;
    try discriminate H; reflexivity.
Qed.

(** What exceeds a positive number is positive. *)
Lemma gt_positive (t a : float) :
  (0 <? t) = true -> (t <? a) = true -> (0 <? a) = true.
Proof.
  rewrite !ltb_spec. change (Prim2SF 0) with (S754_zero false).
  destruct (Prim2SF t) as [s|s| |s m e], (Prim2SF a) as [s'|s'| |s' m' e'];
    try destruct s; try destruct s'; cbn; intros H1 H2;
    try discriminate H1; try discriminate H2; reflexivity.
Qed.

Lemma infinity_mul_positive (a : float) :
  (0 <? a) = true -> infinity * a = infinity.
Proof.
  intros H. apply positive_spec in H. apply Prim2SF_inj. rewrite mul_spec.
  change (Prim2SF infinity) with (S754_infinity false).
  destruct H as [(m & e & ->)| ->]; reflexivity.
Qed.

Lemma nonneg_zero : F64.nonneg 0.
Proof. reflexivity. Qed.

Lemma nonneg_add (a b : float) :
  F64.nonneg a -> F64.nonneg b -> F64.nonneg (a + b).
Proof.
  rewrite !nonneg_spec, add_spec. unfold SF64add.
  intros Ha Hb.
  destruct (Prim2SF a) as [sa|sa| |sa ma ea], (Prim2SF b) as [sb|sb| |sb mb eb];
    unshape;
    repeat match goal with
           | H : S754_zero _ = S754_zero _ |- _ => injection H as ->
           | H : S754_infinity _ = S754_infinity _ |- _ => injection H as ->
           | H : S754_finite _ _ _ = S754_finite _ _ _ |- _ =>
               injection H as -> _ _
           end;
    try (cbn; shape).
  cbn [SFadd cond_Zopp]. left.
  apply binary_normalize_signed. lia.
Qed.

Lemma nonneg_square (x : float) : (x =? x) = true -> F64.nonneg (x * x).
Proof.
  intros H. apply nonneg_spec. rewrite mul_spec. unfold SF64mul.
  rewrite FloatAxioms.eqb_spec in H. revert H.
  destruct (Prim2SF x) as [s|s| |s m e]; try destruct s; cbn [SFmul xorb];
    intros H; try discriminate H; try shape;
    left; apply binary_round_aux_signed; lia.
Qed.

Lemma square_of_zero (x : float) : (x =? 0) = true -> x * x = 0.
Proof.
  intros H. rewrite FloatAxioms.eqb_spec in H.
  apply Prim2SF_inj. rewrite mul_spec.
  change (Prim2SF 0) with (S754_zero false) in *.
  destruct (Prim2SF x) as [s|s| |s m e];
    try discriminate H; try (destruct s; discriminate H).
  destruct s; reflexivity.
Qed.

End FloatFacts.

(** ** PresolveComponent::run *)

(** C10: [PresolveComponent::run] maps primal-infeasible to Infeasible,
    dual-infeasible to Unbounded, optimal to ReducedToEmpty and every
    other model status to Reduced; it never returns NotReduced,
    NullError or Error. *)
Theorem presolve_run_outcomes :
  PresolveComponent.run PresolveComponent.PRIMAL_INFEASIBLE
    = PresolveComponent.Infeasible
  /\ PresolveComponent.run PresolveComponent.DUAL_INFEASIBLE
    = PresolveComponent.Unbounded
  /\ PresolveComponent.run PresolveComponent.OPTIMAL
    = PresolveComponent.ReducedToEmpty
  /\ (forall s,
        s <> PresolveComponent.PRIMAL_INFEASIBLE ->
        s <> PresolveComponent.DUAL_INFEASIBLE ->
        s <> PresolveComponent.OPTIMAL ->
        PresolveComponent.run s = PresolveComponent.Reduced)
  /\ (forall s,
        PresolveComponent.run s <> PresolveComponent.NotReduced
        /\ PresolveComponent.run s <> PresolveComponent.NullError
        /\ PresolveComponent.run s <> PresolveComponent.Error).
Proof.
  repeat split; try reflexivity.
  - intros [| | |k] H1 H2 H3; try congruence; reflexivity.
  - destruct s; discriminate.
  - destruct s; discriminate.
  - destruct s; discriminate.
Qed.

(** ** Instance::objval *)

(** C5: [Instance::objval] leaves the offset out. At the model with
    objective constant 1 and the point 0 it returns 0, while the
    objective c'x + 1/2 x'Qx + offset is 1; and in general the value
    returned does not depend on the offset stored in the instance. *)
Theorem objval_omits_offset :
  Instance.objval Examples.constant_one Examples.origin = Dbl.Fin 0%Qc
  /\ Instance.objective Examples.constant_one Examples.origin = Dbl.Fin 1%Qc
  /\ (forall inst x o,
        Instance.objval (Instance.with_offset inst o) x
        = Instance.objval inst x).
Proof.
  split; [|split].
  - vm_compute. reflexivity.
  - vm_compute. reflexivity.
  - intros inst x o. reflexivity.
Qed.

(** ** changeLpMatrixCoefficient *)

(** C6: with [row = num_row_] (one past the last row) the call is not
    rejected: on the 1x1 LP with an empty matrix,
    [changeLpMatrixCoefficient(lp, 1, 0, 5)] returns kOk and stores an
    entry with row index 1 in column 0. *)
Theorem changeLpMatrixCoefficient_row_past_end :
  let res :=
    HighsLpUtils.changeLpMatrixCoefficient Examples.lp_1x1 1 0 (Dbl.lit 5) in
  ~ (0 <= 1 < HighsLpUtils.num_row_ Examples.lp_1x1)
  /\ fst res = HighsLpUtils.kOk
  /\ HighsLpUtils.a_matrix_ (snd res)
     = HighsLpUtils.mkMatrix [0; 1] [1] [Dbl.lit 5]
  /\ snd res <> Examples.lp_1x1.
Proof.
  assert (E : HighsLpUtils.changeLpMatrixCoefficient Examples.lp_1x1 1 0
                (Dbl.lit 5)
              = (HighsLpUtils.kOk,
                 HighsLpUtils.with_matrix Examples.lp_1x1
                   (HighsLpUtils.mkMatrix [0; 1] [1] [Dbl.lit 5]))).
  { vm_compute. reflexivity. }
  cbv zeta. rewrite E. cbn [fst snd].
  split; [|split; [|split]].
  - cbn. lia.
  - reflexivity.
  - reflexivity.
  - intros H.
    apply (f_equal (fun lp =>
             length (HighsLpUtils.index_ (HighsLpUtils.a_matrix_ lp)))) in H.
    cbn in H. discriminate.
Qed.

(** ** HEkkDualRow::chooseFinal *)

(** Facts about the comparisons of [double]. *)
Lemma dbl_le_not_gt (x y : double) :
  (x <=? y)%D = true -> (x >? y)%D = false.
Proof.
  unfold Dbl.leb, Dbl.gtb.
  destruct x as [| |a|], y as [| |b|]; cbn; try discriminate; try reflexivity.
  rewrite orb_true_iff, !bool_decide_eq_true, bool_decide_eq_false.
  intros [H|H].
  - apply Qcle_not_lt, Qclt_le_weak, H.
  - subst. apply Qcle_not_lt, Qcle_refl.
Qed.

(** Loop invariants. *)
Lemma for_range_ind {S : Type} (P : nat -> S -> Prop) (n : nat)
    (body : nat -> S -> S) (s : S) :
  P 0%nat s ->
  (forall i s, (i < n)%nat -> P i s -> P (Datatypes.S i) (body i s)) ->
  P n (for_range n body s).
Proof.
  unfold for_range. intros H0 Hstep.
  induction n as [|n IH].
  - exact H0.
  - rewrite seq_S, fold_left_app. cbn.
    apply Hstep; [lia|]. apply IH. intros i s' Hi. apply Hstep. lia.
Qed.

Lemma for_range_preserves {S : Type} (P : S -> Prop) (n : nat)
    (body : nat -> S -> S) (s : S) :
  P s -> (forall i s, (i < n)%nat -> P s -> P (body i s)) ->
  P (for_range n body s).
Proof.
  intros H0 Hstep. apply (for_range_ind (fun _ => P)); assumption.
Qed.

Lemma for_z_preserves {S : Type} (P : S -> Prop) (lo hi : Z)
    (body : Z -> S -> S) (s : S) :
  P s -> (forall i s, lo <= i < hi -> P s -> P (body i s)) ->
  P (for_z lo hi body s).
Proof.
  intros H0 Hstep. unfold for_z. apply for_range_preserves; [exact H0|].
  intros i s' Hi. apply Hstep. lia.
Qed.

Section ChooseFinal.

Import HEkkDualRow.

Variables kInitialTotalChange kInitialRemainTheta kMaxSelectTheta : double.
Variable kHighsDebugLevelCheap : Z.
Variable maxheapsort : list double -> list Z -> Z -> list double * list Z.
Variable pdqsort : list (Z * double) -> list (Z * double).

Lemma flips_quad_same_step r g : same_step r (HEkkDualRow.flips_quad r g).
Proof.
  unfold HEkkDualRow.flips_quad.
  apply (for_z_preserves (same_step r)).
  - repeat split.
  - intros i s _ H. exact H.
Qed.

Lemma flips_heap_same_step r g m : same_step r (HEkkDualRow.flips_heap r g m).
Proof.
  unfold HEkkDualRow.flips_heap.
  apply (for_z_preserves (same_step r)).
  - apply (for_z_preserves (same_step r)).
    + repeat split.
    + intros i s _ H. exact H.
  - intros i s _ H.
    destruct (_ <? _)%D; exact H.
Qed.

Lemma same_step_refl r : same_step r r.
Proof. repeat split. Qed.

Lemma same_step_trans r1 r2 r3 :
  same_step r1 r2 -> same_step r2 r3 -> same_step r1 r3.
Proof.
  unfold same_step. intros (A1 & A2 & A3 & A4) (B1 & B2 & B3 & B4).
  repeat split; congruence.
Qed.

Lemma drop_flips_same_step r :
  same_step r (HEkkDualRow.drop_flips_if_degenerate r).
Proof.
  unfold HEkkDualRow.drop_flips_if_degenerate.
  destruct (_ ==? _)%D; repeat split.
Qed.

Lemma drop_flips_count r :
  (HEkkDualRow.workTheta r ==? Dbl.zero)%D = true ->
  HEkkDualRow.workCount (HEkkDualRow.drop_flips_if_degenerate r) = 0.
Proof.
  unfold HEkkDualRow.drop_flips_if_degenerate. intros ->. reflexivity.
Qed.

Lemma set_theta_degenerate r :
  let r' := HEkkDualRow.set_theta r in
  HEkkDualRow.workPivot r' = HEkkDualRow.workPivot r
  /\ HEkkDualRow.workDual r' = HEkkDualRow.workDual r
  /\ HEkkDualRow.workMove r' = HEkkDualRow.workMove r
  /\ ((HEkkDualRow.at_D (HEkkDualRow.workDual r) (HEkkDualRow.workPivot r)
       * Dbl.of_int
           (HEkkDualRow.at_Z (HEkkDualRow.workMove r) (HEkkDualRow.workPivot r))
       >? Dbl.zero)%D = false ->
      HEkkDualRow.workTheta r' = Dbl.zero).
Proof.
  unfold HEkkDualRow.set_theta.
  destruct (_ >? _)%D; cbn; repeat split; intros; congruence.
Qed.

(** The tail of [chooseFinal]: once [workTheta] is set, nothing writes
    it, and after the test [workTheta == 0] nothing writes [workCount]. *)
Lemma chooseFinal_pivot_degenerate (uq uh : bool) (r : HEkkDualRow.HEkkDualRow) :
  let r' :=
    snd (HEkkDualRow.chooseFinal_pivot kHighsDebugLevelCheap pdqsort uq uh r) in
  ((HEkkDualRow.workTheta r' ==? Dbl.zero)%D = true ->
   HEkkDualRow.workCount r' = 0)
  /\ ((HEkkDualRow.at_D (HEkkDualRow.workDual r') (HEkkDualRow.workPivot r')
       * Dbl.of_int
           (HEkkDualRow.at_Z (HEkkDualRow.workMove r') (HEkkDualRow.workPivot r'))
       >? Dbl.zero)%D = false ->
      HEkkDualRow.workTheta r' = Dbl.zero).
Proof.
  unfold HEkkDualRow.chooseFinal_pivot.
  destruct (HEkkDualRow.choose_break _ _ _) as [breakIndex breakGroup].
  set (r1 := HEkkDualRow.set_pivot uq breakIndex _).
  set (r2 := HEkkDualRow.set_theta r1).
  set (r3 := HEkkDualRow.set_workCount 0 _).
  set (r4 := if uq then _ else _).
  set (r5 := HEkkDualRow.drop_flips_if_degenerate r4).
  set (r6 := HEkkDualRow.timer_stop HEkkDualRow.Chuzc3Clock _).
  assert (H23 : same_step r2 r3) by (repeat split).
  assert (H34 : same_step r3 r4).
  { subst r4. destruct uq;
      [apply flips_quad_same_step | apply flips_heap_same_step]. }
  assert (H45 : same_step r4 r5) by apply drop_flips_same_step.
  assert (H56 : same_step r5 r6) by (repeat split).
  assert (Hc6 : HEkkDualRow.workCount r6 = HEkkDualRow.workCount r5)
    by reflexivity.
  pose proof (same_step_trans _ _ _ H23 (same_step_trans _ _ _ H34 H45)) as H25.
  pose proof (same_step_trans _ _ _ H25 H56) as H26.
  destruct (set_theta_degenerate r1) as (P1 & P2 & P3 & P4). fold r2 in P1, P2, P3, P4.
  assert (Hres : forall rr : HEkkDualRow.HEkkDualRow,
             same_step r6 rr ->
             HEkkDualRow.workCount rr = HEkkDualRow.workCount r6 ->
             ((HEkkDualRow.workTheta rr ==? Dbl.zero)%D = true ->
              HEkkDualRow.workCount rr = 0)
             /\ ((HEkkDualRow.at_D (HEkkDualRow.workDual rr)
                    (HEkkDualRow.workPivot rr)
                  * Dbl.of_int
                      (HEkkDualRow.at_Z (HEkkDualRow.workMove rr)
                         (HEkkDualRow.workPivot rr))
                  >? Dbl.zero)%D = false ->
                 HEkkDualRow.workTheta rr = Dbl.zero)).
  { intros rr Hrr Hcrr.
    destruct (same_step_trans _ _ _ H26 Hrr) as (T1 & T2 & T3 & T4).
    rewrite Hcrr, Hc6, T1, T2, T3, T4, P1, P2, P3. split.
    - intros Hz. apply drop_flips_count.
      destruct (same_step_trans _ _ _ H23 H34) as (W1 & _).
      rewrite W1. exact Hz.
    - exact P4. }
  destruct (negb (_ =? 0)); cbn [snd]; apply Hres; repeat split.
Qed.

(** C9: whenever [chooseFinal] gets past the grouping and ends with
    [workTheta == 0], the flip list is empty ([workCount = 0]); in
    particular this is so whenever the reduced cost of the chosen pivot
    satisfies [d_pivot * move_pivot <= 0], which makes [workTheta] zero. *)
Theorem chooseFinal_degenerate_pivot_no_flips
    (fuel : nat) (r r' : HEkkDualRow.HEkkDualRow) (ret : Z) :
  HEkkDualRow.chooseFinal kInitialTotalChange kInitialRemainTheta
    kMaxSelectTheta kHighsDebugLevelCheap maxheapsort pdqsort fuel r
  = Some (ret, true, r') ->
  ((HEkkDualRow.workTheta r' ==? Dbl.zero)%D = true ->
   HEkkDualRow.workCount r' = 0)
  /\ ((HEkkDualRow.at_D (HEkkDualRow.workDual r') (HEkkDualRow.workPivot r')
       * Dbl.of_int
           (HEkkDualRow.at_Z (HEkkDualRow.workMove r') (HEkkDualRow.workPivot r'))
       <=? Dbl.zero)%D = true ->
      HEkkDualRow.workTheta r' = Dbl.zero /\ HEkkDualRow.workCount r' = 0).
Proof.
  unfold HEkkDualRow.chooseFinal.
  destruct (HEkkDualRow.reduce_loop _ _ _ _ _ _) as [[[wc wd] tc]|];
    [|discriminate].
  match goal with
  | |- context [HEkkDualRow.chooseFinalWorkGroupQuad ?a ?b ?c ?f ?x] =>
      destruct (HEkkDualRow.chooseFinalWorkGroupQuad a b c f x) as [[ok rq]|]
  end.
  2: { cbn. discriminate. }
  cbn [HEkkDualRow.use_quad_sort HEkkDualRow.use_heap_sort negb].
  cbv iota.
  destruct (negb ok); [discriminate|].
  match goal with
  | |- context [HEkkDualRow.chooseFinal_pivot ?d ?p ?uq ?uh ?x] =>
      pose proof (chooseFinal_pivot_degenerate uq uh x) as Hp;
      destruct (HEkkDualRow.chooseFinal_pivot d p uq uh x) as [ret0 r0]
  end.
  cbn [snd] in Hp. intros [= <- <-]. destruct Hp as [Hp1 Hp2].
  split; [exact Hp1|].
  intros Hle. apply dbl_le_not_gt in Hle.
  pose proof (Hp2 Hle) as Hz. split; [exact Hz|].
  apply Hp1. rewrite Hz. reflexivity.
Qed.

End ChooseFinal.

Lemma chooseFinal_degenerate_pivot_no_flips_witness :
  Examples.chooseFinal 5 Examples.candidates_3
  = Some (0, true, Examples.final_3)
  /\ (HEkkDualRow.workTheta Examples.final_3 ==? Dbl.zero)%D = true
  /\ HEkkDualRow.workCount Examples.final_3 = 0
  /\ HEkkDualRow.workTheta Examples.final_3 = Dbl.zero.
Proof.
  assert (E : Examples.chooseFinal 5 Examples.candidates_3
              = Some (0, true, Examples.final_3))
    by (vm_compute; reflexivity).
  pose proof
    (chooseFinal_degenerate_pivot_no_flips _ _ _ _ _ _ 5
       Examples.candidates_3 Examples.final_3 0 E) as [H1 H2].
  split; [exact E|].
  split; [vm_compute; reflexivity|].
  split.
  - apply H1. vm_compute. reflexivity.
  - apply H2. vm_compute. reflexivity.
Defined.

(** *** The grouping routine that [chooseFinal] calls *)

Section ClockLog.

Import HEkkDualRow.

Variables kInitialTotalChange kInitialRemainTheta kMaxSelectTheta : double.
Variable kHighsDebugLevelCheap : Z.
Variable maxheapsort : list double -> list Z -> Z -> list double * list Z.
Variable pdqsort : list (Z * double) -> list (Z * double).

(** The grouping by the quadratic scan does not touch the analysis
    record. *)
Lemma quad_loop_analysis (fuel : nat) (fullCount : Z) (Td totalDelta : double)
    (q : quad_state) (ok : bool) (r' : HEkkDualRow) :
  quad_loop kInitialRemainTheta kMaxSelectTheta fuel fullCount Td totalDelta q
  = Some (ok, r') ->
  analysis r' = analysis (q_row q).
Proof.
  revert q. induction fuel as [|fuel IH]; intros q; cbn [quad_loop];
    [discriminate|].
  destruct (q_selectTheta q <? kMaxSelectTheta)%D; [|intros [= <- <-]; reflexivity].
  destruct (quad_pass _ _ _ _ _) as [[[wc wd] tc] rt].
  destruct (_ && _ && _); [intros [= <- <-]; reflexivity|].
  destruct (_ || _); [intros [= <- <-]; reflexivity|].
  intros H. apply IH in H. exact H.
Qed.

Lemma chooseFinalWorkGroupQuad_analysis (fuel : nat) (r r' : HEkkDualRow)
    (ok : bool) :
  chooseFinalWorkGroupQuad kInitialTotalChange kInitialRemainTheta
    kMaxSelectTheta fuel r = Some (ok, r') ->
  analysis r' = analysis r.
Proof.
  unfold chooseFinalWorkGroupQuad.
  destruct (quad_loop _ _ _ _ _ _ _) as [[[|] r1]|] eqn:E; [| |discriminate].
  - apply quad_loop_analysis in E. cbn in E.
    case_bool_decide; intros [= <- <-]; exact E.
  - apply quad_loop_analysis in E. cbn in E. intros [= <- <-]. exact E.
Qed.

Lemma flips_quad_analysis (r : HEkkDualRow) (g : Z) :
  analysis (flips_quad r g) = analysis r.
Proof.
  unfold flips_quad.
  apply (for_z_preserves (fun w => analysis w = analysis r)); [reflexivity|].
  intros i w _ H. exact H.
Qed.

(** The clock events of steps 3 and 4 under the quadratic sort. *)
Lemma chooseFinal_pivot_log (r : HEkkDualRow) :
  exists tl,
    clock_log (analysis (snd (chooseFinal_pivot kHighsDebugLevelCheap pdqsort
                                true false r)))
    = clock_log (analysis r)
      ++ [Start Chuzc3bClock; Stop Chuzc3bClock; Start Chuzc3cClock;
          Stop Chuzc3cClock; Start Chuzc3dClock; Stop Chuzc3dClock;
          Start Chuzc3eClock; Stop Chuzc3eClock; Stop Chuzc3Clock] ++ tl
    /\ (tl = [] \/ tl = [Stop Chuzc3dClock]).
Proof.
  unfold chooseFinal_pivot.
  destruct (choose_break true false _) as [breakIndex breakGroup].
  set (r1 := timer_start Chuzc3dClock _).
  assert (E1 : clock_log (analysis r1)
               = clock_log (analysis r)
                 ++ [Start Chuzc3bClock; Stop Chuzc3bClock; Start Chuzc3cClock;
                     Stop Chuzc3cClock; Start Chuzc3dClock]).
  { subst r1. unfold set_theta. destruct (_ >? _)%D; cbn;
      rewrite <- !app_assoc; reflexivity. }
  clearbody r1.
  set (r2 := drop_flips_if_degenerate _).
  assert (E2 : analysis r2 = analysis r1).
  { subst r2. unfold drop_flips_if_degenerate.
    destruct (_ ==? _)%D; cbn [analysis set_workCount];
      rewrite flips_quad_analysis; reflexivity. }
  clearbody r2.
  set (r3 := timer_stop Chuzc3Clock _).
  assert (E3 : clock_log (analysis r3)
               = clock_log (analysis r1)
                 ++ [Stop Chuzc3dClock; Start Chuzc3eClock; Stop Chuzc3eClock;
                     Stop Chuzc3Clock]).
  { subst r3. cbn. rewrite E2, <- !app_assoc. reflexivity. }
  clearbody r3.
  destruct (negb (_ =? 0)); cbn [snd].
  - exists [Stop Chuzc3dClock]. split; [|right; reflexivity].
    cbn. rewrite E3, E1, <- !app_assoc. reflexivity.
  - exists []. split; [|left; reflexivity].
    rewrite E3, E1, <- !app_assoc. reflexivity.
Qed.

(** On every input, the call that returns has started the clock of the
    quadratic grouping and not the clock of the heap grouping. *)
Lemma chooseFinal_log (fuel : nat) (r : HEkkDualRow) :
  match
    chooseFinal kInitialTotalChange kInitialRemainTheta kMaxSelectTheta
      kHighsDebugLevelCheap maxheapsort pdqsort fuel r
  with
  | Some (_, _, r') =>
      exists ev,
        clock_log (analysis r') = clock_log (analysis r) ++ ev
        /\ In (Start Chuzc3a0Clock) ev /\ ~ In (Start Chuzc3a1Clock) ev
  | None => True
  end.
Proof.
  unfold chooseFinal.
  destruct (reduce_loop _ _ _ _ _ _) as [[[wc wd] tc]|]; [|exact I].
  unfold use_heap_sort, use_quad_sort. cbn [negb]. cbv iota.
  set (r0 := timer_start Chuzc3a0Clock _).
  assert (E0 : clock_log (analysis r0)
               = clock_log (analysis r)
                 ++ [Start Chuzc2Clock; Stop Chuzc2Clock; Start Chuzc3Clock;
                     Start Chuzc3a0Clock]).
  { subst r0. case_bool_decide; cbn; rewrite <- !app_assoc; reflexivity. }
  destruct (chooseFinalWorkGroupQuad _ _ _ _ r0) as [[ok rq]|] eqn:Eq; [|exact I].
  apply chooseFinalWorkGroupQuad_analysis in Eq.
  destruct ok; cbn [negb].
  - destruct (chooseFinal_pivot_log (timer_stop Chuzc3a0Clock rq)) as (tl & El & Htl).
    destruct (chooseFinal_pivot _ _ true false _) as [ret rp]. cbn [snd] in El.
    cbv iota beta. eexists. split.
    + rewrite El. cbn. rewrite Eq, E0, <- !app_assoc. reflexivity.
    + split; [cbn; tauto|]. intros Hin. 
      repeat (destruct Hin as [Hin|Hin]; [discriminate Hin|]).
      destruct Htl as [-> | ->]; cbn in Hin; intuition discriminate.
  - cbv iota beta. eexists. split.
    + cbn. rewrite Eq, E0, <- !app_assoc. reflexivity.
    + split; [cbn; tauto|]. cbn. intuition discriminate.
Qed.
End ClockLog.

(** C1: [chooseFinal] does not look at the number of candidates when it
    picks the grouping routine: [use_heap_sort] is false for every count.
    On 150 candidates (all of them kept by the large-step reduction, so
    that the call is counted in [num_heap_chuzc]) the clock of the
    quadratic routine is started, the clock of the heap routine never
    is, [workGroup] holds the groups and [alt_workGroup] stays empty.
    And on every input, a call that returns has started the clock of
    the quadratic routine and has not started that of the heap
    routine. *)
Theorem chooseFinal_heap_sort_never_used :
  (forall n, HEkkDualRow.use_quad_sort n = true
             /\ HEkkDualRow.use_heap_sort n = false)
  /\ HEkkDualRow.workCount Examples.candidates_150 = 150
  /\ match Examples.chooseFinal 5 Examples.candidates_150 with
     | Some (ret, reached_pivot, r) =>
         ret = 0 /\ reached_pivot = true
         /\ HEkkDualRow.num_heap_chuzc (HEkkDualRow.analysis r) = 1
         /\ HEkkDualRow.num_quad_chuzc (HEkkDualRow.analysis r) = 0
         /\ HEkkDualRow.clock_log (HEkkDualRow.analysis r)
            = [HEkkDualRow.Start HEkkDualRow.Chuzc2Clock;
               HEkkDualRow.Stop HEkkDualRow.Chuzc2Clock;
               HEkkDualRow.Start HEkkDualRow.Chuzc3Clock;
               HEkkDualRow.Start HEkkDualRow.Chuzc3a0Clock;
               HEkkDualRow.Stop HEkkDualRow.Chuzc3a0Clock;
               HEkkDualRow.Start HEkkDualRow.Chuzc3bClock;
               HEkkDualRow.Stop HEkkDualRow.Chuzc3bClock;
               HEkkDualRow.Start HEkkDualRow.Chuzc3cClock;
               HEkkDualRow.Stop HEkkDualRow.Chuzc3cClock;
               HEkkDualRow.Start HEkkDualRow.Chuzc3dClock;
               HEkkDualRow.Stop HEkkDualRow.Chuzc3dClock;
               HEkkDualRow.Start HEkkDualRow.Chuzc3eClock;
               HEkkDualRow.Stop HEkkDualRow.Chuzc3eClock;
               HEkkDualRow.Stop HEkkDualRow.Chuzc3Clock]
         /\ HEkkDualRow.workGroup r = [0; 150]
         /\ HEkkDualRow.alt_workGroup r = []
     | None => False
     end
  /\ (forall kInitialTotalChange kInitialRemainTheta kMaxSelectTheta
         kHighsDebugLevelCheap maxheapsort pdqsort fuel r,
        match
          HEkkDualRow.chooseFinal kInitialTotalChange kInitialRemainTheta
            kMaxSelectTheta kHighsDebugLevelCheap maxheapsort pdqsort fuel r
        with
        | Some (_, _, r') =>
            exists ev,
              HEkkDualRow.clock_log (HEkkDualRow.analysis r')
              = HEkkDualRow.clock_log (HEkkDualRow.analysis r) ++ ev
              /\ In (HEkkDualRow.Start HEkkDualRow.Chuzc3a0Clock) ev
              /\ ~ In (HEkkDualRow.Start HEkkDualRow.Chuzc3a1Clock) ev
        | None => True
        end).
Proof.
  split; [intros n; split; reflexivity|].
  split; [vm_compute; reflexivity|].
  split; [vm_compute; repeat split; reflexivity|].
  intros. apply chooseFinal_log.
Qed.

(** Rational arithmetic: goals over [Qc] are moved to [Q], where [lra]
    decides them. *)
Lemma Qc_eq_iff (x y : Qc) : x = y <-> (this x == this y)%Q.
Proof. split; [intros ->; reflexivity | apply Qc_is_canon]. Qed.

Ltac qc_to_q :=
  unfold Qcle, Qclt, Qcminus, Qcdiv in *;
  repeat match goal with
         | H : @eq Qc _ _ |- _ => apply Qc_eq_iff in H
         | H : not (@eq Qc _ _) |- _ => rewrite Qc_eq_iff in H
         | |- @eq Qc _ _ => apply Qc_eq_iff
         | |- not (@eq Qc _ _) => rewrite Qc_eq_iff
         end;
  cbn [this Qcplus Qcmult Qcopp Q2Qc] in *;
  rewrite ?Qred_correct in *.

Ltac qc_lra := qc_to_q; lra.

(** Arrays. *)
Lemma nth_insert_eq {A} (l : list A) (i : nat) (x d : A) :
  (i < length l)%nat -> nth i (<[i := x]> l) d = x.
Proof.
  intros H. rewrite nth_lookup, list_lookup_insert_eq by exact H. reflexivity.
Qed.

Lemma nth_insert_ne {A} (l : list A) (i j : nat) (x d : A) :
  i <> j -> nth j (<[i := x]> l) d = nth j l d.
Proof.
  intros H. rewrite !nth_lookup, list_lookup_insert_ne by exact H. reflexivity.
Qed.

Lemma for_range_until_ind {S : Type} (P : nat -> bool * S -> Prop) (n : nat)
    (body : nat -> S -> bool * S) (s : S) :
  P 0%nat (false, s) ->
  (forall i st, (i < n)%nat -> P i st ->
     P (Datatypes.S i) (if fst st then st else body i (snd st))) ->
  P n (for_range_until n body s).
Proof.
  unfold for_range_until. intros H0 Hstep.
  induction n as [|n IH].
  - exact H0.
  - rewrite seq_S, fold_left_app. cbn [fold_left].
    apply Hstep; [lia|]. apply IH. intros i st Hi. apply Hstep. lia.
Qed.

(** ** cleanBounds *)

Section CleanBounds.

Import HighsLpUtils.

(** The loops of [cleanBounds] in the exact model, for the statement on
    [isBoundInfeasible] below. *)
Lemma clean_loop_spec (tol : double) (lo up : list double) (mr : double)
    (nc : Z) (n : nat) :
  (n <= length lo)%nat -> (n <= length up)%nat ->
  clean_inv tol lo up nc n
    (for_range_until n (clean_step tol) (mr, nc, lo, up)).
Proof.
  intros Hlo Hup. apply for_range_until_ind.
  - split.
    + split; [discriminate | intros (i & Hi & _); lia].
    + intros _. repeat split; try lia.
      * intros (i & Hi & _); lia.
  - intros k [stop [[[mr' nc'] lo'] up']] Hk [Hstop Hgo].
    cbn [fst snd]. destruct stop.
    + split; [|discriminate].
      split; [|reflexivity]. intros _.
      destruct (proj1 Hstop eq_refl) as (i & Hi & Hr). exists i. split; [lia|exact Hr].
    + destruct (Hgo eq_refl) as (Ll & Lu & Hl & Hu & Hnc & Hch).
      assert (Hnone : forall i, (i < k)%nat -> (residual_of lo up i >? tol)%D = false).
      { intros i Hi. destruct (residual_of lo up i >? tol)%D eqn:E; [|reflexivity].
        assert (false = true) as Hf by (apply Hstop; eauto). discriminate. }
      unfold clean_step.
      assert (El : nth k lo' Dbl.zero = nth k lo Dbl.zero).
      { rewrite Hl. rewrite bool_decide_eq_false_2 by lia. reflexivity. }
      assert (Eu : nth k up' Dbl.zero = nth k up Dbl.zero).
      { rewrite Hu. rewrite bool_decide_eq_false_2 by lia. reflexivity. }
      rewrite El, Eu. fold (residual_of lo up k). fold (midpoint_of lo up k).
      destruct (residual_of lo up k >? tol)%D eqn:Et.
      * split; [|discriminate]. split; [|reflexivity]. intros _. exists k. split; [lia|exact Et].
      * destruct (residual_of lo up k >? Dbl.zero)%D eqn:Ez.
        -- split.
           { split; [discriminate|]. intros (i & Hi & Hr).
             destruct (decide (i = k)) as [->|Hne]; [congruence|].
             rewrite Hnone in Hr by lia. discriminate. }
           intros _. rewrite !length_insert. repeat split; try assumption; try lia.
           ++ intros i. destruct (decide (i = k)) as [->|Hne].
              ** rewrite nth_insert_eq by lia.
                 rewrite bool_decide_eq_true_2 by lia. rewrite Ez. reflexivity.
              ** rewrite nth_insert_ne by congruence. rewrite Hl.
                 destruct (decide (i < k)%nat).
                 --- rewrite !bool_decide_eq_true_2 by lia. reflexivity.
                 --- rewrite !bool_decide_eq_false_2 by lia. reflexivity.
           ++ intros i. destruct (decide (i = k)) as [->|Hne].
              ** rewrite nth_insert_eq by lia.
                 rewrite bool_decide_eq_true_2 by lia. rewrite Ez. reflexivity.
              ** rewrite nth_insert_ne by congruence. rewrite Hu.
                 destruct (decide (i < k)%nat).
                 --- rewrite !bool_decide_eq_true_2 by lia. reflexivity.
                 --- rewrite !bool_decide_eq_false_2 by lia. reflexivity.
           ++ intros _. exists k. split; [lia|exact Ez].
        -- split.
           { split; [discriminate|]. intros (i & Hi & Hr).
             destruct (decide (i = k)) as [->|Hne]; [congruence|].
             rewrite Hnone in Hr by lia. discriminate. }
           intros _. repeat split; try assumption.
           ++ intros i. rewrite Hl. destruct (decide (i = k)) as [->|Hne].
              ** rewrite Ez, !andb_false_r. reflexivity.
              ** destruct (decide (i < k)%nat).
                 --- rewrite !bool_decide_eq_true_2 by lia. reflexivity.
                 --- rewrite !bool_decide_eq_false_2 by lia. reflexivity.
           ++ intros i. rewrite Hu. destruct (decide (i = k)) as [->|Hne].
              ** rewrite Ez, !andb_false_r. reflexivity.
              ** destruct (decide (i < k)%nat).
                 --- rewrite !bool_decide_eq_true_2 by lia. reflexivity.
                 --- rewrite !bool_decide_eq_false_2 by lia. reflexivity.
           ++ intros H. destruct (proj1 Hch H) as (i & Hi & Hr). exists i. split; [lia|exact Hr].
           ++ intros (i & Hi & Hr). apply Hch.
              destruct (decide (i = k)) as [->|Hne]; [congruence|].
              exists i. split; [lia|exact Hr].
Qed.

End CleanBounds.

(** *** cleanBounds in binary64 *)

Section CleanBoundsBinary64.

Import Binary64.HighsLpUtils.

Lemma clean_loop_binary64 (tol : float) (lo up : list float) (mr : float)
    (nc : Z) (n : nat) :
  (n <= length lo)%nat -> (n <= length up)%nat ->
  clean_inv tol lo up nc n
    (for_range_until n (clean_step tol) (mr, nc, lo, up)).
Proof.
  intros Hlo Hup. apply for_range_until_ind.
  - split.
    + split; [discriminate | intros (i & Hi & _); lia].
    + intros _. repeat split; try lia.
      * intros (i & Hi & _); lia.
  - intros k [stop [[[mr' nc'] lo'] up']] Hk [Hstop Hgo].
    cbn [fst snd]. destruct stop.
    + split; [|discriminate].
      split; [|reflexivity]. intros _.
      destruct (proj1 Hstop eq_refl) as (i & Hi & Hr).
      exists i. split; [lia|exact Hr].
    + destruct (Hgo eq_refl) as (Ll & Lu & Hl & Hu & Hnc & Hch).
      assert (Hnone : forall i, (i < k)%nat ->
                        F64.gtb (residual_of lo up i) tol = false).
      { intros i Hi. destruct (F64.gtb (residual_of lo up i) tol) eqn:E;
          [|reflexivity].
        assert (false = true) as Hf by (apply Hstop; eauto). discriminate. }
      unfold clean_step.
      assert (El : nth k lo' 0%float = nth k lo 0%float).
      { rewrite Hl. rewrite bool_decide_eq_false_2 by lia. reflexivity. }
      assert (Eu : nth k up' 0%float = nth k up 0%float).
      { rewrite Hu. rewrite bool_decide_eq_false_2 by lia. reflexivity. }
      rewrite El, Eu. fold (residual_of lo up k). fold (midpoint_of lo up k).
      destruct (F64.gtb (residual_of lo up k) tol) eqn:Et.
      * split; [|discriminate]. split; [|reflexivity]. intros _.
        exists k. split; [lia|exact Et].
      * assert (Hstop' :
                  false = true <->
                  exists i, (i < S k)%nat
                            /\ F64.gtb (residual_of lo up i) tol = true).
        { split; [discriminate|]. intros (i & Hi & Hr).
          destruct (decide (i = k)) as [->|Hne]; [congruence|].
          rewrite Hnone in Hr by lia. discriminate. }
        destruct (F64.gtb (residual_of lo up k) 0%float) eqn:Ez.
        -- split; [exact Hstop'|].
           intros _. rewrite !length_insert.
           split; [exact Ll|]. split; [exact Lu|].
           split; [|split; [|split; [lia|]]].
           ++ intros i. destruct (decide (i = k)) as [->|Hne].
              ** rewrite nth_insert_eq by lia.
                 rewrite bool_decide_eq_true_2 by lia. rewrite Ez. reflexivity.
              ** rewrite nth_insert_ne by congruence. rewrite Hl.
                 destruct (decide (i < k)%nat).
                 --- rewrite !bool_decide_eq_true_2 by lia. reflexivity.
                 --- rewrite !bool_decide_eq_false_2 by lia. reflexivity.
           ++ intros i. destruct (decide (i = k)) as [->|Hne].
              ** rewrite nth_insert_eq by lia.
                 rewrite bool_decide_eq_true_2 by lia. rewrite Ez. reflexivity.
              ** rewrite nth_insert_ne by congruence. rewrite Hu.
                 destruct (decide (i < k)%nat).
                 --- rewrite !bool_decide_eq_true_2 by lia. reflexivity.
                 --- rewrite !bool_decide_eq_false_2 by lia. reflexivity.
           ++ split; [|lia]. intros _. exists k. split; [lia|exact Ez].
        -- split; [exact Hstop'|].
           intros _. split; [exact Ll|]. split; [exact Lu|].
           split; [|split; [|split; [exact Hnc|]]].
           ++ intros i. rewrite Hl. destruct (decide (i = k)) as [->|Hne].
              ** rewrite Ez, !andb_false_r. reflexivity.
              ** destruct (decide (i < k)%nat).
                 --- rewrite !bool_decide_eq_true_2 by lia. reflexivity.
                 --- rewrite !bool_decide_eq_false_2 by lia. reflexivity.
           ++ intros i. rewrite Hu. destruct (decide (i = k)) as [->|Hne].
              ** rewrite Ez, !andb_false_r. reflexivity.
              ** destruct (decide (i < k)%nat).
                 --- rewrite !bool_decide_eq_true_2 by lia. reflexivity.
                 --- rewrite !bool_decide_eq_false_2 by lia. reflexivity.
           ++ split.
              ** intros H. destruct (proj1 Hch H) as (i & Hi & Hr).
                 exists i. split; [lia|exact Hr].
              ** intros (i & Hi & Hr). apply Hch.
                 destruct (decide (i = k)) as [->|Hne]; [congruence|].
                 exists i. split; [lia|exact Hr].
Qed.

(** Bounds in order leave a residual that is neither positive nor above
    a tolerance that is not negative. *)
Lemma ordered_residual (tol : float) (lo up : list float) (i : nat) :
  (0 <=? tol)%float = true ->
  (nth i lo 0 <=? nth i up 0)%float = true ->
  F64.gtb (residual_of lo up i) 0%float = false
  /\ F64.gtb (residual_of lo up i) tol = false.
Proof.
  intros Htol Hle. unfold F64.gtb, residual_of.
  pose proof (sub_le_not_pos _ _ Hle) as Hz.
  split; [exact Hz|]. apply not_pos_le_tol; assumption.
Qed.

(** C4: [cleanBounds], every operation in binary64, returns kError as
    soon as some column or row has a residual [lower - upper] above
    [primal_feasibility_tolerance]; when no residual exceeds the
    tolerance, every column and row with a residual above 0 gets both
    bounds replaced by the midpoint [0.5 * (lower + upper)], the other
    bounds stay, and the status is kWarning if there was such a column
    or row; when [lower <= upper] holds everywhere (and the tolerance is
    not negative) the status is kOk and the LP is left as it was. *)
Theorem cleanBounds_status_and_midpoints (tol : float) (lp : HighsLp) :
  bounds_sized lp ->
  let ncol := Z.to_nat (num_col_ lp) in
  let nrow := Z.to_nat (num_row_ lp) in
  let col_res := residual_of (col_lower_ lp) (col_upper_ lp) in
  let row_res := residual_of (row_lower_ lp) (row_upper_ lp) in
  let col_mid := midpoint_of (col_lower_ lp) (col_upper_ lp) in
  let row_mid := midpoint_of (row_lower_ lp) (row_upper_ lp) in
  let res := cleanBounds tol lp in
  (((exists i, (i < ncol)%nat /\ F64.gtb (col_res i) tol = true)
    \/ (exists i, (i < nrow)%nat /\ F64.gtb (row_res i) tol = true)) ->
   fst res = HighsLpUtils.kError)
  /\ ((forall i, (i < ncol)%nat -> F64.gtb (col_res i) tol = false) ->
      (forall i, (i < nrow)%nat -> F64.gtb (row_res i) tol = false) ->
      (((exists i, (i < ncol)%nat /\ F64.gtb (col_res i) 0%float = true)
        \/ (exists i, (i < nrow)%nat /\ F64.gtb (row_res i) 0%float = true)) ->
       fst res = HighsLpUtils.kWarning)
      /\ (forall i, (i < ncol)%nat ->
            nth i (col_lower_ (snd res)) 0%float
            = (if F64.gtb (col_res i) 0%float then col_mid i
               else nth i (col_lower_ lp) 0%float)
            /\ nth i (col_upper_ (snd res)) 0%float
               = (if F64.gtb (col_res i) 0%float then col_mid i
                  else nth i (col_upper_ lp) 0%float))
      /\ (forall i, (i < nrow)%nat ->
            nth i (row_lower_ (snd res)) 0%float
            = (if F64.gtb (row_res i) 0%float then row_mid i
               else nth i (row_lower_ lp) 0%float)
            /\ nth i (row_upper_ (snd res)) 0%float
               = (if F64.gtb (row_res i) 0%float then row_mid i
                  else nth i (row_upper_ lp) 0%float)))
  /\ ((0 <=? tol)%float = true ->
      (forall i, (i < ncol)%nat ->
         (nth i (col_lower_ lp) 0 <=? nth i (col_upper_ lp) 0)%float = true) ->
      (forall i, (i < nrow)%nat ->
         (nth i (row_lower_ lp) 0 <=? nth i (row_upper_ lp) 0)%float = true) ->
      res = (HighsLpUtils.kOk, lp)).
Proof.
  intros (Lcl & Lcu & Lrl & Lru).
  intros ncol nrow col_res row_res col_mid row_mid res.
  assert (Hc := clean_loop_binary64 tol (col_lower_ lp) (col_upper_ lp)
                  0%float 0 ncol ltac:(subst ncol; lia) ltac:(subst ncol; lia)).
  subst res. unfold cleanBounds. fold ncol.
  destruct (for_range_until ncol (clean_step tol) _)
    as [stopc [[[mrc ncc] clo] cup]].
  destruct Hc as [Hcs Hcg].
  cbn [num_row_ with_col_bounds row_lower_ row_upper_]. fold nrow.
  assert (Hr := clean_loop_binary64 tol (row_lower_ lp) (row_upper_ lp) mrc ncc
                  nrow ltac:(subst nrow; lia) ltac:(subst nrow; lia)).
  destruct (for_range_until nrow (clean_step tol) _)
    as [stopr [[[mrr ncr] rlo] rup]].
  destruct Hr as [Hrs Hrg].
  fold col_res in Hcs, Hcg. fold row_res in Hrs, Hrg.
  fold col_mid in Hcg. fold row_mid in Hrg.
  split; [|split].
  - (* error *)
    intros [Hex|Hex].
    + rewrite (proj2 Hcs Hex). reflexivity.
    + destruct stopc; [reflexivity|]. rewrite (proj2 Hrs Hex). reflexivity.
  - (* no residual above the tolerance *)
    intros Hnc Hnr.
    assert (stopc = false) as ->.
    { destruct stopc; [|reflexivity].
      destruct (proj1 Hcs eq_refl) as (i & Hi & Hx).
      rewrite Hnc in Hx by exact Hi. discriminate. }
    assert (stopr = false) as ->.
    { destruct stopr; [|reflexivity].
      destruct (proj1 Hrs eq_refl) as (i & Hi & Hx).
      rewrite Hnr in Hx by exact Hi. discriminate. }
    destruct (Hcg eq_refl) as (_ & _ & Hl & Hu & Hnc0 & Hch).
    destruct (Hrg eq_refl) as (_ & _ & Hl' & Hu' & Hnc1 & Hch').
    split; [|split].
    + intros Hex.
      assert (0 < ncr) as Hpos.
      { destruct Hex as [Hex|Hex].
        - apply Hch in Hex. lia.
        - apply Hch' in Hex. lia. }
      replace (ncr =? 0) with false by (symmetry; apply Z.eqb_neq; lia).
      reflexivity.
    + intros i Hi.
      cbn [negb]. destruct (negb (ncr =? 0));
        cbn [snd with_row_bounds col_lower_ col_upper_].
      all: rewrite Hl, Hu, bool_decide_eq_true_2 by exact Hi;
        split; reflexivity.
    + intros i Hi.
      destruct (negb (ncr =? 0));
        cbn [snd with_row_bounds row_lower_ row_upper_].
      all: rewrite Hl', Hu', bool_decide_eq_true_2 by exact Hi;
        split; reflexivity.
  - (* consistent bounds *)
    intros Htol Hcle Hrle.
    assert (Hcz : forall i, (i < ncol)%nat ->
                    F64.gtb (col_res i) 0%float = false
                    /\ F64.gtb (col_res i) tol = false).
    { intros i Hi. apply ordered_residual; [exact Htol|apply Hcle, Hi]. }
    assert (Hrz : forall i, (i < nrow)%nat ->
                    F64.gtb (row_res i) 0%float = false
                    /\ F64.gtb (row_res i) tol = false).
    { intros i Hi. apply ordered_residual; [exact Htol|apply Hrle, Hi]. }
    assert (stopc = false) as ->.
    { destruct stopc; [|reflexivity].
      destruct (proj1 Hcs eq_refl) as (i & Hi & Hx).
      rewrite (proj2 (Hcz i Hi)) in Hx. discriminate. }
    assert (stopr = false) as ->.
    { destruct stopr; [|reflexivity].
      destruct (proj1 Hrs eq_refl) as (i & Hi & Hx).
      rewrite (proj2 (Hrz i Hi)) in Hx. discriminate. }
    destruct (Hcg eq_refl) as (Ll & Lu & Hl & Hu & Hnc0 & Hch).
    destruct (Hrg eq_refl) as (Ll' & Lu' & Hl' & Hu' & Hnc1 & Hch').
    assert (ncc = 0) as ->.
    { destruct (Z.eq_dec ncc 0) as [|Hne]; [assumption|].
      destruct (proj1 Hch ltac:(lia)) as (i & Hi & Hx).
      rewrite (proj1 (Hcz i Hi)) in Hx. discriminate. }
    assert (ncr = 0) as ->.
    { destruct (Z.eq_dec ncr 0) as [|Hne]; [assumption|].
      destruct (proj1 Hch' ltac:(lia)) as (i & Hi & Hx).
      rewrite (proj1 (Hrz i Hi)) in Hx. discriminate. }
    cbn [Z.eqb negb].
    assert (forall (l' l : list float) (n : nat) (r m : nat -> float),
              length l' = length l -> n = length l ->
              (forall i, (i < n)%nat -> F64.gtb (r i) 0%float = false) ->
              (forall i, nth i l' 0%float
                         = if bool_decide (i < n)%nat && F64.gtb (r i) 0%float
                           then m i else nth i l 0%float) ->
              l' = l) as Hsame.
    { intros l' l n r m Hlen Hn Hz Hnth.
      apply (nth_ext _ _ 0%float 0%float Hlen).
      intros i Hi. rewrite Hnth, Hz by lia. rewrite andb_false_r.
      reflexivity. }
    rewrite (Hsame clo (col_lower_ lp) ncol col_res col_mid)
      by (assumption || (subst ncol; lia) || (intros; apply Hcz; assumption)).
    rewrite (Hsame cup (col_upper_ lp) ncol col_res col_mid)
      by (assumption || (subst ncol; lia) || (intros; apply Hcz; assumption)).
    rewrite (Hsame rlo (row_lower_ lp) nrow row_res row_mid)
      by (assumption || (subst nrow; lia) || (intros; apply Hrz; assumption)).
    rewrite (Hsame rup (row_upper_ lp) nrow row_res row_mid)
      by (assumption || (subst nrow; lia) || (intros; apply Hrz; assumption)).
    destruct lp; reflexivity.
Qed.

End CleanBoundsBinary64.

Lemma cleanBounds_status_and_midpoints_witness :
  Binary64.HighsLpUtils.bounds_sized Examples.lp_crossed64
  /\ fst (Binary64.HighsLpUtils.cleanBounds 0.5 Examples.lp_crossed64)
     = HighsLpUtils.kWarning
  /\ nth 0 (Binary64.HighsLpUtils.col_lower_
              (snd (Binary64.HighsLpUtils.cleanBounds 0.5
                      Examples.lp_crossed64))) 0%float
     = 0.875%float
  /\ fst (Binary64.HighsLpUtils.cleanBounds 0.125 Examples.lp_crossed64)
     = HighsLpUtils.kError
  /\ Binary64.HighsLpUtils.cleanBounds 0.5 Examples.lp_ordered64
     = (HighsLpUtils.kOk, Examples.lp_ordered64)
  /\ Binary64.HighsLpUtils.residual_of [0x1p-20%float] [(-0x1p-80)%float] 0
     = 0x1p-20%float
  /\ fst (Binary64.HighsLpUtils.cleanBounds 0x1p-20 Examples.lp_rounded64)
     = HighsLpUtils.kWarning.
Proof.
  assert (B : Binary64.HighsLpUtils.bounds_sized Examples.lp_crossed64)
    by (repeat split; reflexivity).
  assert (B1 : Binary64.HighsLpUtils.bounds_sized Examples.lp_ordered64)
    by (repeat split; reflexivity).
  assert (B2 : Binary64.HighsLpUtils.bounds_sized Examples.lp_rounded64)
    by (repeat split; reflexivity).
  destruct (cleanBounds_status_and_midpoints 0.5 Examples.lp_crossed64 B)
    as (_ & Hmid & _).
  destruct (cleanBounds_status_and_midpoints 0.125 Examples.lp_crossed64 B)
    as (Herr & _ & _).
  destruct (cleanBounds_status_and_midpoints 0.5 Examples.lp_ordered64 B1)
    as (_ & _ & Hok).
  destruct (cleanBounds_status_and_midpoints 0x1p-20 Examples.lp_rounded64 B2)
    as (_ & Hrnd & _).
  destruct Hmid as (Hw & Hcols & _).
  - intros [|[|i]] Hi; [vm_compute; reflexivity ..| cbn in Hi; lia].
  - intros [|i] Hi; [vm_compute; reflexivity | cbn in Hi; lia].
  - destruct Hrnd as (Hw' & _).
    + intros [|i] Hi; [vm_compute; reflexivity | cbn in Hi; lia].
    + intros i Hi. cbn in Hi. lia.
    + split; [exact B|]. split; [|split; [|split; [|split; [|split]]]].
      * apply Hw. left. exists 0%nat.
        split; [cbn; lia | vm_compute; reflexivity].
      * destruct (Hcols 0%nat ltac:(cbn; lia)) as [Hl _]. rewrite Hl.
        vm_compute. reflexivity.
      * apply Herr. left. exists 0%nat.
        split; [cbn; lia | vm_compute; reflexivity].
      * apply Hok.
        -- vm_compute; reflexivity.
        -- intros [|i] Hi; [vm_compute; reflexivity | cbn in Hi; lia].
        -- intros [|i] Hi; [vm_compute; reflexivity | cbn in Hi; lia].
      * vm_compute. reflexivity.
      * apply Hw'. left. exists 0%nat.
        split; [cbn; lia | vm_compute; reflexivity].
Defined.

(** ** HEkkDualRow::choosePossible *)

Lemma take_insert_snoc {A} (l : list A) (n : nat) (x : A) :
  (n < length l)%nat -> take (S n) (<[n := x]> l) = take n l ++ [x].
Proof.
  intros H. rewrite (take_S_r _ _ x).
  - rewrite take_insert_ge by lia. reflexivity.
  - apply list_lookup_insert_eq, H.
Qed.

(** *** choosePossible in binary64 *)

Section ChoosePossibleBinary64.

Import Binary64.HEkkDualRow.

Lemma same_inputs_binary64 r0 r i :
  same_inputs r0 r ->
  alpha_of r i = alpha_of r0 i /\ relax_of r i = relax_of r0 i
  /\ Ta_of r = Ta_of r0 /\ move_out_of r = move_out_of r0.
Proof.
  intros (E1 & E2 & E3 & E4 & E5 & E6 & E7 & E8).
  unfold alpha_of, relax_of, Ta_of, move_out_of.
  rewrite E1, E2, E3, E4, E6, E7, E8. repeat split.
Qed.

Lemma candidates_upto_snoc r k :
  candidates_upto r (S k)
  = candidates_upto r k
    ++ (if is_candidate r (Z.of_nat k) then [Z.of_nat k] else []).
Proof.
  unfold candidates_upto. rewrite seq_S, map_app, List.filter_app. reflexivity.
Qed.

Lemma candidates_upto_bound r k : (length (candidates_upto r k) <= k)%nat.
Proof.
  unfold candidates_upto.
  etransitivity; [apply List.filter_length_le|].
  rewrite length_map, length_seq. lia.
Qed.

Lemma candidates_spec r i :
  In i (candidates r) <->
  0 <= i < packCount r /\ F64.gtb (alpha_of r i) (Ta_of r) = true.
Proof.
  unfold candidates, entry_indices.
  rewrite List.filter_In, in_map_iff. unfold is_candidate. split.
  - intros [(j & <- & Hj) Hc]. apply in_seq in Hj. split; [lia|exact Hc].
  - intros [Hi Hc]. split; [|exact Hc].
    exists (Z.to_nat i). split; [lia|]. apply in_seq. lia.
Qed.

(** The tolerance is positive, and so is the [alpha] of a candidate. *)
Lemma Ta_positive r : (0 <? Ta_of r)%float = true.
Proof. unfold Ta_of. repeat case_bool_decide; vm_compute; reflexivity. Qed.

Lemma candidate_alpha_positive r i :
  In i (candidates r) -> (0 <? alpha_of r i)%float = true.
Proof.
  intros H. apply candidates_spec in H. destruct H as [_ H].
  exact (gt_positive _ _ (Ta_positive r) H).
Qed.

(** The updates of [workTheta]. *)
Lemma theta_after_snoc r t cs i :
  theta_after r t (cs ++ [i]) = theta_step r (theta_after r t cs) i.
Proof. unfold theta_after. rewrite fold_left_app. reflexivity. Qed.

Lemma theta_after_shape r cs : forall t,
  theta_after r t cs = t
  \/ exists i, In i cs /\ theta_after r t cs = ratio_of r i.
Proof.
  induction cs as [|i cs IH]; intros t; [left; reflexivity|].
  change (theta_after r t (i :: cs))
    with (theta_after r (theta_step r t i) cs).
  destruct (IH (theta_step r t i)) as [E|(j & Hj & E)].
  - rewrite E. unfold theta_step.
    destruct (F64.gtb _ _); [right|left; reflexivity].
    exists i. split; [left; reflexivity|reflexivity].
  - right. exists j. split; [right; exact Hj|exact E].
Qed.

Lemma theta_after_ratio r cs :
  (forall i, In i cs -> (0 <? alpha_of r i)%float = true) ->
  (exists i, In i cs /\ (relax_of r i <? infinity)%float = true) ->
  exists i, In i cs /\ theta_after r kHighsInf cs = ratio_of r i.
Proof.
  unfold kHighsInf. induction cs as [|i cs IH]; intros Hpos (j & Hj & Hfin).
  - destruct Hj.
  - change (theta_after r infinity (i :: cs))
      with (theta_after r (theta_step r infinity i) cs).
    unfold theta_step at 1.
    rewrite (infinity_mul_positive _ (Hpos i (or_introl eq_refl))).
    unfold F64.gtb at 1.
    destruct (relax_of r i <? infinity)%float eqn:Ei.
    + destruct (theta_after_shape r cs (ratio_of r i)) as [E|(k & Hk & E)].
      * exists i. split; [left; reflexivity|exact E].
      * exists k. split; [right; exact Hk|exact E].
    + destruct Hj as [->|Hj]; [congruence|].
      destruct IH as (k & Hk & E).
      * intros k Hk. apply Hpos. right. exact Hk.
      * exists j. split; assumption.
      * exists k. split; [right; exact Hk|exact E].
Qed.

Lemma choosePossible_binary64 (r : HEkkDualRow) :
  0 <= packCount r <= Z.of_nat (length (workData r)) ->
  possible_inv r (Z.to_nat (packCount r)) (choosePossible r).
Proof.
  intros Hcap. unfold choosePossible.
  cbn [packCount set_workCount set_workTheta].
  unfold for_z. rewrite Z.sub_0_r.
  apply (for_range_ind (possible_inv r)).
  - repeat split; cbn; reflexivity.
  - intros k s Hk (Hsame & Hlen & Hcount & Htake & Htheta).
    rewrite Z.add_0_l.
    assert (Hi : 0 <= Z.of_nat k < packCount r) by lia.
    destruct (same_inputs_binary64 r s (Z.of_nat k) Hsame)
      as (Ealpha & Erelax & ETa & Emo).
    pose proof Hsame as (E1 & E2 & E3 & E4 & E5 & E6 & E7 & E8).
    assert (Ealpha' :
              (at_D (packValue s) (Z.of_nat k) * F64.of_int (move_out_of r)
               * F64.of_int
                   (at_Z (workMove s) (at_Z (packIndex s) (Z.of_nat k))))%float
              = alpha_of r (Z.of_nat k)).
    { rewrite <- Ealpha, <- Emo. reflexivity. }
    rewrite Ealpha'. fold (is_candidate r (Z.of_nat k)).
    destruct (is_candidate r (Z.of_nat k)) eqn:Hc.
    + cbn [workCount set_workCount set_workData workData workDual workTheta
           workMove packIndex].
      assert (Erelax' :
                (at_D (workDual s) (at_Z (packIndex s) (Z.of_nat k))
                 * F64.of_int
                     (at_Z (workMove s) (at_Z (packIndex s) (Z.of_nat k)))
                 + dual_feasibility_tolerance r)%float
                = relax_of r (Z.of_nat k)).
      { rewrite <- Erelax, <- E2. reflexivity. }
      rewrite Erelax'.
      pose proof (candidates_upto_bound r k) as Hlenc.
      fold (ratio_of r (Z.of_nat k)).
      set (wd := zset (workData s) (workCount s)
                   (at_Z (packIndex s) (Z.of_nat k), alpha_of r (Z.of_nat k))).
      assert (Hwd : wd = <[length (candidates_upto r k)
                           := candidate_entry r (Z.of_nat k)]> (workData s)).
      { subst wd. unfold zset. rewrite bool_decide_eq_true_2 by lia.
        rewrite Hcount, Nat2Z.id. unfold candidate_entry. rewrite E6.
        reflexivity. }
      assert (Hgoal : forall s',
                same_inputs r s' -> workData s' = wd ->
                workCount s' = workCount s + 1 ->
                workTheta s' = theta_step r (workTheta s) (Z.of_nat k) ->
                possible_inv r (S k) s').
      { intros s' Hs' Hd Hc' Hl'. unfold possible_inv.
        rewrite candidates_upto_snoc, Hc. rewrite Hd, Hwd.
        split; [exact Hs'|]. split; [rewrite length_insert; exact Hlen|].
        rewrite length_app. cbn [length].
        split; [rewrite Hc', Hcount; lia|].
        split; [|rewrite theta_after_snoc, <- Htheta; exact Hl'].
        rewrite Nat.add_1_r, take_insert_snoc by lia.
        rewrite map_app, Htake. reflexivity. }
      unfold theta_step in Hgoal.
      destruct (F64.gtb (workTheta s * alpha_of r (Z.of_nat k))
                  (relax_of r (Z.of_nat k))).
      * apply Hgoal; try reflexivity. repeat split; assumption.
      * apply Hgoal; try reflexivity. repeat split; assumption.
    + unfold possible_inv. rewrite candidates_upto_snoc, Hc, app_nil_r.
      repeat split; assumption.
Qed.

(** C2: [choosePossible], every operation in binary64, records the
    pair (iCol, alpha), with
    [alpha = packValue[i] * move_out * move_iCol], for exactly the
    entries of the packed row with [alpha > Ta], in the order of the
    row, where [Ta] is the double that the literal 1e-9, 3e-8 or 1e-6
    denotes ([0x1.12e0be826d695p-30], [0x1.01b2b29a4692bp-25],
    [0x1.0c6f7a0b5ed8dp-20]) according to [update_count].  It leaves in [workTheta] what the updates
    [if (workTheta * alpha > relax) workTheta = relax / alpha], with
    [relax = workDual[iCol] * move_iCol + Td], make of +infinity at the
    recorded entries in their order: +infinity when nothing is
    recorded, and otherwise +infinity or the ratio [relax / alpha] of a
    recorded entry; the ratio of a recorded entry as soon as one of them
    has [relax] below +infinity. *)
Theorem choosePossible_candidates_and_theta (r : HEkkDualRow) :
  0 <= packCount r <= Z.of_nat (length (workData r)) ->
  let r' := choosePossible r in
  ((update_count r < 10 -> Ta_of r = 0x1.12e0be826d695p-30%float)
   /\ (10 <= update_count r < 20 -> Ta_of r = 0x1.01b2b29a4692bp-25%float)
   /\ (20 <= update_count r -> Ta_of r = 0x1.0c6f7a0b5ed8dp-20%float))
  /\ (forall i, In i (candidates r) <->
        0 <= i < packCount r /\ F64.gtb (alpha_of r i) (Ta_of r) = true)
  /\ workCount r' = Z.of_nat (length (candidates r))
  /\ take (length (candidates r)) (workData r')
     = map (fun i => (at_Z (packIndex r) i, alpha_of r i)) (candidates r)
  /\ workTheta r' = theta_after r kHighsInf (candidates r)
  /\ (candidates r = [] -> workTheta r' = kHighsInf)
  /\ (workTheta r' = kHighsInf
      \/ exists i, In i (candidates r) /\ workTheta r' = ratio_of r i)
  /\ ((exists i, In i (candidates r)
                 /\ (relax_of r i <? infinity)%float = true) ->
      exists i, In i (candidates r) /\ workTheta r' = ratio_of r i).
Proof.
  intros Hcap r'.
  destruct (choosePossible_binary64 r Hcap)
    as (_ & _ & Hcount & Htake & Htheta).
  fold r' in Hcount, Htake, Htheta.
  change (candidates_upto r (Z.to_nat (packCount r))) with (candidates r) in *.
  split; [|split; [|split; [|split; [|split; [|split; [|split]]]]]].
  - unfold Ta_of.
    repeat split; intros H; repeat case_bool_decide; reflexivity || lia.
  - apply candidates_spec.
  - exact Hcount.
  - exact Htake.
  - exact Htheta.
  - intros E. rewrite Htheta, E. reflexivity.
  - rewrite Htheta. apply theta_after_shape.
  - intros Hex. rewrite Htheta. apply theta_after_ratio; [|exact Hex].
    intros i. apply candidate_alpha_positive.
Qed.

End ChoosePossibleBinary64.

Lemma choosePossible_candidates_and_theta_witness :
  0 <= Binary64.HEkkDualRow.packCount Examples.row_ulp
    <= Z.of_nat (length (Binary64.HEkkDualRow.workData Examples.row_ulp))
  /\ Binary64.HEkkDualRow.workCount
       (Binary64.HEkkDualRow.choosePossible Examples.row_ulp) = 2
  /\ Binary64.HEkkDualRow.workTheta
       (Binary64.HEkkDualRow.choosePossible Examples.row_ulp)
     = Binary64.HEkkDualRow.ratio_of Examples.row_ulp 0.
Proof.
  assert (Hcap : 0 <= Binary64.HEkkDualRow.packCount Examples.row_ulp
                 <= Z.of_nat
                      (length (Binary64.HEkkDualRow.workData Examples.row_ulp)))
    by (cbn; lia).
  destruct (choosePossible_candidates_and_theta Examples.row_ulp Hcap)
    as (_ & _ & Hcount & _ & Htheta & _).
  split; [exact Hcap|]. split.
  - rewrite Hcount. vm_compute. reflexivity.
  - rewrite Htheta. vm_compute. reflexivity.
Defined.

(** C2 as the specification states it fails: on a packed row with the
    two candidates [alpha = 1] and [alpha = 3], whose ratios are
    [0x1.8000000000006p+0] and [0x1.8000000000005p+0], the product
    [workTheta * alpha] computed at the second candidate rounds to its
    [relax], the test [workTheta * alpha > relax] fails, and
    [workTheta] stays at the ratio of the first candidate, which is not
    the least one. *)
Lemma choosePossible_theta_counterexample :
  Binary64.HEkkDualRow.candidates Examples.row_ulp = [0; 1]
  /\ Binary64.HEkkDualRow.ratio_of Examples.row_ulp 0
     = 0x1.8000000000006p+0%float
  /\ Binary64.HEkkDualRow.ratio_of Examples.row_ulp 1
     = 0x1.8000000000005p+0%float
  /\ Binary64.HEkkDualRow.workTheta
       (Binary64.HEkkDualRow.choosePossible Examples.row_ulp)
     = 0x1.8000000000006p+0%float
  /\ ~ Binary64.HEkkDualRow.least_ratio Examples.row_ulp
         (Binary64.HEkkDualRow.candidates Examples.row_ulp)
         (Binary64.HEkkDualRow.workTheta
            (Binary64.HEkkDualRow.choosePossible Examples.row_ulp)).
Proof.
  split; [vm_compute; reflexivity|].
  split; [vm_compute; reflexivity|].
  split; [vm_compute; reflexivity|].
  split; [vm_compute; reflexivity|].
  intros [_ Hle].
  specialize (Hle 1 ltac:(vm_compute; right; left; reflexivity)).
  vm_compute in Hle. discriminate Hle.
Qed.

(** ** HighsPseudocost::addObservation *)

(** Signed array accesses. *)
Lemma zget_zset_eq {A} (l : list A) (i : Z) (x d : A) :
  0 <= i < Z.of_nat (length l) -> zget (zset l i x) i d = x.
Proof.
  intros H. unfold zget, zset. rewrite !bool_decide_eq_true_2 by lia.
  apply nth_insert_eq. lia.
Qed.

Lemma zget_zset_ne {A} (l : list A) (i j : Z) (x d : A) :
  i <> j -> zget (zset l i x) j d = zget l j d.
Proof.
  intros H. unfold zget, zset.
  destruct (bool_decide (0 <= j)) eqn:Ej; [|reflexivity].
  destruct (bool_decide (0 <= i)) eqn:Ei; [|reflexivity].
  apply bool_decide_eq_true in Ej, Ei.
  apply nth_insert_ne. lia.
Qed.

Lemma length_zset {A} (l : list A) (i : Z) (x : A) :
  length (zset l i x) = length l.
Proof. unfold zset. case_bool_decide; [apply length_insert|reflexivity]. Qed.

Section Pseudocost.

Import HighsPseudocost.

Lemma qnat_S (n : nat) : Q2Qc (inject_Z (Z.of_nat n + 1)) = (qnat n + 1)%Qc.
Proof.
  unfold qnat. apply Qc_is_canon. cbn [this Qcplus Q2Qc].
  rewrite !Qred_correct, inject_Z_plus. reflexivity.
Qed.

Lemma qnat_nonneg (n : nat) : (0 <= qnat n)%Qc.
Proof.
  unfold qnat, Qcle. cbn [this Q2Qc]. rewrite !Qred_correct.
  change 0%Q with (inject_Z 0). rewrite <- Zle_Qle. lia.
Qed.

Lemma qnat_pos (n : nat) : (0 < n)%nat -> (0 < qnat n)%Qc.
Proof.
  intros H. unfold qnat, Qclt. cbn [this Q2Qc]. rewrite !Qred_correct.
  change 0%Q with (inject_Z 0). rewrite <- Zlt_Qlt. lia.
Qed.

Lemma qsum_snoc (l : list Qc) (u : Qc) : qsum (l ++ [u]) = (qsum l + u)%Qc.
Proof.
  unfold qsum. induction l as [|x l IH]; cbn [app fold_right].
  - ring.
  - rewrite IH. ring.
Qed.

(** Without rounding, the running-average update computes the mean of
    the longer list. *)
Lemma mean_snoc (l : list Qc) (u q : Qc) :
  (l <> [] -> q = mean l) ->
  (q + (u - q) / Q2Qc (inject_Z (Z.of_nat (length l) + 1)))%Qc = mean (l ++ [u]).
Proof.
  intros Hq. unfold mean. rewrite qsum_snoc, length_app. cbn [length].
  rewrite Nat.add_1_r, Nat2Z.inj_succ, <- Z.add_1_r, qnat_S.
  fold (qnat (length l)).
  assert (Hn1 : (qnat (length l) + 1)%Qc <> 0%Qc).
  { pose proof (qnat_nonneg (length l)). intros E. qc_lra. }
  destruct l as [|x l'].
  - cbn [length]. unfold qsum. cbn [fold_right].
    replace (qnat 0 + 1)%Qc with 1%Qc by (apply Qc_is_canon; reflexivity).
    field. intros E. apply (f_equal this) in E. discriminate E.
  - rewrite (Hq ltac:(discriminate)). unfold mean. fold (qnat (length (x :: l'))).
    assert (Hn : qnat (length (x :: l')) <> 0%Qc).
    { pose proof (qnat_pos (length (x :: l')) ltac:(cbn; lia)). intros E. qc_lra. }
    field. split; assumption.
Qed.

Lemma running_exact_fold (a : Qc) (qs : list Qc) :
  fold_left (fun (st : Qc * Z) q =>
               ((fst st + (q - fst st) / Q2Qc (inject_Z (snd st + 1)))%Qc,
                snd st + 1))
    qs (a, 0)
  = (running_exact a qs, Z.of_nat (length qs)).
Proof.
  unfold running_exact.
  induction qs as [|q qs IH] using rev_ind; [reflexivity|].
  rewrite fold_left_app, IH. cbn [fold_left fst snd].
  rewrite length_app. cbn [length]. f_equal. lia.
Qed.

Lemma running_exact_snoc (a : Qc) (qs : list Qc) (q : Qc) :
  running_exact a (qs ++ [q])
  = (running_exact a qs
     + (q - running_exact a qs)
       / Q2Qc (inject_Z (Z.of_nat (length qs) + 1)))%Qc.
Proof.
  unfold running_exact at 1. rewrite fold_left_app, running_exact_fold.
  reflexivity.
Qed.

(** Carried out without rounding, the update of the code gives the
    arithmetic mean of the samples, whatever the average was at the
    start. *)
Lemma running_exact_mean (a : Qc) (qs : list Qc) :
  qs <> [] -> running_exact a qs = mean qs.
Proof.
  induction qs as [|q qs IH] using rev_ind; [intros H; contradiction|].
  intros _. rewrite running_exact_snoc. apply mean_snoc, IH.
Qed.

(** The update in binary64, one sample at a time. *)
Lemma running_fold (avg : float) (ss : list float) :
  fold_left (fun (st : float * Z) s =>
               (update (fst st) s (snd st + 1), snd st + 1))
    ss (avg, 0)
  = (running avg ss, Z.of_nat (length ss)).
Proof.
  unfold running.
  induction ss as [|u ss IH] using rev_ind; [reflexivity|].
  rewrite fold_left_app, IH. cbn [fold_left fst snd].
  rewrite length_app. cbn [length]. f_equal. lia.
Qed.

Lemma running_snoc (avg : float) (ss : list float) (u : float) :
  running avg (ss ++ [u])
  = update (running avg ss) u (Z.of_nat (length ss) + 1).
Proof.
  unfold running at 1. rewrite fold_left_app, running_fold. reflexivity.
Qed.

Lemma col_avg_step (ncol : nat) (counts : list Z) (avgs avgs0 : list float)
    (smp smp' : Z -> list float) (col : Z) (u : float) :
  col_avg ncol counts avgs avgs0 smp -> 0 <= col < Z.of_nat ncol ->
  smp' col = smp col ++ [u] ->
  (forall c, c <> col -> smp' c = smp c) ->
  let counts' := zset counts col (zget counts col 0 + 1) in
  col_avg ncol counts'
    (zset avgs col
       (zget avgs col 0
        + (u - zget avgs col 0) / F64.of_int (zget counts' col 0%Z))%float)
    avgs0 smp'.
Proof.
  intros (Lc & La & H) Hcol Hsame Hother counts'.
  split; [subst counts'; rewrite length_zset; exact Lc|].
  split; [rewrite length_zset; exact La|].
  intros c Hc. destruct (decide (c = col)) as [->|Hne].
  - destruct (H col Hcol) as (Hn & Hq).
    subst counts'. rewrite !zget_zset_eq by lia. rewrite Hsame. split.
    + rewrite Hn, length_app. cbn. lia.
    + rewrite running_snoc, <- Hq, <- Hn. reflexivity.
  - destruct (H c Hc) as (Hn & Hq).
    subst counts'. rewrite !zget_zset_ne by congruence.
    rewrite Hother by exact Hne. split; assumption.
Qed.

Lemma col_avg_ext (ncol : nat) (counts : list Z) (avgs avgs0 : list float)
    (smp smp' : Z -> list float) :
  col_avg ncol counts avgs avgs0 smp -> (forall c, smp' c = smp c) ->
  col_avg ncol counts avgs avgs0 smp'.
Proof.
  intros (Lc & La & H) E. split; [exact Lc|]. split; [exact La|].
  intros c Hc. rewrite E. apply H, Hc.
Qed.

Lemma total_avg_step (n : Z) (avg avg0 : float) (smp : list float)
    (u : float) :
  total_avg n avg avg0 smp ->
  total_avg (n + 1) (avg + (u - avg) / F64.of_int (n + 1))%float avg0
    (smp ++ [u]).
Proof.
  intros (Hn & ->). split.
  - rewrite Hn, length_app. cbn. lia.
  - rewrite running_snoc, <- Hn. reflexivity.
Qed.

Lemma zget_Forall {A} (P : A -> Prop) (l : list A) (i : Z) (d : A) :
  Forall P l -> 0 <= i < Z.of_nat (length l) -> P (zget l i d).
Proof.
  intros H Hi. unfold zget. rewrite bool_decide_eq_true_2 by lia.
  rewrite List.Forall_forall in H. apply H, nth_In. lia.
Qed.

Lemma observed_start (ncol : nat) (p : HighsPseudocost) :
  no_samples ncol p -> observed ncol p [] p.
Proof.
  intros (L1 & L2 & L3 & L4 & Z1 & Z2 & Z3).
  split; [|split].
  - split; [exact L3|]. split; [exact L1|]. intros col Hcol. split.
    + apply (zget_Forall (fun n => n = 0)); [exact Z1 | lia].
    + reflexivity.
  - split; [exact L4|]. split; [exact L2|]. intros col Hcol. split.
    + apply (zget_Forall (fun n => n = 0)); [exact Z2 | lia].
    + reflexivity.
  - split; [exact Z3|reflexivity].
Qed.

Lemma samples_up_snoc (col : Z) (cs : list call) (c : call) :
  samples_up col (cs ++ [c])
  = samples_up col cs ++ (if is_up col c then [sample c] else []).
Proof.
  unfold samples_up. rewrite List.filter_app, map_app. cbn [List.filter].
  destruct (is_up col c); reflexivity.
Qed.

Lemma samples_down_snoc (col : Z) (cs : list call) (c : call) :
  samples_down col (cs ++ [c])
  = samples_down col cs ++ (if is_down col c then [sample c] else []).
Proof.
  unfold samples_down. rewrite List.filter_app, map_app. cbn [List.filter].
  destruct (is_down col c); reflexivity.
Qed.

(** A [delta] that passes the assertion is on exactly one side of
    zero. *)
Lemma delta_side (delta : float) :
  (delta <? 0)%float || (0 <? delta)%float = true ->
  ((0 <? delta)%float = true /\ (delta <? 0)%float = false)
  \/ ((0 <? delta)%float = false /\ (delta <? 0)%float = true).
Proof.
  intros H. destruct (0 <? delta)%float eqn:Ep.
  - left. split; [reflexivity|]. apply lt_zero_antisym, Ep.
  - right. split; [reflexivity|]. rewrite orb_false_r in H. exact H.
Qed.

Lemma observed_step (ncol : nat) (p0 : HighsPseudocost) (cs : list call)
    (c : call) (p : HighsPseudocost) :
  observed ncol p0 cs p -> call_ok ncol c ->
  observed ncol p0 (cs ++ [c]) (observe p c).
Proof.
  intros (Hup & Hdown & Htot) Hok.
  destruct c as [[col delta] objdelta]. destruct Hok as (Hcol & Hd & Hobj).
  unfold observe, addObservation, F64.gtb.
  destruct (delta_side delta Hd) as [[Hpos Hneg]|[Hpos Hneg]]; rewrite Hpos.
  - assert (Es : sample (col, delta, objdelta) = (objdelta / delta)%float).
    { unfold sample, F64.gtb. rewrite Hpos. reflexivity. }
    rewrite <- Es.
    split; [|split]; cbn [nsamplesup pseudocostup nsamplesdown pseudocostdown
                           nsamplestotal cost_total set_up].
    + apply (col_avg_step _ _ _ _ (fun c0 => samples_up c0 cs));
        [exact Hup | exact Hcol | |]; cbn beta.
      * rewrite samples_up_snoc. unfold is_up.
        rewrite bool_decide_eq_true_2 by reflexivity. rewrite Hpos.
        reflexivity.
      * intros c Hc. rewrite samples_up_snoc. unfold is_up.
        rewrite (bool_decide_eq_false_2 (col = c)) by congruence.
        cbn. apply app_nil_r.
    + eapply col_avg_ext; [exact Hdown|].
      intros c. rewrite samples_down_snoc. unfold is_down.
      rewrite Hneg, andb_false_r. apply app_nil_r.
    + unfold samples_all. rewrite map_app.
      apply (total_avg_step _ _ _ (map sample cs)), Htot.
  - assert (Es : sample (col, delta, objdelta) = (- objdelta / delta)%float).
    { unfold sample, F64.gtb. rewrite Hpos. reflexivity. }
    rewrite <- Es.
    split; [|split]; cbn [nsamplesup pseudocostup nsamplesdown pseudocostdown
                           nsamplestotal cost_total set_down].
    + eapply col_avg_ext; [exact Hup|].
      intros c. rewrite samples_up_snoc. unfold is_up.
      rewrite Hpos, andb_false_r. apply app_nil_r.
    + apply (col_avg_step _ _ _ _ (fun c0 => samples_down c0 cs));
        [exact Hdown | exact Hcol | |]; cbn beta.
      * rewrite samples_down_snoc. unfold is_down.
        rewrite bool_decide_eq_true_2 by reflexivity. rewrite Hneg.
        reflexivity.
      * intros c Hc. rewrite samples_down_snoc. unfold is_down.
        rewrite (bool_decide_eq_false_2 (col = c)) by congruence.
        cbn. apply app_nil_r.
    + unfold samples_all. rewrite map_app.
      apply (total_avg_step _ _ _ (map sample cs)), Htot.
Qed.

Lemma observed_all (ncol : nat) (cs : list call) (p : HighsPseudocost) :
  no_samples ncol p -> Forall (call_ok ncol) cs ->
  observed ncol p cs (observe_all p cs).
Proof.
  intros Hp. induction cs as [|c cs IH] using rev_ind; intros Hok.
  - apply observed_start, Hp.
  - apply Forall_app in Hok. destruct Hok as [Hcs Hc].
    unfold observe_all. rewrite fold_left_app. cbn [fold_left].
    apply observed_step; [apply IH, Hcs|].
    apply Forall_inv in Hc. exact Hc.
Qed.

(** C7: after any sequence of calls of [addObservation]
    that starts in a state without samples, each call with an existing
    column, a [delta] other than zero and [objdelta >= 0]: the three
    counters count the samples, and [pseudocostup[col]],
    [pseudocostdown[col]] and [cost_total] hold what the update
    [avg += (sample - avg) / n], carried out in binary64 on the samples
    in the order of the calls, makes of the value the average had at the
    start: for [pseudocostup[col]] the samples [objdelta / delta] of
    the calls for [col] with [delta > 0], for [pseudocostdown[col]] the
    samples [-objdelta / delta] of the calls for [col] with [delta < 0],
    for [cost_total] all samples. *)
Theorem addObservation_running_averages (ncol : nat) (p0 : HighsPseudocost)
    (cs : list call) :
  no_samples ncol p0 -> Forall (call_ok ncol) cs ->
  let p := observe_all p0 cs in
  (forall col, 0 <= col < Z.of_nat ncol ->
     zget (nsamplesup p) col 0 = Z.of_nat (length (samples_up col cs))
     /\ zget (nsamplesdown p) col 0 = Z.of_nat (length (samples_down col cs))
     /\ zget (pseudocostup p) col 0%float
        = running (zget (pseudocostup p0) col 0%float) (samples_up col cs)
     /\ zget (pseudocostdown p) col 0%float
        = running (zget (pseudocostdown p0) col 0%float)
            (samples_down col cs))
  /\ nsamplestotal p = Z.of_nat (length cs)
  /\ cost_total p = running (cost_total p0) (samples_all cs).
Proof.
  intros Hp Hok p.
  destruct (observed_all ncol cs p0 Hp Hok) as ((_ & _ & Hu) & (_ & _ & Hd) & Ht).
  fold p in Hu, Hd, Ht. split; [|split].
  - intros col Hcol.
    destruct (Hu col Hcol) as (Hn & Hq).
    destruct (Hd col Hcol) as (Hn' & Hq').
    repeat split; assumption.
  - destruct Ht as [Hn _]. rewrite Hn. unfold samples_all.
    rewrite length_map. reflexivity.
  - apply Ht.
Qed.

End Pseudocost.

Lemma addObservation_running_averages_witness :
  HighsPseudocost.no_samples 2 Examples.no_observations
  /\ Forall (HighsPseudocost.call_ok 2) Examples.three_calls
  /\ zget (HighsPseudocost.pseudocostup
             (HighsPseudocost.observe_all Examples.no_observations
                Examples.three_calls)) 0 0%float
     = HighsPseudocost.running 0%float [6%float; 1%float]
  /\ HighsPseudocost.cost_total
       (HighsPseudocost.observe_all Examples.no_observations
          Examples.three_calls)
     = HighsPseudocost.running 0%float [6%float; 1%float; 2%float].
Proof.
  assert (Hp : HighsPseudocost.no_samples 2 Examples.no_observations).
  { unfold HighsPseudocost.no_samples. cbn.
    repeat split; repeat constructor. }
  assert (Hok : Forall (HighsPseudocost.call_ok 2) Examples.three_calls).
  { repeat constructor; try (cbn; lia); vm_compute; reflexivity. }
  destruct (addObservation_running_averages 2 Examples.no_observations
              Examples.three_calls Hp Hok) as (Hcols & _ & Htot).
  split; [exact Hp|]. split; [exact Hok|]. split.
  - destruct (Hcols 0 ltac:(cbn; lia)) as (_ & _ & Hup & _).
    rewrite Hup. vm_compute. reflexivity.
  - rewrite Htot. vm_compute. reflexivity.
Defined.

(** C7 as the specification states it fails: on four up branches of
    column 0 with the samples 0, 1, 6, 1 the code leaves
    [pseudocostup[0] = 0x1.fffffffffffffp+0], the double just below the
    mean 2 of the samples. *)
Lemma addObservation_mean_counterexample :
  HighsPseudocost.no_samples 2 Examples.no_observations
  /\ Forall (HighsPseudocost.call_ok 2) Examples.four_calls
  /\ HighsPseudocost.samples_up 0 Examples.four_calls
     = [0%float; 1%float; 6%float; 1%float]
  /\ zget (HighsPseudocost.pseudocostup
             (HighsPseudocost.observe_all Examples.no_observations
                Examples.four_calls)) 0 0%float
     = 0x1.fffffffffffffp+0%float
  /\ ~ HighsPseudocost.is_mean_of
         (zget (HighsPseudocost.pseudocostup
                  (HighsPseudocost.observe_all Examples.no_observations
                     Examples.four_calls)) 0 0%float)
         (HighsPseudocost.samples_up 0 Examples.four_calls).
Proof.
  split.
  { unfold HighsPseudocost.no_samples. cbn.
    repeat split; repeat constructor. }
  split.
  { repeat constructor; try (cbn; lia); vm_compute; reflexivity. }
  split; [vm_compute; reflexivity|].
  split; [vm_compute; reflexivity|].
  intros (qs & Hmap & Hval).
  destruct qs as [|q1 [|q2 [|q3 [|q4 [|q5 qs]]]]];
    try (vm_compute in Hmap; discriminate Hmap).
  vm_compute in Hmap. injection Hmap as <- <- <- <-.
  apply (f_equal (option_map this)) in Hval.
  vm_compute in Hval. discriminate Hval.
Qed.

(** ** Vector *)

Section VectorOps.

Import Vector.
Local Open Scope nat_scope.

(** Reads after writes. *)
Lemma idx_set_idx_eq v i j : i < length (index v) -> idx (set_idx v i j) i = j.
Proof. intros H. unfold idx, set_idx. cbn. apply nth_insert_eq, H. Qed.

Lemma idx_set_idx_ne v i j k : i <> k -> idx (set_idx v i j) k = idx v k.
Proof. intros H. unfold idx, set_idx. cbn. apply nth_insert_ne, H. Qed.

Lemma val_set_val_eq v i x : i < length (value v) -> val (set_val v i x) i = x.
Proof. intros H. unfold val, set_val. cbn. apply nth_insert_eq, H. Qed.

Lemma val_set_val_ne v i x p : i <> p -> val (set_val v i x) p = val v p.
Proof. intros H. unfold val, set_val. cbn. apply nth_insert_ne, H. Qed.

Lemma val_outside v p : length (value v) <= p -> val v p = Dbl.zero.
Proof. intros H. unfold val. apply nth_overflow, H. Qed.

Lemma zero_not_nonzero : (Dbl.zero !=? Dbl.zero)%D = false.
Proof. vm_compute. reflexivity. Qed.

(** A value written into the dense array is either the new value at the
    written position or the old value. *)
Lemma val_set_val v i x p :
  val (set_val v i x) p = x /\ p = i /\ i < length (value v)
  \/ val (set_val v i x) p = val v p.
Proof.
  destruct (decide (i = p)) as [->|Hne].
  - destruct (decide (p < length (value v))) as [Hlt|Hge].
    + left. rewrite val_set_val_eq by exact Hlt. auto.
    + right. unfold set_val, with_value, val. cbn.
      rewrite list_insert_ge by lia. reflexivity.
  - right. apply val_set_val_ne, Hne.
Qed.

Lemma same_shape_refl v : same_shape v v.
Proof. repeat split. Qed.

Lemma same_shape_trans v1 v2 v3 :
  same_shape v1 v2 -> same_shape v2 v3 -> same_shape v1 v3.
Proof. unfold same_shape. intros (A & B & C) (D & E & F). repeat split; congruence. Qed.

Lemma same_shape_set_idx v i j : same_shape v (set_idx v i j).
Proof. unfold same_shape, set_idx. cbn. rewrite length_insert. auto. Qed.

Lemma same_shape_set_val v i x : same_shape v (set_val v i x).
Proof. unfold same_shape, set_val. cbn. rewrite length_insert. auto. Qed.


Lemma new_shape d :
  dim (new d) = d /\ length (index (new d)) = d /\ length (value (new d)) = d
  /\ num_nz (new d) = 0 /\ forall p, val (new d) p = Dbl.zero.
Proof.
  unfold new, val. cbn. rewrite !length_replicate. repeat split.
  intros p. destruct (decide (p < d)) as [H|H].
  - rewrite nth_lookup, lookup_replicate_2 by exact H. reflexivity.
  - apply nth_overflow. rewrite length_replicate. lia.
Qed.

(** *** reset *)

Lemma reset_loop v :
  reset_inv v (num_nz v)
    (for_range (num_nz v)
       (fun i v => set_idx (set_val v (idx v i) Dbl.zero) i 0) v).
Proof.
  apply (for_range_ind (reset_inv v)).
  - repeat split. intros j Hj. lia.
  - intros k w Hk (Hs & Hn & Hi & Hv).
    split; [|split; [|split]].
    + eapply same_shape_trans; [exact Hs|].
      eapply same_shape_trans; [apply same_shape_set_val | apply same_shape_set_idx].
    + exact Hn.
    + intros j Hj. rewrite idx_set_idx_ne by lia. cbn. apply Hi. lia.
    + intros p. 
      change (val (set_idx (set_val w (idx w k) Dbl.zero) k 0) p)
        with (val (set_val w (idx w k) Dbl.zero) p).
      destruct (val_set_val w (idx w k) Dbl.zero p) as [(E & _)|E]; rewrite E.
      * rewrite zero_not_nonzero. discriminate.
      * intros Hnz. destruct (Hv p Hnz) as [Ev Hj]. split; [exact Ev|].
        intros j Hjk. destruct (decide (j = k)) as [->|Hne]; [|apply Hj; lia].
        intros Ek. rewrite <- Hi in Ek by lia.
        (* the write at [idx w k = p] happened, so the value is zero *)
        destruct (decide (p < length (value w))) as [Hlt|Hge].
        -- rewrite <- E, Ek, val_set_val_eq, zero_not_nonzero in Hnz by exact Hlt.
           discriminate.
        -- rewrite val_outside, zero_not_nonzero in Hnz by lia. discriminate.
Qed.

Lemma reset_spec v :
  same_shape v (reset v) /\ num_nz (reset v) = 0
  /\ (packed v -> forall p, p < dim v ->
        (val (reset v) p !=? Dbl.zero)%D = false).
Proof.
  unfold reset. destruct (reset_loop v) as (Hs & Hn & Hi & Hv).
  split; [exact Hs|]. split; [reflexivity|].
  intros Hp p Hdim.
  change (val (with_num_nz ?w 0) p) with (val w p).
  destruct (val _ p !=? Dbl.zero)%D eqn:E; [|reflexivity].
  destruct (Hv p E) as [Ev Hj]. rewrite Ev in E.
  destruct (Hp p Hdim E) as (k & Hk & Hidx). exfalso. exact (Hj k Hk Hidx).
Qed.

Lemma in_take_nth {A} (l : list A) (n : nat) (x d : A) :
  n <= length l -> In x (take n l) -> exists k, k < n /\ nth k l d = x.
Proof.
  intros Hn Hx. apply (In_nth _ _ d) in Hx. destruct Hx as (k & Hk & E).
  rewrite length_take in Hk. exists k. split; [lia|].
  rewrite <- E. rewrite !nth_lookup, lookup_take_lt by lia. reflexivity.
Qed.

Lemma lookup_nth {A} (l : list A) (k : nat) (d : A) :
  k < length l -> l !! k = Some (nth k l d).
Proof.
  intros H. destruct (nth_lookup_or_length l k d) as [E|E]; [exact E|lia].
Qed.

(** *** resparsify and the loops that append the nonzero positions *)

Lemma listing_append d f k w :
  listing_inv d f k w -> k < d -> f k = true ->
  listing_inv d f (S k) (with_num_nz (set_idx w (num_nz w) k) (S (num_nz w))).
Proof.
  intros (Hd & Li & Lv & Hn & Ht) Hk Hf.
  unfold listing_inv, set_idx, with_num_nz, with_index.
  cbn [dim index value num_nz].
  rewrite length_insert. repeat split; try assumption; try lia.
  rewrite take_insert_snoc by lia. rewrite Ht, seq_S, List.filter_app.
  cbn [List.filter Nat.add]. rewrite Hf. reflexivity.
Qed.

Lemma listing_skip d f k w :
  listing_inv d f k w -> f k = false -> listing_inv d f (S k) w.
Proof.
  intros (Hd & Li & Lv & Hn & Ht) Hf.
  repeat split; try assumption; try lia.
  rewrite Ht, seq_S, List.filter_app. cbn [List.filter Nat.add].
  rewrite Hf, app_nil_r. reflexivity.
Qed.

Lemma listing_packed d f w :
  listing_inv d f d w -> (forall p, p < d -> nonzero w p = f p) ->
  well_formed w /\ packed w.
Proof.
  intros (Hd & Li & Lv & Hn & Ht) Hf.
  assert (Hin : forall k, k < num_nz w -> idx w k < d /\ f (idx w k) = true).
  { intros k Hk.
    assert (In (idx w k) (take (num_nz w) (index w))) as Hin.
    { apply list_elem_of_In, list_elem_of_lookup. exists k.
      rewrite lookup_take_lt by exact Hk. apply lookup_nth. lia. }
    rewrite Ht in Hin. apply List.filter_In in Hin. destruct Hin as [Hs Hfk].
    apply in_seq in Hs. split; [lia|exact Hfk]. }
  split.
  - unfold well_formed. rewrite Hd. repeat split; try assumption.
    intros k Hk. apply Hin, Hk.
  - intros p Hp Hnz. rewrite Hd in Hp.
    assert (In p (take (num_nz w) (index w))) as Hinp.
    { rewrite Ht. apply List.filter_In. split; [apply in_seq; lia|].
      rewrite <- Hf by exact Hp. exact Hnz. }
    apply (in_take_nth _ _ _ 0) in Hinp; [|lia]. exact Hinp.
Qed.

Lemma resparsify_listing v :
  length (index v) = dim v -> length (value v) = dim v ->
  listing_inv (dim v) (nonzero v) (dim v) (resparsify v)
  /\ value (resparsify v) = value v.
Proof.
  intros Li Lv. unfold resparsify.
  apply (for_range_ind
           (fun k w => listing_inv (dim v) (nonzero v) k w /\ value w = value v)).
  - split; [|reflexivity]. repeat split; try assumption. cbn. lia.
  - intros k w Hk [Hinv Hval].
    assert (E : (val w k !=? Dbl.zero)%D = nonzero v k).
    { unfold nonzero, val. rewrite Hval. reflexivity. }
    rewrite E. destruct (nonzero v k) eqn:Hf.
    + split; [apply listing_append; assumption | exact Hval].
    + split; [apply listing_skip; assumption | exact Hval].
Qed.

Lemma resparsify_spec v :
  length (index v) = dim v -> length (value v) = dim v ->
  well_formed (resparsify v) /\ packed (resparsify v)
  /\ value (resparsify v) = value v /\ dim (resparsify v) = dim v
  /\ take (num_nz (resparsify v)) (index (resparsify v))
     = List.filter (nonzero v) (seq 0 (dim v)).
Proof.
  intros Li Lv. destruct (resparsify_listing v Li Lv) as [Hinv Hval].
  destruct (listing_packed _ _ _ Hinv) as [Hw Hp].
  { intros p _. unfold nonzero, val. rewrite Hval. reflexivity. }
  destruct Hinv as (Hd & _ & _ & _ & Ht). auto.
Qed.

(** *** operator+ and operator- on two vectors *)

Lemma combine_spec op v other :
  well_formed (combine op v other) /\ packed (combine op v other)
  /\ dim (combine op v other) = dim v.
Proof.
  set (f := fun p => (op (val v p) (val other p) !=? Dbl.zero)%D).
  assert (H : listing_inv (dim v) f (dim v) (combine op v other)
              /\ forall p, val (combine op v other) p
                           = if bool_decide (p < dim v)
                             then op (val v p) (val other p) else Dbl.zero).
  { set (P := fun (k : nat) (w : Vector) =>
                listing_inv (dim v) f k w
                /\ forall p, val w p
                             = if bool_decide (p < k)
                               then op (val v p) (val other p) else Dbl.zero).
    change (P (dim v) (combine op v other)).
    unfold combine. apply (for_range_ind P); unfold P.
    - destruct (new_shape (dim v)) as (A & B & C & D & E).
      split; [repeat split; try assumption; rewrite D; cbn; lia|].
      intros p. rewrite E. rewrite bool_decide_eq_false_2 by lia. reflexivity.
    - intros k w Hk [Hinv Hval].
      pose proof Hinv as (Hd & Li & Lv & Hn & Ht).
      set (r1 := set_val w k (op (val v k) (val other k))).
      assert (Hinv1 : listing_inv (dim v) f k r1).
      { unfold r1, listing_inv, set_val. cbn. rewrite length_insert.
        repeat split; assumption. }
      assert (Hval1 : forall p, val r1 p
                                = if bool_decide (p < S k)
                                  then op (val v p) (val other p) else Dbl.zero).
      { intros p. unfold r1. destruct (decide (p = k)) as [->|Hne].
        - rewrite val_set_val_eq by lia.
          rewrite bool_decide_eq_true_2 by lia. reflexivity.
        - rewrite val_set_val_ne by congruence. rewrite Hval.
          destruct (decide (p < k)).
          + rewrite !bool_decide_eq_true_2 by lia. reflexivity.
          + rewrite !bool_decide_eq_false_2 by lia. reflexivity. }
      assert (E : (val r1 k !=? Dbl.zero)%D = f k).
      { rewrite Hval1, bool_decide_eq_true_2 by lia. reflexivity. }
      rewrite E. destruct (f k) eqn:Hf.
      + split; [apply listing_append; assumption | exact Hval1].
      + split; [apply listing_skip; assumption | exact Hval1]. }
  destruct H as [Hinv Hval].
  destruct (listing_packed _ _ _ Hinv) as [Hw Hp].
  { intros p Hp. unfold nonzero. rewrite Hval, bool_decide_eq_true_2 by exact Hp.
    reflexivity. }
  destruct Hinv as (Hd & _). auto.
Qed.

(** *** unary operator- and operator* by a scalar *)

Lemma copy_loop_spec (g : double -> double) (v : Vector) :
  well_formed v ->
  let r :=
    for_range (num_nz v)
      (fun i result =>
         let r1 := set_idx result i (idx v i) in
         set_val r1 (idx v i) (g (val v (idx v i))))
      (new (dim v)) in
  well_formed (with_num_nz r (num_nz v)) /\ packed (with_num_nz r (num_nz v))
  /\ dim r = dim v.
Proof.
  intros (Li & Lv & Hn & Hidx) r.
  set (P := fun (k : nat) (w : Vector) =>
              same_shape (new (dim v)) w
              /\ (forall j, j < k -> idx w j = idx v j)
              /\ (forall p, nonzero w p = true -> exists j, j < k /\ idx v j = p)).
  assert (H : P (num_nz v) r).
  { subst r. apply (for_range_ind P); unfold P.
    - split; [apply same_shape_refl|]. split; [intros j Hj; lia|].
      intros p Hp. unfold nonzero in Hp.
      destruct (new_shape (dim v)) as (_ & _ & _ & _ & E).
      rewrite E, zero_not_nonzero in Hp. discriminate.
    - intros k w Hk (Hs & Hj & Hp).
      destruct (new_shape (dim v)) as (A & B & C & _).
      destruct Hs as (S1 & S2 & S3).
      split; [|split].
      + repeat split; cbn; rewrite ?length_insert; assumption.
      + intros j Hjk. cbn zeta.
        change (idx (set_val ?a ?b ?c) j) with (idx a j).
        destruct (decide (j = k)) as [->|Hne].
        * apply idx_set_idx_eq. lia.
        * rewrite idx_set_idx_ne by congruence. apply Hj. lia.
      + intros p Hnz. unfold nonzero in Hnz. cbn zeta in Hnz.
        destruct (val_set_val (set_idx w k (idx v k)) (idx v k)
                    (g (val v (idx v k))) p) as [(_ & -> & _)|E].
        * exists k. split; [lia|reflexivity].
        * rewrite E in Hnz. destruct (Hp p Hnz) as (j & Hjk & Ej).
          exists j. split; [lia|exact Ej]. }
  destruct H as ((S1 & S2 & S3) & Hj & Hp).
  destruct (new_shape (dim v)) as (A & B & C & _).
  split; [|split].
  - unfold well_formed. cbn [dim index value num_nz with_num_nz].
    rewrite S1, S2, S3, A, B, C.
    repeat split; try assumption.
    intros k Hk. change (idx (with_num_nz r (num_nz v)) k) with (idx r k).
    rewrite Hj by exact Hk. apply Hidx, Hk.
  - intros p Hdim Hnz. destruct (Hp p Hnz) as (j & Hjk & Ej).
    exists j. split; [exact Hjk|].
    change (idx (with_num_nz r (num_nz v)) j) with (idx r j).
    rewrite Hj by exact Hjk. exact Ej.
  - rewrite S1. exact A.
Qed.

(** *** scale and operator*= *)

Lemma scale_spec (v : Vector) (a : double) :
  well_formed v -> packed v ->
  well_formed (scale v a) /\ packed (scale v a) /\ same_shape v (scale v a).
Proof.
  intros (Li & Lv & Hn & Hidx) Hpk.
  set (P := fun (w : Vector) =>
              same_shape v w /\ index w = index v /\ num_nz w = num_nz v
              /\ forall p, nonzero w p = true ->
                   nonzero v p = true \/ exists j, j < num_nz v /\ idx v j = p).
  assert (H : P (scale v a)).
  { unfold scale. apply (for_range_preserves P); unfold P.
    - split; [apply same_shape_refl|]. auto.
    - intros k w Hk ((S1 & S2 & S3) & Ei & En & Hp).
      split; [|split; [|split]].
      + repeat split; cbn; rewrite ?length_insert; assumption.
      + exact Ei.
      + exact En.
      + intros p Hnz. unfold nonzero in Hnz.
        destruct (val_set_val w (idx w k) (val w (idx w k) * a)%D p)
          as [(_ & -> & _)|E].
        * right. exists k. split; [exact Hk|]. unfold idx. rewrite Ei. reflexivity.
        * rewrite E in Hnz. apply Hp, Hnz. }
  destruct H as ((S1 & S2 & S3) & Ei & En & Hp).
  split; [|split].
  - unfold well_formed. rewrite S1, S2, S3, En. repeat split; try assumption.
    intros k Hk. unfold idx. rewrite Ei. apply Hidx, Hk.
  - intros p Hdim Hnz. rewrite S1 in Hdim. rewrite En. unfold idx. rewrite Ei.
    destruct (Hp p Hnz) as [Hv|Hex]; [apply Hpk; assumption | exact Hex].
  - repeat split; assumption.
Qed.

(** *** sanitize *)

Lemma sanitize_loop (v : Vector) (thr : double) :
  num_nz v <= length (index v) ->
  sanitize_inv v thr (num_nz v)
    (for_range (num_nz v) (sanitize_step thr) (v, 0)).
Proof.
  intros Hcap. apply (for_range_ind (sanitize_inv v thr)).
  - split; [apply same_shape_refl|]. split; [lia|]. split; [auto|].
    split; [intros j Hj; lia|]. split; [auto|].
    split; [intros p (j & Hj & _); lia|].
    intros p _. right. intros j Hj. lia.
  - intros k [w n] Hk (Hs & Hn & Hi & Hkept & Hval & Hdrop & Hnz).
    pose proof Hs as (S1 & S2 & S3).
    unfold sanitize_step. rewrite (Hi k) by lia.
    set (q := idx v k).
    destruct (Dbl.fabs (val w q) >? thr)%D eqn:Etest.
    + (* the entry is kept *)
      split; [|split; [|split; [|split; [|split; [|split]]]]].
      * repeat split; cbn; rewrite ?length_insert; assumption.
      * lia.
      * intros j Hj. rewrite idx_set_idx_ne by lia. apply Hi. lia.
      * intros j Hj. destruct (decide (j = n)) as [->|Hne].
        -- exists k. split; [lia|]. apply idx_set_idx_eq. lia.
        -- rewrite idx_set_idx_ne by congruence.
           destruct (Hkept j ltac:(lia)) as (j' & Hj' & E).
           exists j'. split; [lia|exact E].
      * intros p. change (val (set_idx w n q) p) with (val w p).
        destruct (Hval p) as [E|(E & j & Hj & Hd)]; [left; exact E|].
        right. split; [exact E|]. exists j. split; [lia|exact Hd].
      * intros p (j & Hj & Ej & Ht). change (val (set_idx w n q) p) with (val w p).
        destruct (decide (j = k)) as [->|Hne].
        -- fold q in Ej. subst p.
           destruct (Hval q) as [E|(E & _)]; [|exact E].
           rewrite E in Etest. congruence.
        -- apply Hdrop. exists j. split; [lia|]. split; assumption.
      * intros p Hp. change (nonzero (set_idx w n q) p) with (nonzero w p) in Hp.
        destruct (Hnz p Hp) as [(j & Hj & Ej)|Hun].
        -- left. exists j. split; [lia|]. rewrite idx_set_idx_ne by lia. exact Ej.
        -- destruct (decide (q = p)) as [<-|Hne].
           ++ left. exists n. split; [lia|]. apply idx_set_idx_eq. lia.
           ++ right. intros j Hj. destruct (decide (j = k)) as [->|Hjk];
                [exact Hne | apply Hun; lia].
    + (* the entry is dropped *)
      assert (Hq : dropped v thr (S k) q \/ length (value w) <= q).
      { destruct (Hval q) as [E|(E & j & Hj & Hd)].
        - left. exists k. split; [lia|]. split; [reflexivity|].
          rewrite <- E. exact Etest.
        - left. exists j. split; [lia|exact Hd]. }
      split; [|split; [|split; [|split; [|split; [|split]]]]].
      * repeat split; cbn; rewrite ?length_insert; assumption.
      * lia.
      * intros j Hj. rewrite idx_set_idx_ne by lia. cbn. apply Hi. lia.
      * intros j Hj. rewrite idx_set_idx_ne by lia.
        change (idx (set_val w q Dbl.zero) j) with (idx w j).
        destruct (Hkept j Hj) as (j' & Hj' & E). exists j'. split; [lia|exact E].
      * intros p.
        change (val (set_idx (set_val w q Dbl.zero) k 0) p)
          with (val (set_val w q Dbl.zero) p).
        destruct (val_set_val w q Dbl.zero p) as [(E & -> & Hlt)|E]; rewrite E.
        -- right. split; [reflexivity|].
           destruct Hq as [Hq|Hq]; [exact Hq|lia].
        -- destruct (Hval p) as [E'|(E' & j & Hj & Hd)]; [left; exact E'|].
           right. split; [exact E'|]. exists j. split; [lia|exact Hd].
      * intros p (j & Hj & Ej & Ht).
        change (val (set_idx (set_val w q Dbl.zero) k 0) p)
          with (val (set_val w q Dbl.zero) p).
        destruct (val_set_val w q Dbl.zero p) as [(E & _)|E]; rewrite E;
          [reflexivity|].
        destruct (decide (j = k)) as [->|Hne].
        -- fold q in Ej. subst p.
           destruct (decide (q < length (value w))) as [Hlt|Hge].
           ++ rewrite <- E. apply val_set_val_eq, Hlt.
           ++ apply val_outside. lia.
        -- apply Hdrop. exists j. split; [lia|]. split; assumption.
      * intros p Hp. unfold nonzero in Hp.
        change (val (set_idx (set_val w q Dbl.zero) k 0) p)
          with (val (set_val w q Dbl.zero) p) in Hp.
        assert (Hpq : p <> q).
        { intros ->. destruct (decide (q < length (value w))) as [Hlt|Hge].
          - rewrite val_set_val_eq, zero_not_nonzero in Hp by exact Hlt.
            discriminate.
          - rewrite val_outside, zero_not_nonzero in Hp.
            + discriminate.
            + cbn. rewrite length_insert. lia. }
        rewrite val_set_val_ne in Hp by congruence.
        destruct (Hnz p Hp) as [(j & Hj & Ej)|Hun].
        -- left. exists j. split; [exact Hj|].
           rewrite idx_set_idx_ne by lia. exact Ej.
        -- right. intros j Hj. destruct (decide (j = k)) as [->|Hjk];
             [fold q; congruence | apply Hun; lia].
Qed.

Lemma sanitize_spec (v : Vector) (thr : double) :
  well_formed v ->
  same_shape v (sanitize v thr)
  /\ well_formed (sanitize v thr)
  /\ (packed v -> packed (sanitize v thr))
  /\ (forall p, listed v p -> (Dbl.fabs (val v p) >? thr)%D = false ->
        val (sanitize v thr) p = Dbl.zero)
  /\ (forall p, ~ (listed v p /\ (Dbl.fabs (val v p) >? thr)%D = false) ->
        val (sanitize v thr) p = val v p).
Proof.
  intros (Li & Lv & Hn & Hidx).
  pose proof (sanitize_loop v thr ltac:(lia)) as H.
  unfold sanitize.
  destruct (for_range (num_nz v) (sanitize_step thr) (v, 0)) as [w n].
  destruct H as (Hs & Hnk & Hi & Hkept & Hval & Hdrop & Hnz).
  pose proof Hs as (S1 & S2 & S3).
  split; [exact Hs|]. split; [|split; [|split]].
  - unfold well_formed. cbn [dim index value num_nz with_num_nz].
    rewrite S1, S2, S3. repeat split; try assumption; try lia.
    intros k Hk. change (idx (with_num_nz w n) k) with (idx w k).
    destruct (Hkept k Hk) as (j' & Hj' & ->). apply Hidx, Hj'.
  - intros Hpk p Hdim Hp.
    change (nonzero w p = true) in Hp.
    cbn [dim with_num_nz] in Hdim. rewrite S1 in Hdim.
    destruct (Hnz p Hp) as [Hl|Hun]; [exact Hl|].
    exfalso. destruct (Hval p) as [E|(E & _)].
    + unfold nonzero in Hp. rewrite E in Hp.
      destruct (Hpk p Hdim Hp) as (j & Hj & Ej). exact (Hun j Hj Ej).
    + unfold nonzero in Hp. rewrite E, zero_not_nonzero in Hp. discriminate.
  - intros p (j & Hj & Ej) Ht. apply Hdrop. exists j. auto.
  - intros p Hno. change (val (with_num_nz w n) p) with (val w p).
    destruct (Hval p) as [E|(_ & j & Hj & Ej & Ht)]; [exact E|].
    exfalso. apply Hno. split; [exists j; auto | exact Ht].
Qed.

(** *** reset, repopulate, unit *)

Lemma reset_preserves (v : Vector) :
  well_formed v -> packed v -> well_formed (reset v) /\ packed (reset v).
Proof.
  intros (Li & Lv & Hn & Hidx) Hpk.
  destruct (reset_spec v) as ((S1 & S2 & S3) & Hz & Hzero).
  split.
  - unfold well_formed. rewrite S1, S2, S3, Hz. repeat split; try assumption; lia.
  - intros p Hdim Hp. rewrite S1 in Hdim.
    rewrite (Hzero Hpk p Hdim) in Hp. discriminate.
Qed.

Lemma repopulate_preserves (v other : Vector) :
  well_formed v -> packed v -> well_formed other -> dim other = dim v ->
  well_formed (repopulate v other) /\ packed (repopulate v other).
Proof.
  intros (Li & Lv & Hn & Hidx) Hpk (Lio & Lvo & Hno & Hidxo) Hdim.
  destruct (reset_spec v) as ((S1 & S2 & S3) & Hz & Hzero).
  specialize (Hzero Hpk).
  unfold repopulate.
  set (P := fun (k : nat) (w : Vector) =>
              same_shape v w
              /\ (forall j, j < k -> idx w j = idx other j)
              /\ (forall p, p < dim v -> nonzero w p = true ->
                    exists j, j < k /\ idx other j = p)).
  match goal with
  | |- context [for_range ?n ?body ?s] =>
      assert (H : P n (for_range n body s))
  end.
  { apply (for_range_ind P); unfold P.
    - split; [repeat split; assumption|]. split; [intros j Hj; lia|].
      intros p Hp Hnzp. unfold nonzero in Hnzp. rewrite Hzero in Hnzp by exact Hp.
      discriminate.
    - intros k w Hk ((T1 & T2 & T3) & Hj & Hp).
      cbn zeta.
      assert (Ek : idx (set_idx w k (idx other k)) k = idx other k).
      { apply idx_set_idx_eq. lia. }
      rewrite Ek.
      split; [|split].
      + repeat split; cbn; rewrite ?length_insert; assumption.
      + intros j Hjk.
        change (idx (set_val ?a ?b ?c) j) with (idx a j).
        destruct (decide (j = k)) as [->|Hne]; [exact Ek|].
        rewrite idx_set_idx_ne by congruence. apply Hj. lia.
      + intros p Hdimp Hnzp. unfold nonzero in Hnzp.
        destruct (val_set_val (set_idx w k (idx other k)) (idx other k)
                    (val other (idx other k)) p) as [(_ & -> & _)|E].
        * exists k. split; [lia|reflexivity].
        * rewrite E in Hnzp. destruct (Hp p Hdimp Hnzp) as (j & Hjk & Ej).
          exists j. split; [lia|exact Ej]. }
  destruct H as ((T1 & T2 & T3) & Hj & Hp).
  split.
  - unfold well_formed. cbn [dim index value num_nz with_num_nz].
    rewrite T1, T2, T3. repeat split; try assumption; try lia.
    intros k Hk.
    match goal with
    | |- idx (with_num_nz ?w _) k < _ => change (idx w k < dim v)
    end.
    rewrite Hj by exact Hk. rewrite <- Hdim. apply Hidxo, Hk.
  - intros p Hdimp Hnzp. cbn [dim with_num_nz] in Hdimp. rewrite T1 in Hdimp.
    destruct (Hp p Hdimp Hnzp) as (j & Hjk & Ej).
    exists j. split; [exact Hjk|].
    match goal with
    | |- idx (with_num_nz ?w _) j = _ => change (idx w j = p)
    end.
    rewrite Hj by exact Hjk. exact Ej.
Qed.

(** The three assignments that end both forms of [unit]. *)
Lemma unit_assignments (t : Vector) (u : nat) :
  length (index t) = dim t -> length (value t) = dim t -> u < dim t ->
  (forall p, p < dim t -> nonzero t p = false) ->
  let t' := with_num_nz (set_val (set_idx t 0 u) u (Dbl.lit 1)) 1 in
  well_formed t' /\ packed t'.
Proof.
  intros Li Lv Hu Hz t'. split.
  - unfold well_formed, t'. cbn [dim index value num_nz with_num_nz set_val
                                  set_idx with_value with_index].
    rewrite !length_insert. repeat split; try assumption; try lia.
    intros k Hk. assert (k = 0) as -> by lia.
    change (idx (set_idx t 0 u) 0 < dim t).
    rewrite idx_set_idx_eq by lia. exact Hu.
  - intros p Hp Hnzp. exists 0. split; [cbn; lia|].
    change (idx (set_idx t 0 u) 0 = p). rewrite idx_set_idx_eq by lia.
    change (nonzero (set_val (set_idx t 0 u) u (Dbl.lit 1)) p = true) in Hnzp.
    unfold nonzero in Hnzp.
    destruct (val_set_val (set_idx t 0 u) u (Dbl.lit 1) p) as [(_ & -> & _)|E];
      [reflexivity|].
    rewrite E in Hnzp. change (nonzero t p = true) in Hnzp.
    rewrite Hz in Hnzp by exact Hp. discriminate.
Qed.

Lemma unit_into_preserves (d u : nat) (t : Vector) :
  well_formed t -> packed t -> u < dim t ->
  well_formed (unit_into d u t) /\ packed (unit_into d u t).
Proof.
  intros (Li & Lv & Hn & Hidx) Hpk Hu.
  destruct (reset_spec t) as ((S1 & S2 & S3) & Hz & Hzero).
  unfold unit_into.
  apply (unit_assignments (reset t) u); try congruence.
  intros p Hp. apply Hzero; [exact Hpk | congruence].
Qed.

Lemma unit_packed (d u : nat) :
  u < d -> well_formed (unit d u) /\ packed (unit d u).
Proof.
  intros Hu. destruct (new_shape d) as (A & B & C & _ & E).
  unfold unit. apply (unit_assignments (new d) u); try congruence.
  intros p _. unfold nonzero. rewrite E. apply zero_not_nonzero.
Qed.

(** *** saxpy and operator+= *)

Lemma loop_same_shape (v : Vector) (n : nat) (body : nat -> Vector -> Vector) :
  (forall i w, same_shape w (body i w)) ->
  same_shape v (for_range n body v).
Proof.
  intros Hb. apply (for_range_preserves (same_shape v)).
  - apply same_shape_refl.
  - intros i w _ Hw. eapply same_shape_trans; [exact Hw | apply Hb].
Qed.

Lemma saxpy_packed (v : Vector) (a : double) (x : Vector) :
  well_formed v ->
  well_formed (saxpy v a x) /\ packed (saxpy v a x).
Proof.
  intros Hw. pose proof Hw as (Li & Lv & _).
  destruct (sanitize_spec v Dbl.zero Hw) as ((S1 & S2 & S3) & _).
  unfold saxpy.
  match goal with
  | |- context [for_range ?n ?body ?s] =>
      assert (H : same_shape s (for_range n body s))
  end.
  { apply loop_same_shape. intros i w. cbn zeta.
    destruct (val w (idx x i) ==? Dbl.zero)%D.
    - repeat split; cbn; rewrite ?length_insert; reflexivity.
    - repeat split; cbn; rewrite ?length_insert; reflexivity. }
  destruct H as (T1 & T2 & T3).
  match goal with
  | |- context [resparsify ?w] =>
      destruct (resparsify_spec w) as (Hwf & Hpk & _)
  end; [congruence | congruence | auto].
Qed.

Lemma saxpy3_packed (v : Vector) (a b : double) (x : Vector) :
  well_formed v -> packed v ->
  well_formed (saxpy3 v a b x) /\ packed (saxpy3 v a b x).
Proof.
  intros Hw Hp. unfold saxpy3. apply saxpy_packed.
  apply (scale_spec v a Hw Hp).
Qed.

Lemma plus_assign_packed (v other : Vector) :
  well_formed v ->
  well_formed (plus_assign v other) /\ packed (plus_assign v other).
Proof.
  intros (Li & Lv & _). unfold plus_assign.
  match goal with
  | |- context [for_range ?n ?body ?s] =>
      assert (H : same_shape s (for_range n body s))
  end.
  { apply loop_same_shape. intros i w.
    repeat split; cbn; rewrite ?length_insert; reflexivity. }
  destruct H as (T1 & T2 & T3).
  match goal with
  | |- context [resparsify ?w] =>
      destruct (resparsify_spec w) as (Hwf & Hpk & _)
  end; [congruence | congruence | auto].
Qed.

Lemma dbl_not_gt_iff_le (x y : double) :
  x <> Dbl.NaN -> y <> Dbl.NaN ->
  (x >? y)%D = false <-> (x <=? y)%D = true.
Proof.
  intros Hx Hy. unfold Dbl.gtb, Dbl.leb.
  destruct x as [| |a|], y as [| |b|]; cbn; try congruence;
    try (split; intros H; (reflexivity || discriminate H)).
  rewrite orb_true_iff, bool_decide_eq_false, !bool_decide_eq_true. split.
  - intros H. apply Qcnot_lt_le in H. apply Qcle_lt_or_eq in H. exact H.
  - intros [H| ->]; [apply Qcle_not_lt, Qclt_le_weak, H | apply Qcle_not_lt, Qcle_refl].
Qed.

Lemma dbl_fabs_not_nan (x : double) : x <> Dbl.NaN -> Dbl.fabs x <> Dbl.NaN.
Proof. destruct x; cbn; congruence. Qed.

(** C8: every operation of [Vector] that writes a vector keeps it well
    formed and packed (each position with a nonzero dense value is listed
    in [index[0 .. num_nz)]); [sanitize(eps)] sets to zero exactly the
    listed entries that fail the test [fabs(value) > eps] (for numbers:
    those with [fabs(value) <= eps]) and leaves the other values as they
    are; [resparsify] leaves the values as they are and makes
    [index[0 .. num_nz)] the increasing list of the positions with a
    nonzero value. *)
Theorem vector_operations_keep_packed :
  (forall v, well_formed v -> packed v ->
     well_formed (reset v) /\ packed (reset v))
  /\ (forall v other,
        well_formed v -> packed v -> well_formed other -> dim other = dim v ->
        well_formed (repopulate v other) /\ packed (repopulate v other))
  /\ (forall d u target,
        well_formed target -> packed target -> u < dim target ->
        well_formed (unit_into d u target) /\ packed (unit_into d u target))
  /\ (forall d u, u < d -> well_formed (unit d u) /\ packed (unit d u))
  /\ (forall v eps, well_formed v -> packed v ->
        well_formed (sanitize v eps) /\ packed (sanitize v eps))
  /\ (forall v, well_formed v -> packed v ->
        well_formed (resparsify v) /\ packed (resparsify v))
  /\ (forall v a, well_formed v -> packed v ->
        well_formed (scale v a) /\ packed (scale v a))
  /\ (forall v a x, well_formed v -> packed v ->
        well_formed (saxpy v a x) /\ packed (saxpy v a x))
  /\ (forall v a b x, well_formed v -> packed v ->
        well_formed (saxpy3 v a b x) /\ packed (saxpy3 v a b x))
  /\ (forall v other,
        well_formed (plus v other) /\ packed (plus v other))
  /\ (forall v other,
        well_formed (minus v other) /\ packed (minus v other))
  /\ (forall v, well_formed v -> packed v ->
        well_formed (negate v) /\ packed (negate v))
  /\ (forall v d, well_formed v -> packed v ->
        well_formed (times v d) /\ packed (times v d))
  /\ (forall v other, well_formed v -> packed v ->
        well_formed (plus_assign v other) /\ packed (plus_assign v other))
  /\ (forall v d, well_formed v -> packed v ->
        well_formed (times_assign v d) /\ packed (times_assign v d))
  /\ (forall v eps p, well_formed v ->
        (listed v p -> (Dbl.fabs (val v p) >? eps)%D = false ->
         val (sanitize v eps) p = Dbl.zero)
        /\ (~ (listed v p /\ (Dbl.fabs (val v p) >? eps)%D = false) ->
            val (sanitize v eps) p = val v p)
        /\ (val v p <> Dbl.NaN -> eps <> Dbl.NaN ->
            (listed v p -> (Dbl.fabs (val v p) <=? eps)%D = true ->
             val (sanitize v eps) p = Dbl.zero)
            /\ (~ (listed v p /\ (Dbl.fabs (val v p) <=? eps)%D = true) ->
                val (sanitize v eps) p = val v p)))
  /\ (forall v, well_formed v ->
        value (resparsify v) = value v
        /\ take (num_nz (resparsify v)) (index (resparsify v))
           = List.filter (nonzero v) (seq 0 (dim v))).
Proof.
  repeat match goal with |- _ /\ _ => split end.
  - apply reset_preserves.
  - apply repopulate_preserves.
  - apply unit_into_preserves.
  - apply unit_packed.
  - intros v eps Hw Hp. destruct (sanitize_spec v eps Hw) as (_ & Hw' & Hp' & _).
    split; [exact Hw' | exact (Hp' Hp)].
  - intros v (Li & Lv & _) _.
    destruct (resparsify_spec v Li Lv) as (Hw' & Hp' & _). auto.
  - intros v a Hw Hp. destruct (scale_spec v a Hw Hp) as (Hw' & Hp' & _). auto.
  - intros v a x Hw _. apply saxpy_packed, Hw.
  - apply saxpy3_packed.
  - intros v other. destruct (combine_spec Dbl.add v other) as (Hw & Hp & _). auto.
  - intros v other. destruct (combine_spec Dbl.sub v other) as (Hw & Hp & _). auto.
  - intros v Hw _. destruct (copy_loop_spec Dbl.neg v Hw) as (Hw' & Hp' & _). auto.
  - intros v d Hw _. destruct (copy_loop_spec (Dbl.mul d) v Hw) as (Hw' & Hp' & _).
    auto.
  - intros v other Hw _. apply plus_assign_packed, Hw.
  - intros v d Hw Hp. destruct (scale_spec v d Hw Hp) as (Hw' & Hp' & _). auto.
  - intros v eps p Hw.
    destruct (sanitize_spec v eps Hw) as (_ & _ & _ & Hz & Hk).
    split; [apply Hz|]. split; [apply Hk|].
    intros Hv He.
    pose proof (dbl_not_gt_iff_le (Dbl.fabs (val v p)) eps
                  (dbl_fabs_not_nan _ Hv) He) as Hiff.
    split.
    + intros Hl Hle. apply Hz; [exact Hl | apply Hiff, Hle].
    + intros Hno. apply Hk. intros [Hl Hgt]. apply Hno.
      split; [exact Hl | apply Hiff, Hgt].
  - intros v (Li & Lv & _).
    destruct (resparsify_spec v Li Lv) as (_ & _ & Hv & _ & Ht). auto.
Qed.

End VectorOps.

Lemma vector_operations_keep_packed_witness :
  Vector.well_formed Examples.sparse_3 /\ Vector.packed Examples.sparse_3
  /\ Vector.packed (Vector.sanitize Examples.sparse_3 (Dbl.lit 1.5))
  /\ Vector.val (Vector.sanitize Examples.sparse_3 (Dbl.lit 1.5)) 0 = Dbl.zero
  /\ Vector.val (Vector.sanitize Examples.sparse_3 (Dbl.lit 1.5)) 2
     = Vector.val Examples.sparse_3 2
  /\ Vector.packed (Vector.scale Examples.sparse_3 (Dbl.lit 3))
  /\ Vector.packed (Vector.saxpy Examples.sparse_3 (Dbl.lit 2) Examples.sparse_3)
  /\ Vector.packed (Vector.unit_into 3 1 Examples.sparse_3)
  /\ Vector.packed (Vector.repopulate Examples.sparse_3 (Vector.unit 3 1)).
Proof.
  assert (Hw : Vector.well_formed Examples.sparse_3).
  { unfold Vector.well_formed. cbn. repeat split; try lia.
    intros [|[|k]] Hk; cbn; lia. }
  assert (Hp : Vector.packed Examples.sparse_3).
  { intros [|[|[|p]]] Hd Hnz; cbn in Hd; try lia.
    - exists 0%nat. split; [cbn; lia | reflexivity].
    - vm_compute in Hnz. discriminate.
    - exists 1%nat. split; [cbn; lia | reflexivity]. }
  destruct vector_operations_keep_packed
    as (_ & Hrep & Hui & Hu & Hsan & _ & Hsc & Hsax & _ & _ & _ & _ & _ & _ & _
        & Hsz & _).
  destruct (Hsz Examples.sparse_3 (Dbl.lit 1.5) 0%nat Hw) as (Hz0 & _).
  destruct (Hsz Examples.sparse_3 (Dbl.lit 1.5) 2%nat Hw) as (_ & Hk2 & _).
  destruct (Hu 3%nat 1%nat ltac:(lia)) as [Huw _].
  repeat match goal with |- _ /\ _ => split end.
  - exact Hw.
  - exact Hp.
  - apply (Hsan _ _ Hw Hp).
  - apply Hz0.
    + exists 0%nat. split; [cbn; lia | reflexivity].
    + vm_compute. reflexivity.
  - apply Hk2. intros [_ H]. vm_compute in H. discriminate.
  - apply (Hsc _ _ Hw Hp).
  - apply (Hsax _ _ _ Hw Hp).
  - apply (Hui _ _ _ Hw Hp). cbn. lia.
  - apply (Hrep _ _ Hw Hp Huw). reflexivity.
Defined.

(** ** writeBasisFile and readBasisFile *)

Section BasisFile.

Import HighsLpUtils.

(** Decimal digits. *)
Lemma string_of_uint_digits (d : Decimal.uint) :
  Forall (fun c => is_digit c = true)
    (list_ascii_of_string (NilEmpty.string_of_uint d)).
Proof.
  induction d; cbn; constructor; try reflexivity; assumption.
Qed.

Lemma span_digits (ds rest : list ascii) :
  Forall (fun c => is_digit c = true) ds ->
  match rest with [] => True | c :: _ => is_digit c = false end ->
  span is_digit (ds ++ rest) = (ds, rest).
Proof.
  intros Hds Hrest. induction Hds as [|c ds Hc _ IH]; cbn [app span].
  - destruct rest as [|c r]; [reflexivity|]. cbn [span]. rewrite Hrest. reflexivity.
  - rewrite Hc, IH. reflexivity.
Qed.

Lemma digits_value_of_uint (d : Decimal.uint) :
  digits_value (list_ascii_of_string (NilEmpty.string_of_uint d)) = Z.of_uint d.
Proof.
  unfold digits_value.
  rewrite string_of_list_ascii_of_string, NilEmpty.usu. reflexivity.
Qed.

(** The text of a number that is not negative: its digits, at least one. *)
Lemma show_int_nonneg (z : Z) :
  0 <= z ->
  exists c ds,
    show_int z = c :: ds
    /\ Forall (fun c => is_digit c = true) (c :: ds)
    /\ digits_value (c :: ds) = z.
Proof.
  intros Hz. unfold show_int.
  assert (H : exists d, Z.to_int z = Decimal.Pos d /\ Z.of_uint d = z
                        /\ d <> Decimal.Nil).
  { destruct z as [|p|p]; [| |lia].
    - exists (Decimal.D0 Decimal.Nil). repeat split. discriminate.
    - exists (Pos.to_uint p). split; [reflexivity|]. split.
      + apply (DecimalZ.of_to (Zpos p)).
      + apply DecimalPos.Unsigned.to_uint_nonnil. }
  destruct H as (d & -> & Hv & Hne). cbn [NilEmpty.string_of_int].
  pose proof (string_of_uint_digits d) as Hd.
  pose proof (digits_value_of_uint d) as Hval.
  destruct (list_ascii_of_string (NilEmpty.string_of_uint d)) as [|c ds] eqn:E.
  - exfalso. destruct d; cbn in E; congruence.
  - exists c, ds. rewrite Hval. auto.
Qed.

Lemma digit_not_space (c : ascii) : is_digit c = true -> is_space c = false.
Proof.
  unfold is_digit, is_space. intros H.
  apply andb_true_iff in H. destruct H as [H1 H2].
  apply Nat.leb_le in H1, H2.
  destruct (Nat.eqb_spec (nat_of_ascii c) 32); [lia|].
  cbn. apply andb_false_iff. right. apply Nat.leb_gt. lia.
Qed.

Lemma digit_not_sign (c : ascii) :
  is_digit c = true -> Ascii.eqb c "-" = false /\ Ascii.eqb c "+" = false.
Proof.
  intros H. split; apply Ascii.eqb_neq; intros ->; vm_compute in H; discriminate.
Qed.

Lemma skipws_spaces (ws rest : list ascii) :
  Forall (fun c => is_space c = true) ws -> skipws (ws ++ rest) = skipws rest.
Proof.
  intros H. induction H as [|c ws Hc _ IH]; [reflexivity|].
  cbn [app skipws]. rewrite Hc. exact IH.
Qed.

(** Extracting a number that was written by [<<], between white space. *)
Lemma read_int_show (ws : list ascii) (z : Z) (c : ascii) (tl : list ascii)
    (old : Z) :
  Forall (fun c => is_space c = true) ws -> 0 <= z -> is_digit c = false ->
  read_int (mkStream (ws ++ show_int z ++ c :: tl) false false) old
  = (z, mkStream (c :: tl) false false).
Proof.
  intros Hws Hz Hc.
  destruct (show_int_nonneg z Hz) as (c0 & ds & -> & Hd & Hval).
  pose proof (Forall_inv Hd) as Hc0.
  unfold read_int, sentry. cbn [good eofbit failbit negb andb rest].
  rewrite skipws_spaces by exact Hws.
  cbn [app skipws]. rewrite (digit_not_space c0 Hc0).
  cbn [rest]. destruct (digit_not_sign c0 Hc0) as [-> ->].
  change (c0 :: ds ++ c :: tl) with ((c0 :: ds) ++ c :: tl).
  rewrite span_digits by (exact Hd || exact Hc).
  rewrite Hval. rewrite bool_decide_eq_false_2 by discriminate.
  rewrite Z.mul_1_l. reflexivity.
Qed.

Lemma status_of_int_of_status (s : HighsBasisStatus) :
  status_of_int (int_of_status s) = s /\ 0 <= int_of_status s.
Proof.
  unfold status_of_int, int_of_status. split; [|lia].
  pose proof (Byte.to_N_bounded s) as Hb.
  rewrite Z.mod_small by lia. rewrite N2Z.id, Byte.of_to_N. reflexivity.
Qed.

Lemma show_statuses_cons (s : HighsBasisStatus) (l : list HighsBasisStatus)
    (tl : list ascii) :
  show_statuses (s :: l) ++ tl
  = show_int (int_of_status s) ++ " "%char :: show_statuses l ++ tl.
Proof.
  unfold show_statuses. cbn [map concat]. unfold space.
  rewrite <- !app_assoc. reflexivity.
Qed.

(** One reading loop of [readBasisFile] on the text written for the
    statuses [l], into an array [host] of the same size. *)
Lemma read_statuses_show (l host : list HighsBasisStatus) (ws tl : list ascii)
    (int0 : Z) :
  Forall (fun c => is_space c = true) ws -> length host = length l ->
  exists ws' int',
    read_statuses (Z.of_nat (length l))
      (mkStream (ws ++ show_statuses l ++ tl) false false, int0, host)
    = (mkStream (ws' ++ tl) false false, int', l)
    /\ Forall (fun c => is_space c = true) ws'.
Proof.
  intros Hws Hlen.
  set (P := fun (k : nat) (st : istream * Z * list HighsBasisStatus) =>
              exists ws' int' hostk,
                st = (mkStream (ws' ++ show_statuses (drop k l) ++ tl) false false,
                      int', hostk)
                /\ Forall (fun c => is_space c = true) ws'
                /\ length hostk = length l /\ take k hostk = take k l).
  assert (H : P (length l)
                (read_statuses (Z.of_nat (length l))
                   (mkStream (ws ++ show_statuses l ++ tl) false false, int0, host))).
  { unfold read_statuses, for_z. rewrite Z.sub_0_r, Nat2Z.id.
    apply (for_range_ind P); unfold P.
    - exists ws, int0, host. rewrite drop_0, !take_0. auto.
    - intros k st Hk (ws' & int' & hostk & -> & Hws' & Hl & Ht).
      destruct (lookup_lt_is_Some_2 l k Hk) as [s Hs].
      rewrite (drop_S l s k Hs), show_statuses_cons.
      destruct (status_of_int_of_status s) as [Hso Hnn].
      rewrite read_int_show by (assumption || reflexivity).
      exists [" "%char], (int_of_status s),
        (zset hostk (0 + Z.of_nat k) (status_of_int (int_of_status s))).
      split; [reflexivity|]. split; [repeat constructor|].
      rewrite length_zset. split; [exact Hl|].
      unfold zset. rewrite bool_decide_eq_true_2 by lia.
      rewrite Z.add_0_l, Nat2Z.id, Hso.
      rewrite take_insert_snoc by lia. rewrite Ht.
      symmetry. apply take_S_r, Hs. }
  destruct H as (ws' & int' & hostk & -> & Hws' & Hl & Ht).
  exists ws', int'. split; [|exact Hws'].
  rewrite drop_all. cbn [show_statuses map concat app].
  rewrite <- Hl, take_ge in Ht by lia. rewrite Hl, take_ge in Ht by lia.
  rewrite Ht. reflexivity.
Qed.

(** The three extractions that open [readBasisFile], on a text written
    with version number 1. *)
Lemma read_preamble (tl : list ascii) (uninit : Z) :
  let inFile :=
    mkStream (list_ascii_of_string "HiGHS Version " ++ show_int 1 ++ endl ++ tl)
      false false in
  let (string_highs, inFile) := read_string inFile [] in
  let (string_version, inFile) := read_string inFile [] in
  read_int inFile uninit = (1, mkStream (endl ++ tl) false false).
Proof. reflexivity. Qed.

Lemma file_text_write_file (fs : FileSystem) (name : string) (text : list ascii) :
  file_text (write_file fs name text) name = Some text.
Proof. cbn. rewrite String.eqb_refl. reflexivity. Qed.

(** C3: a valid basis written by [writeBasisFile] (the file can be opened
    for writing, and the version number written is 1, the one
    [readBasisFile] accepts) is read back by [readBasisFile] into any
    basis whose two status arrays have the sizes of those of [B]: both
    calls return kOk and the statuses read are those of [B]. *)
Theorem basis_file_round_trip (HIGHS_VERSION_MAJOR uninit : Z)
    (fs : FileSystem) (B host : HighsBasis) (filename : string) :
  valid B = true ->
  can_open_for_writing fs filename = true ->
  HIGHS_VERSION_MAJOR = 1 ->
  length (col_status host) = length (col_status B) ->
  length (row_status host) = length (row_status B) ->
  let written := writeBasisFile HIGHS_VERSION_MAJOR fs B filename in
  let read := readBasisFile uninit (snd written) host filename in
  fst written = kOk
  /\ fst read = kOk
  /\ col_status (snd read) = col_status B
  /\ row_status (snd read) = row_status B.
Proof.
  intros Hvalid Hopen -> Hcol Hrow written read.
  subst read written. unfold writeBasisFile. rewrite Hvalid, Hopen.
  cbn [negb fst snd]. split; [reflexivity|].
  unfold readBasisFile. rewrite file_text_write_file.
  unfold basis_text.
  set (ncol := Z.of_nat (length (col_status B))).
  set (nrow := Z.of_nat (length (row_status B))).
  set (tl_rows := show_statuses (row_status B) ++ endl ++ endl).
  set (tl_cols := show_statuses (col_status B) ++ endl ++ tl_rows).
  set (tl_dims := show_int ncol ++ space ++ show_int nrow ++ endl ++ tl_cols).
  pose proof (read_preamble tl_dims uninit) as Hpre. cbv zeta in Hpre.
  destruct (read_string _ []) as [string_highs s1].
  destruct (read_string s1 []) as [string_version s2].
  rewrite Hpre. cbn [Z.eqb Pos.eqb].
  (* numCol *)
  subst tl_dims.
  change (endl ++ show_int ncol ++ space ++ show_int nrow ++ endl ++ tl_cols)
    with (endl ++ show_int ncol ++ " "%char :: (show_int nrow ++ endl ++ tl_cols)).
  rewrite read_int_show;
    [| repeat constructor | subst ncol; lia | reflexivity].
  (* numRow *)
  change (" "%char :: show_int nrow ++ endl ++ tl_cols)
    with ([" "%char] ++ show_int nrow ++ "010"%char :: tl_cols).
  rewrite read_int_show;
    [| repeat constructor | subst nrow; lia | reflexivity].
  replace (ncol =? Z.of_nat (length (col_status host))) with true
    by (symmetry; apply Z.eqb_eq; subst ncol; lia).
  replace (nrow =? Z.of_nat (length (row_status host))) with true
    by (symmetry; apply Z.eqb_eq; subst nrow; lia).
  cbn [negb].
  (* the two loops *)
  subst tl_cols.
  change ("010"%char :: show_statuses (col_status B) ++ endl ++ tl_rows)
    with (["010"%char] ++ show_statuses (col_status B) ++ endl ++ tl_rows).
  destruct (read_statuses_show (col_status B) (col_status host) ["010"%char]
              (endl ++ tl_rows) uninit ltac:(repeat constructor) Hcol)
    as (ws1 & int1 & E1 & Hws1).
  subst ncol. rewrite E1.
  subst tl_rows.
  assert (Hws1' : Forall (fun c => is_space c = true) (ws1 ++ endl)).
  { apply Forall_app. split; [exact Hws1 | repeat constructor]. }
  destruct (read_statuses_show (row_status B) (row_status host) (ws1 ++ endl)
              (endl ++ endl) int1 Hws1' Hrow)
    as (ws2 & int2 & E2 & Hws2).
  rewrite <- app_assoc in E2. subst nrow. rewrite E2.
  cbn [eofbit fst snd col_status row_status]. auto.
Qed.

End BasisFile.

Lemma basis_file_round_trip_witness :
  HighsLpUtils.valid Examples.basis_2x1 = true
  /\ HighsLpUtils.can_open_for_writing Examples.empty_disk "model.bas" = true
  /\ fst (HighsLpUtils.readBasisFile 0
            (snd (HighsLpUtils.writeBasisFile 1 Examples.empty_disk
                    Examples.basis_2x1 "model.bas"))
            Examples.host_2x1 "model.bas")
     = HighsLpUtils.kOk
  /\ HighsLpUtils.col_status
       (snd (HighsLpUtils.readBasisFile 0
               (snd (HighsLpUtils.writeBasisFile 1 Examples.empty_disk
                       Examples.basis_2x1 "model.bas"))
               Examples.host_2x1 "model.bas"))
     = [HighsLpUtils.kBasic; HighsLpUtils.kLower].
Proof.
  destruct (basis_file_round_trip 1 0 Examples.empty_disk Examples.basis_2x1
              Examples.host_2x1 "model.bas"
              eq_refl eq_refl eq_refl eq_refl eq_refl)
    as (_ & Hread & Hcols & _).
  split; [reflexivity|]. split; [reflexivity|]. split; [exact Hread|exact Hcols].
Defined.

(** * Further properties of the modelled routines *)

(** ** Loops over signed indices *)

Lemma for_z_empty {St : Type} (lo hi : Z) (body : Z -> St -> St) (s : St) :
  hi <= lo -> for_z lo hi body s = s.
Proof.
  intros H. unfold for_z. replace (Z.to_nat (hi - lo)) with 0%nat by lia.
  reflexivity.
Qed.

Lemma for_z_ind {St : Type} (P : Z -> St -> Prop) (lo hi : Z)
    (body : Z -> St -> St) (s : St) :
  lo <= hi -> P lo s ->
  (forall i s, lo <= i < hi -> P i s -> P (i + 1) (body i s)) ->
  P hi (for_z lo hi body s).
Proof.
  intros Hle H0 Hstep. unfold for_z.
  replace hi with (lo + Z.of_nat (Z.to_nat (hi - lo))) at 1 by lia.
  apply (for_range_ind (fun k s => P (lo + Z.of_nat k) s)).
  - replace (lo + Z.of_nat 0) with lo by lia. exact H0.
  - intros i s' Hi HP.
    replace (lo + Z.of_nat (S i)) with (lo + Z.of_nat i + 1) by lia.
    apply Hstep; [lia|exact HP].
Qed.

Lemma for_z_ext {St : Type} (lo hi : Z) (body body' : Z -> St -> St) (s : St) :
  (forall i s, lo <= i < hi -> body i s = body' i s) ->
  for_z lo hi body s = for_z lo hi body' s.
Proof.
  intros H. unfold for_z, for_range.
  set (n := Z.to_nat (hi - lo)).
  assert (Hn : (n <= Z.to_nat (hi - lo))%nat) by lia.
  clearbody n. induction n as [|n IH].
  - reflexivity.
  - rewrite seq_S, !fold_left_app. cbn [fold_left Nat.add].
    rewrite IH by lia. apply H. lia.
Qed.

Lemma zget_zset {A} (l : list A) (i j : Z) (x d : A) :
  zget (zset l i x) j d
  = if bool_decide (j = i /\ 0 <= i < Z.of_nat (length l)) then x
    else zget l j d.
Proof.
  case_bool_decide as H.
  - destruct H as [-> H]. apply zget_zset_eq, H.
  - destruct (decide (i = j)) as [->|Hne].
    + unfold zset, zget. case_bool_decide as Hj; [|reflexivity].
      rewrite list_insert_ge by lia. reflexivity.
    + apply zget_zset_ne, Hne.
Qed.

Lemma zset_same {A} (l : list A) (i : Z) (d : A) : zset l i (zget l i d) = l.
Proof.
  unfold zset, zget. case_bool_decide as H; [|reflexivity].
  destruct (decide (Z.to_nat i < length l)%nat) as [Hlt|Hge].
  - apply list_insert_id. apply lookup_nth. exact Hlt.
  - apply list_insert_ge. lia.
Qed.

(** A loop that rewrites the cells [lo .. hi) of an array, each from its
    own old content. *)
Lemma entry_loop {A} (u : Z -> A -> A) (d : A) (lo hi : Z) (l : list A) :
  let res := for_z lo hi (fun el l => zset l el (u el (zget l el d))) l in
  length res = length l
  /\ forall el,
       zget res el d
       = if bool_decide (lo <= el < hi /\ 0 <= el < Z.of_nat (length l))
         then u el (zget l el d) else zget l el d.
Proof.
  destruct (decide (lo <= hi)) as [Hle|Hgt].
  2:{ cbn zeta. rewrite for_z_empty by lia. split; [reflexivity|].
      intros el. rewrite bool_decide_eq_false_2 by lia. reflexivity. }
  cbn zeta.
  set (P := fun (i : Z) (r : list A) =>
              length r = length l
              /\ forall el,
                   zget r el d
                   = if bool_decide (lo <= el < i /\ 0 <= el < Z.of_nat (length l))
                     then u el (zget l el d) else zget l el d).
  match goal with |- _ /\ forall el, zget ?r _ _ = _ => change (P hi r) end.
  apply (for_z_ind P); unfold P; [exact Hle| |].
  - split; [reflexivity|]. intros el.
    rewrite bool_decide_eq_false_2 by lia. reflexivity.
  - intros i r Hi [Hlen Hv]. split; [rewrite length_zset; exact Hlen|].
    intros el. rewrite zget_zset, Hlen.
    case_bool_decide as H1.
    + destruct H1 as [-> H1]. rewrite Hv.
      rewrite bool_decide_eq_false_2 by lia.
      rewrite bool_decide_eq_true_2 by lia. reflexivity.
    + rewrite Hv. do 2 case_bool_decide; try reflexivity; exfalso; lia.
Qed.

(** The loop nest over the entries of the columns [c0 .. c1) of a
    column-wise matrix. *)
Lemma entries_loop {A} (start : Z -> Z) (u : Z -> Z -> A -> A) (d : A)
    (c0 c1 : Z) (l : list A) :
  c0 <= c1 -> 0 <= start c0 ->
  (forall c, c0 <= c < c1 -> start c <= start (c + 1)) ->
  start c1 <= Z.of_nat (length l) ->
  let res :=
    for_z c0 c1
      (fun iCol l =>
         for_z (start iCol) (start (iCol + 1))
           (fun el l => zset l el (u iCol el (zget l el d))) l) l in
  length res = length l
  /\ (forall c el, c0 <= c < c1 -> start c <= el < start (c + 1) ->
        zget res el d = u c el (zget l el d))
  /\ (forall el, ~ (start c0 <= el < start c1) -> zget res el d = zget l el d).
Proof.
  intros Hle H0 Hmono Hlen. cbn zeta.
  assert (Hm : forall c c', c0 <= c -> c <= c' -> c' <= c1 -> start c <= start c').
  { intros c c' Hc Hcc' Hc'.
    replace c' with (c + Z.of_nat (Z.to_nat (c' - c))) in * by lia.
    induction (Z.to_nat (c' - c)) as [|n IH].
    - replace (c + Z.of_nat 0) with c by lia. lia.
    - replace (c + Z.of_nat (S n)) with (c + Z.of_nat n + 1) in * by lia.
      specialize (Hmono (c + Z.of_nat n)). lia. }
  apply (for_z_ind
           (fun i r =>
              length r = length l
              /\ (forall c el, c0 <= c < i -> start c <= el < start (c + 1) ->
                    zget r el d = u c el (zget l el d))
              /\ (forall el, ~ (start c0 <= el < start i) ->
                    zget r el d = zget l el d)));
    [exact Hle| |].
  - split; [reflexivity|]. split; [intros; lia|reflexivity].
  - intros i r Hi (Hl & Hin & Hout).
    destruct (entry_loop (u i) d (start i) (start (i + 1)) r) as [Hl' Hv].
    cbn zeta in Hl', Hv.
    pose proof (Hm c0 i ltac:(lia) ltac:(lia) ltac:(lia)) as M1.
    pose proof (Hmono i Hi) as M2.
    pose proof (Hm (i + 1) c1 ltac:(lia) ltac:(lia) ltac:(lia)) as M3.
    split; [congruence|]. split.
    + intros c el Hc Hel. rewrite Hv, Hl.
      destruct (decide (c = i)) as [->|Hne].
      * rewrite bool_decide_eq_true_2 by lia.
        rewrite Hout by lia. reflexivity.
      * pose proof (Hm (c + 1) i ltac:(lia) ltac:(lia) ltac:(lia)).
        rewrite bool_decide_eq_false_2 by lia. apply Hin; lia.
    + intros el Hel. rewrite Hv.
      rewrite bool_decide_eq_false_2 by lia. apply Hout. lia.
Qed.

Lemma for_z_succ {St : Type} (lo i : Z) (body : Z -> St -> St) (s : St) :
  lo <= i -> for_z lo (i + 1) body s = body i (for_z lo i body s).
Proof.
  intros H. unfold for_z, for_range.
  replace (Z.to_nat (i + 1 - lo)) with (S (Z.to_nat (i - lo))) by lia.
  rewrite seq_S, fold_left_app. cbn [fold_left Nat.add].
  replace (lo + Z.of_nat (Z.to_nat (i - lo))) with i by lia. reflexivity.
Qed.

(** A loop that returns the first index at which a test holds. *)
Lemma first_hit_spec (p : Z -> bool) (lo hi : Z) :
  let el :=
    snd (for_z_until lo hi
           (fun el ge => if p el then (true, el) else (false, ge)) (-1)) in
  (el = -1 /\ forall e, lo <= e < hi -> p e = false)
  \/ (lo <= el < hi /\ p el = true /\ forall e, lo <= e < el -> p e = false).
Proof.
  cbn zeta. unfold for_z_until.
  set (n := Z.to_nat (hi - lo)).
  set (P := fun (k : nat) (st : bool * Z) =>
              (fst st = false /\ snd st = -1
               /\ forall e, lo <= e < lo + Z.of_nat k -> p e = false)
              \/ (fst st = true /\ lo <= snd st < lo + Z.of_nat k
                  /\ p (snd st) = true
                  /\ forall e, lo <= e < snd st -> p e = false)).
  assert (H : P n (for_range_until n
                     (fun k ge =>
                        if p (lo + Z.of_nat k)
                        then (true, lo + Z.of_nat k) else (false, ge)) (-1))).
  { apply (for_range_until_ind P); unfold P.
    - left. cbn. repeat split. intros e He. lia.
    - intros i [b ge] Hi [(Hb & Hge & Hall)|(Hb & Hr & Hm & Hall)];
        cbn [fst snd] in *; subst b.
      + destruct (p (lo + Z.of_nat i)) eqn:E; cbn [fst snd].
        * right. repeat split; try lia; try exact E.
          intros e He. apply Hall. lia.
        * left. repeat split; try assumption.
          intros e He. destruct (decide (e = lo + Z.of_nat i)) as [->|Hne];
            [exact E|apply Hall; lia].
      + right. cbn [fst snd]. repeat split; try assumption; lia. }
  destruct H as [(_ & Hge & Hall)|(_ & Hr & Hm & Hall)].
  - left. split; [exact Hge|]. intros e He. apply Hall. lia.
  - right. repeat split; try assumption; lia.
Qed.

(** ** Vector: the values the operations compute *)

Section VectorValues.

Import Vector.
Local Open Scope nat_scope.

Lemma combine_values op v other :
  listing_inv (dim v) (fun p => (op (val v p) (val other p) !=? Dbl.zero)%D)
    (dim v) (combine op v other)
  /\ forall p, val (combine op v other) p
               = if bool_decide (p < dim v)
                 then op (val v p) (val other p) else Dbl.zero.
Proof.
  set (f := fun p => (op (val v p) (val other p) !=? Dbl.zero)%D).
  set (P := fun (k : nat) (w : Vector) =>
              listing_inv (dim v) f k w
              /\ forall p, val w p
                           = if bool_decide (p < k)
                             then op (val v p) (val other p) else Dbl.zero).
  change (P (dim v) (combine op v other)).
  unfold combine. apply (for_range_ind P); unfold P.
  - destruct (new_shape (dim v)) as (A & B & C & D & E).
    split; [repeat split; try assumption; rewrite D; cbn; lia|].
    intros p. rewrite E. rewrite bool_decide_eq_false_2 by lia. reflexivity.
  - intros k w Hk [Hinv Hval].
    pose proof Hinv as (Hd & Li & Lv & Hn & Ht).
    set (r1 := set_val w k (op (val v k) (val other k))).
    assert (Hinv1 : listing_inv (dim v) f k r1).
    { unfold r1, listing_inv, set_val. cbn. rewrite length_insert.
      repeat split; assumption. }
    assert (Hval1 : forall p, val r1 p
                              = if bool_decide (p < S k)
                                then op (val v p) (val other p) else Dbl.zero).
    { intros p. unfold r1. destruct (decide (p = k)) as [->|Hne].
      - rewrite val_set_val_eq by lia.
        rewrite bool_decide_eq_true_2 by lia. reflexivity.
      - rewrite val_set_val_ne by congruence. rewrite Hval.
        destruct (decide (p < k)).
        + rewrite !bool_decide_eq_true_2 by lia. reflexivity.
        + rewrite !bool_decide_eq_false_2 by lia. reflexivity. }
    assert (E : (val r1 k !=? Dbl.zero)%D = f k).
    { rewrite Hval1, bool_decide_eq_true_2 by lia. reflexivity. }
    rewrite E. destruct (f k) eqn:Hf.
    + split; [apply listing_append; assumption | exact Hval1].
    + split; [apply listing_skip; assumption | exact Hval1].
Qed.

(** X1: for well-formed vectors of the same dimension, [operator+] and
    [operator-] return a vector of that dimension whose value at every
    position is the sum (the difference) of the two values there, and
    whose index list is exactly the positions where that value is not
    zero, in increasing order. *)
Theorem plus_minus_pointwise (v other : Vector) :
  well_formed v -> well_formed other -> dim other = dim v ->
  let s := plus v other in
  let d := minus v other in
  dim s = dim v /\ dim d = dim v
  /\ (forall p, p < dim v ->
        val s p = (val v p + val other p)%D
        /\ val d p = (val v p - val other p)%D)
  /\ take (num_nz s) (index s)
     = List.filter (fun p => (val v p + val other p !=? Dbl.zero)%D)
         (seq 0 (dim v))
  /\ take (num_nz d) (index d)
     = List.filter (fun p => (val v p - val other p !=? Dbl.zero)%D)
         (seq 0 (dim v)).
Proof.
  intros _ _ _ s d.
  destruct (combine_values Dbl.add v other) as [(Hd1 & _ & _ & _ & Ht1) Hv1].
  destruct (combine_values Dbl.sub v other) as [(Hd2 & _ & _ & _ & Ht2) Hv2].
  split; [exact Hd1|]. split; [exact Hd2|]. split; [|split; assumption].
  intros p Hp. unfold s, d, plus, minus.
  rewrite Hv1, Hv2, bool_decide_eq_true_2 by exact Hp. split; reflexivity.
Qed.

Lemma copy_loop_values (g : double -> double) (v : Vector) :
  well_formed v ->
  let r :=
    for_range (num_nz v)
      (fun i result =>
         let r1 := set_idx result i (idx v i) in
         set_val r1 (idx v i) (g (val v (idx v i))))
      (new (dim v)) in
  (forall j, j < num_nz v -> idx r j = idx v j)
  /\ (forall p, listed v p -> val r p = g (val v p))
  /\ (forall p, ~ listed v p -> val r p = Dbl.zero).
Proof.
  intros (Li & Lv & Hn & Hidx) r.
  set (P := fun (k : nat) (w : Vector) =>
              same_shape (new (dim v)) w
              /\ (forall j, j < k -> idx w j = idx v j)
              /\ (forall p, (exists j, j < k /\ idx v j = p) ->
                    val w p = g (val v p))
              /\ (forall p, (forall j, j < k -> idx v j <> p) ->
                    val w p = Dbl.zero)).
  assert (H : P (num_nz v) r).
  { subst r. apply (for_range_ind P); unfold P.
    - split; [apply same_shape_refl|]. split; [intros j Hj; lia|].
      destruct (new_shape (dim v)) as (_ & _ & _ & _ & E).
      split; [intros p (j & Hj & _); lia|]. intros p _. apply E.
    - intros k w Hk (Hs & Hj & Hl & Hu).
      destruct (new_shape (dim v)) as (A & B & C & _).
      destruct Hs as (S1 & S2 & S3).
      split; [|split; [|split]].
      + repeat split; cbn; rewrite ?length_insert; assumption.
      + intros j Hjk. cbn zeta.
        change (idx (set_val ?a ?b ?c) j) with (idx a j).
        destruct (decide (j = k)) as [->|Hne].
        * apply idx_set_idx_eq. lia.
        * rewrite idx_set_idx_ne by congruence. apply Hj. lia.
      + intros p (j & Hjk & Ej). cbn zeta.
        destruct (decide (idx v k = p)) as [<-|Hne].
        * apply val_set_val_eq. cbn [set_idx with_index value].
          rewrite S3, C. apply Hidx, Hk.
        * rewrite val_set_val_ne by exact Hne.
          change (val (set_idx ?a ?b ?c) p) with (val a p).
          apply Hl. exists j. split; [|exact Ej].
          destruct (decide (j = k)) as [->|]; [contradiction|lia].
      + intros p Hnone. cbn zeta.
        rewrite val_set_val_ne by (apply Hnone; lia).
        change (val (set_idx ?a ?b ?c) p) with (val a p).
        apply Hu. intros j Hjk. apply Hnone. lia. }
  destruct H as (_ & Hj & Hl & Hu).
  split; [exact Hj|]. split.
  - intros p Hp. apply Hl, Hp.
  - intros p Hp. apply Hu. intros j Hj' E. apply Hp. exists j. auto.
Qed.

Lemma dbl_eqb_zero (x : double) : (x ==? Dbl.zero)%D = true -> x = Dbl.zero.
Proof.
  destruct x as [| |q|]; cbn; try discriminate.
  intros H. apply bool_decide_eq_true_1 in H. unfold Dbl.zero, Dbl.lit.
  congruence.
Qed.

Lemma not_nonzero_zero (v : Vector) (p : nat) :
  nonzero v p = false -> val v p = Dbl.zero.
Proof.
  unfold nonzero, Dbl.neb. intros H. apply negb_false_iff in H.
  apply dbl_eqb_zero, H.
Qed.

Lemma packed_unlisted (v : Vector) (p : nat) :
  packed v -> p < dim v -> ~ listed v p -> val v p = Dbl.zero.
Proof.
  intros Hpk Hp Hl. apply not_nonzero_zero. unfold nonzero.
  destruct (val v p !=? Dbl.zero)%D eqn:E; [|reflexivity].
  exfalso. apply Hl. apply Hpk; assumption.
Qed.

Lemma dbl_neg_zero : (- Dbl.zero)%D = Dbl.zero.
Proof. vm_compute. reflexivity. Qed.

Lemma dbl_neg_involutive (x : double) : (- - x)%D = x.
Proof. destruct x; cbn; try reflexivity. f_equal. apply Qcopp_involutive. Qed.

Lemma dbl_mul_zero_r (x : double) : Dbl.is_fin x -> (x * Dbl.zero)%D = Dbl.zero.
Proof.
  destruct x as [| |q|]; cbn; try contradiction. intros _.
  unfold Dbl.zero, Dbl.lit. f_equal.
  replace (Q2Qc 0) with 0%Qc by (apply Qc_is_canon; reflexivity). ring.
Qed.

Lemma listed_dec (v : Vector) (p : nat) : listed v p \/ ~ listed v p.
Proof.
  unfold listed.
  destruct (decide (Exists (fun k => idx v k = p) (seq 0 (num_nz v)))) as [H|H].
  - left. apply Exists_exists in H. destruct H as (k & Hk & E).
    apply elem_of_seq in Hk. exists k. split; [lia|exact E].
  - right. intros (k & Hk & E). apply H. apply Exists_exists. exists k.
    split; [apply elem_of_seq; lia|exact E].
Qed.

(** X2: on a well-formed packed vector the unary [operator-] negates
    the value at every position, and applied twice it gives every value
    back; [operator*] by a scalar [d] puts [d * value] at every listed
    position and 0 at every other one, which is [d * value] everywhere
    when [d] is finite. *)
Theorem negate_times_pointwise (v : Vector) (d : double) (p : nat) :
  well_formed v -> packed v -> p < dim v ->
  val (negate v) p = (- val v p)%D
  /\ val (negate (negate v)) p = val v p
  /\ (listed v p -> val (times v d) p = (d * val v p)%D)
  /\ (~ listed v p -> val (times v d) p = Dbl.zero)
  /\ (Dbl.is_fin d -> val (times v d) p = (d * val v p)%D).
Proof.
  intros Hw Hpk Hp.
  assert (Hneg : forall u q, well_formed u -> packed u -> q < dim u ->
                   val (negate u) q = (- val u q)%D).
  { intros u q Hwu Hpku Hq. unfold negate.
    destruct (copy_loop_values Dbl.neg u Hwu) as (_ & Hl & Hu).
    change (val (with_num_nz ?w ?n) q) with (val w q).
    destruct (listed_dec u q) as [H|H].
    - apply Hl, H.
    - rewrite Hu by exact H. rewrite (packed_unlisted u q) by assumption.
      symmetry. apply dbl_neg_zero. }
  destruct (copy_loop_values (Dbl.mul d) v Hw) as (_ & Hl & Hu).
  split; [apply Hneg; assumption|]. split; [|split; [|split]].
  - destruct (copy_loop_spec Dbl.neg v Hw) as (Hw' & Hpk' & Hd').
    rewrite Hneg; [| exact Hw' | exact Hpk' | ].
    + rewrite Hneg by assumption. apply dbl_neg_involutive.
    + change (dim (negate v)) with
        (dim (for_range (num_nz v)
                (fun i result =>
                   let r1 := set_idx result i (idx v i) in
                   set_val r1 (idx v i) (- val v (idx v i))%D) (new (dim v)))).
      rewrite Hd'. exact Hp.
  - intros H. unfold times.
    change (val (with_num_nz ?w ?n) p) with (val w p). apply Hl, H.
  - intros H. unfold times.
    change (val (with_num_nz ?w ?n) p) with (val w p). apply Hu, H.
  - intros Hfin. unfold times.
    change (val (with_num_nz ?w ?n) p) with (val w p).
    destruct (listed_dec v p) as [H|H].
    + apply Hl, H.
    + rewrite Hu by exact H. rewrite (packed_unlisted v p) by assumption.
      symmetry. apply dbl_mul_zero_r, Hfin.
Qed.

(** *** saxpy and operator+= *)







(** *** repopulate *)

Lemma repopulate_other_spec (v other : Vector) :
  well_formed v -> packed v -> well_formed other -> packed other ->
  dim other = dim v ->
  let r := repopulate v other in
  num_nz r = num_nz other
  /\ (forall j, j < num_nz other -> idx r j = idx other j)
  /\ (forall p, p < dim v -> val r p = val other p).
Proof.
  intros Hw Hpk Hwo Hpko Hdim r.
  destruct (reset_spec v) as ((D0 & I0 & V0) & N0 & Hz).
  specialize (Hz Hpk).
  pose proof Hw as (Li & Lv & _).
  pose proof Hwo as (Lio & Lvo & Hno & Hidxo).
  set (body := fun (i : nat) (w : Vector) =>
                 let v' := set_idx w i (idx other i) in
                 set_val v' (idx v' i) (val other (idx v' i))).
  set (P := fun (k : nat) (w : Vector) =>
              same_shape (reset v) w
              /\ (forall j, j < k -> idx w j = idx other j)
              /\ (forall p, (exists j, j < k /\ idx other j = p) ->
                    val w p = val other p)
              /\ (forall p, (forall j, j < k -> idx other j <> p) ->
                    val w p = val (reset v) p)).
  assert (H : P (num_nz other) (for_range (num_nz other) body (reset v))).
  { apply (for_range_ind P); unfold P.
    - split; [apply same_shape_refl|]. split; [intros j Hj; lia|].
      split; [intros p (j & Hj & _); lia|]. reflexivity.
    - intros k w Hk ((S1 & S2 & S3) & Hj & Hl & Hu).
      assert (Ek : idx (set_idx w k (idx other k)) k = idx other k).
      { apply idx_set_idx_eq. lia. }
      unfold body. cbn zeta. rewrite Ek.
      split; [|split; [|split]].
      + repeat split; cbn; rewrite ?length_insert; assumption.
      + intros j Hjk.
        change (idx (set_val ?a ?b ?c) j) with (idx a j).
        destruct (decide (j = k)) as [->|Hne]; [exact Ek|].
        rewrite idx_set_idx_ne by congruence. apply Hj. lia.
      + intros p (j & Hjk & Ej).
        destruct (decide (idx other k = p)) as [<-|Hne].
        * apply val_set_val_eq. cbn [set_idx with_index value].
          rewrite S3, V0, Lv, <- Hdim. apply Hidxo, Hk.
        * rewrite val_set_val_ne by exact Hne.
          change (val (set_idx ?a ?b ?c) p) with (val a p).
          apply Hl. exists j. split; [|exact Ej].
          destruct (decide (j = k)) as [->|]; [contradiction|lia].
      + intros p Hnone.
        rewrite val_set_val_ne by (apply Hnone; lia).
        change (val (set_idx ?a ?b ?c) p) with (val a p).
        apply Hu. intros j Hjk. apply Hnone. lia. }
  destruct H as (_ & Hj & Hl & Hu).
  split; [reflexivity|]. split.
  - intros j Hjk. unfold r, repopulate. fold body.
    change (idx (with_num_nz ?w ?n) j) with (idx w j). apply Hj, Hjk.
  - intros p Hp. unfold r, repopulate. fold body.
    change (val (with_num_nz ?w ?n) p) with (val w p).
    destruct (listed_dec other p) as [H|H].
    + apply Hl, H.
    + rewrite Hu by (intros j Hjk E; apply H; exists j; auto).
      rewrite (packed_unlisted other p) by (try assumption; congruence).
      apply not_nonzero_zero. unfold nonzero. apply Hz, Hp.
Qed.

(** X4: [repopulate(other)] on a well-formed packed vector.  When
    [other] is another object, well-formed, packed and of the same
    dimension, the vector becomes a copy of [other]: the same number of
    nonzeros, the same listed positions in the same order, and the same
    value at every position.  When [other] is the vector itself,
    [reset()] has emptied it before anything is copied, and the call
    leaves the zero vector. *)
Theorem repopulate_copies (v : Vector) :
  well_formed v -> packed v ->
  (forall other,
     well_formed other -> packed other -> dim other = dim v ->
     let r := repopulate_ref v (Other other) in
     num_nz r = num_nz other
     /\ (forall j, j < num_nz other -> idx r j = idx other j)
     /\ (forall p, p < dim v -> val r p = val other p))
  /\ (let r := repopulate_ref v Self in
      num_nz r = 0
      /\ forall p, p < dim v -> val r p = Dbl.zero).
Proof.
  intros Hw Hpk. split.
  - intros other Hwo Hpko Hdim.
    exact (repopulate_other_spec v other Hw Hpk Hwo Hpko Hdim).
  - destruct (reset_spec v) as (_ & N0 & Hz). specialize (Hz Hpk).
    assert (E : repopulate_ref v Self = reset v).
    { unfold repopulate_ref. cbn [deref]. rewrite N0. cbn [for_range seq
        fold_left]. rewrite N0. unfold reset, with_num_nz. reflexivity. }
    cbn zeta. rewrite E. split; [exact N0|].
    intros p Hp. apply not_nonzero_zero. unfold nonzero. apply Hz, Hp.
Qed.

End VectorValues.

(** The vector (1, 0, -2) and the unit vector [unit 3 1] satisfy the
    assumptions of the statements above. *)
Lemma sparse_3_well_formed : Vector.well_formed Examples.sparse_3.
Proof.
  unfold Vector.well_formed. cbn. repeat split; try lia.
  intros [|[|k]] Hk; cbn; lia.
Qed.

Lemma sparse_3_packed : Vector.packed Examples.sparse_3.
Proof.
  intros [|[|[|p]]] Hd Hnz; cbn in Hd; try lia.
  - exists 0%nat. split; [cbn; lia | reflexivity].
  - vm_compute in Hnz. discriminate.
  - exists 1%nat. split; [cbn; lia | reflexivity].
Qed.

Lemma unit_3_1_well_formed : Vector.well_formed (Vector.unit 3 1).
Proof.
  unfold Vector.well_formed. cbn. repeat split; try lia.
  intros [|k] Hk; cbn; lia.
Qed.

Lemma unit_3_1_packed : Vector.packed (Vector.unit 3 1).
Proof.
  intros [|[|[|p]]] Hd Hnz; cbn in Hd; try lia.
  - vm_compute in Hnz. discriminate.
  - exists 0%nat. split; [cbn; lia | reflexivity].
  - vm_compute in Hnz. discriminate.
Qed.

Lemma plus_minus_pointwise_witness :
  Vector.well_formed Examples.sparse_3
  /\ Vector.well_formed (Vector.unit 3 1)
  /\ Vector.dim (Vector.unit 3 1) = Vector.dim Examples.sparse_3
  /\ Vector.val (Vector.plus Examples.sparse_3 (Vector.unit 3 1)) 1
     = (Vector.val Examples.sparse_3 1 + Vector.val (Vector.unit 3 1) 1)%D
  /\ Vector.val (Vector.minus Examples.sparse_3 (Vector.unit 3 1)) 1
     = (Vector.val Examples.sparse_3 1 - Vector.val (Vector.unit 3 1) 1)%D.
Proof.
  destruct (plus_minus_pointwise Examples.sparse_3 (Vector.unit 3 1)
              sparse_3_well_formed unit_3_1_well_formed eq_refl)
    as (_ & _ & Hval & _).
  split; [exact sparse_3_well_formed|].
  split; [exact unit_3_1_well_formed|].
  split; [reflexivity|].
  apply (Hval 1%nat). cbn. lia.
Defined.

Lemma negate_times_pointwise_witness :
  Vector.well_formed Examples.sparse_3 /\ Vector.packed Examples.sparse_3
  /\ Vector.val (Vector.negate Examples.sparse_3) 2
     = (- Vector.val Examples.sparse_3 2)%D
  /\ Vector.val (Vector.negate (Vector.negate Examples.sparse_3)) 2
     = Vector.val Examples.sparse_3 2.
Proof.
  destruct (negate_times_pointwise Examples.sparse_3 (Dbl.lit 3) 2
              sparse_3_well_formed sparse_3_packed ltac:(cbn; lia))
    as (Hneg & Hback & _).
  split; [exact sparse_3_well_formed|].
  split; [exact sparse_3_packed|].
  split; [exact Hneg|exact Hback].
Defined.


Lemma repopulate_copies_witness :
  Vector.well_formed Examples.sparse_3 /\ Vector.packed Examples.sparse_3
  /\ Vector.num_nz
       (Vector.repopulate_ref Examples.sparse_3
          (Vector.Other (Vector.unit 3 1))) = 1%nat
  /\ Vector.val
       (Vector.repopulate_ref Examples.sparse_3
          (Vector.Other (Vector.unit 3 1))) 1
     = Dbl.lit 1
  /\ Vector.num_nz (Vector.repopulate_ref Examples.sparse_3 Vector.Self)
     = 0%nat
  /\ Vector.val (Vector.repopulate_ref Examples.sparse_3 Vector.Self) 2
     = Dbl.zero.
Proof.
  destruct (repopulate_copies Examples.sparse_3
              sparse_3_well_formed sparse_3_packed) as (Hother & Hn & Hself).
  destruct (Hother (Vector.unit 3 1) unit_3_1_well_formed unit_3_1_packed
              eq_refl) as (Hnz & _ & Hval).
  split; [exact sparse_3_well_formed|]. split; [exact sparse_3_packed|].
  split; [exact Hnz|].
  split; [rewrite Hval by (cbn; lia); vm_compute; reflexivity|].
  split; [exact Hn|]. apply Hself. cbn. lia.
Defined.

(** ** Vector::norm2 and Vector::dot in binary64 *)

Section VectorBinary64.

Import Binary64.Vector.
Local Open Scope nat_scope.

(** X5: in binary64, when no listed value is NaN, [norm2] returns a
    number that is not NaN and not negative (it is +infinity when a
    square or the sum overflows); it returns 0 when every listed value
    is zero; and [dot] of the vector with itself returns the same
    number as [norm2]. *)
Theorem norm2_nonnegative (v : Vector) :
  (forall k, k < num_nz v ->
     (val v (idx v k) =? val v (idx v k))%float = true) ->
  F64.nonneg (norm2 v)
  /\ ((forall k, k < num_nz v -> (val v (idx v k) =? 0)%float = true) ->
      norm2 v = 0%float)
  /\ dot v v = norm2 v.
Proof.
  intros Hnum.
  set (P := fun (k : nat) (acc : float) =>
              F64.nonneg acc
              /\ ((forall j, j < k -> (val v (idx v j) =? 0)%float = true) ->
                  acc = 0%float)).
  assert (H : P (num_nz v) (norm2 v)).
  { unfold norm2. apply (for_range_ind P); unfold P.
    - split; [apply nonneg_zero|reflexivity].
    - intros k acc Hk [Hn Hz]. split.
      + apply nonneg_add; [exact Hn|]. apply nonneg_square, Hnum, Hk.
      + intros Hall. rewrite Hz by (intros j Hj; apply Hall; lia).
        rewrite square_of_zero by (apply Hall; lia). reflexivity. }
  destruct H as [Hn Hz]. split; [exact Hn|]. split; [exact Hz|reflexivity].
Qed.

End VectorBinary64.

Lemma norm2_nonnegative_witness :
  (forall k, (k < Binary64.Vector.num_nz Examples.sparse_3_64)%nat ->
     (Binary64.Vector.val Examples.sparse_3_64
        (Binary64.Vector.idx Examples.sparse_3_64 k)
      =? Binary64.Vector.val Examples.sparse_3_64
           (Binary64.Vector.idx Examples.sparse_3_64 k))%float = true)
  /\ F64.nonneg (Binary64.Vector.norm2 Examples.sparse_3_64)
  /\ Binary64.Vector.norm2 Examples.sparse_3_64 = 5%float
  /\ Binary64.Vector.dot Examples.sparse_3_64 Examples.sparse_3_64 = 5%float.
Proof.
  assert (H : forall k, (k < Binary64.Vector.num_nz Examples.sparse_3_64)%nat ->
            (Binary64.Vector.val Examples.sparse_3_64
               (Binary64.Vector.idx Examples.sparse_3_64 k)
             =? Binary64.Vector.val Examples.sparse_3_64
                  (Binary64.Vector.idx Examples.sparse_3_64 k))%float = true).
  { intros [|[|k]] Hk; cbn in Hk; try lia; vm_compute; reflexivity. }
  destruct (norm2_nonnegative Examples.sparse_3_64 H) as (Hn & _ & Hdot).
  split; [exact H|]. split; [exact Hn|].
  split; [vm_compute; reflexivity|]. rewrite Hdot. vm_compute. reflexivity.
Defined.

(** ** Instance::sumnumprimalinfeasibilities *)

Section PrimalInfeasibilities.

Import Binary64.Instance.
Local Open Scope nat_scope.

Lemma infeasibility_step_num (a lo up : float) (res : SumNum) :
  num (infeasibility_step a lo up res)
  = num res + (if out_of_bounds a lo up then 1 else 0).
Proof.
  unfold infeasibility_step, out_of_bounds.
  destruct (a <? lo)%float; cbn [num orb]; [lia|].
  destruct (F64.gtb a up); cbn [num]; lia.
Qed.

(** Each violation adds a distance that is not negative. *)
Lemma infeasibility_step_sum (a lo up : float) (res : SumNum) :
  F64.nonneg (sum res) ->
  F64.nonneg (sum (infeasibility_step a lo up res))
  /\ (out_of_bounds a lo up = false ->
      sum (infeasibility_step a lo up res) = sum res).
Proof.
  intros Hs. unfold infeasibility_step, out_of_bounds, F64.gtb.
  destruct (a <? lo)%float eqn:El; cbn [sum orb].
  - split; [|discriminate].
    apply nonneg_add; [exact Hs|]. apply sub_lt_nonneg, El.
  - destruct (up <? a)%float eqn:Eu; cbn [sum].
    + split; [|discriminate].
      apply nonneg_add; [exact Hs|]. apply sub_lt_nonneg, Eu.
    + split; [exact Hs|reflexivity].
Qed.

Lemma infeasibility_loop (n : nat) (a lo up : nat -> float) (res : SumNum) :
  let res' :=
    for_range n (fun i r => infeasibility_step (a i) (lo i) (up i) r) res in
  let bad :=
    List.filter (fun i => out_of_bounds (a i) (lo i) (up i)) (seq 0 n) in
  num res' = num res + length bad
  /\ (F64.nonneg (sum res) ->
      F64.nonneg (sum res') /\ (bad = [] -> sum res' = sum res)).
Proof.
  set (bad := fun k =>
                List.filter (fun i => out_of_bounds (a i) (lo i) (up i))
                  (seq 0 k)).
  set (P := fun (k : nat) (r : SumNum) =>
              num r = num res + length (bad k)
              /\ (F64.nonneg (sum res) ->
                  F64.nonneg (sum r) /\ (bad k = [] -> sum r = sum res))).
  cbn zeta.
  change (P n (for_range n
                 (fun i r => infeasibility_step (a i) (lo i) (up i) r) res)).
  apply (for_range_ind P); unfold P.
  - split; [cbn; lia|]. intros H. split; [exact H|reflexivity].
  - intros k r Hk [Hn Hs].
    assert (Eb : bad (S k)
                 = bad k
                   ++ (if out_of_bounds (a k) (lo k) (up k) then [k] else [])).
    { unfold bad. rewrite seq_S, List.filter_app. cbn [List.filter Nat.add].
      destruct (out_of_bounds (a k) (lo k) (up k)); reflexivity. }
    split.
    + rewrite infeasibility_step_num, Hn, Eb, length_app.
      destruct (out_of_bounds (a k) (lo k) (up k)); cbn; lia.
    + intros H0. destruct (Hs H0) as [Hr Hsame].
      destruct (infeasibility_step_sum (a k) (lo k) (up k) r Hr)
        as [Hr' Hkeep].
      split; [exact Hr'|]. rewrite Eb. intros E.
      apply app_eq_nil in E. destruct E as [E1 E2].
      destruct (out_of_bounds (a k) (lo k) (up k)); [discriminate E2|].
      rewrite Hkeep by reflexivity. apply Hsame, E1.
Qed.

Lemma filter_nil_iff {A} (f : A -> bool) (l : list A) :
  List.filter f l = [] <-> forall x, In x l -> f x = false.
Proof.
  induction l as [|y l IH]; cbn.
  - split; [intros _ x []|reflexivity].
  - destruct (f y) eqn:E.
    + split; [discriminate|]. intros H. specialize (H y (or_introl eq_refl)).
      congruence.
    + rewrite IH. split.
      * intros H x [<-|Hx]; [exact E|apply H, Hx].
      * intros H x Hx. apply H. right. exact Hx.
Qed.

(** X6: in binary64, the count returned by
    [sumnumprimalinfeasibilities] is the number of rows whose activity
    is below its lower or above its upper bound plus the number of
    variables outside their bounds; it is 0 exactly when no row and no
    variable violates a bound; the sum is never NaN and never negative
    (it is +infinity when a distance or the sum overflows); and the sum
    is 0 when the count is 0. *)
Theorem sumnumprimalinfeasibilities_counts (inst : Instance)
    (x rowactivity : Binary64.Vector.Vector) :
  let res := sumnumprimalinfeasibilities inst x rowactivity in
  num res
  = length (infeasible_rows inst rowactivity) + length (infeasible_vars inst x)
  /\ (num res = 0 <->
      (forall row, row < num_con inst ->
         (Binary64.Vector.val rowactivity row
          <? nth row (con_lo inst) 0)%float = false
         /\ F64.gtb (Binary64.Vector.val rowactivity row)
              (nth row (con_up inst) 0%float) = false)
      /\ (forall var, var < num_var inst ->
            (Binary64.Vector.val x var <? nth var (var_lo inst) 0)%float
            = false
            /\ F64.gtb (Binary64.Vector.val x var)
                 (nth var (var_up inst) 0%float) = false))
  /\ F64.nonneg (sum res)
  /\ (num res = 0 -> sum res = 0%float).
Proof.
  intros res.
  destruct (infeasibility_loop (num_con inst) (Binary64.Vector.val rowactivity)
              (fun row => nth row (con_lo inst) 0%float)
              (fun row => nth row (con_up inst) 0%float)
              (mkSumNum 0%float 0)) as [Hn1 Hs1].
  set (res1 := for_range (num_con inst) _ _) in Hn1, Hs1.
  destruct (infeasibility_loop (num_var inst) (Binary64.Vector.val x)
              (fun var => nth var (var_lo inst) 0%float)
              (fun var => nth var (var_up inst) 0%float) res1) as [Hn2 Hs2].
  fold (infeasible_rows inst rowactivity) in Hn1, Hs1.
  fold (infeasible_vars inst x) in Hn2, Hs2.
  change (for_range (num_var inst) _ res1) with res in Hn2, Hs2.
  cbn [num sum] in Hn1, Hs1.
  assert (En : num res
               = length (infeasible_rows inst rowactivity)
                 + length (infeasible_vars inst x)) by lia.
  destruct (Hs1 nonneg_zero) as [Hr1 Hz1].
  destruct (Hs2 Hr1) as [Hr2 Hz2].
  split; [exact En|]. split; [|split; [exact Hr2|]].
  - rewrite En. split.
    + intros H.
      assert (E1 : infeasible_rows inst rowactivity = [])
        by (apply length_zero_iff_nil; lia).
      assert (E2 : infeasible_vars inst x = [])
        by (apply length_zero_iff_nil; lia).
      unfold infeasible_rows in E1. unfold infeasible_vars in E2.
      rewrite filter_nil_iff in E1, E2. split.
      * intros row Hrow. specialize (E1 row). unfold out_of_bounds in E1.
        apply orb_false_iff, E1, in_seq. lia.
      * intros var Hvar. specialize (E2 var). unfold out_of_bounds in E2.
        apply orb_false_iff, E2, in_seq. lia.
    + intros [H1 H2].
      assert (E1 : infeasible_rows inst rowactivity = []).
      { apply filter_nil_iff. intros row Hrow. apply in_seq in Hrow.
        unfold out_of_bounds. apply orb_false_iff, H1. lia. }
      assert (E2 : infeasible_vars inst x = []).
      { apply filter_nil_iff. intros var Hvar. apply in_seq in Hvar.
        unfold out_of_bounds. apply orb_false_iff, H2. lia. }
      rewrite E1, E2. reflexivity.
  - intros H.
    assert (E1 : infeasible_rows inst rowactivity = [])
      by (apply length_zero_iff_nil; lia).
    assert (E2 : infeasible_vars inst x = [])
      by (apply length_zero_iff_nil; lia).
    rewrite (Hz2 E2). apply Hz1, E1.
Qed.

End PrimalInfeasibilities.

Lemma sumnumprimalinfeasibilities_counts_witness :
  Binary64.Instance.num
    (Binary64.Instance.sumnumprimalinfeasibilities Examples.boxes
       Examples.point_x Examples.point_rows) = 2%nat
  /\ Binary64.Instance.sum
       (Binary64.Instance.sumnumprimalinfeasibilities Examples.boxes
          Examples.point_x Examples.point_rows) = 1.75%float
  /\ F64.nonneg
       (Binary64.Instance.sum
          (Binary64.Instance.sumnumprimalinfeasibilities Examples.boxes
             Examples.point_x Examples.point_rows))
  /\ Binary64.Instance.sum
       (Binary64.Instance.sumnumprimalinfeasibilities Examples.wide_box
          Examples.far_point Examples.no_rows) = infinity.
Proof.
  destruct (sumnumprimalinfeasibilities_counts Examples.boxes
              Examples.point_x Examples.point_rows) as (Hnum & _ & Hsum & _).
  split; [rewrite Hnum; vm_compute; reflexivity|].
  split; [vm_compute; reflexivity|].
  split; [exact Hsum|]. vm_compute. reflexivity.
Defined.

(** ** HighsPseudocost: the other observations *)

Section PseudocostMore.

Import HighsPseudocost.

Lemma inferences_of_snoc (col : Z) (up : bool) (cs : list inference_call)
    (c : inference_call) :
  inferences_of col up (cs ++ [c])
  = inferences_of col up cs
    ++ (if bool_decide (fst (fst c) = col) && Bool.eqb (snd c) up
        then [inferences c] else []).
Proof.
  unfold inferences_of. rewrite List.filter_app, map_app. cbn [List.filter].
  destruct (bool_decide (fst (fst c) = col) && Bool.eqb (snd c) up); reflexivity.
Qed.

Lemma inferred_step (ncol : nat) (p0 : HighsPseudocost)
    (cs : list inference_call) (c : inference_call) (p : HighsPseudocost) :
  inferred ncol p0 cs p ->
  0 <= fst (fst c) < Z.of_nat ncol ->
  inferred ncol p0 (cs ++ [c]) (infer p c).
Proof.
  intros (Hup & Hdown & Htot) Hcol.
  destruct c as [[col n] up]. cbn [fst snd] in Hcol.
  unfold inferred, infer, addInferenceObservation.
  change (F64.of_int n) with (inferences (col, n, up)).
  destruct up;
    cbn [ninferencesup inferencesup ninferencesdown inferencesdown
         ninferencestotal inferences_total].
  - split; [|split].
    + apply (col_avg_step _ _ _ _ (fun c0 => inferences_of c0 true cs));
        [exact Hup | exact Hcol | |]; cbn beta.
      * rewrite inferences_of_snoc. cbn [fst snd].
        rewrite bool_decide_eq_true_2 by reflexivity. reflexivity.
      * intros c Hc. rewrite inferences_of_snoc. cbn [fst snd].
        rewrite (bool_decide_eq_false_2 (col = c)) by congruence.
        cbn. apply app_nil_r.
    + eapply col_avg_ext; [exact Hdown|].
      intros c. rewrite inferences_of_snoc. cbn [fst snd Bool.eqb].
      rewrite andb_false_r. apply app_nil_r.
    + rewrite map_app. apply (total_avg_step _ _ _ (map inferences cs)), Htot.
  - split; [|split].
    + eapply col_avg_ext; [exact Hup|].
      intros c. rewrite inferences_of_snoc. cbn [fst snd Bool.eqb].
      rewrite andb_false_r. apply app_nil_r.
    + apply (col_avg_step _ _ _ _ (fun c0 => inferences_of c0 false cs));
        [exact Hdown | exact Hcol | |]; cbn beta.
      * rewrite inferences_of_snoc. cbn [fst snd].
        rewrite bool_decide_eq_true_2 by reflexivity. reflexivity.
      * intros c Hc. rewrite inferences_of_snoc. cbn [fst snd].
        rewrite (bool_decide_eq_false_2 (col = c)) by congruence.
        cbn. apply app_nil_r.
    + rewrite map_app. apply (total_avg_step _ _ _ (map inferences cs)), Htot.
Qed.

Lemma inferred_all (ncol : nat) (cs : list inference_call)
    (p : HighsPseudocost) :
  no_inferences ncol p ->
  Forall (fun c : inference_call => 0 <= fst (fst c) < Z.of_nat ncol) cs ->
  inferred ncol p cs (infer_all p cs).
Proof.
  intros (L1 & L2 & L3 & L4 & Z1 & Z2 & Z3).
  induction cs as [|c cs IH] using rev_ind; intros Hok.
  - cbn. split; [|split].
    + split; [exact L3|]. split; [exact L1|]. intros col Hcol. split.
      * apply (zget_Forall (fun n => n = 0)); [exact Z1 | lia].
      * reflexivity.
    + split; [exact L4|]. split; [exact L2|]. intros col Hcol. split.
      * apply (zget_Forall (fun n => n = 0)); [exact Z2 | lia].
      * reflexivity.
    + split; [exact Z3|reflexivity].
  - apply Forall_app in Hok. destruct Hok as [Hcs Hc].
    apply Forall_inv in Hc.
    unfold infer_all. rewrite fold_left_app. cbn [fold_left].
    apply inferred_step; [apply IH, Hcs | exact Hc].
Qed.

(** X7: starting from a record without inference observations, after
    any sequence of [addInferenceObservation] calls on valid columns the
    counters of a column hold the numbers of its up and down calls and
    the total counter the number of calls; the two averages of the
    column and the total average hold what the update
    [avg += (ninferences - avg) / n], carried out in binary64 on the
    inference counts in the order of the calls (those of the column on
    that branch; all of them for the total), makes of the value the
    average had at the start. *)
Theorem addInferenceObservation_running_averages (ncol : nat)
    (p0 : HighsPseudocost) (cs : list inference_call) :
  no_inferences ncol p0 ->
  Forall (fun c : inference_call => 0 <= fst (fst c) < Z.of_nat ncol) cs ->
  let p := infer_all p0 cs in
  (forall col, 0 <= col < Z.of_nat ncol ->
     zget (ninferencesup p) col 0
     = Z.of_nat (length (inferences_of col true cs))
     /\ zget (ninferencesdown p) col 0
        = Z.of_nat (length (inferences_of col false cs))
     /\ zget (inferencesup p) col 0%float
        = running (zget (inferencesup p0) col 0%float)
            (inferences_of col true cs)
     /\ zget (inferencesdown p) col 0%float
        = running (zget (inferencesdown p0) col 0%float)
            (inferences_of col false cs))
  /\ ninferencestotal p = Z.of_nat (length cs)
  /\ inferences_total p = running (inferences_total p0) (map inferences cs).
Proof.
  intros Hp Hok p.
  destruct (inferred_all ncol cs p0 Hp Hok)
    as ((_ & _ & Hu) & (_ & _ & Hd) & Ht).
  fold p in Hu, Hd, Ht. split; [|split].
  - intros col Hcol.
    destruct (Hu col Hcol) as (Hn & Hq).
    destruct (Hd col Hcol) as (Hn' & Hq').
    repeat split; assumption.
  - destruct Ht as [Hn _]. rewrite Hn, length_map. reflexivity.
  - apply Ht.
Qed.

(** *** addCutoffObservation *)

Lemma cutoffs_of_snoc (col : Z) (up : bool) (cs : list cutoff_call)
    (c : cutoff_call) :
  length (cutoffs_of col up (cs ++ [c]))
  = (length (cutoffs_of col up cs)
     + (if bool_decide (fst c = col) && Bool.eqb (snd c) up then 1 else 0))%nat.
Proof.
  unfold cutoffs_of. rewrite List.filter_app, length_app. cbn [List.filter].
  destruct (bool_decide (fst c = col) && Bool.eqb (snd c) up); reflexivity.
Qed.

Lemma cutoff_all_lengths (p0 : HighsPseudocost) (cs : list cutoff_call) :
  length (ncutoffsup (cutoff_all p0 cs)) = length (ncutoffsup p0)
  /\ length (ncutoffsdown (cutoff_all p0 cs)) = length (ncutoffsdown p0).
Proof.
  revert p0. induction cs as [|c cs IH]; intros p0; [split; reflexivity|].
  unfold cutoff_all in *. cbn [fold_left].
  destruct (IH (addCutoffObservation p0 (fst c) (snd c))) as [-> ->].
  unfold addCutoffObservation. destruct (snd c); cbn;
    rewrite ?length_zset; split; reflexivity.
Qed.

(** X8: a sequence of [addCutoffObservation] calls on valid columns
    raises [ncutoffstotal] by the number of calls and the up (down)
    cutoff counter of each column by the number of its up (down) calls,
    and it leaves the cost samples, the pseudocosts and their totals as
    they were. *)
Theorem addCutoffObservation_counts (ncol : nat) (p0 : HighsPseudocost)
    (cs : list cutoff_call) :
  length (ncutoffsup p0) = ncol -> length (ncutoffsdown p0) = ncol ->
  Forall (fun c : cutoff_call => 0 <= fst c < Z.of_nat ncol) cs ->
  let p := cutoff_all p0 cs in
  ncutoffstotal p = ncutoffstotal p0 + Z.of_nat (length cs)
  /\ (forall col, 0 <= col < Z.of_nat ncol ->
        zget (ncutoffsup p) col 0
        = zget (ncutoffsup p0) col 0
          + Z.of_nat (length (cutoffs_of col true cs))
        /\ zget (ncutoffsdown p) col 0
           = zget (ncutoffsdown p0) col 0
             + Z.of_nat (length (cutoffs_of col false cs)))
  /\ nsamplesup p = nsamplesup p0 /\ nsamplesdown p = nsamplesdown p0
  /\ pseudocostup p = pseudocostup p0 /\ pseudocostdown p = pseudocostdown p0
  /\ cost_total p = cost_total p0 /\ nsamplestotal p = nsamplestotal p0.
Proof.
  intros L1 L2 Hok. cbn zeta.
  induction cs as [|c cs IH] using rev_ind.
  - cbn. repeat split; try lia; reflexivity.
  - apply Forall_app in Hok. destruct Hok as [Hcs Hc].
    apply Forall_inv in Hc. specialize (IH Hcs).
    destruct (cutoff_all_lengths p0 cs) as [Lu Ld]. rewrite L1 in Lu.
    rewrite L2 in Ld.
    replace (cutoff_all p0 (cs ++ [c]))
      with (addCutoffObservation (cutoff_all p0 cs) (fst c) (snd c))
      by (unfold cutoff_all; rewrite fold_left_app; reflexivity).
    remember (cutoff_all p0 cs) as p eqn:Ep. clear Ep.
    destruct IH as (Ht & Hcols & E1 & E2 & E3 & E4 & E5 & E6).
    destruct c as [col up]. cbn [fst snd] in Hc |- *.
    unfold addCutoffObservation.
    cbn [ncutoffstotal ncutoffsup ncutoffsdown nsamplesup nsamplesdown
         pseudocostup pseudocostdown cost_total nsamplestotal].
    split; [rewrite Ht, length_app; cbn; lia|].
    split; [|repeat split; assumption].
    intros c Hc'. destruct (Hcols c Hc') as [Hu Hd].
    rewrite !cutoffs_of_snoc. cbn [fst snd].
    destruct up; cbn [Bool.eqb]; rewrite ?andb_false_r, ?andb_true_r.
    + split; [|rewrite Hd; lia].
      case_bool_decide as E.
      * subst c. rewrite zget_zset_eq by lia. lia.
      * rewrite zget_zset_ne by exact E. lia.
    + split; [rewrite Hu; lia|].
      case_bool_decide as E.
      * subst c. rewrite zget_zset_eq by lia. lia.
      * rewrite zget_zset_ne by exact E. lia.
Qed.

(** *** subtractBase after observations *)

Lemma observe_counts (ncol : nat) (p : HighsPseudocost) (c : call) :
  samples_sized ncol p -> call_ok ncol c ->
  samples_sized ncol (observe p c)
  /\ nsamplestotal (observe p c) = nsamplestotal p + 1
  /\ forall col, 0 <= col < Z.of_nat ncol ->
       zget (nsamplesup (observe p c)) col 0
       = zget (nsamplesup p) col 0 + (if is_up col c then 1 else 0)
       /\ zget (nsamplesdown (observe p c)) col 0
          = zget (nsamplesdown p) col 0 + (if is_down col c then 1 else 0).
Proof.
  intros (L1 & L2 & L3 & L4) Hok.
  destruct c as [[col delta] objdelta]. destruct Hok as (Hcol & Hd & Hobj).
  unfold observe, addObservation, F64.gtb, is_up, is_down.
  destruct (delta_side delta Hd) as [[Hpos Hneg]|[Hpos Hneg]];
    rewrite Hpos;
    cbn [nsamplesup pseudocostup nsamplesdown pseudocostdown nsamplestotal
         set_up set_down].
  - split; [unfold samples_sized; cbn; rewrite !length_zset; auto|].
    split; [reflexivity|]. intros c Hc.
    rewrite Hneg, ?Hpos, andb_false_r, andb_true_r. split; [|lia].
    case_bool_decide as E.
    + subst c. rewrite zget_zset_eq by lia. lia.
    + rewrite zget_zset_ne by exact E. lia.
  - split; [unfold samples_sized; cbn; rewrite !length_zset; auto|].
    split; [reflexivity|]. intros c Hc.
    rewrite Hneg, ?Hpos, andb_false_r, andb_true_r. split; [lia|].
    case_bool_decide as E.
    + subst c. rewrite zget_zset_eq by lia. lia.
    + rewrite zget_zset_ne by exact E. lia.
Qed.

Lemma observe_all_counts (ncol : nat) (p : HighsPseudocost) (cs : list call) :
  samples_sized ncol p -> Forall (call_ok ncol) cs ->
  samples_sized ncol (observe_all p cs)
  /\ nsamplestotal (observe_all p cs) = nsamplestotal p + Z.of_nat (length cs)
  /\ forall col, 0 <= col < Z.of_nat ncol ->
       zget (nsamplesup (observe_all p cs)) col 0
       = zget (nsamplesup p) col 0 + Z.of_nat (length (samples_up col cs))
       /\ zget (nsamplesdown (observe_all p cs)) col 0
          = zget (nsamplesdown p) col 0
            + Z.of_nat (length (samples_down col cs)).
Proof.
  intros Hs. induction cs as [|c cs IH] using rev_ind; intros Hok.
  - cbn. split; [exact Hs|]. split; [lia|]. intros col _. lia.
  - apply Forall_app in Hok. destruct Hok as [Hcs Hc].
    apply Forall_inv in Hc. destruct (IH Hcs) as (Hs' & Ht & Hcols).
    unfold observe_all in *. rewrite fold_left_app. cbn [fold_left].
    destruct (observe_counts ncol _ c Hs' Hc) as (Hs'' & Ht' & Hcols').
    split; [exact Hs''|]. split; [rewrite Ht', Ht, length_app; cbn; lia|].
    intros col Hcol. destruct (Hcols col Hcol) as [Hu Hd].
    destruct (Hcols' col Hcol) as [Hu' Hd'].
    rewrite Hu', Hd', Hu, Hd, samples_up_snoc, samples_down_snoc, !length_app.
    destruct (is_up col c), (is_down col c); cbn; lia.
Qed.

Lemma subtract_loop (a b : list float) (n m : list Z)
    (a0 b0 : list float) (n0 m0 : list Z) (k : nat)
    (a' b' : list float) (n' m' : list Z) :
  for_range k
    (fun i (st : list float * list float * list Z * list Z) =>
       let '(pcu, pcd, nsu, nsd) := st in
       (<[i := (nth i pcu 0%float - nth i a0 0%float)%float]> pcu,
        <[i := (nth i pcd 0%float - nth i b0 0%float)%float]> pcd,
        <[i := nth i nsu 0 - nth i n0 0]> nsu,
        <[i := nth i nsd 0 - nth i m0 0]> nsd))
    (a, b, n, m) = (a', b', n', m') ->
  (k <= length a)%nat -> (k <= length b)%nat ->
  (k <= length n)%nat -> (k <= length m)%nat ->
  length n' = length n /\ length m' = length m
  /\ length a' = length a /\ length b' = length b
  /\ forall i : nat,
       nth i n' 0 = (if bool_decide (i < k)%nat
                     then nth i n 0 - nth i n0 0 else nth i n 0)
       /\ nth i m' 0 = (if bool_decide (i < k)%nat
                        then nth i m 0 - nth i m0 0 else nth i m 0)
       /\ nth i a' 0%float
          = (if bool_decide (i < k)%nat
             then (nth i a 0%float - nth i a0 0%float)%float else nth i a 0%float)
       /\ nth i b' 0%float
          = (if bool_decide (i < k)%nat
             then (nth i b 0%float - nth i b0 0%float)%float else nth i b 0%float).
Proof.
  intros E Ha Hb Hn Hm.
  set (P := fun (j : nat) (st : list float * list float * list Z * list Z) =>
              length (snd (fst st)) = length n /\ length (snd st) = length m
              /\ length (fst (fst (fst st))) = length a
              /\ length (snd (fst (fst st))) = length b
              /\ forall i : nat,
                   nth i (snd (fst st)) 0
                   = (if bool_decide (i < j)%nat
                      then nth i n 0 - nth i n0 0 else nth i n 0)
                   /\ nth i (snd st) 0
                      = (if bool_decide (i < j)%nat
                         then nth i m 0 - nth i m0 0 else nth i m 0)
                   /\ nth i (fst (fst (fst st))) 0%float
                      = (if bool_decide (i < j)%nat
                         then (nth i a 0%float - nth i a0 0%float)%float
                         else nth i a 0%float)
                   /\ nth i (snd (fst (fst st))) 0%float
                      = (if bool_decide (i < j)%nat
                         then (nth i b 0%float - nth i b0 0%float)%float
                         else nth i b 0%float)).
  assert (H : P k (a', b', n', m')).
  { rewrite <- E. apply (for_range_ind P); unfold P.
    - cbn [fst snd]. repeat split; reflexivity.
    - intros j [[[a1 b1] n1] m1] Hj. cbn [fst snd].
      intros (L1 & L2 & L3 & L4 & Hv).
      rewrite !length_insert. repeat split; try assumption;
        destruct (Hv i) as (V1 & V2 & V3 & V4);
        destruct (Hv j) as (W1 & W2 & W3 & W4);
        rewrite bool_decide_eq_false_2 in W1, W2, W3, W4 by lia;
        (destruct (decide (i = j)) as [->|Hne];
         [rewrite nth_insert_eq by lia;
          rewrite bool_decide_eq_true_2 by lia; congruence
         |rewrite nth_insert_ne by congruence;
          first [rewrite V1 | rewrite V2 | rewrite V3 | rewrite V4];
          destruct (decide (i < j)%nat);
          [rewrite !bool_decide_eq_true_2 by lia
          |rewrite !bool_decide_eq_false_2 by lia]; reflexivity]). }
  exact H.
Qed.

(** X9: if a record is obtained from [base] by a sequence of
    [addObservation] calls, then after [subtractBase(base)] the sample
    counters of every column count exactly the new up and down
    observations of that column, [getNumObservations] is their sum, and
    the totals ([nsamplestotal], [cost_total]) are not reduced by the
    call. *)
Theorem subtractBase_counts_new_observations (ncol : nat)
    (base : HighsPseudocost) (cs : list call) :
  samples_sized ncol base -> Forall (call_ok ncol) cs ->
  let p := subtractBase (observe_all base cs) base in
  (forall col, 0 <= col < Z.of_nat ncol ->
     zget (nsamplesup p) col 0 = Z.of_nat (length (samples_up col cs))
     /\ zget (nsamplesdown p) col 0 = Z.of_nat (length (samples_down col cs))
     /\ getNumObservations p col
        = Z.of_nat (length (samples_up col cs))
          + Z.of_nat (length (samples_down col cs)))
  /\ nsamplestotal p = nsamplestotal base + Z.of_nat (length cs)
  /\ cost_total p = cost_total (observe_all base cs).
Proof.
  intros Hs Hok p.
  destruct (observe_all_counts ncol base cs Hs Hok)
    as ((L1 & L2 & L3 & L4) & Ht & Hcols).
  set (q := observe_all base cs) in *.
  unfold p, subtractBase.
  destruct (for_range _ _ _) as [[[a' b'] n'] m'] eqn:E.
  apply subtract_loop in E; try lia.
  destruct E as (M1 & M2 & M3 & M4 & Hv).
  cbn [nsamplesup nsamplesdown nsamplestotal cost_total].
  split; [|split; [exact Ht|reflexivity]].
  intros col Hcol. destruct (Hcols col Hcol) as [Hu Hd].
  unfold getNumObservations. cbn [nsamplesup nsamplesdown].
  destruct (Hv (Z.to_nat col)) as (V1 & V2 & _).
  rewrite bool_decide_eq_true_2 in V1, V2 by lia.
  unfold zget in *. rewrite bool_decide_eq_true_2 in * by lia.
  rewrite V1, V2, Hu, Hd. lia.
Qed.

End PseudocostMore.

Lemma addInferenceObservation_running_averages_witness :
  HighsPseudocost.no_inferences 2 Examples.no_observations
  /\ HighsPseudocost.ninferencestotal
       (HighsPseudocost.infer_all Examples.no_observations
          Examples.two_inferences) = 2
  /\ zget (HighsPseudocost.inferencesup
             (HighsPseudocost.infer_all Examples.no_observations
                Examples.two_inferences)) 0 0%float
     = 3%float.
Proof.
  assert (Hp : HighsPseudocost.no_inferences 2 Examples.no_observations).
  { unfold HighsPseudocost.no_inferences. cbn.
    repeat split; repeat constructor. }
  assert (Hok : Forall (fun c : HighsPseudocost.inference_call =>
                          0 <= fst (fst c) < Z.of_nat 2)
                  Examples.two_inferences).
  { repeat constructor; cbn; lia. }
  destruct (addInferenceObservation_running_averages 2
              Examples.no_observations Examples.two_inferences Hp Hok)
    as (Hcols & Htot & _).
  split; [exact Hp|]. split; [exact Htot|].
  destruct (Hcols 0 ltac:(cbn; lia)) as (_ & _ & Hup & _).
  rewrite Hup. vm_compute. reflexivity.
Defined.

Lemma addCutoffObservation_counts_witness :
  Forall (fun c : HighsPseudocost.cutoff_call => 0 <= fst c < Z.of_nat 2)
    Examples.two_cutoffs
  /\ HighsPseudocost.ncutoffstotal
       (HighsPseudocost.cutoff_all Examples.no_observations
          Examples.two_cutoffs)
     = HighsPseudocost.ncutoffstotal Examples.no_observations + 2.
Proof.
  assert (Hok : Forall (fun c : HighsPseudocost.cutoff_call =>
                          0 <= fst c < Z.of_nat 2) Examples.two_cutoffs).
  { repeat constructor; cbn; lia. }
  destruct (addCutoffObservation_counts 2 Examples.no_observations
              Examples.two_cutoffs eq_refl eq_refl Hok) as (Htot & _).
  split; [exact Hok|exact Htot].
Defined.

Lemma subtractBase_counts_new_observations_witness :
  HighsPseudocost.samples_sized 2 Examples.no_observations
  /\ Forall (HighsPseudocost.call_ok 2) Examples.three_calls
  /\ HighsPseudocost.getNumObservations
       (HighsPseudocost.subtractBase
          (HighsPseudocost.observe_all Examples.no_observations
             Examples.three_calls)
          Examples.no_observations) 0
     = 2.
Proof.
  assert (Hs : HighsPseudocost.samples_sized 2 Examples.no_observations)
    by (repeat split; reflexivity).
  assert (Hok : Forall (HighsPseudocost.call_ok 2) Examples.three_calls).
  { repeat constructor; try (cbn; lia); vm_compute; reflexivity. }
  destruct (subtractBase_counts_new_observations 2 Examples.no_observations
              Examples.three_calls Hs Hok) as (Hcols & _).
  split; [exact Hs|]. split; [exact Hok|].
  destruct (Hcols 0 ltac:(cbn; lia)) as (_ & _ & Hn).
  rewrite Hn. vm_compute. reflexivity.
Defined.

(** ** getLpCosts, getLpColBounds, getLpRowBounds *)

Section GetVectors.

Import HighsLpUtils.

Lemma copy_slice_loop (src X : list double) (from_ix to_ix : Z) :
  from_ix <= to_ix + 1 ->
  let res :=
    for_z from_ix (to_ix + 1)
      (fun ix X => zset X (ix - from_ix) (zget src ix Dbl.zero)) X in
  length res = length X
  /\ forall k,
       zget res k Dbl.zero
       = if bool_decide (0 <= k <= to_ix - from_ix /\ k < Z.of_nat (length X))
         then zget src (from_ix + k) Dbl.zero else zget X k Dbl.zero.
Proof.
  intros Hle. cbn zeta.
  set (P := fun (i : Z) (r : list double) =>
              length r = length X
              /\ forall k,
                   zget r k Dbl.zero
                   = if bool_decide (0 <= k < i - from_ix
                                     /\ k < Z.of_nat (length X))
                     then zget src (from_ix + k) Dbl.zero
                     else zget X k Dbl.zero).
  assert (H : P (to_ix + 1)
                (for_z from_ix (to_ix + 1)
                   (fun ix X => zset X (ix - from_ix) (zget src ix Dbl.zero)) X)).
  { apply (for_z_ind P); unfold P; [exact Hle| |].
    - split; [reflexivity|]. intros k.
      rewrite bool_decide_eq_false_2 by lia. reflexivity.
    - intros i r Hi [Hl Hv]. split; [rewrite length_zset; exact Hl|].
      intros k. rewrite zget_zset, Hl, Hv.
      case_bool_decide as H1.
      + destruct H1 as [-> H1]. rewrite bool_decide_eq_true_2 by lia.
        f_equal. lia.
      + do 2 case_bool_decide; try reflexivity; exfalso; lia. }
  destruct H as [Hl Hv]. split; [exact Hl|]. intros k. rewrite Hv.
  do 2 case_bool_decide; try reflexivity; exfalso; lia.
Qed.

(** X12: [getLpCosts] returns [kError] and leaves the output array as it
    was when [from_col < 0] or [to_col >= num_col_]; it returns [kOk]
    without writing when [to_col < from_col]; otherwise it returns [kOk]
    and cell [k] of the output holds the cost of column [from_col + k]
    for [k <= to_col - from_col], the later cells being as before. *)
Theorem getLpCosts_copies_slice (lp : HighsLp) (from_col to_col : Z)
    (XcolCost : list double) :
  let res := getLpCosts lp from_col to_col XcolCost in
  (from_col < 0 \/ num_col_ lp <= to_col -> res = (kError, XcolCost))
  /\ (0 <= from_col -> to_col < num_col_ lp -> to_col < from_col ->
      res = (kOk, XcolCost))
  /\ (vectors_sized lp -> 0 <= from_col <= to_col -> to_col < num_col_ lp ->
      to_col - from_col < Z.of_nat (length XcolCost) ->
      fst res = kOk /\ length (snd res) = length XcolCost
      /\ (forall k, 0 <= k <= to_col - from_col ->
            zget (snd res) k Dbl.zero
            = zget (col_cost_ lp) (from_col + k) Dbl.zero)
      /\ (forall k, to_col - from_col < k ->
            zget (snd res) k Dbl.zero = zget XcolCost k Dbl.zero)).
Proof.
  intros res. unfold res, getLpCosts. split; [|split].
  - intros H. destruct H.
    + rewrite (bool_decide_eq_true_2 (from_col < 0)) by lia. reflexivity.
    + rewrite (bool_decide_eq_true_2 (to_col >= num_col_ lp)) by lia.
      rewrite orb_true_r. reflexivity.
  - intros H1 H2 H3.
    rewrite (bool_decide_eq_false_2 (from_col < 0)) by lia.
    rewrite (bool_decide_eq_false_2 (to_col >= num_col_ lp)) by lia.
    rewrite (bool_decide_eq_true_2 (from_col > to_col)) by lia. reflexivity.
  - intros _ H1 H2 H3.
    rewrite (bool_decide_eq_false_2 (from_col < 0)) by lia.
    rewrite (bool_decide_eq_false_2 (to_col >= num_col_ lp)) by lia.
    rewrite (bool_decide_eq_false_2 (from_col > to_col)) by lia.
    cbn [orb fst snd].
    destruct (copy_slice_loop (col_cost_ lp) XcolCost from_col to_col)
      as [Hl Hv]; [lia|].
    split; [reflexivity|]. split; [exact Hl|]. split.
    + intros k Hk. rewrite Hv, bool_decide_eq_true_2 by lia. reflexivity.
    + intros k Hk. rewrite Hv, bool_decide_eq_false_2 by lia. reflexivity.
Qed.

Lemma get_bounds_spec (lower upper : list double) (from_ix to_ix : Z)
    (Xlower Xupper : option (list double)) :
  from_ix <= to_ix + 1 ->
  get_bounds lower upper from_ix to_ix Xlower Xupper
  = (option_map
       (for_z from_ix (to_ix + 1)
          (fun ix X => zset X (ix - from_ix) (zget lower ix Dbl.zero))) Xlower,
     option_map
       (for_z from_ix (to_ix + 1)
          (fun ix X => zset X (ix - from_ix) (zget upper ix Dbl.zero))) Xupper).
Proof.
  intros Hle. unfold get_bounds.
  apply (for_z_ind
           (fun i st =>
              st = (option_map
                      (for_z from_ix i
                         (fun ix X =>
                            zset X (ix - from_ix) (zget lower ix Dbl.zero)))
                      Xlower,
                    option_map
                      (for_z from_ix i
                         (fun ix X =>
                            zset X (ix - from_ix) (zget upper ix Dbl.zero)))
                      Xupper))); [exact Hle| |].
  - destruct Xlower, Xupper; cbn; rewrite ?for_z_empty by lia; reflexivity.
  - intros i st Hi ->. cbn [fst snd].
    destruct Xlower, Xupper; cbn [option_map];
      rewrite ?for_z_succ by lia; reflexivity.
Qed.

(** X13: [getLpColBounds] and [getLpRowBounds] return [kError] and write
    nothing when the range leaves the columns (rows) of the LP, [kOk]
    without writing when the range is empty, and otherwise [kOk] with
    cell [k] of each output array that is passed (not [NULL]) holding the
    bound of column (row) [from + k]; an array that is not passed stays
    absent, and the cells after the range are as before. *)
Theorem getLpBounds_copy_slices (lp : HighsLp) (from_ix to_ix : Z)
    (Xlower Xupper : option (list double)) :
  let col := getLpColBounds lp from_ix to_ix Xlower Xupper in
  let row := getLpRowBounds lp from_ix to_ix Xlower Xupper in
  let copied (src : list double) (X X' : option (list double)) : Prop :=
    match X, X' with
    | None, None => True
    | Some l, Some l' =>
        length l' = length l
        /\ (forall k, 0 <= k <= to_ix - from_ix ->
              zget l' k Dbl.zero = zget src (from_ix + k) Dbl.zero)
        /\ (forall k, to_ix - from_ix < k ->
              zget l' k Dbl.zero = zget l k Dbl.zero)
    | _, _ => False
    end in
  let fits (X : option (list double)) : Prop :=
    match X with
    | Some l => to_ix - from_ix < Z.of_nat (length l)
    | None => True
    end in
  (from_ix < 0 \/ num_col_ lp <= to_ix -> col = (kError, (Xlower, Xupper)))
  /\ (from_ix < 0 \/ num_row_ lp <= to_ix -> row = (kError, (Xlower, Xupper)))
  /\ (0 <= from_ix -> to_ix < from_ix ->
      (to_ix < num_col_ lp -> col = (kOk, (Xlower, Xupper)))
      /\ (to_ix < num_row_ lp -> row = (kOk, (Xlower, Xupper))))
  /\ (vectors_sized lp -> 0 <= from_ix <= to_ix -> fits Xlower -> fits Xupper ->
      (to_ix < num_col_ lp ->
       fst col = kOk
       /\ copied (col_lower_ lp) Xlower (fst (snd col))
       /\ copied (col_upper_ lp) Xupper (snd (snd col)))
      /\ (to_ix < num_row_ lp ->
          fst row = kOk
          /\ copied (row_lower_ lp) Xlower (fst (snd row))
          /\ copied (row_upper_ lp) Xupper (snd (snd row)))).
Proof.
  intros col row copied fits.
  assert (Hcopy : forall src X, from_ix <= to_ix -> fits X ->
            copied src X
              (option_map
                 (for_z from_ix (to_ix + 1)
                    (fun ix X => zset X (ix - from_ix) (zget src ix Dbl.zero)))
                 X)).
  { intros src [l|] Hle Hfit; unfold copied, fits in *; cbn in *; [|exact I].
    destruct (copy_slice_loop src l from_ix to_ix) as [Hl Hv]; [lia|].
    split; [exact Hl|]. split.
    - intros k Hk. rewrite Hv, bool_decide_eq_true_2 by lia. reflexivity.
    - intros k Hk. rewrite Hv, bool_decide_eq_false_2 by lia. reflexivity. }
  unfold col, row, getLpColBounds, getLpRowBounds.
  split; [|split; [|split]].
  - intros H. destruct H.
    + rewrite (bool_decide_eq_true_2 (from_ix < 0)) by lia. reflexivity.
    + rewrite (bool_decide_eq_true_2 (to_ix >= num_col_ lp)) by lia.
      rewrite orb_true_r. reflexivity.
  - intros H. destruct H.
    + rewrite (bool_decide_eq_true_2 (from_ix < 0)) by lia. reflexivity.
    + rewrite (bool_decide_eq_true_2 (to_ix >= num_row_ lp)) by lia.
      rewrite orb_true_r. reflexivity.
  - intros H1 H2.
    rewrite (bool_decide_eq_false_2 (from_ix < 0)) by lia.
    rewrite (bool_decide_eq_true_2 (from_ix > to_ix)) by lia.
    split; intros H3.
    + rewrite (bool_decide_eq_false_2 (to_ix >= num_col_ lp)) by lia.
      reflexivity.
    + rewrite (bool_decide_eq_false_2 (to_ix >= num_row_ lp)) by lia.
      reflexivity.
  - intros _ H1 F1 F2.
    rewrite (bool_decide_eq_false_2 (from_ix < 0)) by lia.
    rewrite (bool_decide_eq_false_2 (from_ix > to_ix)) by lia.
    rewrite !get_bounds_spec by lia.
    split; intros H3.
    + rewrite (bool_decide_eq_false_2 (to_ix >= num_col_ lp)) by lia.
      cbn [orb fst snd]. split; [reflexivity|].
      split; apply Hcopy; (lia || assumption).
    + rewrite (bool_decide_eq_false_2 (to_ix >= num_row_ lp)) by lia.
      cbn [orb fst snd]. split; [reflexivity|].
      split; apply Hcopy; (lia || assumption).
Qed.

End GetVectors.

(** ** appendColsToLpVectors, appendRowsToLpVectors *)

Section AppendVectors.

Import HighsLpUtils.

Lemma append_step {A} (l0 src : list A) (d d0 : A) (n : nat) (m i : Z) :
  Z.of_nat (length l0) = m ->
  0 <= i < Z.of_nat n -> i < Z.of_nat (length src) ->
  zset (l0 ++ take (Z.to_nat i) src ++ replicate (n - Z.to_nat i) d0)
       (m + i) (zget src i d)
  = l0 ++ take (Z.to_nat (i + 1)) src ++ replicate (n - Z.to_nat (i + 1)) d0.
Proof.
  intros <- Hi Hs. unfold zset, zget.
  rewrite !bool_decide_eq_true_2 by lia.
  replace (Z.to_nat (Z.of_nat (length l0) + i))
    with (length l0 + Z.to_nat i)%nat by lia.
  rewrite insert_app_r. f_equal.
  replace (Z.to_nat (i + 1)) with (S (Z.to_nat i)) by lia.
  set (k := Z.to_nat i). assert (Hk : (k < n)%nat) by lia.
  assert (Hk' : (k < length src)%nat) by lia.
  rewrite (take_S_r src k (nth k src d)) by (apply lookup_nth; exact Hk').
  rewrite <- app_assoc. cbn [app].
  replace (n - k)%nat with (S (n - S k)) by lia. cbn [replicate].
  replace k with (length (take k src) + 0)%nat at 1
    by (rewrite length_take; lia).
  rewrite insert_app_r. reflexivity.
Qed.

Lemma blank_step (l0 : list string) (n : nat) (m i : Z) :
  Z.of_nat (length l0) = m ->
  0 <= i < Z.of_nat n ->
  zset (l0 ++ replicate n EmptyString) (m + i) EmptyString
  = l0 ++ replicate n EmptyString.
Proof.
  intros <- Hi. unfold zset. rewrite bool_decide_eq_true_2 by lia.
  apply list_insert_id.
  replace (Z.to_nat (Z.of_nat (length l0) + i))
    with (length l0 + Z.to_nat i)%nat by lia.
  rewrite lookup_app_r by lia.
  replace (length l0 + Z.to_nat i - length l0)%nat with (Z.to_nat i) by lia.
  apply lookup_replicate_2. lia.
Qed.

Lemma resize_grow {A} (l : list A) (m n : Z) (d : A) :
  Z.of_nat (length l) = m -> 0 <= n ->
  resize (Z.to_nat (m + n)) d l = l ++ replicate (Z.to_nat n) d.
Proof.
  intros <- Hn. rewrite resize_ge by lia. f_equal. f_equal. lia.
Qed.

(** X14: [appendColsToLpVectors] returns [kError] for a negative number
    of new columns and [kOk] without any change for zero; for a positive
    number it appends the first [num_new_col] costs, lower and upper
    bounds to the three column arrays, leaves [num_col_], the rows and
    the matrix as they were, and appends that many empty names when the
    LP has column names. *)
Theorem appendColsToLpVectors_appends (lp : HighsLp) (col_names_ : list string)
    (num_new_col : Z) (colCost colLower colUpper : list double) :
  let res :=
    appendColsToLpVectors lp col_names_ num_new_col colCost colLower colUpper in
  (num_new_col < 0 -> res = (kError, lp, col_names_))
  /\ (num_new_col = 0 -> res = (kOk, lp, col_names_))
  /\ (vectors_sized lp ->
      col_names_ = [] \/ Z.of_nat (length col_names_) = num_col_ lp ->
      0 < num_new_col ->
      num_new_col <= Z.of_nat (length colCost) ->
      num_new_col <= Z.of_nat (length colLower) ->
      num_new_col <= Z.of_nat (length colUpper) ->
      res
      = (kOk,
         mkLp (num_col_ lp) (num_row_ lp)
           (col_cost_ lp ++ take (Z.to_nat num_new_col) colCost)
           (col_lower_ lp ++ take (Z.to_nat num_new_col) colLower)
           (col_upper_ lp ++ take (Z.to_nat num_new_col) colUpper)
           (row_lower_ lp) (row_upper_ lp) (a_matrix_ lp),
         match col_names_ with
         | [] => []
         | _ => col_names_ ++ replicate (Z.to_nat num_new_col) EmptyString
         end)).
Proof.
  intros res. unfold res, appendColsToLpVectors. split; [|split].
  - intros H. rewrite bool_decide_eq_true_2 by lia. reflexivity.
  - intros H. rewrite bool_decide_eq_false_2 by lia.
    rewrite bool_decide_eq_true_2 by lia. reflexivity.
  - intros (Hc & Hr & Lc & Ll & Lu & _) Hnames Hn H1 H2 H3.
    rewrite bool_decide_eq_false_2 by lia.
    rewrite bool_decide_eq_false_2 by lia.
    set (n := Z.to_nat num_new_col).
    set (have_names := negb (length col_names_ =? 0)%nat).
    cbn zeta. fold have_names.
    rewrite (resize_grow (col_cost_ lp) (num_col_ lp)),
      (resize_grow (col_lower_ lp) (num_col_ lp)),
      (resize_grow (col_upper_ lp) (num_col_ lp)) by lia.
    fold n.
    set (names0 := if have_names then resize _ _ _ else _).
    assert (En : names0 = match col_names_ with
                          | [] => []
                          | _ => col_names_ ++ replicate n EmptyString
                          end).
    { unfold names0, have_names. destruct col_names_ as [|s l]; [reflexivity|].
      cbn [length Nat.eqb negb]. destruct Hnames as [|Hnames]; [discriminate|].
      apply resize_grow; [exact Hnames|lia]. }
    set (P := fun (i : Z)
                  (st : list double * list double * list double * list string) =>
                st = (col_cost_ lp ++ take (Z.to_nat i) colCost
                        ++ replicate (n - Z.to_nat i) Dbl.zero,
                      col_lower_ lp ++ take (Z.to_nat i) colLower
                        ++ replicate (n - Z.to_nat i) Dbl.zero,
                      col_upper_ lp ++ take (Z.to_nat i) colUpper
                        ++ replicate (n - Z.to_nat i) Dbl.zero,
                      names0)).
    destruct (for_z 0 num_new_col _ _) as [[[c1 l1] u1] nm1] eqn:E.
    assert (H : P num_new_col (c1, l1, u1, nm1)).
    { rewrite <- E. apply (for_z_ind P); unfold P; [lia| |].
      - cbn [Z.to_nat take app]. rewrite Nat.sub_0_r. reflexivity.
      - intros i st Hi ->.
        rewrite (append_step (col_cost_ lp)), (append_step (col_lower_ lp)),
          (append_step (col_upper_ lp)) by lia.
        f_equal.
        destruct have_names eqn:Eh; [|reflexivity].
        rewrite En. unfold have_names in Eh.
        destruct col_names_ as [|s l]; [discriminate Eh|].
        destruct Hnames as [|Hnames]; [discriminate|].
        apply blank_step; [exact Hnames|lia]. }
    unfold P in H. injection H as -> -> -> ->. fold n.
    rewrite Nat.sub_diag. cbn [replicate]. rewrite !app_nil_r, En. reflexivity.
Qed.

(** X15: [appendRowsToLpVectors] returns [kError] for a negative number
    of new rows and [kOk] without any change for zero; for a positive
    number it appends the first [num_new_row] lower and upper bounds to
    the two row arrays, changes nothing else, and appends that many empty
    names when the LP has row names. *)
Theorem appendRowsToLpVectors_appends (lp : HighsLp) (row_names_ : list string)
    (num_new_row : Z) (rowLower rowUpper : list double) :
  let res := appendRowsToLpVectors lp row_names_ num_new_row rowLower rowUpper in
  (num_new_row < 0 -> res = (kError, lp, row_names_))
  /\ (num_new_row = 0 -> res = (kOk, lp, row_names_))
  /\ (vectors_sized lp ->
      row_names_ = [] \/ Z.of_nat (length row_names_) = num_row_ lp ->
      0 < num_new_row ->
      num_new_row <= Z.of_nat (length rowLower) ->
      num_new_row <= Z.of_nat (length rowUpper) ->
      res
      = (kOk,
         with_row_bounds lp
           (row_lower_ lp ++ take (Z.to_nat num_new_row) rowLower)
           (row_upper_ lp ++ take (Z.to_nat num_new_row) rowUpper),
         match row_names_ with
         | [] => []
         | _ => row_names_ ++ replicate (Z.to_nat num_new_row) EmptyString
         end)).
Proof.
  intros res. unfold res, appendRowsToLpVectors. split; [|split].
  - intros H. rewrite bool_decide_eq_true_2 by lia. reflexivity.
  - intros H. rewrite bool_decide_eq_false_2 by lia.
    rewrite bool_decide_eq_true_2 by lia. reflexivity.
  - intros (Hc & Hr & Lc & _ & _ & Ll & Lu) Hnames Hn H1 H2.
    rewrite bool_decide_eq_false_2 by lia.
    rewrite bool_decide_eq_false_2 by lia.
    set (n := Z.to_nat num_new_row).
    set (have_names := negb (length row_names_ =? 0)%nat).
    cbn zeta. fold have_names.
    rewrite (resize_grow (row_lower_ lp) (num_row_ lp)),
      (resize_grow (row_upper_ lp) (num_row_ lp)) by lia.
    fold n.
    set (names0 := if have_names then resize _ _ _ else _).
    assert (En : names0 = match row_names_ with
                          | [] => []
                          | _ => row_names_ ++ replicate n EmptyString
                          end).
    { unfold names0, have_names. destruct row_names_ as [|s l]; [reflexivity|].
      cbn [length Nat.eqb negb]. destruct Hnames as [|Hnames]; [discriminate|].
      apply resize_grow; [exact Hnames|lia]. }
    set (P := fun (i : Z) (st : list double * list double * list string) =>
                st = (row_lower_ lp ++ take (Z.to_nat i) rowLower
                        ++ replicate (n - Z.to_nat i) Dbl.zero,
                      row_upper_ lp ++ take (Z.to_nat i) rowUpper
                        ++ replicate (n - Z.to_nat i) Dbl.zero,
                      names0)).
    destruct (for_z 0 num_new_row _ _) as [[l1 u1] nm1] eqn:E.
    assert (H : P num_new_row (l1, u1, nm1)).
    { rewrite <- E. apply (for_z_ind P); unfold P; [lia| |].
      - cbn [Z.to_nat take app]. rewrite Nat.sub_0_r. reflexivity.
      - intros i st Hi ->.
        rewrite (append_step (row_lower_ lp)), (append_step (row_upper_ lp))
          by lia.
        f_equal.
        destruct have_names eqn:Eh; [|reflexivity].
        rewrite En. unfold have_names in Eh.
        destruct row_names_ as [|s l]; [discriminate Eh|].
        destruct Hnames as [|Hnames]; [discriminate|].
        apply blank_step; [exact Hnames|lia]. }
    unfold P in H. injection H as -> -> ->. fold n.
    rewrite Nat.sub_diag. cbn [replicate]. rewrite !app_nil_r, En. reflexivity.
Qed.

End AppendVectors.

(** ** isBoundInfeasible *)

Section BoundInfeasible.

Import HighsLpUtils.

Lemma count_loop (f : Z -> bool) (n c0 : Z) :
  let c := for_z 0 n (fun i c => if f i then c + 1 else c) c0 in
  c0 <= c /\ (c0 < c <-> exists i, 0 <= i < n /\ f i = true).
Proof.
  cbn zeta. destruct (decide (0 <= n)) as [Hn|Hn].
  2:{ rewrite for_z_empty by lia. split; [lia|]. split; [lia|].
      intros (i & Hi & _). lia. }
  apply (for_z_ind
           (fun k c => c0 <= c
                       /\ (c0 < c <-> exists i, 0 <= i < k /\ f i = true)));
    [exact Hn| |].
  - split; [lia|]. split; [lia|]. intros (i & Hi & _). lia.
  - intros k c Hk [Hle Hiff]. destruct (f k) eqn:E.
    + split; [lia|]. split; [|lia]. intros _. exists k. split; [lia|exact E].
    + split; [exact Hle|]. rewrite Hiff. split.
      * intros (i & Hi & Hf). exists i. split; [lia|exact Hf].
      * intros (i & Hi & Hf). exists i. split; [|exact Hf].
        destruct (decide (i = k)) as [->|]; [congruence|lia].
Qed.

Lemma isBoundInfeasible_spec (lp : HighsLp) :
  let res := isBoundInfeasible lp in
  (fst res = true <->
   (exists i, 0 <= i < num_col_ lp
              /\ (zget (col_upper_ lp) i Dbl.zero
                  <? zget (col_lower_ lp) i Dbl.zero)%D = true)
   \/ (exists i, 0 <= i < num_row_ lp
                 /\ (zget (row_upper_ lp) i Dbl.zero
                     <? zget (row_lower_ lp) i Dbl.zero)%D = true))
  /\ (fst res = false -> snd res = None)
  /\ (fst res = true -> exists n, snd res = Some n /\ 0 < n).
Proof.
  intros res. unfold res, isBoundInfeasible.
  destruct (count_loop
              (fun i => (zget (col_upper_ lp) i Dbl.zero
                         <? zget (col_lower_ lp) i Dbl.zero)%D)
              (num_col_ lp) 0) as [Hc1 Hc2].
  cbn zeta in Hc1, Hc2.
  set (n1 := for_z 0 (num_col_ lp) _ 0) in *.
  destruct (count_loop
              (fun i => (zget (row_upper_ lp) i Dbl.zero
                         <? zget (row_lower_ lp) i Dbl.zero)%D)
              (num_row_ lp) n1) as [Hr1 Hr2].
  cbn zeta in Hr1, Hr2.
  set (n2 := for_z 0 (num_row_ lp) _ n1) in *.
  cbn [fst snd]. split; [|split].
  - rewrite Z.gtb_ltb, Z.ltb_lt. rewrite <- Hc2, <- Hr2. lia.
  - intros ->. reflexivity.
  - intros H. rewrite H. exists n2. split; [reflexivity|].
    rewrite Z.gtb_ltb, Z.ltb_lt in H. exact H.
Qed.

(** X16: [isBoundInfeasible] returns [true] exactly when some column or
    some row of the LP has its upper bound below its lower bound; it
    reports a count, which is then positive, exactly in that case. *)
Theorem isBoundInfeasible_exact (lp : HighsLp) :
  let res := isBoundInfeasible lp in
  (fst res = true <->
   (exists i, 0 <= i < num_col_ lp
              /\ (zget (col_upper_ lp) i Dbl.zero
                  <? zget (col_lower_ lp) i Dbl.zero)%D = true)
   \/ (exists i, 0 <= i < num_row_ lp
                 /\ (zget (row_upper_ lp) i Dbl.zero
                     <? zget (row_lower_ lp) i Dbl.zero)%D = true))
  /\ (fst res = false -> snd res = None)
  /\ (fst res = true -> exists n, snd res = Some n /\ 0 < n).
Proof. apply isBoundInfeasible_spec. Qed.

Lemma dbl_lt_irrefl (x : double) : (x <? x)%D = false.
Proof.
  destruct x as [| |q|]; cbn; try reflexivity.
  apply bool_decide_eq_false_2. intros H. apply Qclt_not_eq in H. congruence.
Qed.

Lemma dbl_lt_sub_pos (lo up : double) :
  (up <? lo)%D = true -> (lo - up >? Dbl.zero)%D = true.
Proof.
  destruct lo as [| |l|], up as [| |u|]; cbn; try discriminate;
    try reflexivity.
  intros H. apply bool_decide_eq_true_1 in H. apply bool_decide_eq_true_2.
  replace (Q2Qc 0) with 0%Qc by (apply Qc_is_canon; reflexivity). qc_lra.
Qed.

Lemma zget_nth {A} (l : list A) (i : Z) (d : A) :
  0 <= i -> zget l i d = nth (Z.to_nat i) l d.
Proof. intros H. unfold zget. rewrite bool_decide_eq_true_2 by lia. reflexivity. Qed.

(** X17: when [cleanBounds] does not return [kError], the LP it leaves
    has no column and no row whose upper bound is below its lower bound
    ([isBoundInfeasible] returns [false] on it), and its dimensions are
    those of the LP given. *)
Theorem cleanBounds_leaves_no_crossed_bounds (tol : double) (lp : HighsLp) :
  bounds_sized lp ->
  fst (cleanBounds tol lp) <> kError ->
  isBoundInfeasible (snd (cleanBounds tol lp)) = (false, None)
  /\ num_col_ (snd (cleanBounds tol lp)) = num_col_ lp
  /\ num_row_ (snd (cleanBounds tol lp)) = num_row_ lp.
Proof.
  intros (Lcl & Lcu & Lrl & Lru) Hok.
  set (ncol := Z.to_nat (num_col_ lp)).
  set (nrow := Z.to_nat (num_row_ lp)).
  assert (Hc := clean_loop_spec tol (col_lower_ lp) (col_upper_ lp) Dbl.zero 0
                  ncol ltac:(subst ncol; lia) ltac:(subst ncol; lia)).
  revert Hok. unfold cleanBounds. fold ncol.
  destruct (for_range_until ncol (clean_step tol) _)
    as [stopc [[[mrc ncc] clo] cup]].
  destruct Hc as [Hcs Hcg].
  cbn [num_row_ with_col_bounds row_lower_ row_upper_]. fold nrow.
  assert (Hr := clean_loop_spec tol (row_lower_ lp) (row_upper_ lp) mrc ncc
                  nrow ltac:(subst nrow; lia) ltac:(subst nrow; lia)).
  destruct (for_range_until nrow (clean_step tol) _)
    as [stopr [[[mrr ncr] rlo] rup]].
  destruct Hr as [Hrs Hrg].
  destruct stopc; [intros H; contradiction H; reflexivity|].
  destruct stopr; [intros H; contradiction H; reflexivity|].
  intros _.
  destruct (Hcg eq_refl) as (_ & _ & Hl & Hu & _).
  destruct (Hrg eq_refl) as (_ & _ & Hl' & Hu' & _).
  assert (Hno : forall (lo up lo' up' : list double) (n : nat) (i : Z),
            (forall i, nth i lo' Dbl.zero
                       = if bool_decide (i < n)%nat
                            && (residual_of lo up i >? Dbl.zero)%D
                         then midpoint_of lo up i else nth i lo Dbl.zero) ->
            (forall i, nth i up' Dbl.zero
                       = if bool_decide (i < n)%nat
                            && (residual_of lo up i >? Dbl.zero)%D
                         then midpoint_of lo up i else nth i up Dbl.zero) ->
            0 <= i < Z.of_nat n ->
            (zget up' i Dbl.zero <? zget lo' i Dbl.zero)%D = false).
  { intros lo up lo' up' n i Hlo Hup Hi.
    rewrite !zget_nth by lia. rewrite Hlo, Hup.
    rewrite bool_decide_eq_true_2 by lia. cbn [andb].
    destruct (residual_of lo up (Z.to_nat i) >? Dbl.zero)%D eqn:E.
    - apply dbl_lt_irrefl.
    - destruct (nth (Z.to_nat i) up Dbl.zero <? nth (Z.to_nat i) lo Dbl.zero)%D
        eqn:E'; [|reflexivity].
      apply dbl_lt_sub_pos in E'. unfold residual_of in E. congruence. }
  set (res := snd (if negb (ncr =? 0) then _ else _)).
  assert (Eres : res = with_row_bounds (with_col_bounds lp clo cup) rlo rup).
  { unfold res. destruct (negb (ncr =? 0)); reflexivity. }
  clearbody res. subst res.
  split; [|split; reflexivity].
  destruct (isBoundInfeasible_spec
              (with_row_bounds (with_col_bounds lp clo cup) rlo rup))
    as (Hiff & Hnone & _).
  cbn zeta in Hiff, Hnone.
  destruct (isBoundInfeasible _) as [b o] eqn:Eb. cbn [fst snd] in *.
  destruct b.
  - exfalso. destruct (proj1 Hiff eq_refl) as [(i & Hi & Hx)|(i & Hi & Hx)].
    + cbn in Hi, Hx.
      rewrite (Hno (col_lower_ lp) (col_upper_ lp) clo cup ncol) in Hx;
        [discriminate|assumption|assumption|subst ncol; lia].
    + cbn in Hi, Hx.
      rewrite (Hno (row_lower_ lp) (row_upper_ lp) rlo rup nrow) in Hx;
        [discriminate|assumption|assumption|subst nrow; lia].
  - rewrite Hnone by reflexivity. reflexivity.
Qed.

End BoundInfeasible.

(** ** getBoundType *)

Section BoundType.

Import HighsLpUtils.

Lemma highs_isInfinity_pos (x : double) :
  HighsUtils.highs_isInfinity x = true <-> x = Dbl.PInf.
Proof.
  unfold HighsUtils.highs_isInfinity, HighsUtils.HIGHS_CONST_INF.
  destruct x; cbn; split; intros H; congruence.
Qed.

Lemma highs_isInfinity_neg (x : double) :
  HighsUtils.highs_isInfinity (- x)%D = true <-> x = Dbl.NInf.
Proof.
  rewrite highs_isInfinity_pos. destruct x; cbn; split; intros H; congruence.
Qed.

(** X18: [getBoundType] returns "FR" exactly for the bounds
    (-infinity, +infinity), "UB" exactly when only the lower bound is
    -infinity, "LB" exactly when only the upper bound is +infinity, and
    for two bounds that are not infinite on their side "BX" when
    [lower < upper] and "FX" otherwise. *)
Theorem getBoundType_cases (lower upper : double) :
  (getBoundType lower upper = "FR"%string
   <-> lower = Dbl.NInf /\ upper = Dbl.PInf)
  /\ (getBoundType lower upper = "UB"%string
      <-> lower = Dbl.NInf /\ upper <> Dbl.PInf)
  /\ (getBoundType lower upper = "LB"%string
      <-> lower <> Dbl.NInf /\ upper = Dbl.PInf)
  /\ (getBoundType lower upper = "BX"%string
      <-> lower <> Dbl.NInf /\ upper <> Dbl.PInf
          /\ (lower <? upper)%D = true)
  /\ (getBoundType lower upper = "FX"%string
      <-> lower <> Dbl.NInf /\ upper <> Dbl.PInf
          /\ (lower <? upper)%D = false).
Proof.
  unfold getBoundType.
  destruct (HighsUtils.highs_isInfinity (- lower)%D) eqn:El;
    destruct (HighsUtils.highs_isInfinity upper) eqn:Eu;
    try (destruct (lower <? upper)%D eqn:Elt).
  all: try (apply highs_isInfinity_neg in El).
  all: try (apply highs_isInfinity_pos in Eu).
  all: try (assert (lower <> Dbl.NInf)
             by (intros E; apply highs_isInfinity_neg in E; congruence)).
  all: try (assert (upper <> Dbl.PInf)
             by (intros E; apply highs_isInfinity_pos in E; congruence)).
  all: repeat split; try discriminate; try tauto; try congruence;
    try (intros (? & ? & ?); congruence); try (intros (? & ?); congruence).
Qed.

End BoundType.

(** ** Scaling the matrix *)

Section Scaling.

Import HighsLpUtils.

Lemma column_of (start : Z -> Z) (c0 c1 el : Z) :
  c0 <= c1 -> (forall c, c0 <= c < c1 -> start c <= start (c + 1)) ->
  start c0 <= el < start c1 ->
  exists c, c0 <= c < c1 /\ start c <= el < start (c + 1).
Proof.
  intros Hle Hmono.
  replace c1 with (c0 + Z.of_nat (Z.to_nat (c1 - c0))) in * by lia.
  induction (Z.to_nat (c1 - c0)) as [|n IH].
  - replace (c0 + Z.of_nat 0) with c0 by lia. lia.
  - replace (c0 + Z.of_nat (S n)) with (c0 + Z.of_nat n + 1) in * by lia.
    intros Hel.
    destruct (decide (el < start (c0 + Z.of_nat n))) as [Hlt|Hge].
    + destruct IH as (c & Hc & Hin); [lia| |lia|].
      * intros c Hc. apply Hmono. lia.
      * exists c. split; [lia|exact Hin].
    + exists (c0 + Z.of_nat n). split; lia.
Qed.

(** X20: [applyRowScalingToMatrix] multiplies every entry of the
    columns [0 .. numCol) of a column-wise matrix by the scale factor of
    its row, keeps the number of values, and leaves every value outside
    those columns as it was. *)
Theorem applyRowScalingToMatrix_scales_each_entry (rowScale : list double)
    (numCol : Z) (Astart Aindex : list Z) (Avalue : list double) :
  0 <= numCol -> 0 <= zget Astart 0 0 ->
  (forall c, 0 <= c < numCol -> zget Astart c 0 <= zget Astart (c + 1) 0) ->
  zget Astart numCol 0 <= Z.of_nat (length Avalue) ->
  let res := applyRowScalingToMatrix rowScale numCol Astart Aindex Avalue in
  length res = length Avalue
  /\ (forall el, zget Astart 0 0 <= el < zget Astart numCol 0 ->
        zget res el Dbl.zero
        = (zget Avalue el Dbl.zero
           * zget rowScale (zget Aindex el 0) Dbl.zero)%D)
  /\ (forall el, ~ (zget Astart 0 0 <= el < zget Astart numCol 0) ->
        zget res el Dbl.zero = zget Avalue el Dbl.zero).
Proof.
  intros Hn H0 Hmono Hlen res.
  destruct (entries_loop (fun c => zget Astart c 0)
              (fun _ el x => (x * zget rowScale (zget Aindex el 0) Dbl.zero)%D)
              Dbl.zero 0 numCol Avalue Hn H0 Hmono Hlen) as (Hl & Hin & Hout).
  split; [exact Hl|]. split; [|exact Hout].
  intros el Hel.
  destruct (column_of (fun c => zget Astart c 0) 0 numCol el Hn Hmono Hel)
    as (c & Hc & Hcol).
  apply (Hin c el Hc Hcol).
Qed.

Lemma scale_entries_spec (m : HighsSparseMatrix)
    (from_col to_col from_row to_row : Z) (factor : Z -> Z -> double) :
  from_col <= to_col + 1 -> 0 <= zget (start_ m) from_col 0 ->
  (forall c, from_col <= c < to_col + 1 ->
     zget (start_ m) c 0 <= zget (start_ m) (c + 1) 0) ->
  zget (start_ m) (to_col + 1) 0 <= Z.of_nat (length (value_ m)) ->
  let res := scale_entries m from_col to_col from_row to_row factor in
  length res = length (value_ m)
  /\ (forall c el, from_col <= c <= to_col -> in_column m c el ->
        zget res el Dbl.zero
        = if bool_decide (from_row <= zget (index_ m) el 0 <= to_row)
          then (zget (value_ m) el Dbl.zero * factor c (zget (index_ m) el 0))%D
          else zget (value_ m) el Dbl.zero)
  /\ (forall el,
        ~ (zget (start_ m) from_col 0 <= el < zget (start_ m) (to_col + 1) 0) ->
        zget res el Dbl.zero = zget (value_ m) el Dbl.zero).
Proof.
  intros Hle H0 Hmono Hlen res.
  set (u := fun (c el : Z) (x : double) =>
              if bool_decide (from_row <= zget (index_ m) el 0 <= to_row)
              then (x * factor c (zget (index_ m) el 0))%D else x).
  assert (E : res
              = for_z from_col (to_col + 1)
                  (fun iCol l =>
                     for_z (zget (start_ m) iCol 0) (zget (start_ m) (iCol + 1) 0)
                       (fun el l => zset l el (u iCol el (zget l el Dbl.zero))) l)
                  (value_ m)).
  { unfold res, scale_entries. apply for_z_ext. intros c l _.
    apply for_z_ext. intros el l' _. cbn zeta. unfold u.
    destruct (decide (from_row <= zget (index_ m) el 0 <= to_row)) as [Hin|Hout].
    - rewrite (bool_decide_eq_false_2 (_ < from_row)) by lia.
      rewrite (bool_decide_eq_false_2 (_ > to_row)) by lia.
      rewrite bool_decide_eq_true_2 by exact Hin. reflexivity.
    - rewrite (bool_decide_eq_false_2 (_ <= _ <= _)) by exact Hout.
      rewrite zset_same.
      destruct (decide (zget (index_ m) el 0 < from_row)).
      + rewrite (bool_decide_eq_true_2 (_ < from_row)) by lia. reflexivity.
      + rewrite (bool_decide_eq_true_2 (_ > to_row)) by lia.
        rewrite orb_true_r. reflexivity. }
  destruct (entries_loop (fun c => zget (start_ m) c 0) u Dbl.zero
              from_col (to_col + 1) (value_ m) Hle H0 Hmono Hlen)
    as (Hl & Hin & Hout).
  rewrite E. split; [exact Hl|]. split; [|exact Hout].
  intros c el Hc Hcol. rewrite (Hin c el) by (lia || exact Hcol). reflexivity.
Qed.

(** X19: [applyScalingToLpMatrix] fails an assertion unless the ranges
    are all columns and all rows of the LP, so it never returns
    [kError]. Applied to all columns and rows of an LP with a
    well-formed matrix it returns [kOk], changes only the values of the
    matrix, and multiplies each entry whose row index is a row of the
    LP by the column factor, the row factor, or their product,
    according to which of the two scale arrays are passed; with no
    scale array the LP is unchanged. *)
Theorem applyScalingToLpMatrix_scales (lp : HighsLp)
    (colScale rowScale : option (list double)) :
  (forall fc tc fr tr,
     ~ (fc = 0 /\ tc = num_col_ lp - 1 /\ fr = 0 /\ tr = num_row_ lp - 1) ->
     applyScalingToLpMatrix lp colScale rowScale fc tc fr tr = None)
  /\ (forall fc tc fr tr lp',
        applyScalingToLpMatrix lp colScale rowScale fc tc fr tr
        <> Some (kError, lp'))
  /\ (matrix_ok lp ->
      exists res,
        applyScalingToLpMatrix lp colScale rowScale
          0 (num_col_ lp - 1) 0 (num_row_ lp - 1) = Some res
        /\ let m := a_matrix_ lp in
           let m' := a_matrix_ (snd res) in
           let factor (c r : Z) : double :=
             match colScale, rowScale with
             | Some cs, Some rs => (zget cs c Dbl.zero * zget rs r Dbl.zero)%D
             | Some cs, None => zget cs c Dbl.zero
             | None, Some rs => zget rs r Dbl.zero
             | None, None => Dbl.lit 1
             end in
           fst res = kOk
           /\ with_matrix (snd res) m = lp
           /\ start_ m' = start_ m /\ index_ m' = index_ m
           /\ length (value_ m') = length (value_ m)
           /\ (colScale = None -> rowScale = None -> snd res = lp)
           /\ (colScale <> None \/ rowScale <> None ->
               (forall c el, 0 <= c < num_col_ lp -> in_column m c el ->
                  zget (value_ m') el Dbl.zero
                  = if bool_decide (0 <= zget (index_ m) el 0 < num_row_ lp)
                    then (zget (value_ m) el Dbl.zero
                          * factor c (zget (index_ m) el 0))%D
                    else zget (value_ m) el Dbl.zero)
               /\ (forall el,
                     ~ (zget (start_ m) 0 0 <= el
                        < zget (start_ m) (num_col_ lp) 0) ->
                     zget (value_ m') el Dbl.zero
                     = zget (value_ m) el Dbl.zero))).
Proof.
  split; [|split].
  - intros fc tc fr tr H. unfold applyScalingToLpMatrix.
    repeat case_bool_decide; cbn [andb negb]; try reflexivity; exfalso; lia.
  - intros fc tc fr tr lp'. unfold applyScalingToLpMatrix.
    repeat case_bool_decide; cbn [andb negb]; try discriminate;
      try (exfalso; lia).
    destruct colScale, rowScale; discriminate.
  - intros (Hn & Hls & H0 & Hmono & Hli & Hlv).
    unfold applyScalingToLpMatrix.
    rewrite (bool_decide_eq_true_2 (0 = 0)) by reflexivity.
    rewrite (bool_decide_eq_true_2 (num_col_ lp - 1 = num_col_ lp - 1))
      by reflexivity.
    rewrite (bool_decide_eq_true_2 (num_row_ lp - 1 = num_row_ lp - 1))
      by reflexivity.
    cbn [andb negb].
    rewrite (bool_decide_eq_false_2 (0 < 0)) by lia.
    rewrite (bool_decide_eq_false_2 (num_col_ lp - 1 >= num_col_ lp)) by lia.
    rewrite (bool_decide_eq_false_2 (num_row_ lp - 1 >= num_row_ lp)) by lia.
    assert (Hspec : forall factor,
              let res :=
                scale_entries (a_matrix_ lp) 0 (num_col_ lp - 1)
                  0 (num_row_ lp - 1) factor in
              length res = length (value_ (a_matrix_ lp))
              /\ (forall c el, 0 <= c <= num_col_ lp - 1 ->
                    in_column (a_matrix_ lp) c el ->
                    zget res el Dbl.zero
                    = if bool_decide
                           (0 <= zget (index_ (a_matrix_ lp)) el 0
                            <= num_row_ lp - 1)
                      then (zget (value_ (a_matrix_ lp)) el Dbl.zero
                            * factor c (zget (index_ (a_matrix_ lp)) el 0))%D
                      else zget (value_ (a_matrix_ lp)) el Dbl.zero)
              /\ (forall el,
                    ~ (zget (start_ (a_matrix_ lp)) 0 0 <= el
                       < zget (start_ (a_matrix_ lp)) (num_col_ lp) 0) ->
                    zget res el Dbl.zero
                    = zget (value_ (a_matrix_ lp)) el Dbl.zero)).
    { intros factor.
      pose proof (scale_entries_spec (a_matrix_ lp) 0 (num_col_ lp - 1)
                    0 (num_row_ lp - 1) factor) as Hs.
      replace (num_col_ lp - 1 + 1) with (num_col_ lp) in Hs by lia.
      apply Hs; (lia || assumption). }
    cbn zeta in Hspec.
    assert (Hb : forall x, bool_decide (0 <= x <= num_row_ lp - 1)
                           = bool_decide (0 <= x < num_row_ lp)).
    { intros x. apply bool_decide_ext. lia. }
    destruct lp as [nc nr cc cl cu rl ru m]. cbn [a_matrix_ num_col_ num_row_] in *.
    destruct colScale as [cs|], rowScale as [rs|];
      (eexists; split; [reflexivity|]);
      cbn [fst snd with_matrix a_matrix_ start_ index_ value_];
      (split; [reflexivity|]); (split; [reflexivity|]);
      (split; [reflexivity|]); (split; [reflexivity|]).
    1-3: match goal with
         | |- length (scale_entries _ _ _ _ _ ?f) = _ /\ _ =>
             destruct (Hspec f) as (Hl & Hin & Hout)
         end;
      (split; [exact Hl|]); (split; [intros; discriminate|]);
      intros _; (split; [|exact Hout]);
      intros c el Hc Hcol; rewrite (Hin c el) by (lia || exact Hcol);
      rewrite Hb; reflexivity.
    split; [reflexivity|]. split; [reflexivity|]. intros [H|H]; contradiction.
Qed.

End Scaling.

Lemma cleanBounds_leaves_no_crossed_bounds_witness :
  HighsLpUtils.bounds_sized Examples.lp_crossed
  /\ fst (HighsLpUtils.cleanBounds (Dbl.lit 0.5) Examples.lp_crossed)
     <> HighsLpUtils.kError
  /\ HighsLpUtils.isBoundInfeasible Examples.lp_crossed
     = (true, Some 1)
  /\ HighsLpUtils.isBoundInfeasible
       (snd (HighsLpUtils.cleanBounds (Dbl.lit 0.5) Examples.lp_crossed))
     = (false, None).
Proof.
  assert (B : HighsLpUtils.bounds_sized Examples.lp_crossed)
    by (repeat split; reflexivity).
  assert (Hok : fst (HighsLpUtils.cleanBounds (Dbl.lit 0.5) Examples.lp_crossed)
                <> HighsLpUtils.kError)
    by (vm_compute; discriminate).
  destruct (cleanBounds_leaves_no_crossed_bounds (Dbl.lit 0.5)
              Examples.lp_crossed B Hok) as (Hclean & _).
  split; [exact B|]. split; [exact Hok|].
  split; [vm_compute; reflexivity|exact Hclean].
Defined.

Lemma applyRowScalingToMatrix_scales_each_entry_witness :
  zget (HighsLpUtils.applyRowScalingToMatrix [Dbl.lit 3; Dbl.lit 5] 2
          [0; 1; 2] [0; 1] [Dbl.lit 1; Dbl.lit 2]) 1 Dbl.zero
  = (Dbl.lit 2 * Dbl.lit 5)%D.
Proof.
  destruct (applyRowScalingToMatrix_scales_each_entry
              [Dbl.lit 3; Dbl.lit 5] 2 [0; 1; 2] [0; 1]
              [Dbl.lit 1; Dbl.lit 2]) as (_ & Hin & _).
  - lia.
  - vm_compute. discriminate.
  - intros c Hc.
    assert (c = 0 \/ c = 1) as [->| ->] by lia; vm_compute; discriminate.
  - vm_compute. discriminate.
  - apply (Hin 1). vm_compute. split; [discriminate|reflexivity].
Defined.

(** ** getLpMatrixCoefficient after changeLpMatrixCoefficient *)

Section MatrixCoefficient.

Import HighsLpUtils.

Lemma search_spec (index : list Z) (row lo hi : Z) :
  found_entry index row lo hi
    (snd (for_z_until lo hi
            (fun el ge =>
               if zget index el 0 =? row then (true, el) else (false, ge))
            (-1))).
Proof.
  unfold for_z_until.
  set (n := Z.to_nat (hi - lo)).
  set (P := fun (k : nat) (st : bool * Z) =>
              (fst st = false /\ snd st = -1
               /\ forall e, lo <= e < lo + Z.of_nat k -> zget index e 0 <> row)
              \/ (fst st = true /\ lo <= snd st < lo + Z.of_nat k
                  /\ zget index (snd st) 0 = row
                  /\ forall e, lo <= e < snd st -> zget index e 0 <> row)).
  assert (H : P n (for_range_until n
                     (fun k ge =>
                        if zget index (lo + Z.of_nat k) 0 =? row
                        then (true, lo + Z.of_nat k) else (false, ge)) (-1))).
  { apply (for_range_until_ind P); unfold P.
    - left. cbn. repeat split. intros e He. lia.
    - intros i [b ge] Hi [(Hb & Hge & Hall)|(Hb & Hr & Hm & Hall)];
        cbn [fst snd] in *; subst b.
      + destruct (zget index (lo + Z.of_nat i) 0 =? row) eqn:E; cbn [fst snd].
        * right. apply Z.eqb_eq in E. repeat split; try lia; try exact E.
          intros e He. apply Hall. cbn [snd] in He. lia.
        * left. apply Z.eqb_neq in E. repeat split; try assumption.
          intros e He. destruct (decide (e = lo + Z.of_nat i)) as [->|Hne];
            [exact E|apply Hall; lia].
      + right. cbn [fst snd]. repeat split; try assumption; lia. }
  destruct H as [(_ & Hge & Hall)|(_ & Hr & Hm & Hall)].
  - left. split; [exact Hge|]. intros e He. apply Hall. lia.
  - right. repeat split; try assumption; lia.
Qed.

Lemma found_entry_unique (index : list Z) (row lo hi a b : Z) :
  0 <= lo -> found_entry index row lo hi a -> found_entry index row lo hi b ->
  a = b.
Proof.
  intros Hlo [(-> & Ha)|(Ra & Ma & Ha)] [(-> & Hb)|(Rb & Mb & Hb)].
  - reflexivity.
  - exfalso. apply (Ha b Rb Mb).
  - exfalso. apply (Hb a Ra Ma).
  - destruct (Z.lt_trichotomy a b) as [H|[H|H]]; [|exact H|].
    + exfalso. apply (Hb a); [lia|exact Ma].
    + exfalso. apply (Ha b); [lia|exact Mb].
Qed.

Lemma found_entry_ext (index index' : list Z) (row lo hi a : Z) :
  (forall e, lo <= e < hi -> zget index' e 0 = zget index e 0) ->
  found_entry index row lo hi a -> found_entry index' row lo hi a.
Proof.
  intros Hext [(-> & Ha)|(Ra & Ma & Ha)].
  - left. split; [reflexivity|]. intros e He. rewrite Hext by exact He.
    apply Ha, He.
  - right. split; [exact Ra|]. split; [rewrite Hext by exact Ra; exact Ma|].
    intros e He. rewrite Hext by lia. apply Ha, He.
Qed.

Lemma found_entry_shift (index index' : list Z) (row lo hi a : Z) :
  0 <= lo ->
  (forall e, lo <= e < hi -> zget index' (e + 1) 0 = zget index e 0) ->
  found_entry index row lo hi a ->
  found_entry index' row (lo + 1) (hi + 1) (if a <? 0 then -1 else a + 1).
Proof.
  intros Hlo Hext [(-> & Ha)|(Ra & Ma & Ha)].
  - left. split; [reflexivity|]. intros e He.
    replace e with (e - 1 + 1) by lia. rewrite Hext by lia. apply Ha. lia.
  - destruct (a <? 0) eqn:E.
    + apply Z.ltb_lt in E. lia.
    + right. apply Z.ltb_ge in E. split; [lia|].
      split; [rewrite Hext by exact Ra; exact Ma|].
      intros e He. replace e with (e - 1 + 1) by lia. rewrite Hext by lia.
      apply Ha. lia.
Qed.

Lemma found_entry_nonneg (index : list Z) (row lo hi a : Z) :
  0 <= lo -> found_entry index row lo hi a ->
  (a <? 0) = true /\ a = -1 \/ (a <? 0) = false /\ lo <= a < hi.
Proof.
  intros Hlo [(-> & Ha)|(Ra & Ma & Ha)].
  - left. split; reflexivity.
  - right. split; [apply Z.ltb_ge; lia|exact Ra].
Qed.

(** What [getLpMatrixCoefficient] returns for indices in range. *)
Lemma get_spec (lp : HighsLp) (r c el : Z) (v0 : double) :
  0 <= r < num_row_ lp -> 0 <= c < num_col_ lp ->
  0 <= zget (start_ (a_matrix_ lp)) c 0 ->
  found_entry (index_ (a_matrix_ lp)) r
    (zget (start_ (a_matrix_ lp)) c 0) (zget (start_ (a_matrix_ lp)) (c + 1) 0)
    el ->
  getLpMatrixCoefficient lp r c v0
  = (kOk, if el <? 0 then Dbl.zero else zget (value_ (a_matrix_ lp)) el Dbl.zero).
Proof.
  intros Hr Hc H0 Hf. unfold getLpMatrixCoefficient.
  rewrite (bool_decide_eq_false_2 (r < 0)) by lia.
  rewrite (bool_decide_eq_false_2 (r >= num_row_ lp)) by lia.
  rewrite (bool_decide_eq_false_2 (c < 0)) by lia.
  rewrite (bool_decide_eq_false_2 (c >= num_col_ lp)) by lia.
  cbn [orb]. cbn zeta.
  pose proof (search_spec (index_ (a_matrix_ lp)) r
                (zget (start_ (a_matrix_ lp)) c 0)
                (zget (start_ (a_matrix_ lp)) (c + 1) 0)) as Hs.
  rewrite (found_entry_unique _ _ _ _ _ _ H0 Hs Hf).
  destruct (el <? 0); reflexivity.
Qed.

(** The loop that moves the entries [lo .. hi) one place up, last entry
    first. *)
Lemma shift_loop {A B} (dA : A) (dB : B) (hi lo : Z) (la : list A)
    (lb : list B) :
  0 <= lo <= hi -> hi < Z.of_nat (length la) -> hi < Z.of_nat (length lb) ->
  let res :=
    for_z_down hi lo
      (fun el (iv : list A * list B) =>
         (zset (fst iv) el (zget (fst iv) (el - 1) dA),
          zset (snd iv) el (zget (snd iv) (el - 1) dB)))
      (la, lb) in
  length (fst res) = length la /\ length (snd res) = length lb
  /\ forall e,
       zget (fst res) e dA
       = (if bool_decide (lo < e <= hi) then zget la (e - 1) dA
          else zget la e dA)
       /\ zget (snd res) e dB
          = (if bool_decide (lo < e <= hi) then zget lb (e - 1) dB
             else zget lb e dB).
Proof.
  intros Hlo Hla Hlb. cbn zeta. unfold for_z_down.
  set (n := Z.to_nat (hi - lo)).
  set (P := fun (k : nat) (st : list A * list B) =>
              length (fst st) = length la /\ length (snd st) = length lb
              /\ forall e,
                   zget (fst st) e dA
                   = (if bool_decide (hi - Z.of_nat k < e <= hi)
                      then zget la (e - 1) dA else zget la e dA)
                   /\ zget (snd st) e dB
                      = (if bool_decide (hi - Z.of_nat k < e <= hi)
                         then zget lb (e - 1) dB else zget lb e dB)).
  assert (H : P n (for_range n
                     (fun k (iv : list A * list B) =>
                        (zset (fst iv) (hi - Z.of_nat k)
                           (zget (fst iv) (hi - Z.of_nat k - 1) dA),
                         zset (snd iv) (hi - Z.of_nat k)
                           (zget (snd iv) (hi - Z.of_nat k - 1) dB)))
                     (la, lb))).
  { apply (for_range_ind P); unfold P.
    - cbn [fst snd]. repeat split;
        rewrite bool_decide_eq_false_2 by lia; reflexivity.
    - intros k [a b] Hk (La & Lb & Hv). cbn [fst snd] in *.
      rewrite !length_zset. split; [exact La|]. split; [exact Lb|].
      intros e. rewrite !zget_zset, La, Lb.
      destruct (Hv e) as [Va Vb].
      destruct (Hv (hi - Z.of_nat k - 1)) as [Wa Wb].
      rewrite bool_decide_eq_false_2 in Wa, Wb by lia.
      destruct (decide (e = hi - Z.of_nat k)) as [->|Hne].
      + rewrite !bool_decide_eq_true_2 by lia. split; assumption.
      + rewrite (bool_decide_eq_false_2 (e = _ /\ _)) by lia.
        rewrite (bool_decide_eq_false_2 (e = _ /\ _)) by lia.
        rewrite Va, Vb.
        destruct (decide (hi - Z.of_nat k < e <= hi)).
        * rewrite !bool_decide_eq_true_2 by lia. split; reflexivity.
        * rewrite !bool_decide_eq_false_2 by lia. split; reflexivity. }
  destruct H as (La & Lb & Hv). split; [exact La|]. split; [exact Lb|].
  intros e. destruct (Hv e) as [Va Vb]. rewrite Va, Vb.
  destruct (decide (lo < e <= hi)).
  - rewrite !bool_decide_eq_true_2 by lia. split; reflexivity.
  - rewrite !bool_decide_eq_false_2 by lia. split; reflexivity.
Qed.

Lemma zget_resize {A} (l : list A) (n : nat) (e : Z) (d d' : A) :
  0 <= e < Z.of_nat n -> e < Z.of_nat (length l) ->
  zget (resize n d l) e d' = zget l e d'.
Proof.
  intros He Hl. unfold zget. rewrite bool_decide_eq_true_2 by lia.
  rewrite !nth_lookup, lookup_resize by lia. reflexivity.
Qed.

Lemma start_mono (lp : HighsLp) (c c' : Z) :
  matrix_ok lp -> 0 <= c -> c <= c' -> c' <= num_col_ lp ->
  zget (start_ (a_matrix_ lp)) c 0 <= zget (start_ (a_matrix_ lp)) c' 0.
Proof.
  intros (_ & _ & _ & Hmono & _) Hc Hcc' Hc'.
  replace c' with (c + Z.of_nat (Z.to_nat (c' - c))) in * by lia.
  induction (Z.to_nat (c' - c)) as [|n IH].
  - replace (c + Z.of_nat 0) with c by lia. lia.
  - replace (c + Z.of_nat (S n)) with (c + Z.of_nat n + 1) in * by lia.
    specialize (Hmono (c + Z.of_nat n)). lia.
Qed.

(** The matrix that [changeLpMatrixCoefficient] leaves: either the entry
    exists and its value is overwritten, or a new entry is put at the end
    of the column and the entries of the later columns move up. *)
Lemma change_spec (lp : HighsLp) (row col : Z) (v : double) :
  matrix_ok lp -> 0 <= row <= num_row_ lp -> 0 <= col < num_col_ lp ->
  let m := a_matrix_ lp in
  let lo := zget (start_ m) col 0 in
  let p := zget (start_ m) (col + 1) 0 in
  let nnz := zget (start_ m) (num_col_ lp) 0 in
  exists m',
    changeLpMatrixCoefficient lp row col v = (kOk, with_matrix lp m')
    /\ ((exists el,
           lo <= el < p /\ found_entry (index_ m) row lo p el
           /\ start_ m' = start_ m /\ index_ m' = index_ m
           /\ length (value_ m') = length (value_ m)
           /\ forall e, zget (value_ m') e Dbl.zero
                        = if bool_decide (e = el) then v
                          else zget (value_ m) e Dbl.zero)
        \/ (found_entry (index_ m) row lo p (-1)
            /\ length (start_ m') = length (start_ m)
            /\ (forall c, zget (start_ m') c 0
                          = if bool_decide (col < c <= num_col_ lp)
                            then zget (start_ m) c 0 + 1
                            else zget (start_ m) c 0)
            /\ Z.of_nat (length (index_ m')) = nnz + 1
            /\ Z.of_nat (length (value_ m')) = nnz + 1
            /\ (forall e, 0 <= e <= nnz ->
                  zget (index_ m') e 0
                  = if bool_decide (e < p) then zget (index_ m) e 0
                    else if bool_decide (e = p) then row
                    else zget (index_ m) (e - 1) 0)
            /\ (forall e, 0 <= e <= nnz ->
                  zget (value_ m') e Dbl.zero
                  = if bool_decide (e < p) then zget (value_ m) e Dbl.zero
                    else if bool_decide (e = p) then v
                    else zget (value_ m) (e - 1) Dbl.zero))).
Proof.
  intros Hok Hrow Hcol m lo p nnz.
  pose proof Hok as (Hn & Hls & H0 & Hmono & Hli & Hlv).
  fold m in Hls, H0, Hmono, Hli, Hlv. fold nnz in Hli, Hlv.
  assert (Hlo0 : 0 <= lo).
  { pose proof (start_mono lp 0 col Hok ltac:(lia) ltac:(lia) ltac:(lia)).
    unfold lo, m in *. lia. }
  assert (Hlop : lo <= p) by (apply Hmono; lia).
  assert (Hpn : p <= nnz).
  { apply (start_mono lp (col + 1) (num_col_ lp) Hok); lia. }
  unfold changeLpMatrixCoefficient.
  rewrite (bool_decide_eq_false_2 (row < 0)) by lia.
  rewrite (bool_decide_eq_false_2 (row > num_row_ lp)) by lia.
  rewrite (bool_decide_eq_false_2 (col < 0)) by lia.
  rewrite (bool_decide_eq_false_2 (col > num_col_ lp)) by lia.
  cbn [orb]. cbn zeta. fold m. fold lo. fold p. fold nnz.
  pose proof (search_spec (index_ m) row lo p) as Hs.
  set (ce := snd (for_z_until lo p _ (-1))) in *.
  destruct (found_entry_nonneg _ _ _ _ _ Hlo0 Hs) as [[E Ece]|[E Hce]];
    rewrite E.
  - (* no entry for the row: a new one is inserted *)
    rewrite Ece in Hs.
    destruct (entry_loop (fun _ x => x + 1) 0 (col + 1) (num_col_ lp + 1)
                (start_ m)) as [Ls1 Vs1].
    cbn zeta in Ls1, Vs1.
    set (start1 := for_z (col + 1) (num_col_ lp + 1) _ (start_ m)) in *.
    set (index1 := resize (Z.to_nat (nnz + 1)) 0 (index_ m)).
    set (value1 := resize (Z.to_nat (nnz + 1)) Dbl.zero (value_ m)).
    destruct (shift_loop 0 Dbl.zero (nnz + 1 - 1) p index1 value1)
      as (Li2 & Lv2 & V2).
    { lia. }
    { unfold index1. rewrite length_resize. lia. }
    { unfold value1. rewrite length_resize. lia. }
    cbn zeta in Li2, Lv2, V2.
    destruct (for_z_down (nnz + 1 - 1) p _ (index1, value1))
      as [index2 value2].
    cbn [fst snd] in Li2, Lv2, V2.
    eexists. split; [reflexivity|]. right.
    cbn [start_ index_ value_]. rewrite !length_zset.
    split; [exact Hs|]. split; [exact Ls1|]. split.
    { intros c. rewrite Vs1.
      destruct (decide (col < c <= num_col_ lp)).
      - rewrite !bool_decide_eq_true_2 by lia. reflexivity.
      - rewrite !bool_decide_eq_false_2 by lia. reflexivity. }
    split; [rewrite Li2; unfold index1; rewrite length_resize; lia|].
    split; [rewrite Lv2; unfold value1; rewrite length_resize; lia|].
    assert (Li1 : Z.of_nat (length index1) = nnz + 1)
      by (unfold index1; rewrite length_resize; lia).
    assert (Lv1 : Z.of_nat (length value1) = nnz + 1)
      by (unfold value1; rewrite length_resize; lia).
    split.
    + intros e He. rewrite zget_zset, Li2.
      destruct (V2 e) as [Va _]. rewrite Va.
      destruct (decide (e = p)) as [->|Hne].
      * rewrite bool_decide_eq_true_2 by lia.
        rewrite (bool_decide_eq_false_2 (p < p)) by lia.
        rewrite bool_decide_eq_true_2 by reflexivity. reflexivity.
      * rewrite (bool_decide_eq_false_2 (e = p /\ _)) by lia.
        rewrite (bool_decide_eq_false_2 (e = p)) by lia.
        destruct (decide (e < p)).
        -- rewrite bool_decide_eq_false_2 by lia.
           rewrite bool_decide_eq_true_2 by lia.
           unfold index1. apply zget_resize; lia.
        -- rewrite bool_decide_eq_true_2 by lia.
           rewrite bool_decide_eq_false_2 by lia.
           unfold index1. apply zget_resize; lia.
    + intros e He. rewrite zget_zset, Lv2.
      destruct (V2 e) as [_ Vb]. rewrite Vb.
      destruct (decide (e = p)) as [->|Hne].
      * rewrite bool_decide_eq_true_2 by lia.
        rewrite (bool_decide_eq_false_2 (p < p)) by lia.
        rewrite bool_decide_eq_true_2 by reflexivity. reflexivity.
      * rewrite (bool_decide_eq_false_2 (e = p /\ _)) by lia.
        rewrite (bool_decide_eq_false_2 (e = p)) by lia.
        destruct (decide (e < p)).
        -- rewrite bool_decide_eq_false_2 by lia.
           rewrite bool_decide_eq_true_2 by lia.
           unfold value1. apply zget_resize; lia.
        -- rewrite bool_decide_eq_true_2 by lia.
           rewrite bool_decide_eq_false_2 by lia.
           unfold value1. apply zget_resize; lia.
  - (* the entry exists: its value is overwritten *)
    eexists. split; [reflexivity|]. left. exists ce.
    cbn [start_ index_ value_]. rewrite length_zset.
    split; [exact Hce|]. split; [exact Hs|]. split; [reflexivity|].
    assert (Hm : zget (index_ m) ce 0 = row).
    { destruct Hs as [(Hx & _)|(_ & Hx & _)]; [lia|exact Hx]. }
    split; [rewrite <- Hm; apply zset_same|]. split; [reflexivity|].
    intros e. rewrite zget_zset.
    destruct (decide (e = ce)) as [->|Hne].
    + rewrite !bool_decide_eq_true_2 by lia. reflexivity.
    + rewrite !bool_decide_eq_false_2 by lia. reflexivity.
Qed.

(** X10: on an LP with a well-formed column-wise matrix,
    [changeLpMatrixCoefficient] at a row and a column of the LP returns
    [kOk], keeps the matrix well formed and the dimensions as they
    were, and [getLpMatrixCoefficient] at the same row and column then
    returns [kOk] and the value just stored. *)
Theorem changed_coefficient_is_read_back (lp : HighsLp) (row col : Z)
    (v v0 : double) :
  matrix_ok lp -> 0 <= row < num_row_ lp -> 0 <= col < num_col_ lp ->
  let res := changeLpMatrixCoefficient lp row col v in
  fst res = kOk /\ matrix_ok (snd res)
  /\ num_col_ (snd res) = num_col_ lp /\ num_row_ (snd res) = num_row_ lp
  /\ getLpMatrixCoefficient (snd res) row col v0 = (kOk, v).
Proof.
  intros Hok Hrow Hcol res.
  destruct (change_spec lp row col v Hok ltac:(lia) Hcol) as (m' & E & Hm').
  cbn zeta in Hm'. unfold res. rewrite E. cbn [fst snd].
  pose proof Hok as (Hn & Hls & H0 & Hmono & Hli & Hlv).
  set (m := a_matrix_ lp) in *.
  set (lo := zget (start_ m) col 0) in *.
  set (p := zget (start_ m) (col + 1) 0) in *.
  set (nnz := zget (start_ m) (num_col_ lp) 0) in *.
  assert (Hlo0 : 0 <= lo).
  { pose proof (start_mono lp 0 col Hok ltac:(lia) ltac:(lia) ltac:(lia)).
    unfold lo, m in *. lia. }
  assert (Hlop : lo <= p) by (apply Hmono; lia).
  assert (Hpn : p <= nnz).
  { apply (start_mono lp (col + 1) (num_col_ lp) Hok); lia. }
  split; [reflexivity|].
  destruct Hm' as [(el & Hel & Hs & Es & Ei & Lv & Vv)
                  |(Hs & Ls & Vs & Li & Lv & Vi & Vv)].
  - split.
    { unfold matrix_ok. cbn [a_matrix_ with_matrix num_col_].
      rewrite Es, Ei, Lv. exact Hok. }
    split; [reflexivity|]. split; [reflexivity|].
    rewrite (get_spec (with_matrix lp m') row col el v0);
      cbn [with_matrix num_row_ num_col_ a_matrix_]; try assumption.
    + replace (el <? 0) with false by (symmetry; apply Z.ltb_ge; lia).
      rewrite Vv, bool_decide_eq_true_2 by reflexivity. reflexivity.
    + rewrite Es. exact Hlo0.
    + rewrite Es, Ei. exact Hs.
  - assert (Hmono' : forall c, 0 <= c < num_col_ lp ->
              zget (start_ m') c 0 <= zget (start_ m') (c + 1) 0).
    { intros c Hc. rewrite !Vs. specialize (Hmono c Hc).
      repeat case_bool_decide; lia. }
    split.
    { unfold matrix_ok. cbn [a_matrix_ with_matrix num_col_].
      split; [exact Hn|]. split; [rewrite Ls; exact Hls|].
      split; [rewrite Vs, bool_decide_eq_false_2 by lia; exact H0|].
      split; [exact Hmono'|].
      rewrite Vs, bool_decide_eq_true_2 by lia. fold nnz. lia. }
    split; [reflexivity|]. split; [reflexivity|].
    rewrite (get_spec (with_matrix lp m') row col p v0);
      cbn [with_matrix num_row_ num_col_ a_matrix_]; try assumption.
    + replace (p <? 0) with false by (symmetry; apply Z.ltb_ge; lia).
      rewrite Vv by lia. rewrite (bool_decide_eq_false_2 (p < p)) by lia.
      rewrite bool_decide_eq_true_2 by reflexivity. reflexivity.
    + rewrite Vs, bool_decide_eq_false_2 by lia. exact Hlo0.
    + rewrite !Vs. rewrite (bool_decide_eq_false_2 (col < col <= _)) by lia.
      rewrite bool_decide_eq_true_2 by lia. fold lo. fold p.
      right. split; [lia|]. split.
      * rewrite Vi by lia. rewrite (bool_decide_eq_false_2 (p < p)) by lia.
        rewrite bool_decide_eq_true_2 by reflexivity. reflexivity.
      * intros e He. rewrite Vi by lia.
        rewrite bool_decide_eq_true_2 by lia.
        destruct Hs as [(_ & Hall)|(Hx & _)]; [apply Hall; lia|lia].
Qed.

(** X11: [changeLpMatrixCoefficient] at (row, col) changes nothing that
    [getLpMatrixCoefficient] returns for any other row and column of the
    LP, and it leaves the costs and the bounds as they were. *)
Theorem other_coefficients_unchanged (lp : HighsLp) (row col : Z)
    (v : double) (r c : Z) (v0 : double) :
  matrix_ok lp -> 0 <= row < num_row_ lp -> 0 <= col < num_col_ lp ->
  0 <= r < num_row_ lp -> 0 <= c < num_col_ lp -> r <> row \/ c <> col ->
  let lp' := snd (changeLpMatrixCoefficient lp row col v) in
  getLpMatrixCoefficient lp' r c v0 = getLpMatrixCoefficient lp r c v0
  /\ col_cost_ lp' = col_cost_ lp
  /\ col_lower_ lp' = col_lower_ lp /\ col_upper_ lp' = col_upper_ lp
  /\ row_lower_ lp' = row_lower_ lp /\ row_upper_ lp' = row_upper_ lp.
Proof.
  intros Hok Hrow Hcol Hr Hc Hne lp'.
  destruct (change_spec lp row col v Hok ltac:(lia) Hcol) as (m' & E & Hm').
  cbn zeta in Hm'. unfold lp'. rewrite E. cbn [fst snd].
  split; [|repeat split; reflexivity].
  pose proof Hok as (Hn & Hls & H0 & Hmono & Hli & Hlv).
  set (m := a_matrix_ lp) in *.
  set (lo := zget (start_ m) col 0) in *.
  set (p := zget (start_ m) (col + 1) 0) in *.
  set (nnz := zget (start_ m) (num_col_ lp) 0) in *.
  assert (Hlo0 : 0 <= lo).
  { pose proof (start_mono lp 0 col Hok ltac:(lia) ltac:(lia) ltac:(lia)).
    unfold lo, m in *. lia. }
  assert (Hlop : lo <= p) by (apply Hmono; lia).
  assert (Hpn : p <= nnz).
  { apply (start_mono lp (col + 1) (num_col_ lp) Hok); lia. }
  set (lo_c := zget (start_ m) c 0).
  set (hi_c := zget (start_ m) (c + 1) 0).
  assert (Hc0 : 0 <= lo_c).
  { pose proof (start_mono lp 0 c Hok ltac:(lia) ltac:(lia) ltac:(lia)).
    unfold lo_c, m in *. lia. }
  assert (Hchi : hi_c <= nnz).
  { apply (start_mono lp (c + 1) (num_col_ lp) Hok); lia. }
  pose proof (search_spec (index_ m) r lo_c hi_c) as Hg.
  set (g := snd (for_z_until lo_c hi_c _ (-1))) in *.
  rewrite (get_spec lp r c g v0 Hr Hc Hc0 Hg). fold m.
  destruct (found_entry_nonneg _ _ _ _ _ Hc0 Hg) as [[Eg Hg1]|[Eg Hg1]].
  - (* no entry for (r, c) before the call *)
    rewrite Eg.
    destruct Hm' as [(el & Hel & Hs & Es & Ei & Lv & Vv)
                    |(Hs & Ls & Vs & Li & Lv & Vi & Vv)].
    + rewrite (get_spec (with_matrix lp m') r c g v0);
        cbn [with_matrix num_row_ num_col_ a_matrix_]; try assumption.
      * rewrite Eg. reflexivity.
      * rewrite Es. exact Hc0.
      * rewrite Es, Ei. exact Hg.
    + rewrite (get_spec (with_matrix lp m') r c (-1) v0);
        cbn [with_matrix num_row_ num_col_ a_matrix_]; try assumption.
      * reflexivity.
      * rewrite Vs. case_bool_decide; fold lo_c; lia.
      * subst g. rewrite !Vs. fold lo_c. fold hi_c.
        destruct Hg as [(_ & Hall)|(Hx & _)]; [|lia].
        left. split; [reflexivity|].
        destruct (Z.lt_trichotomy c col) as [Hlt|[Heq|Hgt]].
        -- rewrite !bool_decide_eq_false_2 by lia.
           assert (hi_c <= lo)
             by (apply (start_mono lp (c + 1) col Hok); lia).
           intros e He. rewrite Vi by lia.
           rewrite bool_decide_eq_true_2 by lia. apply Hall, He.
        -- subst c. rewrite (bool_decide_eq_false_2 (col < col <= _)) by lia.
           rewrite bool_decide_eq_true_2 by lia.
           fold lo in lo_c. fold p in hi_c. subst lo_c hi_c.
           intros e He. rewrite Vi by lia.
           destruct (decide (e = p)) as [->|Hep].
           ++ rewrite (bool_decide_eq_false_2 (p < p)) by lia.
              rewrite bool_decide_eq_true_2 by reflexivity.
              destruct Hne; congruence.
           ++ rewrite bool_decide_eq_true_2 by lia. apply Hall. lia.
        -- rewrite !bool_decide_eq_true_2 by lia.
           assert (p <= lo_c)
             by (apply (start_mono lp (col + 1) c Hok); lia).
           intros e He. rewrite Vi by lia.
           rewrite !bool_decide_eq_false_2 by lia. apply Hall. lia.
  - (* the entry [g] holds the coefficient (r, c) before the call *)
    rewrite Eg.
    assert (Hgr : zget (index_ m) g 0 = r).
    { destruct Hg as [(Hx & _)|(_ & Hx & _)]; [lia|exact Hx]. }
    destruct Hm' as [(el & Hel & Hs & Es & Ei & Lv & Vv)
                    |(Hs & Ls & Vs & Li & Lv & Vi & Vv)].
    + rewrite (get_spec (with_matrix lp m') r c g v0);
        cbn [with_matrix num_row_ num_col_ a_matrix_]; try assumption.
      * rewrite Eg, Vv. rewrite bool_decide_eq_false_2; [reflexivity|].
        intros ->.
        assert (Her : zget (index_ m) el 0 = row).
        { destruct Hs as [(Hx & _)|(_ & Hx & _)]; [lia|exact Hx]. }
        destruct (Z.lt_trichotomy c col) as [Hlt|[Heq|Hgt]].
        -- assert (hi_c <= lo)
             by (apply (start_mono lp (c + 1) col Hok); lia). lia.
        -- destruct Hne; congruence.
        -- assert (p <= lo_c)
             by (apply (start_mono lp (col + 1) c Hok); lia). lia.
      * rewrite Es. exact Hc0.
      * rewrite Es, Ei. exact Hg.
    + destruct (Z.lt_trichotomy c col) as [Hlt|[Heq|Hgt]].
      * assert (hi_c <= lo)
          by (apply (start_mono lp (c + 1) col Hok); lia).
        rewrite (get_spec (with_matrix lp m') r c g v0);
          cbn [with_matrix num_row_ num_col_ a_matrix_]; try assumption.
        -- rewrite Eg, Vv by lia. rewrite bool_decide_eq_true_2 by lia.
           reflexivity.
        -- rewrite Vs, bool_decide_eq_false_2 by lia. exact Hc0.
        -- rewrite !Vs, !bool_decide_eq_false_2 by lia.
           apply (found_entry_ext (index_ m)); [|exact Hg].
           intros e He. fold lo_c in He. fold hi_c in He.
           rewrite Vi by lia. rewrite bool_decide_eq_true_2 by lia.
           reflexivity.
      * subst c. fold lo in lo_c. fold p in hi_c. subst lo_c hi_c.
        rewrite (get_spec (with_matrix lp m') r col g v0);
          cbn [with_matrix num_row_ num_col_ a_matrix_]; try assumption.
        -- rewrite Eg, Vv by lia. rewrite bool_decide_eq_true_2 by lia.
           reflexivity.
        -- rewrite Vs, bool_decide_eq_false_2 by lia. exact Hlo0.
        -- rewrite !Vs. rewrite (bool_decide_eq_false_2 (col < col <= _)) by lia.
           rewrite bool_decide_eq_true_2 by lia. fold lo. fold p.
           destruct Hg as [(Hx & _)|(Rg & Mg & Hall)]; [lia|].
           right. split; [lia|]. split.
           ++ rewrite Vi by lia. rewrite bool_decide_eq_true_2 by lia.
              exact Mg.
           ++ intros e He. rewrite Vi by lia.
              rewrite bool_decide_eq_true_2 by lia. apply Hall, He.
      * assert (p <= lo_c)
          by (apply (start_mono lp (col + 1) c Hok); lia).
        rewrite (get_spec (with_matrix lp m') r c (g + 1) v0);
          cbn [with_matrix num_row_ num_col_ a_matrix_]; try assumption.
        -- replace (g + 1 <? 0) with false by (symmetry; apply Z.ltb_ge; lia).
           rewrite Vv by lia. rewrite !bool_decide_eq_false_2 by lia.
           replace (g + 1 - 1) with g by lia. reflexivity.
        -- rewrite Vs, bool_decide_eq_true_2 by lia. fold lo_c. lia.
        -- rewrite !Vs, !bool_decide_eq_true_2 by lia.
           fold lo_c. fold hi_c.
           pose proof (found_entry_shift (index_ m) (index_ m') r lo_c hi_c g
                         Hc0) as Hsh.
           rewrite Eg in Hsh. apply Hsh; [|exact Hg].
           intros e He. rewrite Vi by lia.
           rewrite !bool_decide_eq_false_2 by lia.
           replace (e + 1 - 1) with e by lia. reflexivity.
Qed.

End MatrixCoefficient.

Lemma lp_2x2_matrix_ok : HighsLpUtils.matrix_ok Examples.lp_2x2.
Proof.
  unfold HighsLpUtils.matrix_ok. cbv zeta.
  repeat split; try (vm_compute; discriminate).
  intros c Hc. cbn in Hc.
  assert (c = 0 \/ c = 1) as [->| ->] by lia; vm_compute; discriminate.
Qed.

Lemma changed_coefficient_is_read_back_witness :
  HighsLpUtils.matrix_ok Examples.lp_2x2
  /\ HighsLpUtils.getLpMatrixCoefficient
       (snd (HighsLpUtils.changeLpMatrixCoefficient Examples.lp_2x2 1 0
               (Dbl.lit 5))) 1 0 Dbl.zero
     = (HighsLpUtils.kOk, Dbl.lit 5).
Proof.
  destruct (changed_coefficient_is_read_back Examples.lp_2x2 1 0 (Dbl.lit 5)
              Dbl.zero lp_2x2_matrix_ok ltac:(cbn; lia) ltac:(cbn; lia))
    as (_ & _ & _ & _ & Hget).
  split; [exact lp_2x2_matrix_ok|exact Hget].
Defined.

Lemma other_coefficients_unchanged_witness :
  HighsLpUtils.matrix_ok Examples.lp_2x2
  /\ HighsLpUtils.getLpMatrixCoefficient
       (snd (HighsLpUtils.changeLpMatrixCoefficient Examples.lp_2x2 1 0
               (Dbl.lit 5))) 1 1 Dbl.zero
     = HighsLpUtils.getLpMatrixCoefficient Examples.lp_2x2 1 1 Dbl.zero.
Proof.
  destruct (other_coefficients_unchanged Examples.lp_2x2 1 0 (Dbl.lit 5)
              1 1 Dbl.zero lp_2x2_matrix_ok
              ltac:(cbn; lia) ltac:(cbn; lia) ltac:(cbn; lia) ltac:(cbn; lia)
              ltac:(right; lia))
    as (Hget & _).
  split; [exact lp_2x2_matrix_ok|exact Hget].
Defined.

Lemma lp_2x2_vectors_sized : HighsLpUtils.vectors_sized Examples.lp_2x2.
Proof. repeat split; cbn; lia. Qed.

Lemma lp_1x1_vectors_sized : HighsLpUtils.vectors_sized Examples.lp_1x1.
Proof. repeat split; cbn; lia. Qed.

Lemma getLpCosts_copies_slice_witness :
  HighsLpUtils.vectors_sized Examples.lp_2x2
  /\ fst (HighsLpUtils.getLpCosts Examples.lp_2x2 0 1 [Dbl.lit 7; Dbl.lit 7])
     = HighsLpUtils.kOk
  /\ zget (snd (HighsLpUtils.getLpCosts Examples.lp_2x2 0 1
                  [Dbl.lit 7; Dbl.lit 7])) 1 Dbl.zero
     = zget (HighsLpUtils.col_cost_ Examples.lp_2x2) (0 + 1) Dbl.zero.
Proof.
  destruct (getLpCosts_copies_slice Examples.lp_2x2 0 1 [Dbl.lit 7; Dbl.lit 7])
    as (_ & _ & Hcopy).
  destruct (Hcopy lp_2x2_vectors_sized ltac:(lia) ltac:(cbn; lia)
              ltac:(cbn; lia)) as (Hok & _ & Hin & _).
  split; [exact lp_2x2_vectors_sized|]. split; [exact Hok|].
  apply Hin. lia.
Defined.

Lemma getLpBounds_copy_slices_witness :
  fst (HighsLpUtils.getLpColBounds Examples.lp_2x2 0 1
         (Some [Dbl.lit 7; Dbl.lit 7]) None)
  = HighsLpUtils.kOk
  /\ fst (HighsLpUtils.getLpRowBounds Examples.lp_2x2 0 2
            (Some [Dbl.lit 7; Dbl.lit 7]) None)
     = HighsLpUtils.kError.
Proof.
  destruct (getLpBounds_copy_slices Examples.lp_2x2 0 1
              (Some [Dbl.lit 7; Dbl.lit 7]) None) as (_ & _ & _ & Hcopy).
  destruct (Hcopy lp_2x2_vectors_sized ltac:(lia) ltac:(cbn; lia) I)
    as (Hcol & _).
  destruct (Hcol ltac:(cbn; lia)) as (Hok & _).
  destruct (getLpBounds_copy_slices Examples.lp_2x2 0 2
              (Some [Dbl.lit 7; Dbl.lit 7]) None) as (_ & Herr & _).
  split; [exact Hok|]. rewrite Herr by (right; cbn; lia). reflexivity.
Defined.

Lemma appendColsToLpVectors_appends_witness :
  HighsLpUtils.vectors_sized Examples.lp_1x1
  /\ HighsLpUtils.col_cost_
       (snd (fst (HighsLpUtils.appendColsToLpVectors Examples.lp_1x1 [] 1
                    [Dbl.lit 3] [Dbl.zero] [Dbl.lit 1])))
     = [Dbl.zero; Dbl.lit 3].
Proof.
  destruct (appendColsToLpVectors_appends Examples.lp_1x1 [] 1
              [Dbl.lit 3] [Dbl.zero] [Dbl.lit 1]) as (_ & _ & Happ).
  split; [exact lp_1x1_vectors_sized|].
  rewrite (Happ lp_1x1_vectors_sized ltac:(left; reflexivity) ltac:(lia)
             ltac:(cbn; lia) ltac:(cbn; lia) ltac:(cbn; lia)).
  reflexivity.
Defined.

Lemma appendRowsToLpVectors_appends_witness :
  HighsLpUtils.row_upper_
    (snd (fst (HighsLpUtils.appendRowsToLpVectors Examples.lp_1x1 [] 1
                 [Dbl.zero] [Dbl.lit 4])))
  = [Dbl.lit 1; Dbl.lit 4].
Proof.
  destruct (appendRowsToLpVectors_appends Examples.lp_1x1 [] 1
              [Dbl.zero] [Dbl.lit 4]) as (_ & _ & Happ).
  rewrite (Happ lp_1x1_vectors_sized ltac:(left; reflexivity) ltac:(lia)
             ltac:(cbn; lia) ltac:(cbn; lia)).
  reflexivity.
Defined.

Lemma applyScalingToLpMatrix_scales_witness :
  HighsLpUtils.matrix_ok Examples.lp_2x2
  /\ (exists lp',
        HighsLpUtils.applyScalingToLpMatrix Examples.lp_2x2
          (Some [Dbl.lit 2; Dbl.lit 3]) None 0 1 0 1
        = Some (HighsLpUtils.kOk, lp')
        /\ zget (HighsLpUtils.value_ (HighsLpUtils.a_matrix_ lp')) 1 Dbl.zero
           = (Dbl.lit 2 * Dbl.lit 3)%D)
  /\ HighsLpUtils.applyScalingToLpMatrix Examples.lp_2x2
       (Some [Dbl.lit 2; Dbl.lit 3]) None 0 2 0 1
     = None.
Proof.
  destruct (applyScalingToLpMatrix_scales Examples.lp_2x2
              (Some [Dbl.lit 2; Dbl.lit 3]) None) as (Habort & _ & Hok).
  destruct (Hok lp_2x2_matrix_ok)
    as ([st lp'] & E & Hst & _ & _ & _ & _ & _ & Hval).
  cbn [fst snd] in Hst, Hval. subst st.
  destruct (Hval ltac:(left; discriminate)) as [Hin _].
  split; [exact lp_2x2_matrix_ok|]. split.
  - exists lp'. split; [exact E|].
    rewrite (Hin 1 1) by (vm_compute; split; (discriminate || reflexivity)).
    vm_compute. reflexivity.
  - apply Habort. cbn. lia.
Defined.

(** ** The error returns of writeBasisFile and readBasisFile *)

Section BasisFileErrors.

Import HighsLpUtils.

(** The three extractions that open [readBasisFile], on a text written
    with any version number that is not negative. *)
Lemma read_preamble_any (v : Z) (tl : list ascii) (uninit : Z) :
  0 <= v ->
  let inFile :=
    mkStream (list_ascii_of_string "HiGHS Version " ++ show_int v ++ endl ++ tl)
      false false in
  let (string_highs, inFile) := read_string inFile [] in
  let (string_version, inFile) := read_string inFile [] in
  read_int inFile uninit = (v, mkStream (endl ++ tl) false false).
Proof.
  intros Hv.
  pose proof (read_int_show [" "%char] v "010"%char tl uninit
                ltac:(repeat constructor) Hv eq_refl) as H.
  remember (show_int v) as sv eqn:Esv. clear Esv.
  cbn -[read_int]. exact H.
Qed.

(** X21: [writeBasisFile] returns [kError] and leaves the files as they
    were when the basis is not valid or the file cannot be opened;
    [readBasisFile] returns [kError] and leaves the basis as it was when
    the file does not exist, when the file was written with a version
    number other than 1, and when it was written for a basis whose
    number of columns or rows differs from that of the basis read
    into. *)
Theorem basis_file_errors (HIGHS_VERSION_MAJOR uninit : Z)
    (fs : FileSystem) (B host : HighsBasis) (filename : string) :
  (valid B = false ->
   writeBasisFile HIGHS_VERSION_MAJOR fs B filename = (kError, fs))
  /\ (can_open_for_writing fs filename = false ->
      writeBasisFile HIGHS_VERSION_MAJOR fs B filename = (kError, fs))
  /\ (file_text fs filename = None ->
      readBasisFile uninit fs host filename = (kError, host))
  /\ (valid B = true -> can_open_for_writing fs filename = true ->
      0 <= HIGHS_VERSION_MAJOR ->
      let fs' := snd (writeBasisFile HIGHS_VERSION_MAJOR fs B filename) in
      (HIGHS_VERSION_MAJOR <> 1 ->
       readBasisFile uninit fs' host filename = (kError, host))
      /\ (HIGHS_VERSION_MAJOR = 1 ->
          length (col_status host) <> length (col_status B)
          \/ length (row_status host) <> length (row_status B) ->
          readBasisFile uninit fs' host filename = (kError, host))).
Proof.
  split; [|split; [|split]].
  - intros H. unfold writeBasisFile. rewrite H. reflexivity.
  - intros H. unfold writeBasisFile. rewrite H.
    destruct (valid B); reflexivity.
  - intros H. unfold readBasisFile. rewrite H. reflexivity.
  - intros Hvalid Hopen Hv fs'.
    assert (Efs : fs' = write_file fs filename (basis_text HIGHS_VERSION_MAJOR B)).
    { unfold fs', writeBasisFile. rewrite Hvalid, Hopen. reflexivity. }
    rewrite Efs. unfold readBasisFile. rewrite file_text_write_file.
    unfold basis_text.
    set (ncol := Z.of_nat (length (col_status B))).
    set (nrow := Z.of_nat (length (row_status B))).
    set (tl_cols := show_statuses (col_status B) ++ endl
                    ++ show_statuses (row_status B) ++ endl ++ endl).
    set (tl_dims := show_int ncol ++ space ++ show_int nrow ++ endl ++ tl_cols).
    pose proof (read_preamble_any HIGHS_VERSION_MAJOR tl_dims uninit Hv) as Hpre.
    cbv zeta in Hpre.
    destruct (read_string _ []) as [string_highs s1].
    destruct (read_string s1 []) as [string_version s2].
    rewrite Hpre. split.
    + intros Hne. replace (HIGHS_VERSION_MAJOR =? 1) with false
        by (symmetry; apply Z.eqb_neq; exact Hne).
      reflexivity.
    + intros -> Hdims. cbn [Z.eqb Pos.eqb].
      subst tl_dims.
      change (endl ++ show_int ncol ++ space ++ show_int nrow ++ endl ++ tl_cols)
        with (endl ++ show_int ncol
              ++ " "%char :: (show_int nrow ++ endl ++ tl_cols)).
      rewrite read_int_show;
        [| repeat constructor | subst ncol; lia | reflexivity].
      change (" "%char :: show_int nrow ++ endl ++ tl_cols)
        with ([" "%char] ++ show_int nrow ++ "010"%char :: tl_cols).
      rewrite read_int_show;
        [| repeat constructor | subst nrow; lia | reflexivity].
      destruct (ncol =? Z.of_nat (length (col_status host))) eqn:Ec;
        [|reflexivity].
      destruct (nrow =? Z.of_nat (length (row_status host))) eqn:Er;
        [|reflexivity].
      apply Z.eqb_eq in Ec, Er. exfalso. subst ncol nrow.
      destruct Hdims; lia.
Qed.

End BasisFileErrors.

Lemma basis_file_errors_witness :
  HighsLpUtils.readBasisFile 0
    (snd (HighsLpUtils.writeBasisFile 1 Examples.empty_disk
            Examples.basis_2x1 "model.bas"))
    (HighsLpUtils.mkBasis false [HighsLpUtils.kLower] [HighsLpUtils.kLower])
    "model.bas"
  = (HighsLpUtils.kError,
     HighsLpUtils.mkBasis false [HighsLpUtils.kLower] [HighsLpUtils.kLower])
  /\ HighsLpUtils.readBasisFile 0
       (snd (HighsLpUtils.writeBasisFile 2 Examples.empty_disk
               Examples.basis_2x1 "model.bas"))
       Examples.host_2x1 "model.bas"
     = (HighsLpUtils.kError, Examples.host_2x1).
Proof.
  destruct (basis_file_errors 1 0 Examples.empty_disk Examples.basis_2x1
              (HighsLpUtils.mkBasis false [HighsLpUtils.kLower]
                 [HighsLpUtils.kLower]) "model.bas") as (_ & _ & _ & H1).
  destruct (H1 eq_refl eq_refl ltac:(lia)) as (_ & Hdims).
  destruct (basis_file_errors 2 0 Examples.empty_disk Examples.basis_2x1
              Examples.host_2x1 "model.bas") as (_ & _ & _ & H2).
  destruct (H2 eq_refl eq_refl ltac:(lia)) as (Hver & _).
  split.
  - apply Hdims; [reflexivity|]. left. cbn. lia.
  - apply Hver. lia.
Defined.

(** ** HEkkDualRow: packing the row and joining the candidates *)

Section DualRowPacking.

Import HEkkDualRow.

(** X22: when [packIndex] and [packValue] have room for them,
    [chooseMakepack] appends the [count] entries of the row to the
    packed row: entry [packCount + i] gets the index [index[i] + offset]
    and the value [array[index[i]]], the entries before [packCount] are
    kept, [packCount] grows by [count], and no other member of the dual
    row changes. *)
Theorem chooseMakepack_appends (row : HVector.t) (offset : Z) (r : HEkkDualRow) :
  0 <= packCount r -> 0 <= HVector.count row ->
  packCount r + HVector.count row <= Z.of_nat (length (packIndex r)) ->
  packCount r + HVector.count row <= Z.of_nat (length (packValue r)) ->
  let r' := chooseMakepack row offset r in
  packCount r' = packCount r + HVector.count row
  /\ (forall i, 0 <= i < packCount r ->
        at_Z (packIndex r') i = at_Z (packIndex r) i
        /\ at_D (packValue r') i = at_D (packValue r) i)
  /\ (forall i, 0 <= i < HVector.count row ->
        at_Z (packIndex r') (packCount r + i)
        = at_Z (HVector.index row) i + offset
        /\ at_D (packValue r') (packCount r + i)
           = at_D (HVector.array row) (at_Z (HVector.index row) i))
  /\ length (packIndex r') = length (packIndex r)
  /\ length (packValue r') = length (packValue r)
  /\ r' = set_packCount (packCount r')
            (set_packValue (packValue r') (set_packIndex (packIndex r') r)).
Proof.
  intros Hpc Hrc Hci Hcv. cbn zeta. unfold chooseMakepack.
  set (P := fun (k : Z) (s : HEkkDualRow) =>
              packCount s = packCount r + k
              /\ (forall i, 0 <= i < packCount r ->
                    at_Z (packIndex s) i = at_Z (packIndex r) i
                    /\ at_D (packValue s) i = at_D (packValue r) i)
              /\ (forall i, 0 <= i < k ->
                    at_Z (packIndex s) (packCount r + i)
                    = at_Z (HVector.index row) i + offset
                    /\ at_D (packValue s) (packCount r + i)
                       = at_D (HVector.array row) (at_Z (HVector.index row) i))
              /\ length (packIndex s) = length (packIndex r)
              /\ length (packValue s) = length (packValue r)
              /\ s = set_packCount (packCount s)
                       (set_packValue (packValue s)
                          (set_packIndex (packIndex s) r))).
  match goal with |- context [for_z 0 ?n ?b r] =>
    assert (H : P n (for_z 0 n b r)) end.
  { apply (for_z_ind P); unfold P; [exact Hrc| |].
    - split; [lia|]. split; [auto|]. split; [intros; lia|].
      split; [reflexivity|]. split; [reflexivity|]. destruct r; reflexivity.
    - intros i s Hi (Hc & Hold & Hnew & Hli & Hlv & Hs).
      rewrite Hs. destruct r. cbn in *.
      split; [lia|]. split; [|split; [|split; [|split]]].
      + intros j Hj. unfold at_Z, at_D.
        rewrite !zget_zset_ne by lia. apply Hold, Hj.
      + intros j Hj. unfold at_Z, at_D.
        destruct (decide (j = i)) as [->|Hne].
        * rewrite Hc. rewrite !zget_zset_eq by lia. split; reflexivity.
        * rewrite !zget_zset_ne by lia. apply Hnew. lia.
      + rewrite length_zset. exact Hli.
      + rewrite length_zset. exact Hlv.
      + reflexivity. }
  exact H.
Qed.

Lemma copy_into_spec {A} (src dest : list A) (n at_ : Z) (d : A) :
  0 <= n -> 0 <= at_ -> at_ + n <= Z.of_nat (length dest) ->
  let res := copy_into src n dest at_ d in
  length res = length dest
  /\ forall j, zget res j d
       = if bool_decide (at_ <= j < at_ + n) then zget src (j - at_) d
         else zget dest j d.
Proof.
  intros Hn Hat Hcap. cbn zeta. unfold copy_into.
  set (P := fun (k : Z) (l : list A) =>
              length l = length dest
              /\ forall j, zget l j d
                   = if bool_decide (at_ <= j < at_ + k)
                     then zget src (j - at_) d else zget dest j d).
  match goal with |- context [for_z 0 ?n ?b dest] =>
    assert (H : P n (for_z 0 n b dest)) end.
  { apply (for_z_ind P); unfold P; [exact Hn| |].
    - split; [reflexivity|]. intros j.
      rewrite bool_decide_eq_false_2 by lia. reflexivity.
    - intros i l Hi [Hl Hv]. split; [rewrite length_zset; exact Hl|].
      intros j. rewrite zget_zset, Hl, Hv.
      repeat case_bool_decide; try reflexivity; try (exfalso; lia).
      f_equal. lia. }
  exact H.
Qed.

Lemma take_app_zget {A} (l l1 l2 : list A) (a b : nat) (d : A) :
  (a <= length l1)%nat -> (b <= length l2)%nat -> (a + b <= length l)%nat ->
  (forall j, (j < a)%nat -> zget l (Z.of_nat j) d = zget l1 (Z.of_nat j) d) ->
  (forall j, (j < b)%nat ->
     zget l (Z.of_nat (a + j)) d = zget l2 (Z.of_nat j) d) ->
  take (a + b) l = take a l1 ++ take b l2.
Proof.
  intros Ha Hb Hab H1 H2.
  apply (nth_ext _ _ d d).
  - rewrite length_app, !length_take. lia.
  - intros j Hj. rewrite length_take in Hj.
    assert (Hz : forall (m : list A) (k : nat),
               nth k m d = zget m (Z.of_nat k) d).
    { intros m k. unfold zget. rewrite bool_decide_eq_true_2 by lia.
      rewrite Nat2Z.id. reflexivity. }
    assert (Ht : forall (m : list A) (c k : nat),
               (k < c)%nat -> nth k (take c m) d = nth k m d).
    { intros m c k Hk. revert m k Hk. induction c as [|c IH]; intros m k Hk;
        [lia|]. destruct m as [|x m]; [destruct k; reflexivity|].
      destruct k as [|k]; [reflexivity|]. cbn. apply IH. lia. }
    rewrite Ht by lia.
    destruct (decide (j < a)%nat) as [Hlt|Hge].
    + rewrite app_nth1 by (rewrite length_take; lia).
      rewrite Ht by lia. rewrite !Hz. apply H1, Hlt.
    + rewrite app_nth2 by (rewrite length_take; lia).
      rewrite length_take. replace (a `min` length l1)%nat with a by lia.
      rewrite Ht by lia. rewrite !Hz.
      replace j with (a + (j - a))%nat at 1 by lia. apply H2. lia.
Qed.

Lemma dbl_le_refl (a : double) : a <> Dbl.NaN -> (a <=? a)%D = true.
Proof.
  intros N. destruct a as [| |a|]; try congruence; try reflexivity.
  unfold Dbl.leb, Dbl.eqb. rewrite (bool_decide_eq_true_2 (a = a)) by reflexivity.
  apply orb_true_r.
Qed.

Lemma dbl_min_le (a b : double) :
  a <> Dbl.NaN -> b <> Dbl.NaN ->
  (Dbl.min a b <=? a)%D = true /\ (Dbl.min a b <=? b)%D = true.
Proof.
  intros Na Nb. unfold Dbl.min.
  destruct (Dbl.ltb b a) eqn:E.
  - split; [|apply dbl_le_refl, Nb]. unfold Dbl.leb. rewrite E. reflexivity.
  - split; [apply dbl_le_refl, Na|].
    destruct a as [| |a|], b as [| |b|]; try congruence; try reflexivity;
      try discriminate E.
    unfold Dbl.leb, Dbl.ltb, Dbl.eqb in *.
    apply bool_decide_eq_false_1 in E. apply Qcnot_lt_le in E.
    apply Qcle_lt_or_eq in E. destruct E as [E|E].
    + rewrite (bool_decide_eq_true_2 (a < b)%Qc) by exact E. reflexivity.
    + rewrite (bool_decide_eq_true_2 (a = b)) by exact E. apply orb_true_r.
Qed.

Lemma chooseJoinpack_spec (otherRow r : HEkkDualRow) :
  0 <= workCount r ->
  0 <= workCount otherRow <= Z.of_nat (length (workData otherRow)) ->
  workCount r + workCount otherRow <= Z.of_nat (length (workData r)) ->
  let r' := chooseJoinpack otherRow r in
  workCount r' = workCount r + workCount otherRow
  /\ take (Z.to_nat (workCount r')) (workData r')
     = take (Z.to_nat (workCount r)) (workData r)
       ++ take (Z.to_nat (workCount otherRow)) (workData otherRow)
  /\ length (workData r') = length (workData r)
  /\ (workTheta r' = workTheta r \/ workTheta r' = workTheta otherRow)
  /\ (workTheta r <> Dbl.NaN -> workTheta otherRow <> Dbl.NaN ->
      (workTheta r' <=? workTheta r)%D = true
      /\ (workTheta r' <=? workTheta otherRow)%D = true)
  /\ r' = set_workTheta (workTheta r')
            (set_workCount (workCount r')
               (set_workData (workData r') r)).
Proof.
  intros Hwc Hoc Hcap. cbn zeta.
  destruct (copy_into_spec (workData otherRow) (workData r)
              (workCount otherRow) (workCount r) (0, Dbl.zero)
              ltac:(lia) Hwc Hcap) as [Hl Hv].
  cbn zeta in Hl, Hv.
  unfold chooseJoinpack. cbv zeta.
  cbn [workCount workData workTheta set_workTheta set_workCount set_workData].
  split; [reflexivity|]. split; [|split; [exact Hl|split; [|split]]].
  - rewrite Z2Nat.inj_add by (clear Hl Hv; lia).
    apply (take_app_zget _ _ _ _ _ (0, Dbl.zero)); try lia.
    + intros j Hj. rewrite Hv. rewrite bool_decide_eq_false_2 by lia.
      reflexivity.
    + intros j Hj. rewrite Hv. rewrite bool_decide_eq_true_2 by lia.
      f_equal. lia.
  - unfold Dbl.min. destruct (Dbl.ltb _ _); auto.
  - intros N1 N2. apply dbl_min_le; assumption.
  - destruct r. reflexivity.
Qed.

(** X23: when [workData] has room for them, [chooseJoinpack] appends
    the [workCount] candidates of the other row to the candidates of
    this row, adds the two counts, and sets [workTheta] to one of the
    two bounds, which is below or equal to both when neither is NaN; no
    other member of the dual row changes. *)
Theorem chooseJoinpack_concatenates (otherRow r : HEkkDualRow) :
  0 <= workCount r ->
  0 <= workCount otherRow <= Z.of_nat (length (workData otherRow)) ->
  workCount r + workCount otherRow <= Z.of_nat (length (workData r)) ->
  let r' := chooseJoinpack otherRow r in
  workCount r' = workCount r + workCount otherRow
  /\ take (Z.to_nat (workCount r')) (workData r')
     = take (Z.to_nat (workCount r)) (workData r)
       ++ take (Z.to_nat (workCount otherRow)) (workData otherRow)
  /\ length (workData r') = length (workData r)
  /\ (workTheta r' = workTheta r \/ workTheta r' = workTheta otherRow)
  /\ (workTheta r <> Dbl.NaN -> workTheta otherRow <> Dbl.NaN ->
      (workTheta r' <=? workTheta r)%D = true
      /\ (workTheta r' <=? workTheta otherRow)%D = true)
  /\ r' = set_workTheta (workTheta r')
            (set_workCount (workCount r')
               (set_workData (workData r') r)).
Proof. apply chooseJoinpack_spec. Qed.

(** X25: [debugFindInWorkData] returns the first position below
    [count] whose pair has the column [iCol], and -1 exactly when no
    pair below [count] has that column. *)
Theorem debugFindInWorkData_first_match (iCol count : Z)
    (workData_ : list (Z * double)) :
  let Ix := debugFindInWorkData iCol count workData_ in
  (Ix = -1
   /\ forall k, 0 <= k < count -> fst (at_P workData_ k) <> iCol)
  \/ (0 <= Ix < count /\ fst (at_P workData_ Ix) = iCol
      /\ forall k, 0 <= k < Ix -> fst (at_P workData_ k) <> iCol).
Proof.
  cbn zeta. unfold debugFindInWorkData.
  destruct (first_hit_spec (fun Ix => fst (at_P workData_ Ix) =? iCol) 0 count)
    as [[E Hall]|(Hr & Hm & Hall)]; cbn zeta in *.
  - left. split; [exact E|]. intros k Hk. apply Z.eqb_neq, Hall, Hk.
  - right. split; [exact Hr|]. split; [apply Z.eqb_eq, Hm|].
    intros k Hk. apply Z.eqb_neq, Hall, Hk.
Qed.

End DualRowPacking.

(** ** Joining the candidates of two slices in binary64 *)

Section JoinBinary64.

Import Binary64.HEkkDualRow.

Lemma chooseJoinpack_binary64 (otherRow r : HEkkDualRow) :
  0 <= workCount r ->
  0 <= workCount otherRow <= Z.of_nat (length (workData otherRow)) ->
  workCount r + workCount otherRow <= Z.of_nat (length (workData r)) ->
  let r' := chooseJoinpack otherRow r in
  workCount r' = workCount r + workCount otherRow
  /\ take (Z.to_nat (workCount r')) (workData r')
     = take (Z.to_nat (workCount r)) (workData r)
       ++ take (Z.to_nat (workCount otherRow)) (workData otherRow)
  /\ workTheta r' = F64.min (workTheta r) (workTheta otherRow).
Proof.
  intros Hwc Hoc Hcap. cbn zeta.
  destruct (copy_into_spec (workData otherRow) (workData r)
              (workCount otherRow) (workCount r) (0, 0%float)
              ltac:(lia) Hwc Hcap) as [Hl Hv].
  cbn zeta in Hl, Hv.
  unfold chooseJoinpack. cbv zeta.
  cbn [workCount workData workTheta set_workTheta set_workCount set_workData].
  split; [reflexivity|]. split; [|reflexivity].
  rewrite Z2Nat.inj_add by (clear Hl Hv; lia).
  apply (take_app_zget _ _ _ _ _ (0, 0%float)); try lia.
  - intros j Hj. rewrite Hv. rewrite bool_decide_eq_false_2 by lia.
    reflexivity.
  - intros j Hj. rewrite Hv. rewrite bool_decide_eq_true_2 by lia.
    f_equal. lia.
Qed.

(** X24: in binary64, joining two slices on which [choosePossible] has
    run gives the candidates of the first slice followed by those of
    the second, each in the order of its packed row, and the
    [workTheta] that [std::min] picks from the two slices: +infinity
    when neither slice has a candidate, and otherwise +infinity or the
    ratio [relax / alpha] of a candidate of one of the slices. *)
Theorem chooseJoinpack_of_choosePossible (r other : HEkkDualRow) :
  0 <= packCount r ->
  0 <= packCount other <= Z.of_nat (length (workData other)) ->
  packCount r + packCount other <= Z.of_nat (length (workData r)) ->
  let r' := chooseJoinpack (choosePossible other) (choosePossible r) in
  workCount r'
  = Z.of_nat (length (candidates r)) + Z.of_nat (length (candidates other))
  /\ take (Z.to_nat (workCount r')) (workData r')
     = map (candidate_entry r) (candidates r)
       ++ map (candidate_entry other) (candidates other)
  /\ workTheta r'
     = F64.min (theta_after r kHighsInf (candidates r))
         (theta_after other kHighsInf (candidates other))
  /\ (candidates r = [] -> candidates other = [] -> workTheta r' = kHighsInf)
  /\ (workTheta r' = kHighsInf
      \/ (exists i, In i (candidates r) /\ workTheta r' = ratio_of r i)
      \/ (exists i, In i (candidates other)
                    /\ workTheta r' = ratio_of other i)).
Proof.
  intros Hpc Hoc Hcap. cbn zeta.
  destruct (choosePossible_binary64 r ltac:(lia))
    as (_ & Hlen & Hcount & Htake & Htheta).
  destruct (choosePossible_binary64 other Hoc)
    as (_ & Hlen' & Hcount' & Htake' & Htheta').
  pose proof (candidates_upto_bound r (Z.to_nat (packCount r))) as Hn.
  pose proof (candidates_upto_bound other (Z.to_nat (packCount other))) as Hn'.
  change (candidates_upto r (Z.to_nat (packCount r))) with (candidates r) in *.
  change (candidates_upto other (Z.to_nat (packCount other)))
    with (candidates other) in *.
  destruct (chooseJoinpack_binary64 (choosePossible other) (choosePossible r))
    as (Ec & Et & Em); [lia|lia|lia|].
  cbn zeta in Ec, Et, Em.
  split; [lia|]. split; [|split; [|split]].
  - rewrite Et, Hcount, Hcount', !Nat2Z.id, Htake, Htake'. reflexivity.
  - rewrite Em, Htheta, Htheta'. reflexivity.
  - intros E E'. rewrite Em, Htheta, Htheta', E, E'. reflexivity.
  - rewrite Em, Htheta, Htheta'. unfold F64.min.
    destruct (_ <? _)%float.
    + destruct (theta_after_shape other (candidates other) kHighsInf)
        as [E|H]; [left; exact E|right; right; exact H].
    + destruct (theta_after_shape r (candidates r) kHighsInf)
        as [E|H]; [left; exact E|right; left; exact H].
Qed.

End JoinBinary64.


Lemma chooseMakepack_appends_witness :
  HEkkDualRow.packCount Examples.slice_b = 2
  /\ HEkkDualRow.at_Z (HEkkDualRow.packIndex Examples.slice_b) 1 = 2
  /\ HEkkDualRow.at_D (HEkkDualRow.packValue Examples.slice_b) 1 = Dbl.lit 2.
Proof.
  destruct (chooseMakepack_appends Examples.row_ep 0
              (HEkkDualRow.clear (Examples.flat_row 3)))
    as (Hc & _ & Hnew & _).
  - cbn. lia.
  - cbn. lia.
  - cbn. lia.
  - cbn. lia.
  - split; [exact Hc|]. exact (Hnew 1 ltac:(cbn; lia)).
Defined.

Lemma chooseJoinpack_concatenates_witness :
  HEkkDualRow.workCount
    (HEkkDualRow.chooseJoinpack Examples.candidates_3 (Examples.flat_row 3))
  = 3
  /\ HEkkDualRow.workTheta
       (HEkkDualRow.chooseJoinpack Examples.candidates_3 (Examples.flat_row 3))
     = Dbl.zero.
Proof.
  destruct (chooseJoinpack_concatenates Examples.candidates_3
              (Examples.flat_row 3))
    as (Hc & _).
  - cbn. lia.
  - vm_compute. split; discriminate.
  - vm_compute. discriminate.
  - split; [exact Hc|]. vm_compute. reflexivity.
Defined.

Lemma chooseJoinpack_of_choosePossible_witness :
  Binary64.HEkkDualRow.workCount
    (Binary64.HEkkDualRow.chooseJoinpack
       (Binary64.HEkkDualRow.choosePossible Examples.row_unit)
       (Binary64.HEkkDualRow.choosePossible Examples.row_wide))
  = 3
  /\ Binary64.HEkkDualRow.workTheta
       (Binary64.HEkkDualRow.chooseJoinpack
          (Binary64.HEkkDualRow.choosePossible Examples.row_unit)
          (Binary64.HEkkDualRow.choosePossible Examples.row_wide))
     = Binary64.HEkkDualRow.ratio_of Examples.row_unit 0.
Proof.
  destruct (chooseJoinpack_of_choosePossible Examples.row_wide
              Examples.row_unit) as (Hc & _ & Ht & _).
  - vm_compute. discriminate.
  - vm_compute. split; discriminate.
  - vm_compute. discriminate.
  - split; [rewrite Hc; vm_compute; reflexivity|].
    rewrite Ht. vm_compute. reflexivity.
Defined.

(** ** HEkkDualRow: the list of free columns *)

Section FreeList.

Import HEkkDualRow.

(** X26: [createFreelist] collects exactly the indices [i] below
    [num_col_ + num_row_] whose [nonbasicFlag_] is set and whose working
    bounds are (-infinity, +infinity); [deleteFreelist(iColumn)]
    removes [iColumn] from the set and nothing else. *)
Theorem freeList_members (nonbasicFlag_ : list Z)
    (workLower_ workUpper_ : list double) (r : HEkkDualRow) (i iColumn : Z) :
  let freeList := createFreelist nonbasicFlag_ workLower_ workUpper_ r in
  (i ∈ freeList <->
   0 <= i < num_tot r /\ at_Z nonbasicFlag_ i <> 0
   /\ at_D workLower_ i = Dbl.NInf /\ at_D workUpper_ i = Dbl.PInf)
  /\ (i ∈ deleteFreelist iColumn freeList <-> i ∈ freeList /\ i <> iColumn).
Proof.
  cbn zeta. split.
  - unfold createFreelist. cbv zeta.
    destruct (decide (0 <= num_tot r)) as [Hn|Hn].
    2:{ rewrite for_z_empty by lia. split; [set_solver|]. lia. }
    set (P := fun (k : Z) (F : gset Z) =>
                forall i, i ∈ F <->
                  0 <= i < k /\ at_Z nonbasicFlag_ i <> 0
                  /\ at_D workLower_ i = Dbl.NInf
                  /\ at_D workUpper_ i = Dbl.PInf).
    match goal with |- context [for_z 0 ?n ?b ?s] =>
      assert (H : P n (for_z 0 n b s)) end.
    { apply (for_z_ind P); unfold P; [exact Hn| |].
      - intros j. split; [set_solver|]. lia.
      - intros k F Hk HF j.
        destruct (negb (at_Z nonbasicFlag_ k =? 0)
                  && HighsUtils.highs_isInfinity (- at_D workLower_ k)%D
                  && HighsUtils.highs_isInfinity (at_D workUpper_ k)) eqn:E.
        + apply andb_prop in E. destruct E as [E E3].
          apply andb_prop in E. destruct E as [E1 E2].
          apply negb_true_iff, Z.eqb_neq in E1.
          apply highs_isInfinity_neg in E2. apply highs_isInfinity_pos in E3.
          rewrite elem_of_union, elem_of_singleton, HF. split.
          * intros [->|H]; [repeat split; (lia || assumption)|].
            destruct H as (H1 & H2). split; [lia|exact H2].
          * intros (H1 & H2). destruct (decide (j = k)) as [->|Hne];
              [left; reflexivity|right]. split; [lia|exact H2].
        + rewrite HF. split.
          * intros (H1 & H2). split; [lia|exact H2].
          * intros (H1 & H2 & H3 & H4).
            destruct (decide (j = k)) as [->|Hne]; [|split; [lia|auto]].
            exfalso.
            apply highs_isInfinity_neg in H3. apply highs_isInfinity_pos in H4.
            rewrite H3, H4 in E.
            apply Z.eqb_neq in H2. rewrite H2 in E. discriminate E. }
    apply H.
  - unfold deleteFreelist.
    split.
    + intros H. repeat case_bool_decide; cbn [negb] in H; set_solver.
    + intros [H Hne]. repeat case_bool_decide; cbn [negb]; set_solver.
Qed.

Lemma zero_moves_spec (num_col_ : Z) (l : list Z) (moves : list Z) :
  (forall i, i ∈ l -> i < num_col_) ->
  exists moves',
    foldl
      (fun (moves : option (list Z)) iCol =>
         match moves with
         | None => None
         | Some moves =>
             if bool_decide (iCol < num_col_)
             then Some (zset moves iCol 0)
             else None
         end)
      (Some moves) l = Some moves'
    /\ length moves' = length moves
    /\ forall i, zget moves' i 0
         = if bool_decide (i ∈ l) then 0 else zget moves i 0.
Proof.
  revert moves. induction l as [|x l IH]; intros moves Hl.
  - exists moves. split; [reflexivity|]. split; [reflexivity|].
    intros i. rewrite bool_decide_eq_false_2 by (apply not_elem_of_nil).
    reflexivity.
  - cbn [foldl]. rewrite bool_decide_eq_true_2 by (apply Hl; left).
    destruct (IH (zset moves x 0)) as (m' & E & Hlen & Hv).
    { intros i Hi. apply Hl. right. exact Hi. }
    exists m'. split; [exact E|]. split; [rewrite Hlen; apply length_zset|].
    intros i. rewrite Hv. rewrite zget_zset.
    destruct (decide (i ∈ l)) as [Hin|Hnin].
    + rewrite bool_decide_eq_true_2 by exact Hin.
      rewrite bool_decide_eq_true_2 by (right; exact Hin). reflexivity.
    + rewrite (bool_decide_eq_false_2 (i ∈ l)) by exact Hnin.
      destruct (decide (i = x)) as [->|Hne].
      * rewrite (bool_decide_eq_true_2 (x ∈ x :: l)) by left.
        case_bool_decide; [reflexivity|].
        unfold zget. case_bool_decide as H0; [|reflexivity].
        rewrite nth_overflow; [reflexivity|]. lia.
      * rewrite bool_decide_eq_false_2 by (intros [? _]; congruence).
        rewrite bool_decide_eq_false_2; [reflexivity|].
        rewrite elem_of_cons. intros [?|?]; [congruence|contradiction].
Qed.

Lemma zero_moves_fails (num_col_ : Z) (l : list Z) (moves : option (list Z)) :
  (exists i, i ∈ l /\ num_col_ <= i) ->
  foldl
    (fun (moves : option (list Z)) iCol =>
       match moves with
       | None => None
       | Some moves =>
           if bool_decide (iCol < num_col_)
           then Some (zset moves iCol 0)
           else None
       end)
    moves l = None.
Proof.
  revert moves. induction l as [|x l IH]; intros moves (i & Hi & Hge).
  - apply elem_of_nil in Hi. destruct Hi.
  - cbn [foldl]. apply elem_of_cons in Hi. destruct Hi as [->|Hi].
    + destruct moves as [m|].
      * rewrite bool_decide_eq_false_2 by lia.
        clear. induction l as [|y l IH]; [reflexivity|exact IH].
      * clear. induction l as [|y l IH]; [reflexivity|exact IH].
    + apply IH. exists i. split; assumption.
Qed.

(** X27: when every member of [freeList] is below [num_col_],
    [deleteFreemove] sets the move of every member to 0 and changes no
    other move and no other member of the dual row; when some member is
    not below [num_col_] the assertion of the loop fails. *)
Theorem deleteFreemove_zeroes_free_moves (num_col_ : Z) (freeList : gset Z)
    (r : HEkkDualRow) :
  ((forall i, i ∈ freeList -> i < num_col_) ->
   exists r',
     deleteFreemove num_col_ freeList r = Some r'
     /\ r' = set_workMove (workMove r') r
     /\ length (workMove r') = length (workMove r)
     /\ forall i, at_Z (workMove r') i
          = if bool_decide (i ∈ freeList) then 0 else at_Z (workMove r) i)
  /\ ((exists i, i ∈ freeList /\ num_col_ <= i) ->
      deleteFreemove num_col_ freeList r = None).
Proof.
  split.
  - intros Hall. unfold deleteFreemove.
    case_bool_decide as He; cbn [negb].
    + exists r. split; [reflexivity|]. split; [destruct r; reflexivity|].
      split; [reflexivity|]. intros i.
      rewrite bool_decide_eq_false_2 by set_solver. reflexivity.
    + destruct (zero_moves_spec num_col_ (elements freeList) (workMove r))
        as (m' & E & Hlen & Hv).
      { intros i Hi. apply Hall, elem_of_elements, Hi. }
      rewrite E. exists (set_workMove m' r).
      split; [reflexivity|]. split; [destruct r; reflexivity|].
      split; [destruct r; exact Hlen|].
      intros i. replace (workMove (set_workMove m' r)) with m'
        by (destruct r; reflexivity).
      unfold at_Z. rewrite Hv.
      destruct (decide (i ∈ freeList)) as [Hin|Hnin].
      * rewrite (bool_decide_eq_true_2 (i ∈ elements freeList))
          by (apply elem_of_elements; exact Hin).
        rewrite bool_decide_eq_true_2 by exact Hin. reflexivity.
      * rewrite (bool_decide_eq_false_2 (i ∈ elements freeList)).
        2:{ intros H. apply Hnin. apply elem_of_elements, H. }
        rewrite bool_decide_eq_false_2 by exact Hnin. reflexivity.
  - intros (i & Hi & Hge). unfold deleteFreemove.
    rewrite bool_decide_eq_false_2 by set_solver. cbn [negb].
    rewrite zero_moves_fails; [reflexivity|].
    exists i. split; [|exact Hge].
    apply elem_of_elements, Hi.
Qed.

End FreeList.

Lemma deleteFreemove_zeroes_free_moves_witness :
  (forall i : Z, i ∈ ({[0]} ∪ {[2]} : gset Z) -> i < 3)
  /\ exists r',
       HEkkDualRow.deleteFreemove 3 ({[0]} ∪ {[2]}) (Examples.flat_row 3)
       = Some r'
       /\ HEkkDualRow.at_Z (HEkkDualRow.workMove r') 2 = 0
       /\ HEkkDualRow.at_Z (HEkkDualRow.workMove r') 1 = 1.
Proof.
  assert (H : forall i : Z, i ∈ ({[0]} ∪ {[2]} : gset Z) -> i < 3).
  { intros i Hi. apply elem_of_union in Hi.
    destruct Hi as [Hi|Hi]; apply elem_of_singleton in Hi; lia. }
  destruct (deleteFreemove_zeroes_free_moves 3 ({[0]} ∪ {[2]})
              (Examples.flat_row 3)) as (Hok & _).
  destruct (Hok H) as (r' & E & _ & _ & Hv).
  split; [exact H|]. exists r'. split; [exact E|]. split.
  - rewrite Hv. rewrite bool_decide_eq_true_2; [reflexivity|].
    apply elem_of_union. right. apply elem_of_singleton. reflexivity.
  - rewrite Hv. rewrite bool_decide_eq_false_2; [reflexivity|].
    intros Hi. apply elem_of_union in Hi.
    destruct Hi as [Hi|Hi]; apply elem_of_singleton in Hi; lia.
Defined.

(** ** HEkkDualRow::computeDevexWeight *)

Section DevexWeight.

Import Binary64.HEkkDualRow.

(** X28: in binary64, when none of the products
    [work_devex_index[vr_n] * packValue[el_n]] formed for the packed
    entries of nonbasic variables is NaN, [computeDevexWeight] leaves a
    weight that is not NaN and not negative (+infinity when a square or
    the sum overflows); the weight is 0 when every such product is
    zero. *)
Theorem computeDevexWeight_nonnegative (nonbasicFlag_ work_devex_index : list Z)
    (r : HEkkDualRow) :
  (forall el_n, 0 <= el_n < packCount r ->
     at_Z nonbasicFlag_ (at_Z (packIndex r) el_n) <> 0 ->
     (devex_term work_devex_index r el_n
      =? devex_term work_devex_index r el_n)%float = true) ->
  F64.nonneg (computeDevexWeight nonbasicFlag_ work_devex_index r)
  /\ ((forall el_n, 0 <= el_n < packCount r ->
         at_Z nonbasicFlag_ (at_Z (packIndex r) el_n) <> 0 ->
         (devex_term work_devex_index r el_n =? 0)%float = true) ->
      computeDevexWeight nonbasicFlag_ work_devex_index r = 0%float).
Proof.
  intros Hnum. unfold computeDevexWeight. cbv zeta.
  destruct (decide (0 <= packCount r)) as [Hn|Hn].
  2:{ rewrite for_z_empty by lia. split; [apply nonneg_zero|reflexivity]. }
  set (P := fun (k : Z) (acc : float) =>
              F64.nonneg acc
              /\ ((forall el_n, 0 <= el_n < k ->
                     at_Z nonbasicFlag_ (at_Z (packIndex r) el_n) <> 0 ->
                     (devex_term work_devex_index r el_n =? 0)%float = true) ->
                  acc = 0%float)).
  match goal with |- context [for_z 0 ?n ?b ?s] =>
    assert (H : P n (for_z 0 n b s)) end.
  { apply (for_z_ind P); unfold P; [exact Hn| |].
    - split; [apply nonneg_zero|reflexivity].
    - intros k acc Hk [Hacc Hz].
      destruct (at_Z nonbasicFlag_ (at_Z (packIndex r) k) =? 0) eqn:Ef.
      + split; [exact Hacc|]. intros Hall. apply Hz.
        intros el Hel. apply Hall. lia.
      + apply Z.eqb_neq in Ef.
        fold (devex_term work_devex_index r k). unfold F64.neb.
        destruct (devex_term work_devex_index r k =? 0)%float eqn:E0;
          cbn [negb].
        * split; [exact Hacc|]. intros Hall. apply Hz.
          intros el Hel. apply Hall. lia.
        * split.
          -- apply nonneg_add; [exact Hacc|].
             apply nonneg_square, Hnum; [lia|exact Ef].
          -- intros Hall. rewrite (Hall k ltac:(lia) Ef) in E0.
             discriminate E0. }
  exact H.
Qed.

End DevexWeight.

Lemma computeDevexWeight_nonnegative_witness :
  F64.nonneg
    (Binary64.HEkkDualRow.computeDevexWeight [1; 1] [1; 2] Examples.row_ulp)
  /\ Binary64.HEkkDualRow.computeDevexWeight [1; 1] [1; 2] Examples.row_ulp
     = 37%float
  /\ Binary64.HEkkDualRow.computeDevexWeight [1; 1] [0; 0] Examples.row_ulp
     = 0%float.
Proof.
  destruct (computeDevexWeight_nonnegative [1; 1] [1; 2] Examples.row_ulp)
    as [Hn _].
  - intros i Hi _. cbn in Hi.
    assert (i = 0 \/ i = 1) as [->| ->] by lia; vm_compute; reflexivity.
  - destruct (computeDevexWeight_nonnegative [1; 1] [0; 0] Examples.row_ulp)
      as [_ Hz].
    + intros i Hi _. cbn in Hi.
      assert (i = 0 \/ i = 1) as [->| ->] by lia; vm_compute; reflexivity.
    + split; [exact Hn|]. split; [vm_compute; reflexivity|].
      apply Hz. intros i Hi _. cbn in Hi.
      assert (i = 0 \/ i = 1) as [->| ->] by lia; vm_compute; reflexivity.
Defined.

(** ** negateReducedLpColDuals and checkOptions *)

Section Presolve.

Import PresolveComponent.

(** X29: [negateReducedLpColDuals] negates the first [numCol_] column
    duals and leaves the length of the array and its later cells as
    they were; calling it twice restores the array, whatever the
    argument [reduced] of the two calls. *)
Theorem negateReducedLpColDuals_involution (reduced reduced' : bool)
    (numCol_ : Z) (col_dual : list double) :
  let negated := negateReducedLpColDuals reduced numCol_ col_dual in
  length negated = length col_dual
  /\ (forall col,
        zget negated col Dbl.zero
        = if bool_decide (0 <= col < numCol_
                          /\ 0 <= col < Z.of_nat (length col_dual))
          then (- zget col_dual col Dbl.zero)%D
          else zget col_dual col Dbl.zero)
  /\ negateReducedLpColDuals reduced' numCol_ negated = col_dual.
Proof.
  cbn zeta. unfold negateReducedLpColDuals.
  destruct (entry_loop (fun _ x => (- x)%D) Dbl.zero 0 numCol_ col_dual)
    as [Hl Hv]. cbn zeta in Hl, Hv.
  split; [exact Hl|]. split; [exact Hv|].
  set (negated := for_z 0 numCol_ _ col_dual) in *.
  destruct (entry_loop (fun _ x => (- x)%D) Dbl.zero 0 numCol_ negated)
    as [Hl2 Hv2]. cbn zeta in Hl2, Hv2.
  apply (nth_ext _ _ Dbl.zero Dbl.zero); [congruence|].
  intros n Hn.
  assert (Hz : forall (m : list double) (k : nat),
             nth k m Dbl.zero = zget m (Z.of_nat k) Dbl.zero).
  { intros m k. unfold zget. rewrite bool_decide_eq_true_2 by lia.
    rewrite Nat2Z.id. reflexivity. }
  rewrite !Hz, Hv2, Hv, Hl.
  case_bool_decide; [|reflexivity].
  destruct (zget col_dual (Z.of_nat n) Dbl.zero) as [| |q|]; cbn;
    try reflexivity.
  f_equal. ring.
Qed.

(** X30: [checkOptions] returns [true] exactly when the iteration
    strategy is "smart" or "off", or it is "num_limit" with an
    iteration limit that is not negative; nothing is printed when [dev]
    is off, an accepted record prints only the opening message, and the
    result does not depend on [dev]. *)
Theorem checkOptions_accepts (options : PresolveComponentOptions) :
  (fst (checkOptions options) = true <->
   iteration_strategy options = "smart"%string
   \/ iteration_strategy options = "off"%string
   \/ (iteration_strategy options = "num_limit"%string
       /\ 0 <= max_iterations options))
  /\ (dev options = false -> snd (checkOptions options) = EmptyString)
  /\ (fst (checkOptions options) = true ->
      snd (checkOptions options)
      = if dev options then "Checking presolve options... "%string
        else EmptyString)
  /\ fst (checkOptions
            (mkOptions (negb (dev options)) (iteration_strategy options)
               (max_iterations options)))
     = fst (checkOptions options).
Proof.
  unfold checkOptions. cbv zeta. cbn [dev iteration_strategy max_iterations].
  destruct (String.eqb (iteration_strategy options) "smart") eqn:E1.
  { apply String.eqb_eq in E1. rewrite E1. cbn [String.eqb Ascii.eqb Bool.eqb orb negb andb fst snd].
    repeat split; auto. destruct (dev options); intros; [discriminate|reflexivity]. }
  destruct (String.eqb (iteration_strategy options) "off") eqn:E2.
  { apply String.eqb_eq in E2. rewrite E2. cbn [String.eqb Ascii.eqb Bool.eqb orb negb andb fst snd].
    repeat split; auto. destruct (dev options); intros; [discriminate|reflexivity]. }
  destruct (String.eqb (iteration_strategy options) "num_limit") eqn:E3.
  - cbn [orb negb andb]. apply String.eqb_eq in E3.
    apply String.eqb_neq in E1, E2.
    case_bool_decide as Hm; cbn [fst snd].
    + split; [|split; [|split]].
      * split; [discriminate|]. intros [?|[?|[_ ?]]]; [congruence|congruence|lia].
      * intros ->. reflexivity.
      * discriminate.
      * reflexivity.
    + split; [|split; [|split]]; auto.
      * split; auto. intros _. right. right. split; [exact E3|lia].
      * intros ->. reflexivity.
  - cbn [orb negb fst snd]. apply String.eqb_neq in E1, E2, E3.
    split; [|split; [|split]].
    + split; [discriminate|]. intros [?|[?|[? _]]]; congruence.
    + intros ->. reflexivity.
    + discriminate.
    + reflexivity.
Qed.

End Presolve.
